(* ===== verification/_CoqProject ===== *)
-Q . S2P
Prelude.v
GoLang.v
Api.v
Effects.v
Externals.v
Objects.v
Params.v
VolumeGroups.v
Volumes.v
Finalizers.v
Driver.v
VolumeGroupContents.v
Membership.v
Predicates.v
VGController.v
VGCController.v
Histories.v
Cluster.v
Scenario.v
VGSafety.v
VGCSafety.v
ClaimDeletion.v
VGCProgress.v
VGProgress.v
Utilities.v
Retries.v
MembershipProofs.v
Matching.v
Heap.v
DeepCopy.v
Startup.v
Ownership.v
System.v
WellFormed.v
Envtest.v
MockServer.v
Faultless.v
GroupFaultless.v
Release.v
Quiet.v
Settle.v
Joins.v
MemberRuns.v
Provision.v
Handover.v
Following.v
Unbound.v
