(* ===== verification/Prelude.v ===== *)
(** * Verification of the CSI volume group operator

    The operator keeps groups of volumes of a CSI driver in line with three
    custom resources.  A VolumeGroup is the user's request; a
    VolumeGroupContent stands for the group at the driver; a VolumeGroupClass
    names the driver and its parameters.  Two controllers share the work:

    - the VolumeGroup controller ([controllers/volumegroup_controller.go])
      creates a content for a VolumeGroup, waits until it is ready, binds the
      two, and keeps the members of the group equal to the claims that match
      the selector of the VolumeGroup; on deletion it deletes the content;
    - the VolumeGroupContent controller
      ([controllers/volumegroupcontent/volumegroupcontent_controller.go]) asks
      the driver for the group, records its handle and marks the content ready;
      on deletion it waits for the VolumeGroup to be gone, deletes the claims of
      the group (if configured), deletes the group at the driver (if the policy
      says so) and lets the content go.

    They never call each other: they meet in the objects of the API server, and
    what keeps a group from being lost is the protocol of finalizers.

    ** How the program is modelled

    A Go function that talks to the outside is a program of [Effects]: a tree of
    calls (to the API server, the driver, the clock, the random source) that
    ends in a return or a panic.  The answers are arbitrary: a theorem about the
    executions of a program holds for every behaviour of the server and of the
    driver, errors, conflicts and stale objects included, unless it says what it
    assumes of the answers.  A pointer is an [option] and a nil dereference is a
    panic; an operation that may change an object it is given by pointer returns
    the object as its caller finds it.  Every read answers a copy.  Where the
    code depends on the sharing of an array (the loop that deletes claims), the
    slice and its array are modelled ([GoLang.slice]).  A deep copy is the
    identity on these values, as [DeepCopy] shows of the generated code.  A Go
    map is ranged over in an order the world chooses.  Functions of other
    packages (error classification, label selectors, [cmp.Diff], the retry) are
    the parameters [Externals], what is documented of them is [ExternalLaws],
    and [Externals.DocExternals] is an instance that satisfies the laws.  Log
    messages are left out; a timeout is an error answer.

    ** The files, in their order

    - [Prelude]: lemmas on lists the components share; [GoLang]: the part of
      the standard library in use ([fmt], [reflect], slices); [Api]: the types
      of [api/v1], the fields used of the Kubernetes types, constants, errors
      and messages; [Effects]: programs, executions, the three logics ([wp] with
      histories, [triple], [along]) and their automation; [Externals].
    - [Objects] ([controllers/utils/utils.go], [event.go], part of
      [controller_utils.go] and [handle_messages.go],
      [common/utils/strings.go]), [Params] ([parameters.go], [secret.go],
      [volumegroupclass.go], [storageclass.go], [labels.go]), [VolumeGroups]
      ([volumegroup.go]), [Volumes] ([persistentvolume.go],
      [persistentvolumeclaim.go]), [Finalizers] ([finalizers.go]), [Driver]
      ([controllers/volumegroup], [pkg/client/volumegroup_client.go]),
      [VolumeGroupContents] ([volumegroupcontent.go]), [Membership]
      ([modify_volumegroup.go], part of [controller_utils.go]), [Predicates]
      ([predicate.go]): one definition per Go function, under its name, each
      followed by the instance of [Effects.Spec] that lists its calls and its
      outcomes; callers are verified against the instance, not the body.
    - [VGController] and [VGCController]: the two controllers, [Reconcile] and
      every handler.
    - [Histories]: how a history of calls is read, and what the history of each
      shared operation tells.
    - [Cluster], [Scenario]: an executable server, driver and life cycle, on
      which witnesses are computed.
    - [VGSafety], [VGCSafety]: for every call of a [Reconcile] that creates,
      deletes, releases or changes something, what the run had seen before it.
    - [ClaimDeletion]: the loop over the volumes of a content; it skips every
      second one.
    - [VGProgress], [VGCProgress]: when a [Reconcile] cannot panic, and what has
      been done when it reports success.  [Faultless], [GroupFaultless],
      [Release]: a run of either controller to which no call fails succeeds, on a
      living object and on one being deleted.  [Unbound]: a VolumeGroup deleted
      before its content was ready is let go without its content, which stays.
    - [Quiet]: runs on a server of its own, from any state and with nobody else
      writing: a logic whose interface ([Like], [Accepts]) asks of a server that
      it serve calls as [Cluster] does, but for events and for the identifiers and
      attributes of groups, which the driver chooses.  [Settle]: one run of the
      content controller makes a group or releases it, under either policy.
      [Joins]: when a claim may join a group, in both modes of
      [MultipleVGsToPVC].  [MemberRuns], [Provision]: the runs of the VolumeGroup
      controller, whose members are the claims of a declarative description.
      [Handover]: the two controllers in turn, from a new VolumeGroup to its group
      and members, and from its deletion to nothing left but, when claims are
      kept, the operator's finalizer on them.  [Following]: a bound VolumeGroup
      follows the claims: after one run the members are those that match now, for
      the VolumeGroup, its content, the driver and the finalizers of the claims.
      What these theorems ask of the cluster is in records of their own
      ([class_there], [claims_there], [joins], [disposable], [newcomer], [doomed],
      [in_force], [volumes_there]), which constrain only the claims that the
      VolumeGroup lists or selects, but for the storage classes of bound claims and
      the classes of the VolumeGroups, which the code reads of all.
    - [Envtest]: the objects and utilities of the test suite, its doubles of the
      driver, its scenarios run on [Cluster] with the mock server for a driver, as
      the suite runs them, and what a run does when a driver reports a group
      without answering with it.
    - [MockServer] ([tests/mock_grpc_server], [pkg/client/fake/client.go]): the
      mock server of the suite, its goroutine and the thread that starts and
      stops it, in every order of their steps.
    - [Utilities], [Retries], [MembershipProofs], [Matching]: the shared
      operations: parameters, lists, requests, the wait for the CRDs, repeated
      updates, what the driver is told, which claims match.
    - [Heap] and [DeepCopy]: the types of [api/v1] as they lie in memory, with
      pointers, maps and slices, and the methods of [zz_generated.deepcopy.go]
      on them.  A copy reads the same and shares no cell with its original.
    - [Startup]: the command line, the steps of [main], the registration of the
      watches and the client that each controller is given for the driver
      ([main.go], [pkg/config], [pkg/client/client.go], [SetupWithManager]).
    - [Ownership] and [System]: the two controllers, users and other clients on
      one server with optimistic concurrency, as a step relation in which a run
      may stop at any call and an answer may be lost.  Every reachable state
      keeps the operator's finalizer on each content that may have a group at
      the driver, until the driver confirms its deletion or a run that has read
      another policy than Delete lets it go, and every step is one of an abstract
      specification of holding, making and letting go.  [WellFormed]: contents
      stay complete, and what is left to explain a panic.

    ** Bounds

    Only two recursions of the operator's model have fuel.
    [VGController.waitForVGResource] loops until a kind is known, without a bound
    in the code: its fuel is the number of rounds, and
    [Utilities.waitForCrds_outcome] says that the fuel runs out only after that many answers that the kind is unknown.
    [VolumeGroupContents.DeletePVCsUnderVGC_loop] counts the rounds that the
    code fixes before the first one (the length of the list), and
    [ClaimDeletion.DeletePVCsUnderVGC_total] shows that it never leaves its
    array.  The number of retries after a conflict is a parameter of
    [ExternalLaws]; the theorems hold for each.  [MockServer.explore] follows
    every interleaving of two threads for forty steps;
    [MockServer.mock_server_life] says that no run is longer.

    ** Assumptions of [System]

    Reads are answered from the server (controller-runtime reads from a cache,
    which may be stale); each controller runs one reconciliation at a time (its
    default); other clients do not take the operator's finalizer off; a driver
    refuses to delete a group without an identifier.  [WellFormed] assumes in
    addition that the contents other clients create or update have a class name,
    a deletion policy and a source, which are optional in the API.

    ** Not modelled, and why

    The registration of types in a scheme ([groupversion_info.go], [init]): it
    has no behaviour of its own.  The set-up and clean-up of the test suite;
    manifests.  The libraries: manager, event sources, gRPC connection, the flags
    of the logger and the text of durations are parameters of [Startup], the gRPC
    server, the network and the file system of [MockServer].

    ** Plan

    Next: what [Following] says of one controller at rest as an invariant of
    [System], where others write at the same time. *)

From stdpp Require Export base tactics decidable list strings gmap fin_maps sorting.
From Stdlib Require Export Lia.


(** ** Lists *)

(** The loop [for index, y := range l { if P y { return index } }]: stdpp's
    [list_find] with the element dropped. *)
Definition index_of {A} (p : A → bool) (l : list A) : option nat :=
  fst <$> list_find (λ y, p y = true) l.

(** [append(l[:i], l[i+1:]...)] seen as a value. *)
Definition remove_at {A} (i : nat) (l : list A) : list A :=
  take i l ++ drop (S i) l.

Section Lists.
Context {A : Type}.
Implicit Types (l : list A) (p : A → bool).

Lemma existsb_elem p l : existsb p l = true ↔ ∃ x, x ∈ l ∧ p x = true.
Proof.
  rewrite existsb_exists. split; intros (x & Hx & Hp); exists x;
    (split; [by apply list_elem_of_In|done]).
Qed.

Lemma existsb_not_elem p l : existsb p l = false ↔ ∀ x, x ∈ l → p x = false.
Proof.
  rewrite <- not_true_iff_false, existsb_elem. split.
  - intros Hn x Hx. destruct (p x) eqn:E; [|done]. exfalso. eauto.
  - intros Hn (x & Hx & Hp). rewrite Hn in Hp; done.
Qed.

Lemma index_of_Some p l i :
  index_of p l = Some i ↔
  (∃ x, l !! i = Some x ∧ p x = true) ∧
  ∀ j y, l !! j = Some y → j < i → p y = false.
Proof.
  unfold index_of. rewrite fmap_Some. split.
  - intros ([j x] & Hf & ->). apply list_find_Some in Hf as (Hl & Hp & Hj).
    simpl. split; [by eauto|]. intros k y Hy Hk.
    apply not_true_iff_false. by eapply Hj.
  - intros ((x & Hl & Hp) & Hj). exists (i, x). split; [|done].
    apply list_find_Some. repeat split; try done. intros k y Hy Hk.
    apply not_true_iff_false. by eapply Hj.
Qed.

Lemma index_of_None p l :
  index_of p l = None ↔ ∀ x, x ∈ l → p x = false.
Proof.
  unfold index_of. rewrite fmap_None, list_find_None, Forall_forall.
  split; intros Hf x Hx; apply not_true_iff_false; eauto.
Qed.

Lemma remove_at_split l i x :
  l !! i = Some x → ∃ l1 l2, l = l1 ++ x :: l2 ∧ length l1 = i ∧ remove_at i l = l1 ++ l2.
Proof.
  intros Hx. exists (take i l), (drop (S i) l).
  assert (i < length l) by (by eapply lookup_lt_Some).
  rewrite take_drop_middle by done. repeat split.
  rewrite length_take. lia.
Qed.

Lemma elem_of_remove_at l i x : x ∈ remove_at i l → x ∈ l.
Proof.
  unfold remove_at. rewrite elem_of_app.
  intros [(j & Hj)%list_elem_of_lookup|(j & Hj)%list_elem_of_lookup].
  - apply lookup_take_Some in Hj as [Hj _]. by eapply list_elem_of_lookup_2.
  - rewrite lookup_drop in Hj. by eapply list_elem_of_lookup_2.
Qed.
End Lists.

(** ** Maps as lists in an arbitrary order

    Go iterates over a map in an unspecified order.  [arrange r l] orders [l]
    by the numbers [r]: each step takes the element at position [r_i] modulo
    the length of what is left. *)
Fixpoint arrange {A} (r : list nat) (l : list A) : list A :=
  match r with
  | [] => l
  | n :: r' =>
      match l with
      | [] => []
      | _ => match l !! (n mod length l) with
             | Some x => x :: arrange r' (remove_at (n mod length l) l)
             | None => l
             end
      end
  end.

Lemma remove_at_Permutation {A} (l : list A) i x :
  l !! i = Some x → x :: remove_at i l ≡ₚ l.
Proof.
  intros Hx. destruct (remove_at_split l i x Hx) as (l1 & l2 & -> & _ & ->).
  apply Permutation_middle.
Qed.

Lemma arrange_Permutation {A} (r : list nat) (l : list A) : arrange r l ≡ₚ l.
Proof.
  revert l. induction r as [|n r IH]; intros l; simpl; [done|].
  destruct l as [|y l]; [done|].
  destruct ((y :: l) !! (n mod length (y :: l))) as [x|] eqn:E; [|done].
  rewrite IH. by apply remove_at_Permutation.
Qed.

(** Every order is reached by some choice of numbers. *)
Lemma arrange_complete {A} (l l' : list A) : l ≡ₚ l' → ∃ r, arrange r l = l'.
Proof.
  revert l. induction l' as [|x l' IH]; intros l Hp.
  - exists []. by apply Permutation_nil_r in Hp as ->.
  - destruct (elem_of_Permutation l x) as [[l2 Hl2] _].
    { rewrite Hp. by left. }
    assert (∃ i, l !! i = Some x) as [i Hi].
    { apply list_elem_of_lookup. rewrite Hp. by left. }
    destruct (IH (remove_at i l)) as [r Hr].
    { apply (Permutation_cons_inv (a := x)). by rewrite remove_at_Permutation. }
    exists (i :: r). simpl.
    assert (i < length l) by (by eapply lookup_lt_Some).
    destruct l as [|y l]; [simpl in *; lia|].
    rewrite Nat.mod_small by done. by rewrite Hi, Hr.
Qed.

(** ** Strings *)

Section Strings.
Local Open Scope string_scope.

(** [strings.HasPrefix(s, p)]. *)
Definition str_HasPrefix (s p : string) : bool := String.prefix p s.

(** [strings.Contains(s, p)]. *)
Fixpoint str_Contains (s p : string) : bool :=
  String.prefix p s ||
  match s with
  | "" => false
  | String _ s' => str_Contains s' p
  end.

Lemma append_nil_r s : s +:+ "" = s.
Proof. induction s as [|c s IH]; [done|]. exact (f_equal (String c) IH). Qed.

Lemma append_inj_l s t t' : s +:+ t = s +:+ t' → t = t'.
Proof. induction s as [|c s IH]; [done|]. intros Heq. by injection Heq. Qed.

Lemma prefix_cons c p d s :
  String.prefix (String c p) (String d s) =
  if Ascii.ascii_dec c d then String.prefix p s else false.
Proof. reflexivity. Qed.

Lemma prefix_spec p s : String.prefix p s = true ↔ ∃ t, s = p +:+ t.
Proof.
  revert s. induction p as [|c p IH]; intros s.
  - split; [intros _; by exists s|]. intros _. by destruct s.
  - destruct s as [|d s]; [split; [done|intros [t Ht]; discriminate Ht]|].
    rewrite prefix_cons. destruct (Ascii.ascii_dec c d) as [->|Hn].
    + rewrite IH. split; intros [t Ht]; exists t; [by rewrite Ht|by injection Ht].
    + split; [done|]. intros [t Ht]. by injection Ht.
Qed.

Lemma str_HasPrefix_spec s p : str_HasPrefix s p = true ↔ ∃ t, s = p +:+ t.
Proof. apply prefix_spec. Qed.

Lemma str_Contains_spec s p : str_Contains s p = true ↔ ∃ a b, s = a +:+ p +:+ b.
Proof.
  induction s as [|c s IH]; cbn [str_Contains]; rewrite orb_true_iff, prefix_spec.
  - split.
    + intros [[t Ht]|H0]; [by exists "", t|discriminate H0].
    + intros (a & b & Hs). left. exists b.
      destruct a; [done|discriminate Hs].
  - rewrite IH. split.
    + intros [[t Ht]|(a & b & ->)]; [by exists "", t|]. by exists (String c a), b.
    + intros (a & b & Hs). destruct a as [|c' a]; [left; by exists b|].
      right. injection Hs as -> ->. by exists a, b.
Qed.
End Strings.

(** ** Tactics shared by the development *)

(** Case analysis on the scrutinee of a [match] or [if] of the goal, keeping the
    equation under the given name. *)
Tactic Notation "case_on" ident(E) :=
  match goal with
  | |- context [match ?x with _ => _ end] =>
      lazymatch x with
      | context [match _ with _ => _ end] => fail
      | _ => destruct x eqn:E
      end
  end.

Ltac split_all := repeat match goal with |- _ ∧ _ => split end.
