(* ===== verification/GoLang.v ===== *)
(** * The part of Go's standard library and run time the operator uses

    - [Sprintf]: the verbs [%s], [%v], [%w], [%q] and [%%] of package [fmt],
      with the marks [fmt] prints for missing and for extra arguments (no
      format of the operator has flags, a width or a precision);
    - [gvalue]: the values package [reflect] walks over in
      [controllers/utils/utils.go] ([GetObjectField] and its two clients), with
      [None] for an operation that panics;
    - [slice]: a slice with the array behind it, for the loop that shortens in
      place the slice it ranges over. *)

From Stdlib Require Import Ascii.
From S2P Require Import Prelude.
Local Open Scope string_scope.

(** ** fmt *)

Inductive fmt_arg :=
| AStr (s : string)              (* a string, or an error printed by [%w] *)
| AStrs (l : list string).       (* a []string *)

(** [%v] of a []string: the elements between brackets, separated by spaces. *)
Fixpoint sep_by (sep : string) (l : list string) : string :=
  match l with
  | [] => ""
  | [x] => x
  | x :: l' => x +:+ sep +:+ sep_by sep l'
  end.

Definition quote_char : Ascii.ascii := Ascii.ascii_of_nat 34.
Definition backslash : Ascii.ascii := Ascii.ascii_of_nat 92.

(** [strconv.Quote] on the printable characters: quotes and backslashes are
    escaped. *)
Fixpoint escape (s : string) : string :=
  match s with
  | "" => ""
  | String c s' =>
      if bool_decide (c = quote_char ∨ c = backslash)
      then String backslash (String c (escape s'))
      else String c (escape s')
  end.

Definition Quote (s : string) : string :=
  String quote_char (escape s +:+ String quote_char "").

Definition fmt_value (verb : Ascii.ascii) (a : fmt_arg) : string :=
  let one s := if Ascii.eqb verb "q"%char then Quote s else s in
  match a with
  | AStr s => one s
  | AStrs l => "[" +:+ sep_by " " (one <$> l) +:+ "]"
  end.

Definition fmt_type (a : fmt_arg) : string :=
  match a with AStr s => "string=" +:+ s | AStrs l => "[]string=[" +:+ sep_by " " l +:+ "]" end.

Definition fmt_extra (args : list fmt_arg) : string :=
  match args with
  | [] => ""
  | _ => "%!(EXTRA " +:+ sep_by ", " (fmt_type <$> args) +:+ ")"
  end.

Fixpoint Sprintf (format : string) (args : list fmt_arg) : string :=
  match format with
  | "" => fmt_extra args
  | String "%" "" => "%!(NOVERB)" +:+ fmt_extra args
  | String "%" (String "%" rest) => String "%" (Sprintf rest args)
  | String "%" (String verb rest) =>
      match args with
      | [] => "%!" +:+ String verb ("(MISSING)" +:+ Sprintf rest [])
      | a :: args' => fmt_value verb a +:+ Sprintf rest args'
      end
  | String c rest => String c (Sprintf rest args)
  end.

Example Sprintf_two : Sprintf "%s/%s pvc" [AStr "ns"; AStr "n"] = "ns/n pvc".
Proof. reflexivity. Qed.

Example Sprintf_list : Sprintf "to %v" [AStrs ["a"; "b"]] = "to [a b]".
Proof. reflexivity. Qed.

Lemma Sprintf_dash a b : Sprintf "%s-%s" [AStr a; AStr b] = a +:+ "-" +:+ b.
Proof. cbn. by rewrite append_nil_r. Qed.

Example Sprintf_missing : Sprintf "%s/%s" [AStr "a"] = "a/%!s(MISSING)".
Proof. reflexivity. Qed.

(** ** reflect *)

#[warnings="-register-all"]
Inductive gvalue :=
| VString (s : string)                           (* kind String *)
| VBool (b : bool)                               (* kind Bool *)
| VPtr (elem_type : string) (v : option gvalue)  (* kind Ptr; [None] is nil *)
| VStruct (type : string) (fields : list (string * gvalue))
| VOther (type : string).                        (* any other kind *)

(** What a type looks like to [reflect.ValueOf]. *)
Class Reflect (T : Type) := to_value : T → gvalue.

(** A [reflect.Value]; [None] is the zero Value, the one [IsValid] refuses. *)
Definition rvalue := option gvalue.

Definition IsValid (v : rvalue) : bool :=
  match v with Some _ => true | None => false end.

Definition kind_is_String (v : rvalue) : bool :=
  match v with Some (VString _) => true | _ => false end.

Definition kind_is_Ptr (v : rvalue) : bool :=
  match v with Some (VPtr _ _) => true | _ => false end.

Definition type_name (v : gvalue) : string :=
  match v with
  | VString _ => "string" | VBool _ => "bool"
  | VPtr t _ => "*" +:+ t | VStruct t _ => t | VOther t => t
  end.

(** [Elem], [IsNil], [Bool], [NumField]/[Field]: [None] is a panic. *)
Definition Elem (v : rvalue) : option rvalue :=
  match v with Some (VPtr _ o) => Some o | _ => None end.

Definition IsNil (v : rvalue) : option bool :=
  match v with
  | Some (VPtr _ o) => Some (match o with None => true | Some _ => false end)
  | _ => None
  end.

Definition ValueBool (v : rvalue) : option bool :=
  match v with Some (VBool b) => Some b | _ => None end.

(** [Value.String] never panics. *)
Definition ValueString (v : rvalue) : string :=
  match v with
  | None => "<invalid Value>"
  | Some (VString s) => s
  | Some g => "<" +:+ type_name g +:+ " Value>"
  end.

Definition struct_fields (v : rvalue) : option (list (string * gvalue)) :=
  match v with Some (VStruct _ fs) => Some fs | _ => None end.

Local Close Scope string_scope.

(** ** Slices and the array behind them

    A slice of the operator starts at its array; [s_len] elements of it are
    visible and its capacity is the length of the array. *)
Record slice (A : Type) := mk_slice { s_arr : list A; s_len : nat }.
Arguments mk_slice {A} _ _.
Arguments s_arr {A} _.
Arguments s_len {A} _.

Definition slice_view {A} (s : slice A) : list A := take (s_len s) (s_arr s).

Definition slice_wf {A} (s : slice A) : Prop := s_len s ≤ length (s_arr s).

Definition slice_of {A} (l : list A) : slice A := mk_slice l (length l).

(** [append(s[:i], s[i+1:]...)]: the elements after position [i] move down by
    one inside the array, which keeps its last element where it was. *)
Definition slice_remove_at {A} (i : nat) (s : slice A) : slice A :=
  mk_slice (remove_at i (slice_view s) ++ drop (s_len s - 1) (s_arr s)) (s_len s - 1).

(** What [encoding/json] does with a slice it decodes an array into: it resets
    the length to zero and appends, so the elements go into the same array as
    long as there is room. *)
Definition slice_decode {A} (l : list A) (s : slice A) : slice A :=
  if decide (length l ≤ length (s_arr s))
  then mk_slice (l ++ drop (length l) (s_arr s)) (length l)
  else slice_of l.

Section Slices.
Context {A : Type}.
Implicit Types (l : list A) (s : slice A).

Lemma slice_of_view l : slice_view (slice_of l) = l.
Proof. unfold slice_view. simpl. by apply take_ge. Qed.

Lemma slice_of_wf l : slice_wf (slice_of l).
Proof. unfold slice_wf. simpl. lia. Qed.

Lemma slice_view_length s : slice_wf s → length (slice_view s) = s_len s.
Proof. unfold slice_wf, slice_view. rewrite length_take. lia. Qed.

Lemma length_remove_at l i : i < length l → length (remove_at i l) = length l - 1.
Proof. intros Hi. unfold remove_at. rewrite length_app, length_take, length_drop. lia. Qed.

(** The slice seen after the removal is the value-level [remove_at]. *)
Lemma slice_remove_at_view s i :
  slice_wf s → i < s_len s →
  slice_view (slice_remove_at i s) = remove_at i (slice_view s).
Proof.
  intros Hwf Hi. unfold slice_view at 1. simpl.
  rewrite take_app_le.
  - apply take_ge. rewrite length_remove_at; rewrite slice_view_length; by try lia.
  - rewrite length_remove_at; rewrite slice_view_length; by try lia.
Qed.

(** The array keeps its length, so the enclosing loop never runs off it. *)
Lemma slice_remove_at_cap s i :
  slice_wf s → i < s_len s →
  length (s_arr (slice_remove_at i s)) = length (s_arr s).
Proof.
  intros Hwf Hi. simpl. rewrite length_app, length_drop, length_remove_at;
    rewrite slice_view_length by done; [|lia]. unfold slice_wf in Hwf. lia.
Qed.

Lemma slice_decode_view l s : slice_view (slice_decode l s) = l.
Proof.
  unfold slice_decode. case_decide; [|apply slice_of_view].
  unfold slice_view. simpl. by rewrite take_app_length.
Qed.

Lemma slice_decode_same l s :
  slice_wf s → slice_view s = l → slice_decode l s = s.
Proof.
  intros Hwf <-. unfold slice_decode. rewrite slice_view_length by done.
  unfold slice_wf in Hwf. rewrite decide_True by done.
  destruct s as [arr n]. unfold slice_view. simpl. by rewrite take_drop.
Qed.
End Slices.

Create HintDb slices.
Create Rewrite HintDb slices.
#[export] Hint Resolve slice_of_wf : slices.
#[export] Hint Rewrite @slice_of_view @slice_decode_view : slices.
