(* ===== verification/Api.v ===== *)
(** * Data of the operator

    The API types of [api/v1], the fields the operator reads or writes of the
    Kubernetes types they embed ([metav1], [corev1], [storagev1]), the error
    values ([pkg/errors] and those of [errors.New]/[fmt.Errorf]), the constants
    of [controllers/utils/settings.go] and the messages that reach an error or
    an event.

    A Go pointer is an [option], a string-keyed map a [gmap], a time a [Z] of
    nanoseconds.  Lists and maps do not tell nil from empty: objects reach the
    operator through the API, which omits empty ones. *)

From S2P Require Import Prelude GoLang.
Local Open Scope string_scope.

(** ** metav1, corev1, storagev1: the fields used *)

Record NamespacedName := mkNN { nn_Namespace : string; nn_Name : string }.

#[export] Instance NamespacedName_eq_dec : EqDecision NamespacedName.
Proof. solve_decision. Defined.

#[export] Instance NamespacedName_countable : Countable NamespacedName.
Proof.
  refine (inj_countable' (λ k, (nn_Namespace k, nn_Name k))
            (λ p, mkNN (fst p) (snd p)) _). by intros [].
Defined.

Record TypeMeta := { tm_Kind : string; tm_APIVersion : string }.

Record ObjectMeta := {
  om_Name : string;
  om_Namespace : string;
  om_UID : string;
  om_ResourceVersion : string;
  om_Generation : Z;
  om_Labels : gmap string string;
  om_Annotations : gmap string string;
  om_Finalizers : list string;
  om_DeletionTimestamp : option Z;
}.

Record ObjectReference := {
  or_Kind : string;
  or_Namespace : string;
  or_Name : string;
  or_UID : string;
  or_APIVersion : string;
  or_ResourceVersion : string;
}.

Record SecretReference := { sr_Name : string; sr_Namespace : string }.

(** A requirement of [matchExpressions]: key, operator, values. *)
Record LabelSelectorRequirement := {
  lsr_Key : string; lsr_Operator : string; lsr_Values : list string
}.

Record LabelSelector := {
  ls_MatchLabels : gmap string string;
  ls_MatchExpressions : list LabelSelectorRequirement;
}.

Record PersistentVolumeClaimSpec := {
  pvcs_StorageClassName : option string;
  pvcs_VolumeName : string;
}.

Record PersistentVolumeClaim := {
  pvc_TypeMeta : TypeMeta;
  pvc_ObjectMeta : ObjectMeta;
  pvc_Spec : PersistentVolumeClaimSpec;
  pvc_Phase : string;                     (* Status.Phase *)
}.

Record CSIPersistentVolumeSource := { csi_Driver : string; csi_VolumeHandle : string }.

Record PersistentVolume := {
  pv_TypeMeta : TypeMeta;
  pv_ObjectMeta : ObjectMeta;
  pv_CSI : option CSIPersistentVolumeSource;   (* Spec.CSI *)
  pv_ClaimRef : option ObjectReference;        (* Spec.ClaimRef *)
}.

Record StorageClass := {
  sc_TypeMeta : TypeMeta;
  sc_ObjectMeta : ObjectMeta;
  sc_Provisioner : string;
  sc_Parameters : gmap string string;
}.

Record Secret := {
  sec_TypeMeta : TypeMeta;
  sec_ObjectMeta : ObjectMeta;
  sec_Data : gmap string (list Byte.byte);
}.

Record Event := {
  ev_TypeMeta : TypeMeta;
  ev_ObjectMeta : ObjectMeta;
  ev_ReportingController : string;
  ev_InvolvedObject : ObjectReference;
  ev_Reason : string;
  ev_Message : string;
  ev_Type : string;
  ev_FirstTimestamp : Z;
}.

Definition ClaimBound : string := "Bound".
Definition BetaStorageClassAnnotation : string := "volume.beta.kubernetes.io/storage-class".

(** ** api/v1/common.go *)

Definition VolumeGroupDeletionPolicy := string.
Definition VolumeGroupContentDelete : VolumeGroupDeletionPolicy := "Delete".
Definition VolumeGroupContentRetain : VolumeGroupDeletionPolicy := "Retain".

Record VolumeGroupError := { vge_Time : option Z; vge_Message : option string }.

(** ** api/v1/volumegroup_types.go *)

Record VolumeGroupSource := {
  vgsrc_VolumeGroupContentName : option string;
  vgsrc_Selector : option LabelSelector;
}.

Record VolumeGroupSpec := {
  vgspec_VolumeGroupClassName : option string;
  vgspec_Source : VolumeGroupSource;
}.

Record VolumeGroupStatus := {
  vgst_BoundVolumeGroupContentName : option string;
  vgst_GroupCreationTime : option Z;
  vgst_PVCList : list PersistentVolumeClaim;
  vgst_Ready : option bool;
  vgst_Error : option VolumeGroupError;
}.

Record VolumeGroup := {
  vg_TypeMeta : TypeMeta;
  vg_ObjectMeta : ObjectMeta;
  vg_Spec : VolumeGroupSpec;
  vg_Status : VolumeGroupStatus;
}.

(** ** api/v1/volumegroupclass_types.go *)

Record VolumeGroupClass := {
  vgclass_TypeMeta : TypeMeta;
  vgclass_ObjectMeta : ObjectMeta;
  vgclass_Driver : string;
  vgclass_Parameters : gmap string string;
  vgclass_VolumeGroupDeletionPolicy : option VolumeGroupDeletionPolicy;
  vgclass_SupportVolumeGroupSnapshot : option bool;
}.

(** ** api/v1/volumegroupcontent_types.go *)

Record VolumeGroupContentSource := {
  vgcsrc_Driver : string;
  vgcsrc_VolumeGroupHandle : string;
  vgcsrc_VolumeGroupAttributes : gmap string string;
}.

Record VolumeGroupContentSpec := {
  vgcspec_VolumeGroupClassName : option string;
  vgcspec_VolumeGroupRef : option ObjectReference;
  vgcspec_Source : option VolumeGroupContentSource;
  vgcspec_VolumeGroupDeletionPolicy : option VolumeGroupDeletionPolicy;
  vgcspec_SupportVolumeGroupSnapshot : option bool;
  vgcspec_VolumeGroupSecretRef : option SecretReference;
}.

Record VolumeGroupContentStatus := {
  vgcst_GroupCreationTime : option Z;
  vgcst_PVList : list PersistentVolume;
  vgcst_Ready : option bool;
  vgcst_Error : option VolumeGroupError;
}.

Record VolumeGroupContent := {
  vgc_TypeMeta : TypeMeta;
  vgc_ObjectMeta : ObjectMeta;
  vgc_Spec : VolumeGroupContentSpec;
  vgc_Status : VolumeGroupContentStatus;
}.

(** The message of the driver's answer to [CreateVolumeGroup]; the inner
    message is a pointer. *)
Record csi_VolumeGroup := {
  csi_VolumeGroupId : string;
  csi_VolumeGroupContext : gmap string string;
}.
Record CreateVolumeGroupResponse := { cvgr_VolumeGroup : option csi_VolumeGroup }.

(** ** Decidable equality *)

#[export] Instance byte_eq_dec : EqDecision Byte.byte := Byte.byte_eq_dec.

#[export] Instance TypeMeta_eq_dec : EqDecision TypeMeta.
Proof. solve_decision. Defined.
#[export] Instance ObjectMeta_eq_dec : EqDecision ObjectMeta.
Proof. solve_decision. Defined.
#[export] Instance ObjectReference_eq_dec : EqDecision ObjectReference.
Proof. solve_decision. Defined.
#[export] Instance SecretReference_eq_dec : EqDecision SecretReference.
Proof. solve_decision. Defined.
#[export] Instance LabelSelectorRequirement_eq_dec : EqDecision LabelSelectorRequirement.
Proof. solve_decision. Defined.
#[export] Instance LabelSelector_eq_dec : EqDecision LabelSelector.
Proof. solve_decision. Defined.
#[export] Instance PersistentVolumeClaimSpec_eq_dec : EqDecision PersistentVolumeClaimSpec.
Proof. solve_decision. Defined.
#[export] Instance PersistentVolumeClaim_eq_dec : EqDecision PersistentVolumeClaim.
Proof. solve_decision. Defined.
#[export] Instance CSIPersistentVolumeSource_eq_dec : EqDecision CSIPersistentVolumeSource.
Proof. solve_decision. Defined.
#[export] Instance PersistentVolume_eq_dec : EqDecision PersistentVolume.
Proof. solve_decision. Defined.
#[export] Instance StorageClass_eq_dec : EqDecision StorageClass.
Proof. solve_decision. Defined.
#[export] Instance Secret_eq_dec : EqDecision Secret.
Proof. solve_decision. Defined.
#[export] Instance Event_eq_dec : EqDecision Event.
Proof. solve_decision. Defined.
#[export] Instance VolumeGroupError_eq_dec : EqDecision VolumeGroupError.
Proof. solve_decision. Defined.
#[export] Instance VolumeGroupSource_eq_dec : EqDecision VolumeGroupSource.
Proof. solve_decision. Defined.
#[export] Instance VolumeGroupSpec_eq_dec : EqDecision VolumeGroupSpec.
Proof. solve_decision. Defined.
#[export] Instance VolumeGroupStatus_eq_dec : EqDecision VolumeGroupStatus.
Proof. solve_decision. Defined.
#[export] Instance VolumeGroup_eq_dec : EqDecision VolumeGroup.
Proof. solve_decision. Defined.
#[export] Instance VolumeGroupClass_eq_dec : EqDecision VolumeGroupClass.
Proof. solve_decision. Defined.
#[export] Instance VolumeGroupContentSource_eq_dec : EqDecision VolumeGroupContentSource.
Proof. solve_decision. Defined.
#[export] Instance VolumeGroupContentSpec_eq_dec : EqDecision VolumeGroupContentSpec.
Proof. solve_decision. Defined.
#[export] Instance VolumeGroupContentStatus_eq_dec : EqDecision VolumeGroupContentStatus.
Proof. solve_decision. Defined.
#[export] Instance VolumeGroupContent_eq_dec : EqDecision VolumeGroupContent.
Proof. solve_decision. Defined.

(** ** pkg/config/config.go *)

Record DriverConfig := {
  DriverEndpoint : string;
  DriverName : string;
  RPCTimeout : Z;
  MultipleVGsToPVC : string;
  DisableDeletePvcs : string;
}.

(** ** controllers/utils/settings.go *)

Definition VGNamePrefix : string := "volumegroup".
Definition vgGroupName : string := "volumegroup.storage.ibm.io".
Definition VGFinalizer : string := vgGroupName.
Definition VGAsPrefix : string := vgGroupName +:+ "/".
Definition VgcFinalizer : string := VGAsPrefix +:+ "vgc-protection".
Definition pvcVGFinalizer : string := VGAsPrefix +:+ "pvc-protection".
Definition PrefixedVGSecretNameKey : string := VGAsPrefix +:+ "secret-name".
Definition PrefixedVGSecretNamespaceKey : string := VGAsPrefix +:+ "secret-namespace".
Definition letterBytes : string := "0123456789abcdefghijklmnopqrstuvwxyz".
Definition vgController : string := "volumeGroupController".
Definition warningEventType : string := "Warning".
Definition normalEventType : string := "Normal".
Definition storageClassVGParameter : string := "volume_group".
Definition addingPVC : string := "addPVC".
Definition removingPVC : string := "removePVC".
Definition createVGC : string := "creatingVGC".
Definition vgcKind : string := "VolumeGroupContent".
Definition APIVersion : string := "csi.ibm.com/v1".

(** controllers/settings.go and controllers/volumegroupcontent/settings.go *)
Module VGSettings.
Definition vgReconcile : string := "vgReconcile".
Definition deleteVG : string := "deletingVG".
Definition createVG : string := "creatingVG".
Definition createVGC : string := "creatingVGC".
Definition updateVGC : string := "updatingVGC".
Definition updateStatusVG : string := "updatingStatusVG".
End VGSettings.

Module VGCSettings.
Definition vgcReconcile : string := "vgcReconcile".
Definition deleteVGC : string := "deletingVG".
Definition createVGC : string := "creatingVG".
Definition updateStatusVGC : string := "updatingStatusVGC".
End VGCSettings.

(** ** pkg/messages: the formats that reach an error value or an event *)

Module messages.
Definition AddedPVCToVG : string :=
  "Successfully added %s/%s persistentVolumeClaim to %s/%s volumeGroup".
Definition RemovedPVCFromVG : string :=
  "Successfully removed %s/%s persistentVolumeClaim from %s/%s volumeGroup".
Definition StorageClassHasVGParameter : string :=
  "StorageClass %s contain parameter volume_group for claim %s/%s. volumegroup feature is not supported".
Definition VGCreated : string := "Successfully Created  %s/%s volumeGroup".
Definition VGCCreated : string := "Successfully Created  %s/%s volumeGroupContent".
Definition VgIsStillExist : string :=
  "Cant delete %s/%s volumeGroupContent because volumeGroup is still exist".
Definition MatchingLabelsAndLabelSelectorFailed : string :=
  "Could not check if labels are matched with labelSelector, got %s".
Definition PVDoesNotExist : string := "%s/%s persistentVolume does not exist".
Definition PVCIsAlreadyBelongToGroup : string :=
  "Failed to add %s/%s persistentVolumeClaim to VolumeGroups %v Because it belongs to other VolumeGroups %v".
Definition PVCMatchedWithMultipleNewGroups : string :=
  "Failed to add %s/%s persistentVolumeClaim to VolumeGroups %v Because it matched more than one new VolumeGroups".
Definition FailedToGetStorageClassName : string :=
  "Failed to get storageClass name from persistentVolumeClaim %s".
End messages.

(** ** Errors

    A nil [error] is [None] of [option error].  [ExternalError] is an error
    value made outside the program (API machinery, gRPC); what it stands for is
    told by the classification functions of [Externals]. *)

Inductive error :=
| ErrorString (s : string)                    (* errors.New, fmt.Errorf *)
| WrapError (s : string) (err : error)        (* fmt.Errorf with %w *)
| MatchingLabelsAndLabelSelectorError (ErrorMessage : string)
| PVDoesNotExist (PVName PVNamespace ErrorMessage : string)
| ExternalError (code : string) (message : string).

#[export] Instance error_eq_dec : EqDecision error.
Proof. solve_decision. Defined.

Definition Error (e : error) : string :=
  match e with
  | ErrorString s => s
  | WrapError s _ => s
  | MatchingLabelsAndLabelSelectorError m =>
      Sprintf messages.MatchingLabelsAndLabelSelectorFailed [AStr m]
  | PVDoesNotExist n ns _ => Sprintf messages.PVDoesNotExist [AStr n; AStr ns]
  | ExternalError _ m => m
  end.

Definition Errorf (format : string) (args : list fmt_arg) : error :=
  ErrorString (Sprintf format args).

(** ** Field updates *)

Definition set_Finalizers (fs : list string) (m : ObjectMeta) : ObjectMeta :=
  {| om_Name := om_Name m; om_Namespace := om_Namespace m; om_UID := om_UID m;
     om_ResourceVersion := om_ResourceVersion m; om_Generation := om_Generation m;
     om_Labels := om_Labels m; om_Annotations := om_Annotations m;
     om_Finalizers := fs; om_DeletionTimestamp := om_DeletionTimestamp m |}.

Definition set_vg_Status (f : VolumeGroupStatus → VolumeGroupStatus) (vg : VolumeGroup) :=
  {| vg_TypeMeta := vg_TypeMeta vg; vg_ObjectMeta := vg_ObjectMeta vg;
     vg_Spec := vg_Spec vg; vg_Status := f (vg_Status vg) |}.

Definition set_vg_PVCList (l : list PersistentVolumeClaim) : VolumeGroup → VolumeGroup :=
  set_vg_Status (λ st,
    {| vgst_BoundVolumeGroupContentName := vgst_BoundVolumeGroupContentName st;
       vgst_GroupCreationTime := vgst_GroupCreationTime st; vgst_PVCList := l;
       vgst_Ready := vgst_Ready st; vgst_Error := vgst_Error st |}).

Definition set_vg_Error (e : option VolumeGroupError) : VolumeGroup → VolumeGroup :=
  set_vg_Status (λ st,
    {| vgst_BoundVolumeGroupContentName := vgst_BoundVolumeGroupContentName st;
       vgst_GroupCreationTime := vgst_GroupCreationTime st;
       vgst_PVCList := vgst_PVCList st;
       vgst_Ready := vgst_Ready st; vgst_Error := e |}).

Definition set_vg_VolumeGroupContentName (n : option string) (vg : VolumeGroup) :=
  {| vg_TypeMeta := vg_TypeMeta vg; vg_ObjectMeta := vg_ObjectMeta vg;
     vg_Spec :=
       {| vgspec_VolumeGroupClassName := vgspec_VolumeGroupClassName (vg_Spec vg);
          vgspec_Source :=
            {| vgsrc_VolumeGroupContentName := n;
               vgsrc_Selector := vgsrc_Selector (vgspec_Source (vg_Spec vg)) |} |};
     vg_Status := vg_Status vg |}.

Definition set_vgc_Spec (f : VolumeGroupContentSpec → VolumeGroupContentSpec)
    (vgc : VolumeGroupContent) : VolumeGroupContent :=
  {| vgc_TypeMeta := vgc_TypeMeta vgc; vgc_ObjectMeta := vgc_ObjectMeta vgc;
     vgc_Spec := f (vgc_Spec vgc); vgc_Status := vgc_Status vgc |}.

Definition set_vgc_Status (f : VolumeGroupContentStatus → VolumeGroupContentStatus)
    (vgc : VolumeGroupContent) : VolumeGroupContent :=
  {| vgc_TypeMeta := vgc_TypeMeta vgc; vgc_ObjectMeta := vgc_ObjectMeta vgc;
     vgc_Spec := vgc_Spec vgc; vgc_Status := f (vgc_Status vgc) |}.

Definition set_vgc_PVList (l : list PersistentVolume) : VolumeGroupContent → VolumeGroupContent :=
  set_vgc_Status (λ st,
    {| vgcst_GroupCreationTime := vgcst_GroupCreationTime st; vgcst_PVList := l;
       vgcst_Ready := vgcst_Ready st; vgcst_Error := vgcst_Error st |}).

Definition set_vgc_Error (e : option VolumeGroupError) : VolumeGroupContent → VolumeGroupContent :=
  set_vgc_Status (λ st,
    {| vgcst_GroupCreationTime := vgcst_GroupCreationTime st;
       vgcst_PVList := vgcst_PVList st; vgcst_Ready := vgcst_Ready st;
       vgcst_Error := e |}).

(** ** What [reflect] sees of the structs it is applied to *)

Definition str_ptr (o : option string) : gvalue := VPtr "string" (VString <$> o).
Definition bool_ptr (o : option bool) : gvalue := VPtr "bool" (VBool <$> o).
Definition opaque_ptr {A} (type : string) (o : option A) : gvalue :=
  VPtr type ((λ _, VOther type) <$> o).

#[export] Instance VolumeGroupSpec_reflect : Reflect VolumeGroupSpec := λ s,
  VStruct "v1.VolumeGroupSpec"
    [("VolumeGroupClassName", str_ptr (vgspec_VolumeGroupClassName s));
     ("Source", VOther "v1.VolumeGroupSource")].

#[export] Instance VolumeGroupSource_reflect : Reflect VolumeGroupSource := λ s,
  VStruct "v1.VolumeGroupSource"
    [("VolumeGroupContentName", str_ptr (vgsrc_VolumeGroupContentName s));
     ("Selector", opaque_ptr "v1.LabelSelector" (vgsrc_Selector s))].

#[export] Instance VolumeGroupContentSpec_reflect : Reflect VolumeGroupContentSpec := λ s,
  VStruct "v1.VolumeGroupContentSpec"
    [("VolumeGroupClassName", str_ptr (vgcspec_VolumeGroupClassName s));
     ("VolumeGroupRef", opaque_ptr "v1.ObjectReference" (vgcspec_VolumeGroupRef s));
     ("Source", opaque_ptr "v1.VolumeGroupContentSource" (vgcspec_Source s));
     ("VolumeGroupDeletionPolicy", str_ptr (vgcspec_VolumeGroupDeletionPolicy s));
     ("SupportVolumeGroupSnapshot", bool_ptr (vgcspec_SupportVolumeGroupSnapshot s));
     ("VolumeGroupSecretRef", opaque_ptr "v1.SecretReference" (vgcspec_VolumeGroupSecretRef s))].

#[export] Instance VolumeGroupContentStatus_reflect : Reflect VolumeGroupContentStatus := λ s,
  VStruct "v1.VolumeGroupContentStatus"
    [("GroupCreationTime", opaque_ptr "v1.Time" (vgcst_GroupCreationTime s));
     ("PVList", VOther "[]v1.PersistentVolume");
     ("Ready", bool_ptr (vgcst_Ready s));
     ("Error", opaque_ptr "v1.VolumeGroupError" (vgcst_Error s))].

(** [pv.Spec.ClaimRef] is passed as a pointer. *)
#[export] Instance ObjectReference_reflect : Reflect (option ObjectReference) := λ o,
  VPtr "v1.ObjectReference" ((λ r,
    VStruct "v1.ObjectReference"
      [("Kind", VString (or_Kind r)); ("Namespace", VString (or_Namespace r));
       ("Name", VString (or_Name r)); ("UID", VString (or_UID r));
       ("APIVersion", VString (or_APIVersion r));
       ("ResourceVersion", VString (or_ResourceVersion r))]) <$> o).

#[export] Instance PVCSpec_reflect : Reflect PersistentVolumeClaimSpec := λ s,
  VStruct "v1.PersistentVolumeClaimSpec"
    [("VolumeName", VString (pvcs_VolumeName s));
     ("StorageClassName", str_ptr (pvcs_StorageClassName s))].
