(* ===== verification/Effects.v ===== *)
(** * Programs that call the outside world

    An operation of the operator is a value of [prog A]: it returns, panics, or
    makes a [call] (to the API server, to the CSI driver, to the clock, to the
    random source) and goes on with the answer.  The answers are not computed
    here: [executes] lets the world answer anything, [run] takes them from a
    handler.

    [wp] is the logic of the development.  [wp G Q p tr] says that, started
    after the calls [tr], every call of [p] is made in a history that the
    guard [G] allows, and that [p] stops (by a return or a panic) in a history
    and with an outcome that satisfy [Q].  [triple] is the same without
    histories; [along] speaks of the executions whose answers are constrained. *)

From S2P Require Import Prelude GoLang Api.

(** ** Objects of the API *)

Inductive Kind := KVG | KVGC | KVGClass | KPVC | KPV | KSC | KSecret | KEvent.

#[export] Instance Kind_eq_dec : EqDecision Kind.
Proof. solve_decision. Defined.

Definition obj_of (K : Kind) : Type :=
  match K with
  | KVG => VolumeGroup
  | KVGC => VolumeGroupContent
  | KVGClass => VolumeGroupClass
  | KPVC => PersistentVolumeClaim
  | KPV => PersistentVolume
  | KSC => StorageClass
  | KSecret => Secret
  | KEvent => Event
  end.

(** The methods of [client.Object]. *)
Definition GetObjectMeta (K : Kind) : obj_of K → ObjectMeta :=
  match K with
  | KVG => vg_ObjectMeta
  | KVGC => vgc_ObjectMeta
  | KVGClass => vgclass_ObjectMeta
  | KPVC => pvc_ObjectMeta
  | KPV => pv_ObjectMeta
  | KSC => sc_ObjectMeta
  | KSecret => sec_ObjectMeta
  | KEvent => ev_ObjectMeta
  end.

Definition GetObjectKind (K : Kind) : obj_of K → TypeMeta :=
  match K with
  | KVG => vg_TypeMeta
  | KVGC => vgc_TypeMeta
  | KVGClass => vgclass_TypeMeta
  | KPVC => pvc_TypeMeta
  | KPV => pv_TypeMeta
  | KSC => sc_TypeMeta
  | KSecret => sec_TypeMeta
  | KEvent => ev_TypeMeta
  end.

Definition SetObjectMeta (K : Kind) (m : ObjectMeta) : obj_of K → obj_of K :=
  match K with
  | KVG => λ o, {| vg_TypeMeta := vg_TypeMeta o; vg_ObjectMeta := m;
                   vg_Spec := vg_Spec o; vg_Status := vg_Status o |}
  | KVGC => λ o, {| vgc_TypeMeta := vgc_TypeMeta o; vgc_ObjectMeta := m;
                    vgc_Spec := vgc_Spec o; vgc_Status := vgc_Status o |}
  | KVGClass => λ o,
      {| vgclass_TypeMeta := vgclass_TypeMeta o; vgclass_ObjectMeta := m;
         vgclass_Driver := vgclass_Driver o; vgclass_Parameters := vgclass_Parameters o;
         vgclass_VolumeGroupDeletionPolicy := vgclass_VolumeGroupDeletionPolicy o;
         vgclass_SupportVolumeGroupSnapshot := vgclass_SupportVolumeGroupSnapshot o |}
  | KPVC => λ o, {| pvc_TypeMeta := pvc_TypeMeta o; pvc_ObjectMeta := m;
                    pvc_Spec := pvc_Spec o; pvc_Phase := pvc_Phase o |}
  | KPV => λ o, {| pv_TypeMeta := pv_TypeMeta o; pv_ObjectMeta := m;
                   pv_CSI := pv_CSI o; pv_ClaimRef := pv_ClaimRef o |}
  | KSC => λ o, {| sc_TypeMeta := sc_TypeMeta o; sc_ObjectMeta := m;
                   sc_Provisioner := sc_Provisioner o; sc_Parameters := sc_Parameters o |}
  | KSecret => λ o, {| sec_TypeMeta := sec_TypeMeta o; sec_ObjectMeta := m;
                       sec_Data := sec_Data o |}
  | KEvent => λ o,
      {| ev_TypeMeta := ev_TypeMeta o; ev_ObjectMeta := m;
         ev_ReportingController := ev_ReportingController o;
         ev_InvolvedObject := ev_InvolvedObject o; ev_Reason := ev_Reason o;
         ev_Message := ev_Message o; ev_Type := ev_Type o;
         ev_FirstTimestamp := ev_FirstTimestamp o |}
  end.

Definition GetName (K : Kind) (o : obj_of K) : string := om_Name (GetObjectMeta K o).
Definition GetNamespace (K : Kind) (o : obj_of K) : string := om_Namespace (GetObjectMeta K o).
Definition GetUID (K : Kind) (o : obj_of K) : string := om_UID (GetObjectMeta K o).
Definition GetFinalizers (K : Kind) (o : obj_of K) : list string :=
  om_Finalizers (GetObjectMeta K o).
Definition SetFinalizers (K : Kind) (fs : list string) (o : obj_of K) : obj_of K :=
  SetObjectMeta K (set_Finalizers fs (GetObjectMeta K o)) o.

(** The key under which the API stores an object. *)
Definition key_of (K : Kind) (o : obj_of K) : NamespacedName :=
  mkNN (GetNamespace K o) (GetName K o).

Lemma GetObjectMeta_Set K m (o : obj_of K) : GetObjectMeta K (SetObjectMeta K m o) = m.
Proof. by destruct K. Qed.

Lemma GetFinalizers_Set K fs (o : obj_of K) : GetFinalizers K (SetFinalizers K fs o) = fs.
Proof. unfold GetFinalizers, SetFinalizers. by rewrite GetObjectMeta_Set. Qed.

Lemma SetFinalizers_same K (o : obj_of K) : SetFinalizers K (GetFinalizers K o) o = o.
Proof. by destruct K, o as [? []]. Qed.

(** ** Calls and their answers

    Calls of the API client carry the object the operator passes and answer
    with the object as it is after the call (the client decodes the server's
    answer into it), or with an error, in which case the object is left alone. *)

Inductive call :=
| CGet (K : Kind) (k : NamespacedName)
| CList (K : Kind)
| CListUnstructured (kind : string)
| CCreate (K : Kind) (o : obj_of K)
| CUpdate (K : Kind) (o : obj_of K)
| CStatusUpdate (K : Kind) (o : obj_of K)
| CDelete (K : Kind) (o : obj_of K)
| CCreateVolumeGroup (name : string) (secrets parameters : gmap string string)
| CDeleteVolumeGroup (volumeGroupId : string) (secrets : gmap string string)
| CModifyVolumeGroupMembership (volumeGroupId : string) (volumeIds : list string)
    (secrets : gmap string string)
| CNow
| CRandInts (n : nat)            (* [n] calls of rand.Intn *)
| CMapOrder                      (* the order in which a map is ranged over *)
| CSleep (ns : Z).

Definition resp (c : call) : Type :=
  match c with
  | CGet K _ => error + obj_of K
  | CList K => error + list (obj_of K)
  | CListUnstructured _ => option error
  | CCreate K _ => error + obj_of K
  | CUpdate K _ => error + obj_of K
  | CStatusUpdate K _ => error + obj_of K
  | CDelete _ _ => option error
  | CCreateVolumeGroup _ _ _ => error + CreateVolumeGroupResponse
  | CDeleteVolumeGroup _ _ => option error
  | CModifyVolumeGroupMembership _ _ _ => option error
  | CNow => Z
  | CRandInts _ => list nat
  | CMapOrder => list nat
  | CSleep _ => unit
  end.

Record event := Ev { tr_call : call; tr_resp : resp tr_call }.

Abbreviation history := (list event).

(** ** Programs *)

Inductive prog (A : Type) : Type :=
| Ret (a : A)
| Panic (why : string)
| Call (c : call) (k : resp c → prog A).
Arguments Ret {A} _.
Arguments Panic {A} _.
Arguments Call {A} _ _.

#[export] Instance prog_ret : MRet prog := @Ret.

#[export] Instance prog_bind : MBind prog := λ A B f,
  fix bind (p : prog A) : prog B :=
    match p with
    | Ret a => f a
    | Panic w => Panic w
    | Call c k => Call c (λ r, bind (k r))
    end.

Definition trigger (c : call) : prog (resp c) := Call c Ret.

(** A Go operation that may panic, given as an [option]. *)
Definition or_panic {A} (why : string) (o : option A) : prog A :=
  match o with Some a => Ret a | None => Panic why end.

Definition nil_deref : string := "invalid memory address or nil pointer dereference".

(** [*p]. *)
Definition deref {A} (p : option A) : prog A := or_panic nil_deref p.

(** ** Executions *)

(** [executes p tr o]: [p] makes the calls of [tr], getting the answers
    recorded there, and returns ([Some]) or panics ([None]). *)
Inductive executes {A} : prog A → history → option A → Prop :=
| exec_ret a : executes (Ret a) [] (Some a)
| exec_panic w : executes (Panic w) [] None
| exec_call c k r tr o :
    executes (k r) tr o → executes (Call c k) (Ev c r :: tr) o.

Lemma executes_bind {A B} (p : prog A) (f : A → prog B) tr tr' a o :
  executes p tr (Some a) → executes (f a) tr' o → executes (p ≫= f) (tr ++ tr') o.
Proof.
  intros Hp Hf. remember (Some a) as out eqn:Hout. induction Hp as [a'|w|c k r tr out Hp IH];
    simplify_eq; [done|]. cbn [app]. apply (exec_call c). by apply IH.
Qed.

(** Reading a history one call at a time. *)
Lemma executes_inv {A} (p : prog A) tr o :
  executes p tr o →
  match p with
  | Ret a => tr = [] ∧ o = Some a
  | Panic _ => tr = [] ∧ o = None
  | Call c k => ∃ r tr', tr = Ev c r :: tr' ∧ executes (k r) tr' o
  end.
Proof. destruct 1; eauto. Qed.

(** An execution of a sequence is one of each part, or of the first up to its panic. *)
Lemma executes_bind_inv {A B} (p : prog A) (f : A → prog B) tr o :
  executes (p ≫= f) tr o →
  (∃ tr1 tr2 a, tr = tr1 ++ tr2 ∧ executes p tr1 (Some a) ∧ executes (f a) tr2 o) ∨
  (executes p tr None ∧ o = None).
Proof.
  revert tr. induction p as [a|w|c k IH]; intros tr Hex.
  - left. exists [], tr, a. split_and!; [done|constructor|done].
  - right. inversion Hex; subst. split; [constructor|done].
  - destruct (executes_inv _ _ _ Hex) as (r & tr' & -> & Hk).
    destruct (IH r tr' Hk) as [(tr1 & tr2 & a & -> & H1 & H2)|[H1 ->]].
    + left. exists (Ev c r :: tr1), tr2, a. split_and!; [done|by constructor|done].
    + right. split; [by constructor|done].
Qed.

(** Answers from a handler over a state of the world. *)
Definition handler (W : Type) := ∀ c : call, W → resp c * W.

Fixpoint run {W A} (h : handler W) (p : prog A) (w : W) : history * option A * W :=
  match p with
  | Ret a => ([], Some a, w)
  | Panic _ => ([], None, w)
  | Call c k =>
      let '(r, w') := h c w in
      let '(tr, o, w'') := run h (k r) w' in
      (Ev c r :: tr, o, w'')
  end.

Definition run_trace {W A} (h : handler W) (p : prog A) (w : W) : history :=
  fst (fst (run h p w)).
Definition run_outcome {W A} (h : handler W) (p : prog A) (w : W) : option A :=
  snd (fst (run h p w)).
Definition run_world {W A} (h : handler W) (p : prog A) (w : W) : W := snd (run h p w).

Lemma run_executes {W A} (h : handler W) (p : prog A) w :
  executes p (run_trace h p w) (run_outcome h p w).
Proof.
  revert w. induction p as [a|why|c k IH]; intros w; unfold run_trace, run_outcome; simpl;
    [constructor..|].
  destruct (h c w) as [r w']. specialize (IH r w'). unfold run_trace, run_outcome in IH.
  destruct (run h (k r) w') as [[tr o] w'']. by constructor.
Qed.

(** A bind runs the first program, then the second from the world it left. *)
Lemma run_bind {W A B} (h : handler W) (p : prog A) (f : A → prog B) w :
  run h (p ≫= f) w =
  let '(tr, o, w') := run h p w in
  match o with
  | Some a => let '(tr', o', w'') := run h (f a) w' in (tr ++ tr', o', w'')
  | None => (tr, None, w')
  end.
Proof.
  revert w. induction p as [a|why|c k IH]; intros w; [|done|].
  - simpl. by destruct (run h (f a) w) as [[? ?] ?].
  - change (Call c k ≫= f) with (Call c (λ r, k r ≫= f)). simpl.
    destruct (h c w) as [r w']. rewrite IH.
    destruct (run h (k r) w') as [[tr [a|]] w'']; [|done].
    by destruct (run h (f a) w'') as [[? ?] ?].
Qed.

(** ** The logic *)

Fixpoint wp {A} (G : history → call → Prop) (Q : history → option A → Prop)
    (p : prog A) (tr : history) : Prop :=
  match p with
  | Ret a => Q tr (Some a)
  | Panic _ => Q tr None
  | Call c k => G tr c ∧ ∀ r, wp G Q (k r) (tr ++ [Ev c r])
  end.

Fixpoint triple {A} (S : call → Prop) (Q : option A → Prop) (p : prog A) : Prop :=
  match p with
  | Ret a => Q (Some a)
  | Panic _ => Q None
  | Call c k => S c ∧ ∀ r, triple S Q (k r)
  end.

(** The executions whose answers all satisfy [ok]. *)
Fixpoint along {A} (ok : ∀ c, resp c → Prop) (Q : option A → Prop) (p : prog A) : Prop :=
  match p with
  | Ret a => Q (Some a)
  | Panic _ => Q None
  | Call c k => ∀ r, ok c r → along ok Q (k r)
  end.

(** Outcome predicates: what to go on with after a return. *)
Definition after {A} (K : A → Prop) (P : Prop) (o : option A) : Prop :=
  match o with Some a => K a | None => P end.

Definition calls_in (S : call → Prop) (tr : history) : Prop :=
  Forall (λ e, S (tr_call e)) tr.

Section Logic.
Context {A B : Type}.
Implicit Types (G : history → call → Prop) (S : call → Prop) (tr : history).

Lemma wp_bind G (Q : history → option B → Prop) (f : A → prog B) p tr :
  wp G (λ tr', after (λ a, wp G Q (f a) tr') (Q tr' None)) p tr →
  wp G Q (p ≫= f) tr.
Proof.
  revert tr. induction p as [a|w|c k IH]; intros tr; [done..|].
  intros [HG Hk]. split; [done|]. intros r. apply IH, Hk.
Qed.

Lemma triple_bind S (Q : option B → Prop) (f : A → prog B) p :
  triple S (after (λ a, triple S Q (f a)) (Q None)) p → triple S Q (p ≫= f).
Proof.
  induction p as [a|w|c k IH]; [done..|].
  intros [HS Hk]. split; [done|]. intros r. apply IH, Hk.
Qed.

Lemma along_bind ok (Q : option B → Prop) (f : A → prog B) p :
  along ok (after (λ a, along ok Q (f a)) (Q None)) p → along ok Q (p ≫= f).
Proof.
  induction p as [a|w|c k IH]; [done..|].
  intros Hk r Hr. apply IH, Hk, Hr.
Qed.

Lemma along_mono ok (Q Q' : option A → Prop) p :
  along ok Q p → (∀ o, Q o → Q' o) → along ok Q' p.
Proof.
  intros Hp HQ. induction p as [a|w|c k IH]; simpl in *; [by auto..|]. eauto.
Qed.

Lemma along_of_triple S ok (Q Q' : option A → Prop) p :
  triple S Q p → (∀ o, Q o → Q' o) → along ok Q' p.
Proof.
  intros Hp HQ. induction p as [a|w|c k IH]; simpl in *; [by auto..|].
  destruct Hp. eauto.
Qed.

Lemma wp_call G (Q : history → option A → Prop) c k tr :
  G tr c → (∀ r, wp G Q (k r) (tr ++ [Ev c r])) → wp G Q (Call c k) tr.
Proof. by split. Qed.

Lemma wp_mono G (Q Q' : history → option A → Prop) p tr :
  wp G Q p tr →
  (∀ tr' o, Q (tr ++ tr') o → Q' (tr ++ tr') o) →
  wp G Q' p tr.
Proof.
  revert tr. induction p as [a|w|c k IH]; intros tr; simpl.
  - intros HQ Himp. specialize (Himp []). rewrite app_nil_r in Himp. auto.
  - intros HQ Himp. specialize (Himp []). rewrite app_nil_r in Himp. auto.
  - intros [HG Hk] Himp. split; [done|]. intros r. apply IH; [done|].
    intros tr' o. rewrite <- app_assoc. apply Himp.
Qed.

Lemma triple_mono S S' (Q Q' : option A → Prop) p :
  triple S Q p → (∀ c, S c → S' c) → (∀ o, Q o → Q' o) → triple S' Q' p.
Proof.
  intros Hp HS HQ. induction p as [a|w|c k IH]; simpl in *; [by auto..|].
  destruct Hp as [Hc Hk]. split; auto.
Qed.

(** A program whose calls the guard never refuses. *)
Lemma wp_of_triple G S (Q : option A → Prop) (Q' : history → option A → Prop) p tr :
  triple S Q p →
  (∀ tr' c, calls_in S tr' → S c → G (tr ++ tr') c) →
  (∀ tr' o, calls_in S tr' → Q o → Q' (tr ++ tr') o) →
  wp G Q' p tr.
Proof.
  revert tr. induction p as [a|w|c k IH]; intros tr; simpl; intros Hp HG HQ.
  - rewrite <- (app_nil_r tr). by apply HQ; [constructor|].
  - rewrite <- (app_nil_r tr). by apply HQ; [constructor|].
  - destruct Hp as [Hc Hk]. split.
    + rewrite <- (app_nil_r tr). by apply HG; [constructor|].
    + intros r. apply IH; [done| |].
      * intros tr' c' Htr Hc'. rewrite <- app_assoc. apply HG; [by constructor|done].
      * intros tr' o Htr Ho. rewrite <- app_assoc. apply HQ; [by constructor|done].
Qed.

(** [wp] speaks of every execution: outcome and, for each call, what precedes it. *)
Theorem wp_sound G (Q : history → option A → Prop) p tr tr' o :
  wp G Q p tr → executes p tr' o →
  Q (tr ++ tr') o ∧
  ∀ pre e post, tr' = pre ++ e :: post → G (tr ++ pre) (tr_call e).
Proof.
  intros Hwp Hex. revert tr Hwp. induction Hex as [a|w|c k r tr' o Hex IH]; intros tr Hwp;
    simpl in Hwp.
  - rewrite app_nil_r. split; [done|]. intros [] ? ? [=].
  - rewrite app_nil_r. split; [done|]. intros [] ? ? [=].
  - destruct Hwp as [HG Hk]. destruct (IH _ (Hk r)) as [HQ Hpre].
    rewrite <- app_assoc in HQ. split; [done|].
    intros [|e' pre] e post Heq; simplify_eq/=.
    + by rewrite app_nil_r.
    + specialize (Hpre pre e post eq_refl). by rewrite <- app_assoc in Hpre.
Qed.

Theorem triple_sound S (Q : option A → Prop) p tr o :
  triple S Q p → executes p tr o → Q o ∧ calls_in S tr.
Proof.
  intros Hp Hex. induction Hex as [a|w|c k r tr o Hex IH]; simpl in Hp;
    [split; [done|constructor]..|].
  destruct Hp as [HS Hk]. destruct (IH (Hk r)) as [HQ Htr].
  split; [done|by constructor].
Qed.

Theorem along_sound ok (Q : option A → Prop) p tr o :
  along ok Q p → executes p tr o → Forall (λ e, ok (tr_call e) (tr_resp e)) tr → Q o.
Proof.
  intros Hp Hex. induction Hex as [a|w|c k r tr o Hex IH]; [done..|].
  intros Htr. inversion Htr; subst. simpl in *. auto.
Qed.
Lemma executes_trigger_inv c (f : resp c → prog A) tr o :
  executes (r ← trigger c; f r) tr o →
  ∃ r tr', tr = Ev c r :: tr' ∧ executes (f r) tr' o.
Proof. intros Hex. exact (executes_inv _ _ _ Hex). Qed.

Lemma executes_ret_inv (a : A) tr o : executes (mret a) tr o → tr = [] ∧ o = Some a.
Proof. apply (executes_inv (Ret a)). Qed.

(** What holds of all the executions with good answers can be used in an [along]. *)
Lemma along_execs ok (Q : option A → Prop) p :
  (∀ tr o, executes p tr o → Forall (λ e, ok (tr_call e) (tr_resp e)) tr → Q o) →
  along ok Q p.
Proof.
  induction p as [a|w|c k IH]; intros HQ; cbn [along].
  - apply (HQ [] (Some a)); [constructor|done].
  - apply (HQ [] None); [constructor|done].
  - intros r Hr. apply IH. intros tr o Hex Htr. apply (HQ (Ev c r :: tr)); by constructor.
Qed.
End Logic.


(** ** Sets of calls and automation *)

(** [covers S1 S2]: every call of [S1] is one of [S2]. *)
Definition covers (S1 S2 : call → Prop) : Prop := ∀ c, S1 c → S2 c.

Lemma covers_refl S : covers S S.
Proof. by intros c. Qed.

Lemma covers_trans S1 S2 S3 : covers S1 S2 → covers S2 S3 → covers S1 S3.
Proof. intros H1 H2 c Hc. auto. Qed.

Lemma calls_in_app S tr1 tr2 : calls_in S (tr1 ++ tr2) ↔ calls_in S tr1 ∧ calls_in S tr2.
Proof. apply Forall_app. Qed.

Lemma calls_in_elem S tr e : calls_in S tr → e ∈ tr → S (tr_call e).
Proof. unfold calls_in. rewrite Forall_forall. eauto. Qed.

(** The empty continuation: any outcome. *)
Definition any {A} (_ : option A) : Prop := True.

(** Returns, whatever it returns. *)
Definition returns {A} (o : option A) : Prop := is_Some o.

Ltac solve_covers :=
  first
    [ exact (covers_refl _)
    | let c := fresh "c" in let Hc := fresh "Hc" in
      intros c Hc; destruct c; cbn in Hc |- *;
      first
        [ tauto
        | solve [intuition (subst; cbn; try tauto; try congruence)]
        | solve [match goal with K : Kind |- _ =>
                   destruct K; cbn in Hc |- *; intuition (try congruence) end] ] ].

(** What a component promises about one of its operations: the calls it makes
    and the outcomes it has.  Clients use the instance, not the body. *)
Class Spec {A} (p : prog A) (S : call → Prop) (R : option A → Prop) : Prop :=
  spec_triple : triple S R p.
#[export] Hint Mode Spec - ! - - : typeclass_instances.

Lemma triple_spec {A} (p : prog A) S R S' (Q : option A → Prop) :
  Spec p S R → covers S S' → (∀ o, R o → Q o) → triple S' Q p.
Proof. intros Hp HS HQ. by eapply triple_mono. Qed.

Lemma along_spec {A} (p : prog A) S R ok (Q : option A → Prop) :
  Spec p S R → (∀ o, R o → Q o) → along ok Q p.
Proof. intros Hp HQ. by eapply along_of_triple. Qed.

Lemma wp_spec {A} (p : prog A) S R G (Q : history → option A → Prop) tr :
  Spec p S R →
  (∀ tr' c, calls_in S tr' → S c → G (tr ++ tr') c) →
  (∀ tr' o, calls_in S tr' → R o → Q (tr ++ tr') o) →
  wp G Q p tr.
Proof. intros Hp HG HQ. by eapply wp_of_triple. Qed.

(** Cases of an outcome; the panic case is closed when it is excluded. *)
Ltac outcome_cases :=
  let r := fresh "r" in let Hr := fresh "Hr" in
  intros [r|] Hr; [|try solve [exact I | discriminate Hr | destruct Hr; discriminate | exact Hr]]; cbn [after].

(** One step of symbolic execution of a [triple]: binds are sequenced, calls
    get an arbitrary answer, matches are split, operations that have a [Spec]
    are replaced by it. *)
Ltac triple_step :=
  match goal with
  | |- triple _ _ (_ ≫= _) => apply triple_bind
  | |- triple _ _ (trigger _) => split; [solve [cbn; tauto | cbn; intuition congruence]|intros ?]
  | |- triple _ _ (or_panic _ _) => unfold or_panic
  | |- triple _ _ (deref _) => unfold deref
  | |- triple _ _ (mret _) => unfold mret, prog_ret
  | |- triple _ _ (Ret _) => cbn [triple after]
  | |- triple _ _ (Panic _) => cbn [triple after]
  | |- triple _ _ (match ?x with _ => _ end) => destruct x eqn:?
  | |- triple _ _ _ =>
      eapply triple_spec; [typeclasses eauto|solve_covers|outcome_cases]
  | |- after _ _ _ => progress cbn [after triple]
  | |- returns (Some _) => eexists; reflexivity
  | |- is_Some _ => eexists; reflexivity
  | |- any _ => exact I
  end.

Ltac solve_triple := repeat triple_step; try done.

(** One step of symbolic execution of an [along]; operations with a [Spec] are
    replaced by it. *)
Ltac along_step :=
  match goal with
  | |- along _ _ (_ ≫= _) => apply along_bind
  | |- along _ _ (trigger _) => intros ? ?
  | |- along _ _ (or_panic _ _) => unfold or_panic
  | |- along _ _ (deref _) => unfold deref
  | |- along _ _ (mret _) => unfold mret, prog_ret
  | |- along _ _ (Ret _) => cbn [along after]
  | |- along _ _ (Panic _) => cbn [along after]
  | |- along _ _ (match ?x with _ => _ end) => destruct x eqn:?
  | |- along _ _ _ => eapply along_spec; [typeclasses eauto|outcome_cases]
  | |- after _ _ _ => progress cbn [after along]
  end.

(** Runs an operation by a lemma about it. *)
Ltac run_by H := eapply along_mono; [apply H; auto|cbn beta].

(** Runs a program whose outcome only has to be a return. *)
Ltac returning := repeat first [along_step | done | by eexists].

(** ** Properties of all executions *)

(** Every call of every execution is made in a history that [G] allows. *)
Definition guarded {A} (p : prog A) (G : history → call → Prop) : Prop :=
  ∀ tr out pre e post, executes p tr out → tr = pre ++ e :: post → G pre (tr_call e).

(** Every execution ends in a history and an outcome that satisfy [Q]. *)
Definition ensures {A} (p : prog A) (Q : history → option A → Prop) : Prop :=
  ∀ tr out, executes p tr out → Q tr out.

Lemma wp_guarded {A} (p : prog A) G : wp G (λ _ _, True) p [] → guarded p G.
Proof.
  intros Hwp tr out pre e post Hex ->.
  destruct (wp_sound _ _ _ _ _ _ Hwp Hex) as [_ HG]. by apply (HG pre e post).
Qed.

Lemma wp_ensures {A} (p : prog A) (Q : history → option A → Prop) :
  wp (λ _ _, True) Q p [] → ensures p Q.
Proof. intros Hwp tr out Hex. by destruct (wp_sound _ _ _ _ _ _ Hwp Hex). Qed.

Lemma triple_ensures {A} (p : prog A) S (Q : option A → Prop) :
  triple S Q p → ensures p (λ tr out, calls_in S tr ∧ Q out).
Proof. intros Hp tr out Hex. by destruct (triple_sound _ _ _ _ _ Hp Hex). Qed.

(** Every call has an answer, so every program has an execution. *)
Definition some_answer (c : call) : resp c :=
  match c with
  | CGet _ _ | CList _ | CCreate _ _ | CUpdate _ _ | CStatusUpdate _ _
  | CCreateVolumeGroup _ _ _ => inl (ErrorString "")
  | CListUnstructured _ | CDelete _ _ | CDeleteVolumeGroup _ _
  | CModifyVolumeGroupMembership _ _ _ => None
  | CNow => 0%Z
  | CRandInts _ | CMapOrder => []
  | CSleep _ => tt
  end.

Lemma executes_exists {A} (p : prog A) : ∃ tr out, executes p tr out.
Proof.
  induction p as [a|w|c k IH].
  - exists [], (Some a). constructor.
  - exists [], None. constructor.
  - destruct (IH (some_answer c)) as (tr & out & Hex).
    exists (Ev c (some_answer c) :: tr), out. by constructor.
Qed.

(** The logic is complete: what holds of all executions can be used in a [wp]. *)
Lemma wp_execs {A} (p : prog A) (G : history → call → Prop)
    (Q : history → option A → Prop) tr :
  guarded p (λ pre c, G (tr ++ pre) c) →
  ensures p (λ tr' out, Q (tr ++ tr') out) →
  wp G Q p tr.
Proof.
  revert tr. induction p as [a|w|c k IH]; intros tr HG HQ; cbn [wp].
  - pose proof (HQ [] (Some a) (exec_ret a)) as Ha. cbn in Ha. by rewrite app_nil_r in Ha.
  - pose proof (HQ [] None (exec_panic w)) as Ha. cbn in Ha. by rewrite app_nil_r in Ha.
  - split.
    + destruct (executes_exists (k (some_answer c))) as (tr' & out & Hex).
      pose proof (HG _ out [] (Ev c (some_answer c)) tr' (exec_call _ _ _ _ _ Hex) eq_refl) as Hc.
      cbn in Hc. by rewrite app_nil_r in Hc.
    + intros r. apply IH.
      * intros tr' out pre e post Hex Heq. rewrite <- app_assoc. cbn.
        apply (HG _ out (Ev c r :: pre) e post (exec_call _ _ _ _ _ Hex)). by rewrite Heq.
      * intros tr' out Hex. rewrite <- app_assoc. cbn.
        apply (HQ (Ev c r :: tr')). by constructor.
Qed.

(** Using what is known of all the executions of an operation. *)
Lemma wp_use {A} (p : prog A) S (R Q : history → option A → Prop) G tr :
  triple S any p → ensures p R →
  (∀ tr' c, calls_in S tr' → S c → G (tr ++ tr') c) →
  (∀ tr' o, calls_in S tr' → R tr' o → Q (tr ++ tr') o) →
  wp G Q p tr.
Proof.
  intros HS HR HG HQ. apply wp_execs.
  - intros tr' out pre e post Hex ->.
    destruct (triple_sound _ _ _ _ _ HS Hex) as [_ Hcalls].
    apply calls_in_app in Hcalls as [Hpre He]. inversion He; subst. by apply HG.
  - intros tr' out Hex. destruct (triple_sound _ _ _ _ _ HS Hex) as [_ Hcalls]. auto.
Qed.

Lemma spec_calls {A} (p : prog A) S R : Spec p S R → triple S any p.
Proof. intros Hp. by eapply triple_mono. Qed.

(** Only the answers to the calls an operation makes matter. *)
Lemma along_on {A} (p : prog A) S R (ok ok' : ∀ c, resp c → Prop) (Q : option A → Prop) :
  Spec p S R → (∀ c r, S c → ok' c r → ok c r) → along ok Q p → along ok' Q p.
Proof.
  intros HS Hok Hp. apply along_execs. intros tr o Hex Htr.
  apply (along_sound _ _ _ _ _ Hp Hex). rewrite Forall_forall in *. intros e He.
  apply Hok; [|auto]. by eapply calls_in_elem; [apply (triple_sound _ _ _ _ _ HS Hex)|].
Qed.

(** The same for an operation with a [Spec] and a known history. *)
Lemma along_use {A} (p : prog A) S R (H : history → option A → Prop) ok (Q : option A → Prop) :
  Spec p S R → ensures p H →
  (∀ tr o, Forall (λ e, ok (tr_call e) (tr_resp e)) tr → R o → H tr o → Q o) →
  along ok Q p.
Proof.
  intros HS HH HQ. apply along_execs. intros tr o Hex Htr.
  destruct (triple_sound _ _ _ _ _ HS Hex) as [HR _]. eauto.
Qed.

Lemma wp_trigger (G : history → call → Prop) c (Q : history → option (resp c) → Prop) tr :
  G tr c → (∀ r, Q (tr ++ [Ev c r]) (Some r)) → wp G Q (trigger c) tr.
Proof. by split. Qed.

(** Membership of an event in a history built by the execution. *)
Ltac solve_event :=
  first
    [ assumption
    | apply list_elem_of_singleton; reflexivity
    | apply elem_of_app; right; apply list_elem_of_singleton; reflexivity
    | apply elem_of_app; left; solve_event
    | apply elem_of_app; right; solve_event ].

(** The guard has nothing to say about a call of the set. *)
Ltac solve_guard :=
  first
    [ exact I
    | solve [let tr' := fresh "tr" in let c := fresh "c" in let Htr := fresh "Htr" in
             let Hc := fresh "Hc" in
             intros tr' c Htr Hc; destruct c; cbn in Hc |- *;
             first [ exact I | contradiction
                   | (subst; exact I)
                   | match goal with K : Kind |- _ =>
                       destruct K; cbn in Hc |- *; first [exact I|contradiction|discriminate] end ]] ].

(** Executes an operation by what is known of its executions. *)
Ltac wp_with H :=
  eapply wp_use; [eapply spec_calls; typeclasses eauto|apply H|solve_guard|].

(** One step of symbolic execution of a [wp]; operations with a [Spec] are
    replaced by it when the guard does not concern their calls. *)
Ltac wp_step :=
  match goal with
  | |- wp _ _ (_ ≫= _) _ => apply wp_bind
  | |- wp _ _ (trigger _) _ => apply wp_trigger; [solve_guard|intros ?]
  | |- wp _ _ (or_panic _ _) _ => unfold or_panic
  | |- wp _ _ (deref _) _ => unfold deref
  | |- wp _ _ (mret _) _ => unfold mret, prog_ret
  | |- wp _ _ (Ret _) _ => cbn [wp after]
  | |- wp _ _ (Panic _) _ => cbn [wp after]
  | |- wp _ _ (match ?x with _ => _ end) _ => destruct x eqn:?
  | |- wp _ _ _ _ =>
      eapply wp_spec; [typeclasses eauto|solve_guard|];
      let tr' := fresh "tr" in let Htr := fresh "Htr" in let o := fresh "out" in
      intros tr' o Htr; revert o; outcome_cases
  | |- after _ _ _ => progress cbn [after wp]
  end.
