(* ===== verification/Externals.v ===== *)
(** * Code outside the repository

    [Externals] gathers the functions of other packages that the operator calls
    and whose result is not an answer of the world: the classification of API
    and gRPC errors, label selectors, [cmp.Diff], [retry.RetryOnConflict].
    They are parameters of the model.  [ExternalLaws] states the documented
    behaviour that theorems rely on; [DocExternals] is a concrete instance that
    satisfies the laws, on which witnesses are evaluated. *)

From S2P Require Import Prelude GoLang Api Effects.

(** One attempt after another, [S n] at most, until the function succeeds or
    fails with an error that is not a conflict. *)
Fixpoint retry_attempts {St} (IsConflict : error → bool) (n : nat)
    (fn : St → prog (option error * St)) (s : St) : prog (option error * St) :=
  '(err, s') ← fn s;
  match err with
  | None => mret (None, s')
  | Some e =>
      match n with
      | S n' => if IsConflict e then retry_attempts IsConflict n' fn s' else mret (Some e, s')
      | 0 => mret (Some e, s')
      end
  end.

Class Externals := {
  (* k8s.io/apimachinery/pkg/api/errors and api/meta *)
  IsNotFound : error → bool;
  IsConflict : error → bool;
  IsAlreadyExists : error → bool;
  IsNoMatchError : error → bool;
  (* google.golang.org/grpc/status: code and message, [None] for "not a gRPC error" *)
  status_FromError : error → option (N * string);
  (* k8s.io/apimachinery/pkg/labels *)
  Selector : Type;
  LabelSelectorAsSelector : LabelSelector → error + Selector;
  Selector_Matches : Selector → gmap string string → bool;
  (* github.com/google/go-cmp: [Diff] under [cmpopts.SortSlices] *)
  cmp_Diff_SortSlices :
    (PersistentVolumeClaim → PersistentVolumeClaim → bool) →
    list PersistentVolumeClaim → list PersistentVolumeClaim → string;
  (* k8s.io/apimachinery/pkg/runtime/schema: how an ObjectKind prints, and
     [GroupVersionKind().Kind], [GroupVersionKind().Version] *)
  ObjectKind_String : TypeMeta → string;
  GVK_Kind : TypeMeta → string;
  GVK_Version : TypeMeta → string;
  (* k8s.io/client-go/util/retry, with [retry.DefaultRetry] *)
  RetryOnConflict : ∀ {St : Type},
    (St → prog (option error * St)) → St → prog (option error * St);
  (* does decoding an answer into an object reuse the array of its slices? *)
  decode_reuses_array : bool;
}.

(** What the packages document.
    - apimachinery: the classification functions see through wrapping and are
      false on errors that are not API statuses;
    - client-go: [RetryOnConflict] calls the function again as long as it
      returns a conflict and attempts remain, and returns its last error. *)
Class ExternalLaws (X : Externals) := {
  retries : nat;
  RetryOnConflict_spec St fn (s : St) :
    RetryOnConflict fn s = retry_attempts IsConflict retries fn s;
  IsConflict_wrap s e : IsConflict (WrapError s e) = IsConflict e;
  IsNotFound_wrap s e : IsNotFound (WrapError s e) = IsNotFound e;
  IsConflict_string s : IsConflict (ErrorString s) = false;
  IsNotFound_string s : IsNotFound (ErrorString s) = false;
  IsNotFound_pv n ns m : IsNotFound (PVDoesNotExist n ns m) = false;
  IsConflict_pv n ns m : IsConflict (PVDoesNotExist n ns m) = false;
  IsNotFound_not_conflict e : IsNotFound e = true → IsConflict e = false;
}.

(** An error classifier applied to an [error] that may be nil. *)
Definition on_err (f : error → bool) (e : option error) : bool :=
  match e with Some e => f e | None => false end.

(** ** Rules for [RetryOnConflict] *)

Section Retry.
Context `{ExternalLaws} {St : Type}.
Implicit Types (fn : St → prog (option error * St)).

(** [I] holds before every attempt. *)
Lemma wp_retry (G : history → call → Prop) (Q : history → option (option error * St) → Prop)
    (I : history → St → Prop) fn s tr :
  (∀ tr s, I tr s →
     wp G (λ tr', after
             (λ r, Q tr' (Some r) ∧
                   ∀ e, fst r = Some e → IsConflict e = true → I tr' (snd r))
             (Q tr' None)) (fn s) tr) →
  I tr s → wp G Q (RetryOnConflict fn s) tr.
Proof.
  intros Hfn. rewrite RetryOnConflict_spec. revert s tr.
  induction retries as [|n IH]; intros s tr HI; cbn [retry_attempts];
    apply wp_bind; (eapply wp_mono; [by apply Hfn|]);
    intros tr' [[err s']|]; try done; cbn; intros [HQ HI'];
    destruct err as [e|]; try done.
  destruct (IsConflict e) eqn:He; [|done]. apply IH. eauto.
Qed.

Lemma triple_retry (S : call → Prop) (Q : option (option error * St) → Prop)
    (I : St → Prop) fn s :
  (∀ s, I s →
     triple S (after (λ r, Q (Some r) ∧ (is_Some (fst r) → I (snd r))) (Q None)) (fn s)) →
  I s → triple S Q (RetryOnConflict fn s).
Proof.
  intros Hfn. rewrite RetryOnConflict_spec. revert s.
  induction retries as [|n IH]; intros s HI; cbn [retry_attempts];
    apply triple_bind; (eapply triple_mono; [by apply Hfn|done|]);
    intros [[err s']|]; try done; cbn; intros [HQ HI'];
    destruct err as [e|]; try done.
  destruct (IsConflict e) eqn:He; [|done]. apply IH. eauto.
Qed.

(** A retried operation makes the calls of its attempts and returns when they do. *)
Lemma triple_retry_returns (S S' : call → Prop) (Q : option (option error * St) → Prop) fn s :
  (∀ s, Spec (fn s) S returns) → covers S S' → (∀ r, Q (Some r)) →
  triple S' Q (RetryOnConflict fn s).
Proof.
  intros Hfn HS HQ. apply (triple_retry _ _ (λ _, True)); [|done].
  intros s' _. eapply triple_spec; [apply Hfn|done|]. outcome_cases. by split.
Qed.

Lemma along_retry ok (Q : option (option error * St) → Prop) (I : St → Prop) fn s :
  (∀ s, I s →
     along ok (after (λ r, Q (Some r) ∧
                           ∀ e, fst r = Some e → IsConflict e = true → I (snd r))
                 (Q None)) (fn s)) →
  I s → along ok Q (RetryOnConflict fn s).
Proof.
  intros Hfn. rewrite RetryOnConflict_spec. revert s.
  induction retries as [|n IH]; intros s HI; cbn [retry_attempts];
    apply along_bind; (eapply along_mono; [by apply Hfn|]);
    intros [[err s']|]; try done; cbn; intros [HQ HI'];
    destruct err as [e|]; try done.
  destruct (IsConflict e) eqn:He; [|done]. apply IH. eauto.
Qed.

(** A first attempt that succeeds is the whole retry. *)
Lemma run_retry_ok {W} (h : handler W) fn s w s' :
  run_outcome h (fn s) w = Some (None, s') →
  run h (RetryOnConflict fn s) w = run h (fn s) w.
Proof.
  intros Hout. rewrite RetryOnConflict_spec.
  assert (retry_attempts IsConflict retries fn s =
          '(err, s') ← fn s;
          match err with
          | None => mret (None, s')
          | Some e =>
              match retries with
              | S n' => if IsConflict e then retry_attempts IsConflict n' fn s'
                        else mret (Some e, s')
              | 0 => mret (Some e, s')
              end
          end) as -> by (by destruct retries).
  rewrite run_bind. unfold run_outcome in Hout.
  destruct (run h (fn s) w) as [[tr o] w']. simpl in Hout. subst o. cbn.
  by rewrite app_nil_r.
Qed.
End Retry.

(** ** A concrete instance *)

Module DocExternals.
Local Open Scope string_scope.

(** The code of the API status behind an error. *)
Fixpoint reason (e : error) : string :=
  match e with
  | ExternalError code _ => code
  | WrapError _ e' => reason e'
  | _ => ""
  end.

Definition has_reason (r : string) (e : error) : bool := bool_decide (reason e = r).

Definition requirement_matches (r : LabelSelectorRequirement) (ls : gmap string string)
  : option bool :=
  let v := ls !! lsr_Key r in
  let among := match v with Some x => bool_decide (x ∈ lsr_Values r) | None => false end in
  if bool_decide (lsr_Operator r = "In") then Some among
  else if bool_decide (lsr_Operator r = "NotIn") then Some (negb among)
  else if bool_decide (lsr_Operator r = "Exists")
       then Some (match v with Some _ => true | None => false end)
  else if bool_decide (lsr_Operator r = "DoesNotExist")
       then Some (match v with Some _ => false | None => true end)
  else None.

Definition as_selector (s : LabelSelector) : error + (gmap string string → bool) :=
  if forallb (λ r, match requirement_matches r ∅ with Some _ => true | None => false end)
       (ls_MatchExpressions s)
  then inr (λ ls,
         forallb (λ kv, bool_decide (ls !! fst kv = Some (snd kv)))
           (map_to_list (ls_MatchLabels s)) &&
         forallb (λ r, match requirement_matches r ls with Some b => b | None => false end)
           (ls_MatchExpressions s))
  else inl (ErrorString "not a valid label selector operator").

(** Insertion sort, stable, by the given order. *)
Fixpoint insert_by {A} (less : A → A → bool) (x : A) (l : list A) : list A :=
  match l with
  | [] => [x]
  | y :: l' => if less y x then y :: insert_by less x l' else x :: l
  end.

Definition sort_by {A} (less : A → A → bool) (l : list A) : list A :=
  foldr (insert_by less) [] l.

Definition diff (less : PersistentVolumeClaim → PersistentVolumeClaim → bool)
    (x y : list PersistentVolumeClaim) : string :=
  if decide (sort_by less x = sort_by less y) then "" else "- x + y".

Definition externals : Externals := {|
  IsNotFound := has_reason "NotFound";
  IsConflict := has_reason "Conflict";
  IsAlreadyExists := has_reason "AlreadyExists";
  IsNoMatchError := has_reason "NoMatch";
  status_FromError e :=
    match e with ExternalError "Internal" m => Some (13%N, m) | _ => None end;
  Selector := gmap string string → bool;
  LabelSelectorAsSelector := as_selector;
  Selector_Matches s := s;
  cmp_Diff_SortSlices := diff;
  ObjectKind_String := tm_Kind;
  GVK_Kind := tm_Kind;
  GVK_Version := tm_APIVersion;
  RetryOnConflict St := retry_attempts (has_reason "Conflict") 4;
  decode_reuses_array := true;
|}.

Lemma laws : ExternalLaws externals.
Proof.
  refine {| retries := 4 |}; try done.
  simpl. unfold has_reason. intros e. rewrite bool_decide_eq_true.
  intros ->. done.
Defined.
End DocExternals.
