(* ===== verification/Objects.v ===== *)
(** * Generic operations on API objects

    [controllers/common/utils/strings.go], [controllers/utils/utils.go],
    [controllers/utils/event.go], the generic part of
    [controllers/utils/controller_utils.go] and the messages of
    [controllers/utils/handle_messages.go] that only create an event. *)

From Stdlib Require Import Ascii.
From S2P Require Import Prelude GoLang Api Effects Externals.

(** ** controllers/common/utils/strings.go *)

Fixpoint Contains (slice : list string) (s : string) : bool :=
  match slice with
  | [] => false
  | item :: rest => if decide (item = s) then true else Contains rest s
  end.

Fixpoint Remove_loop (slice : list string) (s : string) (result : list string) : list string :=
  match slice with
  | [] => result
  | item :: rest =>
      if decide (item = s) then Remove_loop rest s result
      else Remove_loop rest s (result ++ [item])
  end.

Definition Remove (slice : list string) (s : string) : list string := Remove_loop slice s [].

Lemma Contains_spec l s : Contains l s = true ↔ s ∈ l.
Proof.
  induction l as [|x l IH]; simpl; [set_solver|].
  rewrite elem_of_cons. case_decide; [|rewrite IH]; intuition congruence.
Qed.

Lemma Contains_false l s : Contains l s = false ↔ s ∉ l.
Proof. rewrite <- Contains_spec. by destruct (Contains l s). Qed.

Lemma Remove_loop_spec l s acc : Remove_loop l s acc = acc ++ filter (λ x, x ≠ s) l.
Proof.
  revert acc. induction l as [|x l IH]; intros acc; simpl; [by rewrite app_nil_r|].
  rewrite filter_cons, !IH. destruct (decide (x = s)) as [->|Hx].
  - by rewrite decide_False by auto.
  - by rewrite decide_True, <- app_assoc by done.
Qed.

Lemma Remove_spec l s : Remove l s = filter (λ x, x ≠ s) l.
Proof. apply Remove_loop_spec. Qed.

Lemma elem_of_Remove l s x : x ∈ Remove l s ↔ x ∈ l ∧ x ≠ s.
Proof. rewrite Remove_spec, list_elem_of_filter. tauto. Qed.

Lemma Contains_Remove l s : Contains (Remove l s) s = false.
Proof. rewrite Contains_false, elem_of_Remove. tauto. Qed.

Lemma Remove_not_in l s : s ∉ l → Remove l s = l.
Proof.
  intros Hs. rewrite Remove_spec. induction l as [|x l IH]; [done|].
  rewrite filter_cons. rewrite not_elem_of_cons in Hs. destruct Hs as [Hx Hl].
  rewrite decide_True by done. by rewrite IH.
Qed.

(** ** controllers/utils/utils.go: reflection *)

Fixpoint find_field (fieldName : string) (fs : list (string * gvalue)) : rvalue :=
  match fs with
  | [] => None
  | (n, v) :: rest => if decide (n = fieldName) then Some v else find_field fieldName rest
  end.

Definition GetObjectField (object : gvalue) (fieldName : string) : option rvalue :=
  objectValue ← (if kind_is_Ptr (Some object) then Elem (Some object) else Some (Some object));
  if negb (IsValid objectValue) then Some None
  else fs ← struct_fields objectValue; Some (find_field fieldName fs).

Definition GetStringField (object : gvalue) (fieldName : string) : option string :=
  fieldValue ← GetObjectField object fieldName;
  if negb (IsValid fieldValue) then Some ""%string
  else if kind_is_String fieldValue then Some (ValueString fieldValue)
  else
    isNil ← (if kind_is_Ptr fieldValue then IsNil fieldValue else Some false);
    if (isNil : bool) then Some ""%string
    else v ← Elem fieldValue; Some (ValueString v).

Definition GetBoolField (object : gvalue) (fieldName : string) : option bool :=
  fieldValue ← GetObjectField object fieldName;
  if negb (IsValid fieldValue) then Some false
  else
    isNil ← (if kind_is_Ptr fieldValue then IsNil fieldValue else Some false);
    if (isNil : bool) then Some false
    else v ← Elem fieldValue; ValueBool v.

(** The reads the operator makes: none of them can panic. *)
Definition or_empty (o : option string) : string := default ""%string o.

Lemma GetStringField_vg_class s :
  GetStringField (to_value s) "VolumeGroupClassName" =
  Some (or_empty (vgspec_VolumeGroupClassName s)).
Proof. by destruct s as [[]]. Qed.

Lemma GetStringField_vg_content s :
  GetStringField (to_value s) "VolumeGroupContentName" =
  Some (or_empty (vgsrc_VolumeGroupContentName s)).
Proof. by destruct s as [[]]. Qed.

Lemma GetStringField_vgc_class s :
  GetStringField (to_value s) "VolumeGroupClassName" =
  Some (or_empty (vgcspec_VolumeGroupClassName s)).
Proof. by destruct s as [[]]. Qed.

Lemma GetStringField_vgc_policy s :
  GetStringField (to_value s) "VolumeGroupDeletionPolicy" =
  Some (or_empty (vgcspec_VolumeGroupDeletionPolicy s)).
Proof. by destruct s as [? ? ? []]. Qed.

Lemma GetStringField_claim_name (r : option ObjectReference) :
  GetStringField (to_value r) "Name" = Some (or_empty (or_Name <$> r)).
Proof. by destruct r. Qed.

Lemma GetStringField_claim_namespace (r : option ObjectReference) :
  GetStringField (to_value r) "Namespace" = Some (or_empty (or_Namespace <$> r)).
Proof. by destruct r. Qed.

Lemma GetStringField_volume_name (s : PersistentVolumeClaimSpec) :
  GetStringField (to_value s) "VolumeName" = Some (pvcs_VolumeName s).
Proof. by destruct s. Qed.

Lemma GetBoolField_ready s :
  GetBoolField (to_value s) "Ready" = Some (default false (vgcst_Ready s)).
Proof. by destruct s as [? ? []]. Qed.

Lemma GetObjectField_vgc_ref s :
  (GetObjectField (to_value s) "VolumeGroupRef" ≫= IsNil) =
  Some (match vgcspec_VolumeGroupRef s with None => true | Some _ => false end).
Proof. by destruct s as [? []]. Qed.

Lemma GetObjectField_vgc_source s :
  (GetObjectField (to_value s) "Source" ≫= IsNil) =
  Some (match vgcspec_Source s with None => true | Some _ => false end).
Proof. by destruct s as [? ? []]. Qed.

Create Rewrite HintDb reflect.
#[export] Hint Rewrite GetStringField_vg_class GetStringField_vg_content
  GetStringField_vgc_class GetStringField_vgc_policy GetStringField_claim_name
  GetStringField_claim_namespace GetStringField_volume_name GetBoolField_ready
  GetObjectField_vgc_ref GetObjectField_vgc_source : reflect.

(** ** controllers/utils/utils.go: names and time *)

Definition GetCurrentTime : prog Z := trigger CNow.

Definition MakeVGName (prefix vgUID : string) : error + string :=
  if decide (String.length vgUID = 0)
  then inl (Errorf "Corrupted volumeGroup object, it is missing UID" [])
  else inr (Sprintf "%s-%s" [AStr prefix; AStr vgUID]).

(** ** controllers/utils/controller_utils.go: objects *)

Section Objects.
Context `{Externals}.

Definition UpdateObject (K : Kind) (updateObject : obj_of K) : prog (option error * obj_of K) :=
  r ← trigger (CUpdate K updateObject);
  match r with
  | inl err =>
      mret (Some (WrapError (Sprintf "failed to update %s (%s/%s) %w"
                    [AStr (ObjectKind_String (GetObjectKind K updateObject));
                     AStr (GetNamespace K updateObject); AStr (GetName K updateObject);
                     AStr (Error err)]) err), updateObject)
  | inr o => mret (None, o)
  end.

Definition UpdateObjectStatus (K : Kind) (updateObject : obj_of K)
  : prog (option error * obj_of K) :=
  r ← trigger (CStatusUpdate K updateObject);
  match r with
  | inl err =>
      if IsConflict err then mret (Some err, updateObject)
      else
        mret (Some (WrapError (Sprintf "failed to update %s (%s/%s) status %w"
                      [AStr (ObjectKind_String (GetObjectKind K updateObject));
                       AStr (GetNamespace K updateObject); AStr (GetName K updateObject);
                       AStr (Error err)]) err), updateObject)
  | inr o => mret (None, o)
  end.

Definition getNamespacedObject (K : Kind) (obj : obj_of K) : prog (option error * obj_of K) :=
  r ← trigger (CGet K (mkNN (GetNamespace K obj) (GetName K obj)));
  match r with
  | inl err => mret (Some err, obj)
  | inr o => mret (None, o)
  end.

Definition GetMessageFromError (err : error) : string :=
  match status_FromError err with
  | None => Error err
  | Some (_, m) => m
  end.

(** [letterBytes[rand.Intn(len(letterBytes))]]; [rand.Intn] is taken modulo
    its bound. *)
Definition letter (n : nat) : ascii :=
  default "0"%char (String.get (n mod String.length letterBytes) letterBytes).

Definition generateString : prog string :=
  _ ← trigger CNow;
  ints ← trigger (CRandInts 16);
  mret (String.string_of_list_ascii ((λ i, letter (nth i ints 0)) <$> seq 0 16)).

(** ** controllers/utils/event.go *)

Definition generateEvent (K : Kind) (object : obj_of K) (reason message eventType : string)
  : prog Event :=
  suffix ← generateString;
  now ← trigger CNow;
  mret {| ev_TypeMeta := {| tm_Kind := ""; tm_APIVersion := "" |};
          ev_ObjectMeta :=
            {| om_Name := Sprintf "%s.%s" [AStr (GetName K object); AStr suffix];
               om_Namespace := GetNamespace K object;
               om_UID := ""; om_ResourceVersion := ""; om_Generation := 0;
               om_Labels := ∅; om_Annotations := ∅; om_Finalizers := [];
               om_DeletionTimestamp := None |};
          ev_ReportingController := vgController;
          ev_InvolvedObject :=
            {| or_Kind := GVK_Kind (GetObjectKind K object);
               or_Namespace := GetNamespace K object;
               or_Name := GetName K object;
               or_UID := GetUID K object;
               or_APIVersion := GVK_Version (GetObjectKind K object);
               or_ResourceVersion := "" |};
          ev_Reason := reason;
          ev_Message := message;
          ev_Type := eventType;
          ev_FirstTimestamp := now |}.

Definition createEvent (event : Event) : prog (option error) :=
  r ← trigger (CCreate KEvent event);
  match r with
  | inl err => mret (Some err)
  | inr _ => mret None
  end.

Definition createSuccessNamespacedObjectEvent (K : Kind) (object : obj_of K)
    (message reason : string) : prog (option error) :=
  event ← generateEvent K object reason message normalEventType;
  createEvent event.

Definition createNamespacedObjectErrorEvent (K : Kind) (object : obj_of K)
    (errorMessage reason : string) : prog (option error) :=
  event ← generateEvent K object reason errorMessage warningEventType;
  createEvent event.

(** ** controllers/utils/handle_messages.go: messages that are only an event *)

Definition HandlePVCErrorMessage (pvc : PersistentVolumeClaim) (err : option error)
    (reason : string) : prog (option error) :=
  match err with
  | Some err =>
      uErr ← createNamespacedObjectErrorEvent KPVC pvc (GetMessageFromError err) reason;
      match uErr with
      | Some uErr => mret (Some uErr)
      | None => mret None
      end
  | None => mret None
  end.

(** [vgc] is a pointer, nil after a failed [GetVGC]. *)
Definition HandleVGCErrorMessage (vgc : option VolumeGroupContent) (err : option error)
    (reason : string) : prog (option error) :=
  match err with
  | Some e =>
      let errorMessage := GetMessageFromError e in
      vgc ← deref vgc;
      uErr ← createNamespacedObjectErrorEvent KVGC vgc errorMessage reason;
      match uErr with
      | Some uErr => mret (Some uErr)
      | None => mret (Some e)
      end
  | None => mret None
  end.
End Objects.

(** ** Calls and results *)

Section Specs.
Context `{Externals}.

Definition event_calls (c : call) : Prop :=
  match c with CNow | CRandInts _ | CCreate KEvent _ => True | _ => False end.

Definition now_calls (c : call) : Prop :=
  match c with CNow => True | _ => False end.

#[export] Instance GetCurrentTime_spec : Spec GetCurrentTime now_calls returns.
Proof. unfold GetCurrentTime, Spec. solve_triple. Qed.

Definition update_calls (K : Kind) (c : call) : Prop :=
  match c with CUpdate K' _ => K' = K | _ => False end.

Definition status_calls (K : Kind) (c : call) : Prop :=
  match c with CStatusUpdate K' _ => K' = K | _ => False end.

Definition get_calls (K : Kind) (c : call) : Prop :=
  match c with CGet K' _ => K' = K | _ => False end.

#[export] Instance UpdateObject_spec K o : Spec (UpdateObject K o) (update_calls K) returns.
Proof. unfold UpdateObject, Spec. solve_triple. Qed.

#[export] Instance UpdateObjectStatus_spec K o :
  Spec (UpdateObjectStatus K o) (status_calls K) returns.
Proof. unfold UpdateObjectStatus, Spec. solve_triple. Qed.

#[export] Instance getNamespacedObject_spec K o :
  Spec (getNamespacedObject K o) (get_calls K) returns.
Proof. unfold getNamespacedObject, Spec. solve_triple. Qed.

#[export] Instance createSuccessNamespacedObjectEvent_spec K o m r :
  Spec (createSuccessNamespacedObjectEvent K o m r) event_calls returns.
Proof.
  unfold createSuccessNamespacedObjectEvent, generateEvent, generateString, createEvent, Spec.
  solve_triple.
Qed.

#[export] Instance createNamespacedObjectErrorEvent_spec K o m r :
  Spec (createNamespacedObjectErrorEvent K o m r) event_calls returns.
Proof.
  unfold createNamespacedObjectErrorEvent, generateEvent, generateString, createEvent, Spec.
  solve_triple.
Qed.

#[export] Instance HandlePVCErrorMessage_spec pvc err reason :
  Spec (HandlePVCErrorMessage pvc err reason) event_calls returns.
Proof. unfold HandlePVCErrorMessage, Spec. solve_triple. Qed.

(** An error that is handled is still an error. *)
#[export] Instance HandleVGCErrorMessage_spec vgc e reason :
  Spec (HandleVGCErrorMessage (Some vgc) (Some e) reason) event_calls (after is_Some False).
Proof. unfold HandleVGCErrorMessage, Spec. solve_triple. Qed.

(** A nil object makes the handling of the error panic, before any call. *)
Lemma HandleVGCErrorMessage_nil e reason :
  HandleVGCErrorMessage None (Some e) reason = Panic nil_deref.
Proof. reflexivity. Qed.
End Specs.
