(* ===== verification/Params.v ===== *)
(** * Classes, parameters, secrets, labels

    [controllers/utils/parameters.go], [secret.go], [volumegroupclass.go],
    [storageclass.go] and [labels.go].

    A Go map is ranged over in an order the program does not know: [range_map]
    asks the world for it, and [arrange] makes any answer a permutation of the
    entries. *)

From S2P Require Import Prelude GoLang Api Effects Externals Objects.

Definition range_map {V} (m : gmap string V) : prog (list (string * V)) :=
  r ← trigger CMapOrder;
  mret (arrange r (map_to_list m)).

(** ** parameters.go *)

Fixpoint FilterPrefixedParameters_loop (prefix : string) (entries : list (string * string))
    (newParam : gmap string string) : gmap string string :=
  match entries with
  | [] => newParam
  | (k, v) :: rest =>
      if negb (str_HasPrefix k prefix)
      then FilterPrefixedParameters_loop prefix rest (<[k := v]> newParam)
      else FilterPrefixedParameters_loop prefix rest newParam
  end.

Definition FilterPrefixedParameters (prefix : string) (param : gmap string string)
  : prog (gmap string string) :=
  entries ← range_map param;
  mret (FilterPrefixedParameters_loop prefix entries ∅).

Fixpoint ValidatePrefixedParameters_loop (entries : list (string * string)) : option error :=
  match entries with
  | [] => None
  | (k, v) :: rest =>
      if str_HasPrefix k VGAsPrefix then
        if decide (k = PrefixedVGSecretNameKey) then
          if decide (v = "")%string
          then Some (ErrorString "secret name cannot be empty")
          else ValidatePrefixedParameters_loop rest
        else if decide (k = PrefixedVGSecretNamespaceKey) then
          if decide (v = "")%string
          then Some (ErrorString "secret namespace cannot be empty")
          else ValidatePrefixedParameters_loop rest
        else Some (Errorf "found unknown parameter key %q with reserved prefix %s"
                     [AStr k; AStr VGAsPrefix])
      else ValidatePrefixedParameters_loop rest
  end.

Definition ValidatePrefixedParameters (param : gmap string string) : prog (option error) :=
  entries ← range_map param;
  mret (ValidatePrefixedParameters_loop entries).

(** ** secret.go *)

Fixpoint convertMap_loop (entries : list (string * list Byte.byte)) (newMap : gmap string string)
  : gmap string string :=
  match entries with
  | [] => newMap
  | (key, val) :: rest =>
      convertMap_loop rest (<[key := String.string_of_list_byte val]> newMap)
  end.

Definition convertMap (oldMap : gmap string (list Byte.byte)) : prog (gmap string string) :=
  entries ← range_map oldMap;
  mret (convertMap_loop entries ∅).

Definition getSecretData (name namespace : string) : prog (error + gmap string string) :=
  r ← trigger (CGet KSecret (mkNN namespace name));
  match r with
  | inl err => mret (inl err)
  | inr secret => data ← convertMap (sec_Data secret); mret (inr data)
  end.

Definition GetSecretCred (vgClass : VolumeGroupClass) : string * string :=
  (or_empty (vgclass_Parameters vgClass !! PrefixedVGSecretNameKey),
   or_empty (vgclass_Parameters vgClass !! PrefixedVGSecretNamespaceKey)).

Definition GetSecretDataFromClass (vgClass : VolumeGroupClass)
  : prog (error + gmap string string) :=
  let '(secretName, secretNamespace) := GetSecretCred vgClass in
  if decide (secretName ≠ "" ∧ secretNamespace ≠ "")%string
  then
    r ← getSecretData secretName secretNamespace;
    match r with
    | inl err => mret (inl err)
    | inr secret => mret (inr secret)
    end
  else mret (inr ∅).

(** ** volumegroupclass.go *)

Definition GetVGClass (vgClassName : string) : prog (error + VolumeGroupClass) :=
  if decide (vgClassName = "")%string
  then mret (inl (Errorf "VolumeGroupClass name is empty" []))
  else trigger (CGet KVGClass (mkNN "" vgClassName)).

Definition getVGClassDriver (vgClassName : string) : prog (error + string) :=
  r ← GetVGClass vgClassName;
  match r with
  | inl err => mret (inl err)
  | inr vgClass => mret (inr (vgclass_Driver vgClass))
  end.

(** ** storageclass.go *)

Definition GetPVCClass (claim : PersistentVolumeClaim) : error + string :=
  match om_Annotations (pvc_ObjectMeta claim) !! BetaStorageClassAnnotation with
  | Some class => inr class
  | None =>
      match pvcs_StorageClassName (pvc_Spec claim) with
      | Some n => inr n
      | None => inl (Errorf messages.FailedToGetStorageClassName [AStr (GetName KPVC claim)])
      end
  end.

Definition getStorageClass (scName : string) : prog (error + StorageClass) :=
  trigger (CGet KSC (mkNN "" scName)).

Definition getStorageClassProvisioner (scName : string) : prog (error + string) :=
  r ← getStorageClass scName;
  match r with
  | inl err => mret (inl err)
  | inr sc => mret (inr (sc_Provisioner sc))
  end.

Definition isSCHasParam (sc : StorageClass) (param : string) : bool :=
  match sc_Parameters sc !! param with Some _ => true | None => false end.

(** ** labels.go *)

Section Labels.
Context `{Externals}.

Definition isSelectorMatchesLabels (selector : Selector) (labelsToCheck : gmap string string)
  : bool := Selector_Matches selector labelsToCheck.

Definition areLabelsMatchLabelSelector (labelsToCheck : gmap string string)
    (labelSelector : LabelSelector) : error + bool :=
  match LabelSelectorAsSelector labelSelector with
  | inl err => inl (MatchingLabelsAndLabelSelectorError (Error err))
  | inr selector => inr (isSelectorMatchesLabels selector labelsToCheck)
  end.
End Labels.

(** ** Calls and results *)

Definition map_order_calls (c : call) : Prop :=
  match c with CMapOrder => True | _ => False end.

#[export] Instance range_map_spec {V} (m : gmap string V) :
  Spec (range_map m) map_order_calls (after (λ entries, entries ≡ₚ map_to_list m) False).
Proof. split; [exact I|]. intros r. cbn. apply arrange_Permutation. Qed.

(** Every order of the entries can be met. *)
Lemma range_map_any_order {V} (m : gmap string V) entries :
  entries ≡ₚ map_to_list m → ∃ tr, executes (range_map m) tr (Some entries).
Proof.
  intros Hp. symmetry in Hp. destruct (arrange_complete _ _ Hp) as [r <-].
  exists [Ev CMapOrder r]. unfold range_map, trigger. simpl.
  apply (exec_call CMapOrder). constructor.
Qed.

Lemma FilterPrefixedParameters_loop_spec prefix entries acc m :
  entries ≡ₚ map_to_list m →
  FilterPrefixedParameters_loop prefix entries acc =
  filter (λ kv, str_HasPrefix (fst kv) prefix = false) m ∪ acc.
Proof.
  revert m acc. induction entries as [|[k v] rest IH]; intros m acc Hp.
  - symmetry in Hp. apply Permutation_nil_r, map_to_list_empty_iff in Hp as ->.
    by rewrite map_filter_empty, (left_id_L ∅ (∪)).
  - assert (m !! k = Some v) as Hk by (apply elem_of_map_to_list; rewrite <- Hp; by left).
    assert (rest ≡ₚ map_to_list (delete k m)) as Hrest.
    { apply (Permutation_cons_inv (a := (k, v))). rewrite Hp. symmetry.
      by apply map_to_list_delete. }
    simpl. destruct (str_HasPrefix k prefix) eqn:Hpre; cbn [negb].
    + rewrite (IH _ _ Hrest). f_equal. apply map_eq. intros i.
      rewrite !map_lookup_filter. destruct (decide (i = k)) as [->|Hi].
      * rewrite lookup_delete_eq, Hk. simpl. by rewrite option_guard_False by congruence.
      * by rewrite lookup_delete_ne by done.
    + rewrite (IH _ _ Hrest). apply map_eq. intros i.
      destruct (decide (i = k)) as [->|Hi].
      * rewrite lookup_union_r.
        2:{ rewrite map_lookup_filter, lookup_delete_eq. done. }
        rewrite lookup_insert_eq. symmetry. apply lookup_union_Some_l.
        apply map_lookup_filter_Some. done.
      * rewrite !lookup_union, lookup_insert_ne, !map_lookup_filter,
          lookup_delete_ne by done. done.
Qed.

#[export] Instance FilterPrefixedParameters_spec prefix param :
  Spec (FilterPrefixedParameters prefix param) map_order_calls
    (λ o, o = Some (filter (λ kv, str_HasPrefix (fst kv) prefix = false) param)).
Proof.
  unfold FilterPrefixedParameters, Spec. solve_triple.
  by rewrite (FilterPrefixedParameters_loop_spec _ _ _ _ Hr), (right_id_L ∅ (∪)).
Qed.

(** A parameter the validation accepts. *)
Definition valid_parameter (k v : string) : Prop :=
  str_HasPrefix k VGAsPrefix = true →
  (k = PrefixedVGSecretNameKey ∨ k = PrefixedVGSecretNamespaceKey) ∧ v ≠ ""%string.

Lemma ValidatePrefixedParameters_loop_spec entries :
  ValidatePrefixedParameters_loop entries = None ↔
  ∀ k v, (k, v) ∈ entries → valid_parameter k v.
Proof.
  unfold valid_parameter.
  induction entries as [|[k v] rest IH]; simpl; [set_solver|].
  assert (∀ P : Prop, (∀ k0 v0, (k0, v0) ∈ (k, v) :: rest → valid_parameter k0 v0) ↔
            valid_parameter k v ∧ ∀ k0 v0, (k0, v0) ∈ rest → valid_parameter k0 v0) as Hsplit.
  { intros _. setoid_rewrite elem_of_cons. naive_solver. }
  unfold valid_parameter in Hsplit. rewrite (Hsplit True). clear Hsplit.
  destruct (str_HasPrefix k VGAsPrefix); [|rewrite IH; naive_solver].
  repeat case_decide; rewrite ?IH; naive_solver.
Qed.

#[export] Instance ValidatePrefixedParameters_spec param :
  Spec (ValidatePrefixedParameters param) map_order_calls
    (after (λ res, res = None ↔ map_Forall valid_parameter param) False).
Proof.
  unfold ValidatePrefixedParameters, Spec. solve_triple.
  rewrite ValidatePrefixedParameters_loop_spec. split.
  - intros Hv k v Hk. apply Hv. rewrite Hr. by apply elem_of_map_to_list.
  - intros Hv k v Hin. apply Hv. rewrite Hr in Hin. by apply elem_of_map_to_list in Hin.
Qed.

Lemma convertMap_loop_spec entries acc (m : gmap string (list Byte.byte)) :
  entries ≡ₚ map_to_list m →
  convertMap_loop entries acc = (String.string_of_list_byte <$> m) ∪ acc.
Proof.
  revert m acc. induction entries as [|[k v] rest IH]; intros m acc Hp.
  - symmetry in Hp. apply Permutation_nil_r, map_to_list_empty_iff in Hp as ->.
    by rewrite fmap_empty, (left_id_L ∅ (∪)).
  - assert (m !! k = Some v) as Hk by (apply elem_of_map_to_list; rewrite <- Hp; by left).
    assert (rest ≡ₚ map_to_list (delete k m)) as Hrest.
    { apply (Permutation_cons_inv (a := (k, v))). rewrite Hp. symmetry.
      by apply map_to_list_delete. }
    simpl. rewrite (IH _ _ Hrest). apply map_eq. intros i.
    rewrite !lookup_union, !lookup_fmap.
    destruct (decide (i = k)) as [->|Hi].
    + rewrite lookup_delete_eq, lookup_insert_eq, Hk. simpl. by destruct (acc !! k).
    + by rewrite lookup_delete_ne, lookup_insert_ne by done.
Qed.

#[export] Instance convertMap_spec m :
  Spec (convertMap m) map_order_calls (λ o, o = Some (String.string_of_list_byte <$> m)).
Proof.
  unfold convertMap, Spec. solve_triple.
  by rewrite (convertMap_loop_spec _ _ _ Hr), (right_id_L ∅ (∪)).
Qed.

Definition secret_calls (c : call) : Prop :=
  match c with CGet KSecret _ | CMapOrder => True | _ => False end.

#[export] Instance GetSecretDataFromClass_spec vgClass :
  Spec (GetSecretDataFromClass vgClass) secret_calls returns.
Proof. unfold GetSecretDataFromClass, getSecretData, Spec. solve_triple. Qed.

Definition class_calls (c : call) : Prop :=
  match c with CGet KVGClass _ => True | _ => False end.

#[export] Instance GetVGClass_spec n : Spec (GetVGClass n) class_calls returns.
Proof. unfold GetVGClass, Spec. solve_triple. Qed.

#[export] Instance getVGClassDriver_spec n : Spec (getVGClassDriver n) class_calls returns.
Proof. unfold getVGClassDriver, Spec. solve_triple. Qed.

Definition sc_calls (c : call) : Prop :=
  match c with CGet KSC _ => True | _ => False end.

#[export] Instance getStorageClass_spec n : Spec (getStorageClass n) sc_calls returns.
Proof. unfold getStorageClass, Spec. solve_triple. Qed.

#[export] Instance getStorageClassProvisioner_spec n :
  Spec (getStorageClassProvisioner n) sc_calls returns.
Proof. unfold getStorageClassProvisioner, Spec. solve_triple. Qed.
