(* ===== verification/VolumeGroups.v ===== *)
(** * VolumeGroup objects

    [controllers/utils/volumegroup.go] and the VolumeGroup part of
    [controllers/utils/handle_messages.go].

    A VolumeGroup is passed by pointer: an operation that may write it returns
    the object as the caller finds it afterwards, next to the Go result. *)

From S2P Require Import Prelude GoLang Api Effects Externals Objects Params.

(** ** Lists of claims *)

(** The test [a.Name == b.Name && a.Namespace == b.Namespace]. *)
Definition same_pvc (a b : PersistentVolumeClaim) : bool :=
  bool_decide (GetName KPVC a = GetName KPVC b) &&
  bool_decide (GetNamespace KPVC a = GetNamespace KPVC b).

Definition removeByIndexFromPVCList (pvcList : list PersistentVolumeClaim) (index : nat)
  : list PersistentVolumeClaim := remove_at index pvcList.

Definition removeFromPVCList (pvc : PersistentVolumeClaim)
    (pvcList : list PersistentVolumeClaim) : list PersistentVolumeClaim :=
  match index_of (λ pvcFromList, same_pvc pvcFromList pvc) pvcList with
  | Some index => removeByIndexFromPVCList pvcList index
  | None => pvcList
  end.

Definition appendPVC (pvcListInVG : list PersistentVolumeClaim) (pvc : PersistentVolumeClaim)
  : list PersistentVolumeClaim :=
  if existsb (λ pvcFromList, same_pvc pvcFromList pvc) pvcListInVG
  then pvcListInVG
  else pvcListInVG ++ [pvc].

Definition IsPVCInPVCList (pvc : PersistentVolumeClaim) (pvcList : list PersistentVolumeClaim)
  : bool := existsb (λ pvcFromList, same_pvc pvcFromList pvc) pvcList.

Definition IsPVCPartAnyVG (pvc : PersistentVolumeClaim) (vgs : list VolumeGroup) : bool :=
  existsb (λ vg, IsPVCInPVCList pvc (vgst_PVCList (vg_Status vg))) vgs.

(** ** Operations *)

Section VolumeGroups.
Context `{Externals}.

Definition GetVG (vgName vgNamespace : string) : prog (error + VolumeGroup) :=
  trigger (CGet KVG (mkNN vgNamespace vgName)).

Definition GetVGC (vgcName vgcNamespace : string) : prog (error + VolumeGroupContent) :=
  trigger (CGet KVGC (mkNN vgcNamespace vgcName)).

Definition IsVgExist (vgc : VolumeGroupContent) : prog (error + bool) :=
  isNil ← or_panic "reflect: call of IsNil on zero Value"
            (GetObjectField (to_value (vgc_Spec vgc)) "VolumeGroupRef" ≫= IsNil);
  if negb isNil then
    ref ← deref (vgcspec_VolumeGroupRef (vgc_Spec vgc));
    r ← GetVG (or_Name ref) (or_Namespace ref);
    match r with
    | inl err => if negb (IsNotFound err) then mret (inl err) else mret (inr false)
    | inr _ => mret (inr true)
    end
  else mret (inr false).

Definition UpdateVGSourceContent (instance : VolumeGroup) (vgcName : string)
  : prog (option error * VolumeGroup) :=
  let instance := set_vg_VolumeGroupContentName (Some vgcName) instance in
  '(err, instance) ← UpdateObject KVG instance;
  match err with
  | Some err => mret (Some err, instance)
  | None => mret (None, instance)
  end.

Definition updateVGStatus (vg : VolumeGroup) : prog (option error * VolumeGroup) :=
  '(err, vg) ← UpdateObjectStatus KVG vg;
  match err with
  | Some err => if IsConflict err then mret (Some err, vg) else mret (Some err, vg)
  | None => mret (None, vg)
  end.

Definition vgRetryOnConflictFunc (vg : VolumeGroup) : prog (option error * VolumeGroup) :=
  '(err, vg) ← updateVGStatus vg;
  if on_err IsConflict err then
    '(uErr, vg) ← getNamespacedObject KVG vg;
    match uErr with
    | Some uErr => mret (Some uErr, vg)
    | None => mret (err, vg)
    end
  else mret (err, vg).

(** The status fields [UpdateVGStatus] sets before each attempt. *)
Definition set_vg_bound (vgcName : string) (groupCreationTime : option Z) (ready : bool)
  : VolumeGroup → VolumeGroup :=
  set_vg_Status (λ st,
    {| vgst_BoundVolumeGroupContentName := Some vgcName;
       vgst_GroupCreationTime := groupCreationTime;
       vgst_PVCList := vgst_PVCList st;
       vgst_Ready := Some ready;
       vgst_Error := None |}).

Definition UpdateVGStatus (vg : VolumeGroup) (vgcName : string) (groupCreationTime : option Z)
    (ready : bool) : prog (option error * VolumeGroup) :=
  '(err, vg) ← RetryOnConflict
    (λ vg, vgRetryOnConflictFunc (set_vg_bound vgcName groupCreationTime ready vg)) vg;
  match err with
  | Some err => mret (Some err, vg)
  | None => updateVGStatus vg
  end.

Definition updateVGStatusPVCList (vg : VolumeGroup) (pvcList : list PersistentVolumeClaim)
  : prog (option error * VolumeGroup) :=
  '(err, vg) ← RetryOnConflict (λ vg, vgRetryOnConflictFunc (set_vg_PVCList pvcList vg)) vg;
  match err with
  | Some err => mret (Some err, vg)
  | None => mret (None, vg)
  end.

Definition UpdateVGStatusError (vg : VolumeGroup) (message : string)
  : prog (option error * VolumeGroup) :=
  '(err, vg) ← RetryOnConflict
    (λ vg, vgRetryOnConflictFunc
             (set_vg_Error (Some {| vge_Time := None; vge_Message := Some message |}) vg)) vg;
  match err with
  | Some err => mret (Some err, vg)
  | None => mret (None, vg)
  end.

Definition isVGHasMatchingDriver (vg : VolumeGroup) (driver : string) : prog (error + bool) :=
  vgClassName ← or_panic nil_deref
    (GetStringField (to_value (vg_Spec vg)) "VolumeGroupClassName");
  r ← getVGClassDriver vgClassName;
  match r with
  | inl err => if IsNotFound err then mret (inr false) else mret (inl err)
  | inr vgClassDriver => mret (inr (bool_decide (vgClassDriver = driver)))
  end.

Fixpoint getProvisionedVGs_loop (items : list VolumeGroup) (driver : string)
    (newVgList : list VolumeGroup) : prog (error + list VolumeGroup) :=
  match items with
  | [] => mret (inr newVgList)
  | vg :: rest =>
      r ← isVGHasMatchingDriver vg driver;
      match r with
      | inl err => mret (inl err)
      | inr true => getProvisionedVGs_loop rest driver (newVgList ++ [vg])
      | inr false => getProvisionedVGs_loop rest driver newVgList
      end
  end.

Definition getProvisionedVGs (vgList : list VolumeGroup) (driver : string)
  : prog (error + list VolumeGroup) := getProvisionedVGs_loop vgList driver [].

Definition GetVGList (driver : string) : prog (error + list VolumeGroup) :=
  r ← trigger (CList KVG);
  match r with
  | inl err => mret (inl err)
  | inr vg =>
      r ← getProvisionedVGs vg driver;
      match r with
      | inl err => mret (inl err)
      | inr vgList => mret (inr vgList)
      end
  end.

(** The boolean and the error of the two-valued result: the boolean is false
    when there is an error. *)
Definition IsPVCMatchesVG (pvc : PersistentVolumeClaim) (vg : VolumeGroup)
  : prog (error + bool) :=
  selector ← deref (vgsrc_Selector (vgspec_Source (vg_Spec vg)));
  match areLabelsMatchLabelSelector (om_Labels (pvc_ObjectMeta pvc)) selector with
  | inl err => mret (inl err)
  | inr true => mret (inr true)
  | inr false => mret (inr false)
  end.

Definition RemovePVCFromVG (pvc : PersistentVolumeClaim) (vg : VolumeGroup)
  : prog (option error * VolumeGroup) :=
  let vg := set_vg_PVCList (removeFromPVCList pvc (vgst_PVCList (vg_Status vg))) vg in
  '(err, vg) ← updateVGStatusPVCList vg (vgst_PVCList (vg_Status vg));
  match err with
  | Some err =>
      let vg := set_vg_PVCList (appendPVC (vgst_PVCList (vg_Status vg)) pvc) vg in
      mret (Some err, vg)
  | None => mret (None, vg)
  end.

Definition AddPVCToVG (pvc : PersistentVolumeClaim) (vg : VolumeGroup)
  : prog (option error * VolumeGroup) :=
  let vg := set_vg_PVCList (appendPVC (vgst_PVCList (vg_Status vg)) pvc) vg in
  '(err, vg) ← updateVGStatusPVCList vg (vgst_PVCList (vg_Status vg));
  match err with
  | Some err =>
      let vg := set_vg_PVCList (removeFromPVCList pvc (vgst_PVCList (vg_Status vg))) vg in
      mret (Some err, vg)
  | None => mret (None, vg)
  end.

Definition getVgId (vg : VolumeGroup) : prog (error + string) :=
  vgcName ← or_panic nil_deref
    (GetStringField (to_value (vgspec_Source (vg_Spec vg))) "VolumeGroupContentName");
  r ← GetVGC vgcName (GetNamespace KVG vg);
  match r with
  | inl err => mret (inl err)
  | inr vgc =>
      source ← deref (vgcspec_Source (vgc_Spec vgc));
      mret (inr (vgcsrc_VolumeGroupHandle source))
  end.

(** ** handle_messages.go *)

Definition HandleErrorMessage (vg : VolumeGroup) (err : option error) (reason : string)
  : prog (option error * VolumeGroup) :=
  match err with
  | Some e =>
      let errorMessage := GetMessageFromError e in
      '(uErr, vg) ← UpdateVGStatusError vg errorMessage;
      match uErr with
      | Some uErr => mret (Some uErr, vg)
      | None =>
          uErr ← createNamespacedObjectErrorEvent KVG vg errorMessage reason;
          match uErr with
          | Some uErr => mret (Some uErr, vg)
          | None => mret (Some e, vg)
          end
      end
  | None => mret (None, vg)
  end.

Definition HandleSuccessMessage (vg : VolumeGroup) (message reason : string)
  : prog (option error * VolumeGroup) :=
  '(err, vg) ← UpdateVGStatusError vg "";
  match err with
  | Some err => mret (Some err, vg)
  | None =>
      err ← createSuccessNamespacedObjectEvent KVG vg message reason;
      match err with
      | Some err => mret (Some err, vg)
      | None => mret (None, vg)
      end
  end.
End VolumeGroups.

(** ** Lists of claims: lemmas *)

(** Two claims are the same when they have the same key. *)
Definition pvc_key (p : PersistentVolumeClaim) : NamespacedName := key_of KPVC p.
Definition pvc_keys (l : list PersistentVolumeClaim) : list NamespacedName := pvc_key <$> l.

Lemma same_pvc_spec a b : same_pvc a b = true ↔ pvc_key a = pvc_key b.
Proof.
  unfold same_pvc, pvc_key, key_of. rewrite andb_true_iff, !bool_decide_eq_true.
  split; [intros [-> ->]; done|intros Heq; by injection Heq].
Qed.

Lemma same_pvc_refl a : same_pvc a a = true.
Proof. by apply same_pvc_spec. Qed.

Lemma same_pvc_false a b : same_pvc a b = false ↔ pvc_key a ≠ pvc_key b.
Proof. rewrite <- same_pvc_spec. by destruct (same_pvc a b). Qed.

Lemma IsPVCInPVCList_spec pvc l : IsPVCInPVCList pvc l = true ↔ pvc_key pvc ∈ pvc_keys l.
Proof.
  unfold IsPVCInPVCList, pvc_keys. rewrite existsb_elem, list_elem_of_fmap.
  split; intros (x & Hx & Hl).
  - exists x. apply same_pvc_spec in Hl. done.
  - exists x. split; [done|]. by apply same_pvc_spec.
Qed.

Lemma IsPVCInPVCList_false pvc l : IsPVCInPVCList pvc l = false ↔ pvc_key pvc ∉ pvc_keys l.
Proof. rewrite <- IsPVCInPVCList_spec. by destruct (IsPVCInPVCList pvc l). Qed.

Lemma appendPVC_in l pvc : pvc_key pvc ∈ pvc_keys l → appendPVC l pvc = l.
Proof.
  intros Hin. unfold appendPVC. apply IsPVCInPVCList_spec in Hin.
  unfold IsPVCInPVCList in Hin. by rewrite Hin.
Qed.

Lemma appendPVC_new l pvc : pvc_key pvc ∉ pvc_keys l → appendPVC l pvc = l ++ [pvc].
Proof.
  intros Hin. unfold appendPVC. apply IsPVCInPVCList_false in Hin.
  unfold IsPVCInPVCList in Hin. by rewrite Hin.
Qed.

(** Removal takes out the first claim with the key, and nothing else. *)
Lemma removeFromPVCList_split pvc l :
  pvc_key pvc ∈ pvc_keys l →
  ∃ l1 x l2, l = l1 ++ x :: l2 ∧ pvc_key x = pvc_key pvc ∧
             (pvc_key pvc ∉ pvc_keys l1) ∧ removeFromPVCList pvc l = l1 ++ l2.
Proof.
  intros Hin. unfold removeFromPVCList.
  destruct (index_of (λ p, same_pvc p pvc) l) as [i|] eqn:Hi.
  - apply index_of_Some in Hi as ((x & Hx & Hs) & Hlt).
    destruct (remove_at_split _ _ _ Hx) as (l1 & l2 & -> & Hlen & Hr).
    exists l1, x, l2. apply same_pvc_spec in Hs. repeat split; try done.
    intros (y & Hky & Hy)%list_elem_of_fmap.
    apply list_elem_of_lookup in Hy as [j Hj].
    assert (j < length l1) by (by eapply lookup_lt_Some).
    assert (same_pvc y pvc = false) as Hf.
    { eapply (Hlt j); [|lia]. by rewrite lookup_app_l. }
    apply same_pvc_false in Hf. congruence.
  - apply list_elem_of_fmap in Hin as (x & Hk & Hx).
    rewrite index_of_None in Hi. specialize (Hi x Hx).
    apply same_pvc_false in Hi. congruence.
Qed.

Lemma removeFromPVCList_not_in pvc l :
  pvc_key pvc ∉ pvc_keys l → removeFromPVCList pvc l = l.
Proof.
  intros Hn. unfold removeFromPVCList. replace (index_of _ l) with (@None nat); [done|].
  symmetry. apply index_of_None. intros x Hx. apply same_pvc_false.
  intros Hk. apply Hn. rewrite <- Hk. by apply list_elem_of_fmap_2.
Qed.

Lemma NoDup_pvc_keys_append l pvc :
  NoDup (pvc_keys l) → NoDup (pvc_keys (appendPVC l pvc)).
Proof.
  intros Hl. destruct (decide (pvc_key pvc ∈ pvc_keys l)) as [Hin|Hin].
  - by rewrite appendPVC_in.
  - rewrite appendPVC_new by done. unfold pvc_keys. rewrite fmap_app.
    apply NoDup_app. split; [done|]. split; [|apply NoDup_singleton].
    intros k Hk Hk'. apply list_elem_of_singleton in Hk'. by subst.
Qed.

Lemma elem_of_appendPVC l pvc k :
  k ∈ pvc_keys (appendPVC l pvc) ↔ k ∈ pvc_keys l ∨ k = pvc_key pvc.
Proof.
  destruct (decide (pvc_key pvc ∈ pvc_keys l)) as [Hin|Hin].
  - rewrite appendPVC_in by done. split; [tauto|]. by intros [Hk| ->].
  - rewrite appendPVC_new by done. unfold pvc_keys. rewrite fmap_app. set_solver.
Qed.

Lemma NoDup_pvc_keys_remove l pvc :
  NoDup (pvc_keys l) →
  NoDup (pvc_keys (removeFromPVCList pvc l)) ∧
  ∀ k, k ∈ pvc_keys (removeFromPVCList pvc l) ↔ k ∈ pvc_keys l ∧ k ≠ pvc_key pvc.
Proof.
  intros Hl. destruct (decide (pvc_key pvc ∈ pvc_keys l)) as [Hin|Hin].
  - destruct (removeFromPVCList_split pvc l Hin) as (l1 & x & l2 & -> & Hx & _ & ->).
    unfold pvc_keys in *. rewrite fmap_app, fmap_cons, Hx in Hl. rewrite !fmap_app, fmap_cons, Hx.
    rewrite <- Permutation_middle in Hl. apply NoDup_cons in Hl as [Hni Hnd].
    split; [done|]. rewrite elem_of_app in Hni.
    intros k. rewrite !elem_of_app, elem_of_cons.
    split; [|tauto]. intros Hk. split; [tauto|]. intros ->. tauto.
  - rewrite removeFromPVCList_not_in by done. split; [done|].
    intros k. split; [|tauto]. intros Hk. split; [done|]. by intros ->.
Qed.

(** ** Calls and results *)

Section Specs.
Context `{ExternalLaws}.

Definition vg_status_calls (c : call) : Prop :=
  match c with CStatusUpdate KVG _ | CGet KVG _ => True | _ => False end.

Definition vg_message_calls (c : call) : Prop :=
  match c with
  | CStatusUpdate KVG _ | CGet KVG _ | CNow | CRandInts _ | CCreate KEvent _ => True
  | _ => False
  end.

Definition vg_list_calls (c : call) : Prop :=
  match c with CList KVG | CGet KVGClass _ => True | _ => False end.

#[export] Instance GetVG_spec n ns : Spec (GetVG n ns) (get_calls KVG) returns.
Proof. unfold GetVG, Spec. solve_triple. Qed.

#[export] Instance GetVGC_spec n ns : Spec (GetVGC n ns) (get_calls KVGC) returns.
Proof. unfold GetVGC, Spec. solve_triple. Qed.

#[export] Instance UpdateVGSourceContent_spec vg n :
  Spec (UpdateVGSourceContent vg n) (update_calls KVG) returns.
Proof. unfold UpdateVGSourceContent, Spec. solve_triple. Qed.

#[export] Instance updateVGStatus_spec vg :
  Spec (updateVGStatus vg) (status_calls KVG) returns.
Proof. unfold updateVGStatus, Spec. solve_triple. Qed.

#[export] Instance vgRetryOnConflictFunc_spec vg :
  Spec (vgRetryOnConflictFunc vg) vg_status_calls returns.
Proof. unfold vgRetryOnConflictFunc, Spec. solve_triple. Qed.

#[export] Instance UpdateVGStatus_spec vg n t ready :
  Spec (UpdateVGStatus vg n t ready) vg_status_calls returns.
Proof.
  unfold UpdateVGStatus, Spec. triple_step.
  eapply triple_retry_returns; [intros; apply _|solve_covers|intros r; cbn]. solve_triple.
Qed.

#[export] Instance updateVGStatusPVCList_spec vg l :
  Spec (updateVGStatusPVCList vg l) vg_status_calls returns.
Proof.
  unfold updateVGStatusPVCList, Spec. triple_step.
  eapply triple_retry_returns; [intros; apply _|solve_covers|intros r; cbn]. solve_triple.
Qed.

#[export] Instance UpdateVGStatusError_spec vg m :
  Spec (UpdateVGStatusError vg m) vg_status_calls returns.
Proof.
  unfold UpdateVGStatusError, Spec. triple_step.
  eapply triple_retry_returns; [intros; apply _|solve_covers|intros r; cbn]. solve_triple.
Qed.

#[export] Instance isVGHasMatchingDriver_spec vg d :
  Spec (isVGHasMatchingDriver vg d) class_calls returns.
Proof.
  unfold isVGHasMatchingDriver, Spec. autorewrite with reflect. solve_triple.
Qed.

#[export] Instance getProvisionedVGs_spec vgs d :
  Spec (getProvisionedVGs vgs d) class_calls returns.
Proof.
  unfold getProvisionedVGs, Spec. generalize (@nil VolumeGroup).
  induction vgs as [|vg vgs IH]; intros acc; cbn [getProvisionedVGs_loop]; solve_triple; apply IH.
Qed.

#[export] Instance GetVGList_spec d : Spec (GetVGList d) vg_list_calls returns.
Proof. unfold GetVGList, Spec. solve_triple. Qed.

#[export] Instance IsPVCMatchesVG_spec pvc vg :
  Spec (IsPVCMatchesVG pvc vg) (λ _, False) any.
Proof. unfold IsPVCMatchesVG, Spec. solve_triple. Qed.

#[export] Instance AddPVCToVG_spec pvc vg : Spec (AddPVCToVG pvc vg) vg_status_calls returns.
Proof. unfold AddPVCToVG, Spec. solve_triple. Qed.

#[export] Instance RemovePVCFromVG_spec pvc vg :
  Spec (RemovePVCFromVG pvc vg) vg_status_calls returns.
Proof. unfold RemovePVCFromVG, Spec. solve_triple. Qed.

#[export] Instance getVgId_spec vg : Spec (getVgId vg) (get_calls KVGC) any.
Proof. unfold getVgId, Spec. autorewrite with reflect. solve_triple. Qed.

#[export] Instance IsVgExist_spec vgc : Spec (IsVgExist vgc) (get_calls KVG) any.
Proof. unfold IsVgExist, Spec. autorewrite with reflect. solve_triple. Qed.

(** An error that is handled is still an error. *)
#[export] Instance HandleErrorMessage_spec vg e reason :
  Spec (HandleErrorMessage vg (Some e) reason) vg_message_calls
    (after (λ r, is_Some (fst r)) False).
Proof. unfold HandleErrorMessage, Spec. solve_triple. Qed.

#[export] Instance HandleSuccessMessage_spec vg m reason :
  Spec (HandleSuccessMessage vg m reason) vg_message_calls returns.
Proof. unfold HandleSuccessMessage, Spec. solve_triple. Qed.
End Specs.
