(* ===== verification/Volumes.v ===== *)
(** * Claims and volumes

    [controllers/utils/persistentvolume.go] and
    [controllers/utils/persistentvolumeclaim.go] ([deletePVC], which also needs
    the finalizers, is in [VolumeGroupContents]). *)

From S2P Require Import Prelude GoLang Api Effects Externals Objects Params VolumeGroups.

Definition getPVNameFromPVC (pvc : PersistentVolumeClaim) : option string :=
  GetStringField (to_value (pvc_Spec pvc)) "VolumeName".

Definition getPVCNameFromPV (pv : PersistentVolume) : option string :=
  GetStringField (to_value (pv_ClaimRef pv)) "Name".

Definition getPVCNamespaceFromPV (pv : PersistentVolume) : option string :=
  GetStringField (to_value (pv_ClaimRef pv)) "Namespace".

(** [corev1.PersistentVolumeClaim{}]. *)
Definition zero_pvc : PersistentVolumeClaim :=
  {| pvc_TypeMeta := {| tm_Kind := ""; tm_APIVersion := "" |};
     pvc_ObjectMeta :=
       {| om_Name := ""; om_Namespace := ""; om_UID := ""; om_ResourceVersion := "";
          om_Generation := 0; om_Labels := ∅; om_Annotations := ∅; om_Finalizers := [];
          om_DeletionTimestamp := None |};
     pvc_Spec := {| pvcs_StorageClassName := None; pvcs_VolumeName := "" |};
     pvc_Phase := "" |}.

Definition checkIfPVCCanBeAddedToVG (pvc : PersistentVolumeClaim)
    (vgsWithPVC newVGsForPVC : list string) : option error :=
  if Nat.ltb 0 (length vgsWithPVC) && Nat.ltb 0 (length newVGsForPVC) then
    let message := Sprintf messages.PVCIsAlreadyBelongToGroup
                     [AStr (GetNamespace KPVC pvc); AStr (GetName KPVC pvc);
                      AStrs newVGsForPVC; AStrs vgsWithPVC] in
    Some (Errorf message [])
  else if Nat.ltb 1 (length newVGsForPVC) then
    let message := Sprintf messages.PVCMatchedWithMultipleNewGroups
                     [AStr (GetNamespace KPVC pvc); AStr (GetName KPVC pvc);
                      AStrs newVGsForPVC] in
    Some (Errorf message [])
  else None.

Fixpoint getBoundPVCList_loop (items newPVCList : list PersistentVolumeClaim)
  : list PersistentVolumeClaim :=
  match items with
  | [] => newPVCList
  | pvc :: rest =>
      if decide (pvc_Phase pvc = ClaimBound)
      then getBoundPVCList_loop rest (newPVCList ++ [pvc])
      else getBoundPVCList_loop rest newPVCList
  end.

Definition getBoundPVCList (pvcList : list PersistentVolumeClaim) : list PersistentVolumeClaim :=
  getBoundPVCList_loop pvcList [].

Section Volumes.
Context `{Externals}.

(** ** persistentvolume.go *)

Definition getPV (pvName : string) : prog (error + PersistentVolume) :=
  trigger (CGet KPV (mkNN "" pvName)).

Definition GetPVFromPVC (pvc : PersistentVolumeClaim)
  : prog (error + option PersistentVolume) :=
  pvName ← or_panic nil_deref (getPVNameFromPVC pvc);
  if decide (pvName = "")%string then mret (inr None)
  else
    r ← getPV pvName;
    match r with
    | inl err =>
        if IsNotFound err
        then mret (inl (PVDoesNotExist pvName (GetNamespace KPVC pvc) (Error err)))
        else mret (inl err)
    | inr pv => mret (inr (Some pv))
    end.

(** ** persistentvolumeclaim.go *)

Fixpoint getPVCListVolumeIds_loop (pvcList : list PersistentVolumeClaim)
    (volumeIds : list string) : prog (error + list string) :=
  match pvcList with
  | [] => mret (inr volumeIds)
  | pvc :: rest =>
      r ← GetPVFromPVC pvc;
      match r with
      | inl err => mret (inl err)
      | inr (Some pv) =>
          csi ← deref (pv_CSI pv);
          getPVCListVolumeIds_loop rest (volumeIds ++ [csi_VolumeHandle csi])
      | inr None => getPVCListVolumeIds_loop rest volumeIds
      end
  end.

Definition getPVCListVolumeIds (pvcList : list PersistentVolumeClaim)
  : prog (error + list string) := getPVCListVolumeIds_loop pvcList [].

Fixpoint IsPVCCanBeAddedToVG_loop (pvc : PersistentVolumeClaim) (vgs : list VolumeGroup)
    (vgsWithPVC newVGsForPVC : list string) : prog (option error) :=
  match vgs with
  | [] => mret (checkIfPVCCanBeAddedToVG pvc vgsWithPVC newVGsForPVC)
  | vg :: rest =>
      if IsPVCInPVCList pvc (vgst_PVCList (vg_Status vg))
      then IsPVCCanBeAddedToVG_loop pvc rest (vgsWithPVC ++ [GetName KVG vg]) newVGsForPVC
      else
        r ← IsPVCMatchesVG pvc vg;
        match r with
        | inr true =>
            IsPVCCanBeAddedToVG_loop pvc rest vgsWithPVC (newVGsForPVC ++ [GetName KVG vg])
        | _ => IsPVCCanBeAddedToVG_loop pvc rest vgsWithPVC newVGsForPVC
        end
  end.

Definition IsPVCCanBeAddedToVG (pvc : PersistentVolumeClaim) (vgs : list VolumeGroup)
  : prog (option error) := IsPVCCanBeAddedToVG_loop pvc vgs [] [].

Definition IsPVCHasMatchingDriver (pvc : PersistentVolumeClaim) (driver : string)
  : prog (error + bool) :=
  match GetPVCClass pvc with
  | inl sErr => mret (inl sErr)
  | inr storageClassName =>
      r ← getStorageClassProvisioner storageClassName;
      match r with
      | inl err => mret (inl err)
      | inr scProvisioner => mret (inr (bool_decide (scProvisioner = driver)))
      end
  end.

Definition IsPVCInStaticVG (pvc : PersistentVolumeClaim) : prog (error + bool) :=
  match GetPVCClass pvc with
  | inl sErr => mret (inl sErr)
  | inr storageClassName =>
      r ← getStorageClass storageClassName;
      match r with
      | inl err => mret (inl err)
      | inr sc => mret (inr (isSCHasParam sc storageClassVGParameter))
      end
  end.

Definition IsPVCNeedToBeHandled (pvc : PersistentVolumeClaim) (driverName : string)
  : prog (error + bool) :=
  r ← IsPVCHasMatchingDriver pvc driverName;
  match r with
  | inl err => mret (inl err)
  | inr false => mret (inr false)
  | inr true =>
      if decide (pvc_Phase pvc ≠ ClaimBound) then mret (inr false)
      else
        r ← IsPVCInStaticVG pvc;
        match r with
        | inl err => mret (inl err)
        | inr true =>
            match GetPVCClass pvc with
            | inl sErr => mret (inl sErr)
            | inr storageClassName =>
                let msg := Sprintf messages.StorageClassHasVGParameter
                             [AStr storageClassName; AStr (GetNamespace KPVC pvc);
                              AStr (GetName KPVC pvc)] in
                let mErr := Errorf msg [] in
                err ← HandlePVCErrorMessage pvc (Some mErr) addingPVC;
                match err with
                | Some err => mret (inl err)
                | None => mret (inr false)
                end
            end
        | inr false => mret (inr true)
        end
  end.

Definition getPVCList : prog (error + list PersistentVolumeClaim) := trigger (CList KPVC).

Fixpoint getProvisionedPVCList_loop (driver : string) (items newPVCList : list PersistentVolumeClaim)
  : prog (error + list PersistentVolumeClaim) :=
  match items with
  | [] => mret (inr newPVCList)
  | pvc :: rest =>
      r ← IsPVCHasMatchingDriver pvc driver;
      match r with
      | inl err => mret (inl err)
      | inr true => getProvisionedPVCList_loop driver rest (newPVCList ++ [pvc])
      | inr false => getProvisionedPVCList_loop driver rest newPVCList
      end
  end.

Definition getProvisionedPVCList (driver : string) (pvcList : list PersistentVolumeClaim)
  : prog (error + list PersistentVolumeClaim) := getProvisionedPVCList_loop driver pvcList [].

Definition GetPVCList (driver : string) : prog (error + list PersistentVolumeClaim) :=
  r ← getPVCList;
  match r with
  | inl err => mret (inl err)
  | inr pvcList =>
      let boundPVCList := getBoundPVCList pvcList in
      getProvisionedPVCList driver boundPVCList
  end.

Fixpoint find_pvc_of_pv (pvName : string) (items : list PersistentVolumeClaim)
  : prog PersistentVolumeClaim :=
  match items with
  | [] => mret zero_pvc
  | pvc :: rest =>
      pvNameFromPVC ← or_panic nil_deref (getPVNameFromPVC pvc);
      if decide (pvNameFromPVC = pvName) then mret pvc else find_pvc_of_pv pvName rest
  end.

Definition getMatchingPVCFromPVCListToPV (pvName driver : string)
  : prog (error + PersistentVolumeClaim) :=
  r ← GetPVCList driver;
  match r with
  | inl err => mret (inl err)
  | inr pvcList => pvc ← find_pvc_of_pv pvName pvcList; mret (inr pvc)
  end.

Definition GetPVC (name namespace : string) : prog (error + PersistentVolumeClaim) :=
  trigger (CGet KPVC (mkNN namespace name)).

Definition removePVCObject (pvc : PersistentVolumeClaim) : prog (option error) :=
  trigger (CDelete KPVC pvc).
End Volumes.

(** ** Results *)

Lemma getBoundPVCList_loop_spec l acc :
  getBoundPVCList_loop l acc = acc ++ filter (λ pvc, pvc_Phase pvc = ClaimBound) l.
Proof.
  revert acc. induction l as [|x l IH]; intros acc; simpl; [by rewrite app_nil_r|].
  rewrite filter_cons. case_decide; rewrite IH; [by rewrite <- app_assoc|done].
Qed.

Lemma getBoundPVCList_spec l :
  getBoundPVCList l = filter (λ pvc, pvc_Phase pvc = ClaimBound) l.
Proof. apply getBoundPVCList_loop_spec. Qed.

(** Refused when the claim is in a group and matches another, or matches
    several groups it is not in. *)
Lemma checkIfPVCCanBeAddedToVG_None pvc with_ new :
  checkIfPVCCanBeAddedToVG pvc with_ new = None ↔
  length new = 0 ∨ (length new = 1 ∧ length with_ = 0).
Proof.
  unfold checkIfPVCCanBeAddedToVG.
  destruct with_ as [|? ?], new as [|? [|? ?]]; cbn; split; intros; try done; try lia; auto.
Qed.

(** ** Calls *)

Section Specs.
Context `{ExternalLaws}.

Definition pv_calls (c : call) : Prop :=
  match c with CGet KPV _ => True | _ => False end.

Definition pvc_list_calls (c : call) : Prop :=
  match c with CList KPVC | CGet KSC _ => True | _ => False end.

Definition handled_calls (c : call) : Prop :=
  match c with
  | CGet KSC _ | CNow | CRandInts _ | CCreate KEvent _ => True
  | _ => False
  end.

#[export] Instance getPV_spec n : Spec (getPV n) pv_calls returns.
Proof. unfold getPV, Spec. solve_triple. Qed.

#[export] Instance GetPVFromPVC_spec pvc : Spec (GetPVFromPVC pvc) pv_calls returns.
Proof. unfold GetPVFromPVC, getPVNameFromPVC, Spec. autorewrite with reflect. solve_triple. Qed.

#[export] Instance getPVCListVolumeIds_spec l : Spec (getPVCListVolumeIds l) pv_calls any.
Proof.
  unfold getPVCListVolumeIds, Spec. generalize (@nil string).
  induction l as [|pvc l IH]; intros acc; cbn [getPVCListVolumeIds_loop]; solve_triple; apply IH.
Qed.

#[export] Instance IsPVCCanBeAddedToVG_spec pvc vgs :
  Spec (IsPVCCanBeAddedToVG pvc vgs) (λ _, False) any.
Proof.
  unfold IsPVCCanBeAddedToVG, Spec. generalize (@nil string) at 2. generalize (@nil string).
  induction vgs as [|vg vgs IH]; intros w n; cbn [IsPVCCanBeAddedToVG_loop]; solve_triple;
    apply IH.
Qed.

#[export] Instance IsPVCHasMatchingDriver_spec pvc d :
  Spec (IsPVCHasMatchingDriver pvc d) sc_calls returns.
Proof. unfold IsPVCHasMatchingDriver, Spec. solve_triple. Qed.

#[export] Instance IsPVCInStaticVG_spec pvc : Spec (IsPVCInStaticVG pvc) sc_calls returns.
Proof. unfold IsPVCInStaticVG, Spec. solve_triple. Qed.

#[export] Instance IsPVCNeedToBeHandled_spec pvc d :
  Spec (IsPVCNeedToBeHandled pvc d) handled_calls returns.
Proof. unfold IsPVCNeedToBeHandled, Spec. solve_triple. Qed.

#[export] Instance getProvisionedPVCList_spec d l :
  Spec (getProvisionedPVCList d l) sc_calls returns.
Proof.
  unfold getProvisionedPVCList, Spec. generalize (@nil PersistentVolumeClaim).
  induction l as [|pvc l IH]; intros acc; cbn [getProvisionedPVCList_loop]; solve_triple;
    apply IH.
Qed.

#[export] Instance GetPVCList_spec d : Spec (GetPVCList d) pvc_list_calls returns.
Proof. unfold GetPVCList, getPVCList, Spec. solve_triple. Qed.

#[export] Instance find_pvc_of_pv_spec n l : Spec (find_pvc_of_pv n l) (λ _, False) returns.
Proof.
  unfold Spec. induction l as [|pvc l IH]; cbn [find_pvc_of_pv];
    unfold getPVNameFromPVC; autorewrite with reflect; solve_triple; apply IH.
Qed.

#[export] Instance getMatchingPVC_spec n d :
  Spec (getMatchingPVCFromPVCListToPV n d) pvc_list_calls returns.
Proof. unfold getMatchingPVCFromPVCListToPV, Spec. solve_triple. Qed.

#[export] Instance GetPVC_spec n ns : Spec (GetPVC n ns) (get_calls KPVC) returns.
Proof. unfold GetPVC, Spec. solve_triple. Qed.
End Specs.
