(* ===== verification/Finalizers.v ===== *)
(** * Finalizers

    [controllers/utils/finalizers.go]: adding and removing the operator's
    finalizers on VolumeGroups, VolumeGroupContents and claims, with the retry
    on a conflict. *)

From S2P Require Import Prelude GoLang Api Effects Externals Objects Params VolumeGroups Volumes.

Section Finalizers.
Context `{Externals}.

Definition finalizerRetryOnConflictFunc (K : Kind) (finalizers : list string) (obj : obj_of K)
  : prog (option error * obj_of K) :=
  let obj := SetFinalizers K finalizers obj in
  '(err, obj) ← UpdateObject K obj;
  if on_err IsConflict err then
    '(uErr, obj) ← getNamespacedObject K obj;
    match uErr with
    | Some uErr => mret (Some uErr, obj)
    | None => mret (err, obj)
    end
  else mret (err, obj).

Definition updateFinalizer (K : Kind) (finalizers : list string) (obj : obj_of K)
  : prog (option error * obj_of K) :=
  RetryOnConflict (finalizerRetryOnConflictFunc K finalizers) obj.

Definition AddFinalizerToVG (vg : VolumeGroup) : prog (option error * VolumeGroup) :=
  if negb (Contains (GetFinalizers KVG vg) VGFinalizer) then
    let vg := SetFinalizers KVG (GetFinalizers KVG vg ++ [VGFinalizer]) vg in
    '(err, vg) ← updateFinalizer KVG (GetFinalizers KVG vg) vg;
    match err with
    | Some err => mret (Some err, vg)
    | None => mret (None, vg)
    end
  else mret (None, vg).

Definition AddFinalizerToVGC (vgc : VolumeGroupContent)
  : prog (option error * VolumeGroupContent) :=
  if negb (Contains (GetFinalizers KVGC vgc) VgcFinalizer) then
    let vgc := SetFinalizers KVGC (GetFinalizers KVGC vgc ++ [VgcFinalizer]) vgc in
    '(err, vgc) ← updateFinalizer KVGC (GetFinalizers KVGC vgc) vgc;
    match err with
    | Some err => mret (Some err, vgc)
    | None => mret (None, vgc)
    end
  else mret (None, vgc).

Definition RemoveFinalizerFromVG (vg : VolumeGroup) : prog (option error * VolumeGroup) :=
  if Contains (GetFinalizers KVG vg) VGFinalizer then
    let vg := SetFinalizers KVG (Remove (GetFinalizers KVG vg) VGFinalizer) vg in
    '(err, vg) ← updateFinalizer KVG (GetFinalizers KVG vg) vg;
    match err with
    | Some err => mret (Some err, vg)
    | None => mret (None, vg)
    end
  else mret (None, vg).

Definition RemoveFinalizerFromVGC (vgc : VolumeGroupContent)
  : prog (option error * VolumeGroupContent) :=
  if Contains (GetFinalizers KVGC vgc) VgcFinalizer then
    let vgc := SetFinalizers KVGC (Remove (GetFinalizers KVGC vgc) VgcFinalizer) vgc in
    '(err, vgc) ← updateFinalizer KVGC (GetFinalizers KVGC vgc) vgc;
    match err with
    | Some err => mret (Some err, vgc)
    | None => mret (None, vgc)
    end
  else mret (None, vgc).

Definition AddFinalizerToPVC (pvc : PersistentVolumeClaim)
  : prog (option error * PersistentVolumeClaim) :=
  if negb (Contains (GetFinalizers KPVC pvc) pvcVGFinalizer) then
    let pvc := SetFinalizers KPVC (GetFinalizers KPVC pvc ++ [pvcVGFinalizer]) pvc in
    '(err, pvc) ← updateFinalizer KPVC (GetFinalizers KPVC pvc) pvc;
    match err with
    | Some err => mret (Some err, pvc)
    | None => mret (None, pvc)
    end
  else mret (None, pvc).

Definition isFinalizerShouldBeREmovedFromPVC (driver : string) (pvc : PersistentVolumeClaim)
  : prog (error + bool) :=
  r ← GetPVC (GetName KPVC pvc) (GetNamespace KPVC pvc);
  match r with
  | inl err => mret (inl err)
  | inr pvc =>
      r ← GetVGList driver;
      match r with
      | inl err => mret (inl err)
      | inr vgList =>
          mret (inr (negb (IsPVCPartAnyVG pvc vgList) &&
                     Contains (GetFinalizers KPVC pvc) pvcVGFinalizer))
      end
  end.

Definition RemoveFinalizerFromPVC (driver : string) (pvc : PersistentVolumeClaim)
  : prog (option error * PersistentVolumeClaim) :=
  r ← isFinalizerShouldBeREmovedFromPVC driver pvc;
  match r with
  | inl err => mret (Some err, pvc)
  | inr removeFinalizer =>
      if (removeFinalizer : bool) then
        '(uErr, pvc) ← getNamespacedObject KPVC pvc;
        match uErr with
        | Some uErr => mret (Some uErr, pvc)
        | None =>
            let pvc := SetFinalizers KPVC (Remove (GetFinalizers KPVC pvc) pvcVGFinalizer) pvc in
            '(err, pvc) ← updateFinalizer KPVC (GetFinalizers KPVC pvc) pvc;
            match err with
            | Some err => mret (Some err, pvc)
            | None => mret (None, pvc)
            end
        end
      else mret (None, pvc)
  end.

Definition IsContainOtherFinalizers (K : Kind) (object : obj_of K) : bool :=
  existsb (λ finalizer, negb (str_Contains finalizer VGFinalizer)) (GetFinalizers K object).
End Finalizers.

(** No finalizer but those whose name contains the operator's group. *)
Lemma IsContainOtherFinalizers_false K (o : obj_of K) :
  IsContainOtherFinalizers K o = false ↔
  ∀ f, f ∈ GetFinalizers K o → str_Contains f VGFinalizer = true.
Proof.
  unfold IsContainOtherFinalizers. rewrite existsb_not_elem.
  split; intros Hf f Hin; specialize (Hf f Hin); by destruct (str_Contains f VGFinalizer).
Qed.

(** The operator's own finalizers never count as others. *)
Lemma own_finalizers_not_other :
  Forall (λ f, str_Contains f VGFinalizer = true) [VGFinalizer; VgcFinalizer; pvcVGFinalizer].
Proof. by repeat constructor. Qed.

Section Specs.
Context `{ExternalLaws}.

Definition finalizer_calls (K : Kind) (c : call) : Prop :=
  match c with CUpdate K' _ | CGet K' _ => K' = K | _ => False end.

Definition pvc_finalizer_calls (c : call) : Prop :=
  match c with
  | CUpdate KPVC _ | CGet KPVC _ | CList KVG | CGet KVGClass _ => True
  | _ => False
  end.

#[export] Instance finalizerRetryOnConflictFunc_spec K fs o :
  Spec (finalizerRetryOnConflictFunc K fs o) (finalizer_calls K) returns.
Proof. unfold finalizerRetryOnConflictFunc, Spec. solve_triple. Qed.

#[export] Instance updateFinalizer_spec K fs o :
  Spec (updateFinalizer K fs o) (finalizer_calls K) returns.
Proof.
  unfold updateFinalizer, Spec.
  eapply triple_retry_returns; [intros; apply _|solve_covers|intros r]. solve_triple.
Qed.

#[export] Instance AddFinalizerToVG_spec vg :
  Spec (AddFinalizerToVG vg) (finalizer_calls KVG) returns.
Proof. unfold AddFinalizerToVG, Spec. solve_triple. Qed.

#[export] Instance AddFinalizerToVGC_spec vgc :
  Spec (AddFinalizerToVGC vgc) (finalizer_calls KVGC) returns.
Proof. unfold AddFinalizerToVGC, Spec. solve_triple. Qed.

#[export] Instance AddFinalizerToPVC_spec pvc :
  Spec (AddFinalizerToPVC pvc) (finalizer_calls KPVC) returns.
Proof. unfold AddFinalizerToPVC, Spec. solve_triple. Qed.

#[export] Instance RemoveFinalizerFromVG_spec vg :
  Spec (RemoveFinalizerFromVG vg) (finalizer_calls KVG) returns.
Proof. unfold RemoveFinalizerFromVG, Spec. solve_triple. Qed.

#[export] Instance RemoveFinalizerFromVGC_spec vgc :
  Spec (RemoveFinalizerFromVGC vgc) (finalizer_calls KVGC) returns.
Proof. unfold RemoveFinalizerFromVGC, Spec. solve_triple. Qed.

#[export] Instance isFinalizerShouldBeREmovedFromPVC_spec d pvc :
  Spec (isFinalizerShouldBeREmovedFromPVC d pvc) pvc_finalizer_calls returns.
Proof. unfold isFinalizerShouldBeREmovedFromPVC, Spec. solve_triple. Qed.

#[export] Instance RemoveFinalizerFromPVC_spec d pvc :
  Spec (RemoveFinalizerFromPVC d pvc) pvc_finalizer_calls returns.
Proof. unfold RemoveFinalizerFromPVC, Spec. solve_triple. Qed.
End Specs.
