(* ===== verification/Driver.v ===== *)
(** * Requests to the CSI driver

    [controllers/volumegroup] (requests and responses) over
    [pkg/client/volumegroup_client.go] (one RPC per method).  The timeout put
    on each RPC is not modelled: a call that times out is one that answers with
    an error. *)

From S2P Require Import Prelude GoLang Api Effects Externals Objects.

(** ** pkg/client/volumegroup_client.go *)

Record CreateVolumeGroupRequest := {
  cvg_Name : string;
  cvg_Parameters : gmap string string;
  cvg_Secrets : gmap string string;
}.

Record DeleteVolumeGroupRequest := {
  dvg_VolumeGroupId : string;
  dvg_Secrets : gmap string string;
}.

Record ModifyVolumeGroupMembershipRequest := {
  mvg_VolumeGroupId : string;
  mvg_VolumeIds : list string;
  mvg_Secrets : gmap string string;
}.

Definition CreateVolumeGroup (name : string) (secrets parameters : gmap string string)
  : prog (error + CreateVolumeGroupResponse) :=
  let req := {| cvg_Name := name; cvg_Parameters := parameters; cvg_Secrets := secrets |} in
  trigger (CCreateVolumeGroup (cvg_Name req) (cvg_Secrets req) (cvg_Parameters req)).

Definition DeleteVolumeGroup (volumeGroupId : string) (secrets : gmap string string)
  : prog (option error) :=
  let req := {| dvg_VolumeGroupId := volumeGroupId; dvg_Secrets := secrets |} in
  trigger (CDeleteVolumeGroup (dvg_VolumeGroupId req) (dvg_Secrets req)).

Definition ModifyVolumeGroupMembership (volumeGroupId : string) (volumeIds : list string)
    (secrets : gmap string string) : prog (option error) :=
  let req := {| mvg_VolumeGroupId := volumeGroupId; mvg_VolumeIds := volumeIds;
                mvg_Secrets := secrets |} in
  trigger (CModifyVolumeGroupMembership (mvg_VolumeGroupId req) (mvg_VolumeIds req)
             (mvg_Secrets req)).

(** ** controllers/volumegroup *)

Record CommonRequestParameters := {
  crp_Name : string;
  crp_VolumeGroupID : string;
  crp_VolumeIds : list string;
  crp_Parameters : gmap string string;
  crp_Secrets : gmap string string;
}.

(** [Response interface{}]: the answer of the one method that has a content. *)
Record Response := {
  Response_Response : option CreateVolumeGroupResponse;
  Response_Error : option error;
}.

Definition request_Create (r : CommonRequestParameters) : prog Response :=
  res ← CreateVolumeGroup (crp_Name r) (crp_Secrets r) (crp_Parameters r);
  match res with
  | inl err => mret {| Response_Response := None; Response_Error := Some err |}
  | inr resp => mret {| Response_Response := Some resp; Response_Error := None |}
  end.

Definition request_Delete (r : CommonRequestParameters) : prog Response :=
  err ← DeleteVolumeGroup (crp_VolumeGroupID r) (crp_Secrets r);
  mret {| Response_Response := None; Response_Error := err |}.

Definition request_Modify (r : CommonRequestParameters) : prog Response :=
  err ← ModifyVolumeGroupMembership (crp_VolumeGroupID r) (crp_VolumeIds r) (crp_Secrets r);
  mret {| Response_Response := None; Response_Error := err |}.

Section Response.
Context `{Externals}.

Definition HasKnownGRPCError (r : Response) (knownErrors : list N) : bool :=
  match Response_Error r with
  | None => false
  | Some e =>
      match status_FromError e with
      | None => false
      | Some (code, _) => existsb (λ e, bool_decide (code = e)) knownErrors
      end
  end.

Lemma HasKnownGRPCError_spec r known :
  HasKnownGRPCError r known = true ↔
  ∃ e code m, Response_Error r = Some e ∧ status_FromError e = Some (code, m) ∧ code ∈ known.
Proof.
  unfold HasKnownGRPCError. destruct (Response_Error r) as [e|]; [|naive_solver].
  destruct (status_FromError e) as [[code m]|] eqn:He; [|naive_solver].
  rewrite existsb_elem. setoid_rewrite bool_decide_eq_true. naive_solver.
Qed.
End Response.

Definition create_rpc (c : call) : Prop :=
  match c with CCreateVolumeGroup _ _ _ => True | _ => False end.
Definition delete_rpc (c : call) : Prop :=
  match c with CDeleteVolumeGroup _ _ => True | _ => False end.
Definition modify_rpc (c : call) : Prop :=
  match c with CModifyVolumeGroupMembership _ _ _ => True | _ => False end.

#[export] Instance request_Create_spec r :
  Spec (request_Create r) create_rpc
    (after (λ res, Response_Error res = None → is_Some (Response_Response res)) False).
Proof. unfold request_Create, CreateVolumeGroup, Spec. solve_triple. Qed.

#[export] Instance request_Delete_spec r : Spec (request_Delete r) delete_rpc returns.
Proof. unfold request_Delete, DeleteVolumeGroup, Spec. solve_triple. Qed.

#[export] Instance request_Modify_spec r : Spec (request_Modify r) modify_rpc returns.
Proof. unfold request_Modify, ModifyVolumeGroupMembership, Spec. solve_triple. Qed.
