(* ===== verification/VolumeGroupContents.v ===== *)
(** * VolumeGroupContent objects

    [controllers/utils/volumegroupcontent.go], and [deletePVC] of
    [persistentvolumeclaim.go]. *)

From S2P Require Import Prelude GoLang Api Effects Externals Objects Params VolumeGroups Volumes.
From S2P Require Import Finalizers Driver.

(** ** Lists of volumes *)

(** The test of [removeFromPVList]. *)
Definition same_pv (a b : PersistentVolume) : bool :=
  bool_decide (GetName KPV a = GetName KPV b) &&
  bool_decide (GetNamespace KPV a = GetNamespace KPV b).

Definition removeByIndexFromPVList (pvList : list PersistentVolume) (index : nat)
  : list PersistentVolume := remove_at index pvList.

Definition removeFromPVList (pv : PersistentVolume) (pvList : list PersistentVolume)
  : list PersistentVolume :=
  match index_of (λ pvFromList, same_pv pvFromList pv) pvList with
  | Some index => removeByIndexFromPVList pvList index
  | None => pvList
  end.

(** What [removeFromPVList] does to the array of the slice it is given. *)
Definition removeFromPVList_slice (pv : PersistentVolume) (pvList : slice PersistentVolume)
  : slice PersistentVolume :=
  match index_of (λ pvFromList, same_pv pvFromList pv) (slice_view pvList) with
  | Some index => slice_remove_at index pvList
  | None => pvList
  end.

(** [appendPV] compares names only. *)
Definition appendPV (pvListInVGC : list PersistentVolume) (pv : PersistentVolume)
  : list PersistentVolume :=
  if existsb (λ pvFromList, bool_decide (GetName KPV pvFromList = GetName KPV pv)) pvListInVGC
  then pvListInVGC
  else pvListInVGC ++ [pv].

(** ** Building a content *)

Definition getVolumeGroupDeletionPolicy (vgClass : VolumeGroupClass)
  : option VolumeGroupDeletionPolicy :=
  match vgclass_VolumeGroupDeletionPolicy vgClass with
  | Some p => Some p
  | None => Some VolumeGroupContentDelete
  end.

Definition generateObjectReference (instance : VolumeGroup) : option ObjectReference :=
  Some {| or_Kind := tm_Kind (vg_TypeMeta instance);
          or_Namespace := GetNamespace KVG instance;
          or_Name := GetName KVG instance;
          or_UID := GetUID KVG instance;
          or_APIVersion := tm_APIVersion (vg_TypeMeta instance);
          or_ResourceVersion := om_ResourceVersion (vg_ObjectMeta instance) |}.

Definition generateSecretReference (secretName secretNamespace : string)
  : option SecretReference :=
  Some {| sr_Name := secretName; sr_Namespace := secretNamespace |}.

Definition generateVGCSource (vgClass : VolumeGroupClass) : option VolumeGroupContentSource :=
  Some {| vgcsrc_Driver := vgclass_Driver vgClass; vgcsrc_VolumeGroupHandle := "";
          vgcsrc_VolumeGroupAttributes := ∅ |}.

Definition generateVGCSpec (instance : VolumeGroup) (vgClass : VolumeGroupClass)
    (secretName secretNamespace : string) : prog VolumeGroupContentSpec :=
  vgClassName ← or_panic nil_deref
    (GetStringField (to_value (vg_Spec instance)) "VolumeGroupClassName");
  mret {| vgcspec_VolumeGroupClassName := Some vgClassName;
          vgcspec_VolumeGroupRef := generateObjectReference instance;
          vgcspec_Source := generateVGCSource vgClass;
          vgcspec_VolumeGroupDeletionPolicy := getVolumeGroupDeletionPolicy vgClass;
          vgcspec_SupportVolumeGroupSnapshot := Some false;
          vgcspec_VolumeGroupSecretRef := generateSecretReference secretName secretNamespace |}.

Definition GenerateVGC (vgname : string) (instance : VolumeGroup) (vgClass : VolumeGroupClass)
    (secretName secretNamespace : string) : prog VolumeGroupContent :=
  spec ← generateVGCSpec instance vgClass secretName secretNamespace;
  mret {| vgc_TypeMeta := {| tm_Kind := ""; tm_APIVersion := "" |};
          vgc_ObjectMeta :=
            {| om_Name := vgname; om_Namespace := GetNamespace KVG instance; om_UID := "";
               om_ResourceVersion := ""; om_Generation := 0; om_Labels := ∅;
               om_Annotations := ∅; om_Finalizers := []; om_DeletionTimestamp := None |};
          vgc_Spec := spec;
          vgc_Status := {| vgcst_GroupCreationTime := None; vgcst_PVList := [];
                           vgcst_Ready := None; vgcst_Error := None |} |}.

(** ** Completing a content *)

Definition updateVGCStatusFields (vgc : VolumeGroupContent) (groupCreationTime : option Z)
    (ready : bool) : VolumeGroupContent :=
  set_vgc_Status (λ st,
    {| vgcst_GroupCreationTime := groupCreationTime; vgcst_PVList := vgcst_PVList st;
       vgcst_Ready := Some ready; vgcst_Error := vgcst_Error st |}) vgc.

Definition updateStaticVGCSpec (vgClass : VolumeGroupClass) (vgc : VolumeGroupContent)
  : VolumeGroupContent :=
  let '(secretName, secretNamespace) := GetSecretCred vgClass in
  set_vgc_Spec (λ s,
    {| vgcspec_VolumeGroupClassName :=
         match vgcspec_VolumeGroupClassName s with
         | None => Some (GetName KVGClass vgClass)
         | Some n => Some n
         end;
       vgcspec_VolumeGroupRef := vgcspec_VolumeGroupRef s;
       vgcspec_Source := vgcspec_Source s;
       vgcspec_VolumeGroupDeletionPolicy :=
         match vgcspec_VolumeGroupDeletionPolicy s with
         | None => getVolumeGroupDeletionPolicy vgClass
         | Some p => Some p
         end;
       vgcspec_SupportVolumeGroupSnapshot := vgcspec_SupportVolumeGroupSnapshot s;
       vgcspec_VolumeGroupSecretRef :=
         match vgcspec_VolumeGroupSecretRef s with
         | None => generateSecretReference secretName secretNamespace
         | Some r => Some r
         end |}) vgc.

Definition set_vgc_policy (p : option VolumeGroupDeletionPolicy)
  : VolumeGroupContent → VolumeGroupContent :=
  set_vgc_Spec (λ s,
    {| vgcspec_VolumeGroupClassName := vgcspec_VolumeGroupClassName s;
       vgcspec_VolumeGroupRef := vgcspec_VolumeGroupRef s;
       vgcspec_Source := vgcspec_Source s;
       vgcspec_VolumeGroupDeletionPolicy := p;
       vgcspec_SupportVolumeGroupSnapshot := vgcspec_SupportVolumeGroupSnapshot s;
       vgcspec_VolumeGroupSecretRef := vgcspec_VolumeGroupSecretRef s |}).

Definition updateThinVGCSpec (vgc : VolumeGroupContent) : prog VolumeGroupContent :=
  policy ← or_panic nil_deref
    (GetStringField (to_value (vgc_Spec vgc)) "VolumeGroupDeletionPolicy");
  if decide (policy = "")%string
  then mret (set_vgc_policy (Some VolumeGroupContentRetain) vgc)
  else mret vgc.

Definition set_vgc_ref (r : option ObjectReference) : VolumeGroupContent → VolumeGroupContent :=
  set_vgc_Spec (λ s,
    {| vgcspec_VolumeGroupClassName := vgcspec_VolumeGroupClassName s;
       vgcspec_VolumeGroupRef := r;
       vgcspec_Source := vgcspec_Source s;
       vgcspec_VolumeGroupDeletionPolicy := vgcspec_VolumeGroupDeletionPolicy s;
       vgcspec_SupportVolumeGroupSnapshot := vgcspec_SupportVolumeGroupSnapshot s;
       vgcspec_VolumeGroupSecretRef := vgcspec_VolumeGroupSecretRef s |}).

Definition set_vgc_source (src : option VolumeGroupContentSource)
  : VolumeGroupContent → VolumeGroupContent :=
  set_vgc_Spec (λ s,
    {| vgcspec_VolumeGroupClassName := vgcspec_VolumeGroupClassName s;
       vgcspec_VolumeGroupRef := vgcspec_VolumeGroupRef s;
       vgcspec_Source := src;
       vgcspec_VolumeGroupDeletionPolicy := vgcspec_VolumeGroupDeletionPolicy s;
       vgcspec_SupportVolumeGroupSnapshot := vgcspec_SupportVolumeGroupSnapshot s;
       vgcspec_VolumeGroupSecretRef := vgcspec_VolumeGroupSecretRef s |}).

Definition set_vgc_TypeMeta (t : TypeMeta) (vgc : VolumeGroupContent) : VolumeGroupContent :=
  {| vgc_TypeMeta := t; vgc_ObjectMeta := vgc_ObjectMeta vgc;
     vgc_Spec := vgc_Spec vgc; vgc_Status := vgc_Status vgc |}.

(** ** Operations *)

Section VolumeGroupContents.
Context `{Externals}.

Definition CreateVGC (vgc : VolumeGroupContent) : prog (option error * VolumeGroupContent) :=
  r ← trigger (CCreate KVGC vgc);
  match r with
  | inl err => if IsAlreadyExists err then mret (None, vgc) else mret (Some err, vgc)
  | inr vgc => mret (None, vgc)
  end.

(** The failure of the event is swallowed. *)
Definition CreateSuccessVGCEvent (vgc : VolumeGroupContent)
  : prog (option error * VolumeGroupContent) :=
  let vgc := set_vgc_TypeMeta {| tm_Kind := vgcKind; tm_APIVersion := APIVersion |} vgc in
  let message := Sprintf messages.VGCCreated
                   [AStr (GetNamespace KVGC vgc); AStr (GetName KVGC vgc)] in
  err ← createSuccessNamespacedObjectEvent KVGC vgc message createVGC;
  match err with
  | Some _ => mret (None, vgc)
  | None => mret (None, vgc)
  end.

Definition UpdateVGCStatus (vgc : VolumeGroupContent) (groupCreationTime : option Z)
    (ready : bool) : prog (option error * VolumeGroupContent) :=
  let vgc := updateVGCStatusFields vgc groupCreationTime ready in
  '(err, vgc) ← UpdateObjectStatus KVGC vgc;
  match err with
  | Some err => mret (Some err, vgc)
  | None => mret (None, vgc)
  end.

Definition vgcRetryOnConflictFunc (vgc : VolumeGroupContent)
  : prog (option error * VolumeGroupContent) :=
  '(err, vgc) ← UpdateObjectStatus KVGC vgc;
  if on_err IsConflict err then
    '(uErr, vgc) ← getNamespacedObject KVGC vgc;
    match uErr with
    | Some uErr => mret (Some uErr, vgc)
    | None => mret (err, vgc)
    end
  else mret (err, vgc).

Definition updateVGCStatusPVList (vgc : VolumeGroupContent) (pvList : list PersistentVolume)
  : prog (option error * VolumeGroupContent) :=
  '(err, vgc) ← RetryOnConflict (λ vgc, vgcRetryOnConflictFunc (set_vgc_PVList pvList vgc)) vgc;
  match err with
  | Some err => mret (Some err, vgc)
  | None => mret (None, vgc)
  end.

Definition UpdateVGCStatusError (vgc : VolumeGroupContent) (message : string)
  : prog (option error * VolumeGroupContent) :=
  RetryOnConflict
    (λ vgc, vgcRetryOnConflictFunc
              (set_vgc_Error (Some {| vge_Time := None; vge_Message := Some message |}) vgc)) vgc.

Definition RemovePVFromVGC (pv : PersistentVolume) (vgc : VolumeGroupContent)
  : prog (option error * VolumeGroupContent) :=
  let vgc := set_vgc_PVList (removeFromPVList pv (vgcst_PVList (vgc_Status vgc))) vgc in
  '(err, vgc) ← updateVGCStatusPVList vgc (vgcst_PVList (vgc_Status vgc));
  match err with
  | Some err =>
      let vgc := set_vgc_PVList (appendPV (vgcst_PVList (vgc_Status vgc)) pv) vgc in
      mret (Some err, vgc)
  | None => mret (None, vgc)
  end.

Definition addPVToVGC (pv : PersistentVolume) (vgc : VolumeGroupContent)
  : prog (option error * VolumeGroupContent) :=
  let vgc := set_vgc_PVList (appendPV (vgcst_PVList (vgc_Status vgc)) pv) vgc in
  '(err, vgc) ← updateVGCStatusPVList vgc (vgcst_PVList (vgc_Status vgc));
  match err with
  | Some err =>
      let vgc := set_vgc_PVList (removeFromPVList pv (vgcst_PVList (vgc_Status vgc))) vgc in
      mret (Some err, vgc)
  | None => mret (None, vgc)
  end.

Definition AddMatchingPVToMatchingVGC (pvc : PersistentVolumeClaim) (vg : VolumeGroup)
  : prog (option error) :=
  r ← GetPVFromPVC pvc;
  match r with
  | inl err => mret (Some err)
  | inr pv =>
      vgcName ← or_panic nil_deref
        (GetStringField (to_value (vgspec_Source (vg_Spec vg))) "VolumeGroupContentName");
      r ← GetVGC vgcName (GetNamespace KVG vg);
      match r with
      | inl err => mret (Some err)
      | inr vgc =>
          match pv with
          | Some pv => '(err, _) ← addPVToVGC pv vgc; mret err
          | None => mret None
          end
      end
  end.

Definition UpdateStaticVGCFromVG (vg : VolumeGroup) (vgClass : VolumeGroupClass)
  : prog (option error) :=
  vgcName ← deref (vgsrc_VolumeGroupContentName (vgspec_Source (vg_Spec vg)));
  r ← GetVGC vgcName (GetNamespace KVG vg);
  match r with
  | inl err => mret (Some err)
  | inr vgc =>
      let vgc := set_vgc_ref (generateObjectReference vg) vgc in
      let vgc := updateStaticVGCSpec vgClass vgc in
      '(err, _) ← UpdateObject KVGC vgc;
      mret err
  end.

Definition UpdateStaticVGC (vgcNamespace vgcName : string) (vgClass : VolumeGroupClass)
  : prog (option error) :=
  r ← GetVGC vgcName vgcNamespace;
  match r with
  | inl err => mret (Some err)
  | inr vgc =>
      let vgc := updateStaticVGCSpec vgClass vgc in
      '(err, _) ← UpdateObject KVGC vgc;
      mret err
  end.

Definition UpdateThinVGC (vgcNamespace vgcName : string) : prog (option error) :=
  r ← GetVGC vgcName vgcNamespace;
  match r with
  | inl err => mret (Some err)
  | inr vgc =>
      vgc ← updateThinVGCSpec vgc;
      '(err, _) ← UpdateObject KVGC vgc;
      mret err
  end.

(** The answer and the source are dereferenced without a check. *)
Definition UpdateVGCByResponse (vgc : VolumeGroupContent) (resp : Response)
  : prog (option error * VolumeGroupContent) :=
  CreateVGResponse ← or_panic "interface conversion" (Response_Response resp);
  volumeGroup ← deref (cvgr_VolumeGroup CreateVGResponse);
  source ← deref (vgcspec_Source (vgc_Spec vgc));
  let vgc := set_vgc_source
               (Some {| vgcsrc_Driver := vgcsrc_Driver source;
                        vgcsrc_VolumeGroupHandle := csi_VolumeGroupId volumeGroup;
                        vgcsrc_VolumeGroupAttributes := csi_VolumeGroupContext volumeGroup |})
               vgc in
  '(err, vgc) ← UpdateObject KVGC vgc;
  match err with
  | Some err => mret (Some err, vgc)
  | None => mret (None, vgc)
  end.

(** ** deletePVC *)

Definition deletePVC (name namespace driver : string) : prog (option error) :=
  r ← GetPVC name namespace;
  match r with
  | inl err => if IsNotFound err then mret None else mret (Some err)
  | inr pvc =>
      '(err, pvc) ← RemoveFinalizerFromPVC driver pvc;
      match err with
      | Some err => mret (Some err)
      | None =>
          err ← removePVCObject pvc;
          match err with
          | Some err => mret (Some err)
          | None => mret None
          end
      end
  end.

(** ** DeletePVCsUnderVGC

    [for _, pv := range vgc.Status.PVList] fixes the number of rounds and the
    array before the first round, but reads element [i] of the array in round
    [i].  [RemovePVFromVGC] shortens [vgc.Status.PVList] in place, so as long
    as the content's list lives in that array ([shared]) each removal moves
    the elements the loop has still to read; the status update then decodes
    the server's answer into the list. *)

(** The claim of a volume: from its claim reference, or by a search of the
    claims; [None] when there is none. *)
Definition pvc_of_pv (pv : PersistentVolume) (driver : string)
  : prog (error + option (string * string)) :=
  pvcName ← or_panic nil_deref (getPVCNameFromPV pv);
  pvcNamespace ← or_panic nil_deref (getPVCNamespaceFromPV pv);
  if decide (pvcNamespace = "" ∨ pvcName = "")%string then
    r ← getMatchingPVCFromPVCListToPV (GetName KPV pv) driver;
    match r with
    | inl err => mret (inl err)
    | inr pvc =>
        if decide (GetName KPVC pvc = "" ∨ GetNamespace KPVC pvc = "")%string
        then mret (inr None)
        else mret (inr (Some (GetName KPVC pvc, GetNamespace KPVC pvc)))
    end
  else mret (inr (Some (pvcName, pvcNamespace))).

(** The list after the status update: in the same array, or elsewhere. *)
Definition decode_list (l : list PersistentVolume) (ranged : slice PersistentVolume)
  : slice PersistentVolume * bool :=
  if decode_reuses_array then
    if decide (length l ≤ length (s_arr ranged))
    then (slice_decode l ranged, true)
    else (mk_slice (take (length (s_arr ranged)) l) (length (s_arr ranged)), false)
  else (ranged, false).

Fixpoint DeletePVCsUnderVGC_loop (rounds i : nat) (ranged : slice PersistentVolume)
    (shared : bool) (vgc : VolumeGroupContent) (driver : string)
  : prog (option error * VolumeGroupContent) :=
  match rounds with
  | 0 => mret (None, vgc)
  | S rounds =>
      pv ← or_panic "index out of range" (s_arr ranged !! i);
      r ← pvc_of_pv pv driver;
      match r with
      | inl err => mret (Some err, vgc)
      | inr None => DeletePVCsUnderVGC_loop rounds (S i) ranged shared vgc driver
      | inr (Some (pvcName, pvcNamespace)) =>
          err ← deletePVC pvcName pvcNamespace driver;
          match err with
          | Some err => mret (Some err, vgc)
          | None =>
              let ranged := if shared then removeFromPVList_slice pv ranged else ranged in
              '(err, vgc) ← RemovePVFromVGC pv vgc;
              match err with
              | Some err => mret (Some err, vgc)
              | None =>
                  let '(ranged, shared) :=
                    if shared then decode_list (vgcst_PVList (vgc_Status vgc)) ranged
                    else (ranged, false) in
                  DeletePVCsUnderVGC_loop rounds (S i) ranged shared vgc driver
              end
          end
      end
  end.

Definition DeletePVCsUnderVGC (vgc : VolumeGroupContent) (driver : string)
  : prog (option error * VolumeGroupContent) :=
  let pvList := vgcst_PVList (vgc_Status vgc) in
  DeletePVCsUnderVGC_loop (length pvList) 0 (slice_of pvList) true vgc driver.
End VolumeGroupContents.

(** ** Calls and results *)

Section Specs.
Context `{ExternalLaws}.

Definition vgc_status_calls (c : call) : Prop :=
  match c with CStatusUpdate KVGC _ | CGet KVGC _ => True | _ => False end.

Definition vgc_update_calls (c : call) : Prop :=
  match c with CUpdate KVGC _ | CGet KVGC _ => True | _ => False end.

Definition add_pv_calls (c : call) : Prop :=
  match c with CStatusUpdate KVGC _ | CGet KVGC _ | CGet KPV _ => True | _ => False end.

Definition delete_pvc_calls (c : call) : Prop :=
  match c with
  | CUpdate KPVC _ | CGet KPVC _ | CList KVG | CGet KVGClass _ | CDelete KPVC _ => True
  | _ => False
  end.

(** Everything the loop over the volumes may do. *)
Definition delete_pvcs_calls (c : call) : Prop :=
  match c with
  | CUpdate KPVC _ | CGet KPVC _ | CList KVG | CGet KVGClass _ | CDelete KPVC _
  | CList KPVC | CGet KSC _ | CStatusUpdate KVGC _ | CGet KVGC _ => True
  | _ => False
  end.

#[export] Instance GenerateVGC_spec n vg cl s sn :
  Spec (GenerateVGC n vg cl s sn) (λ _, False)
    (after (λ vgc, key_of KVGC vgc = mkNN (GetNamespace KVG vg) n) False).
Proof.
  unfold GenerateVGC, generateVGCSpec, Spec. autorewrite with reflect. solve_triple.
Qed.

#[export] Instance CreateVGC_spec vgc :
  Spec (CreateVGC vgc) (λ c, match c with CCreate KVGC _ => True | _ => False end) returns.
Proof. unfold CreateVGC, Spec. solve_triple. Qed.

#[export] Instance CreateSuccessVGCEvent_spec vgc :
  Spec (CreateSuccessVGCEvent vgc) event_calls (after (λ r, fst r = None) False).
Proof. unfold CreateSuccessVGCEvent, Spec. solve_triple. Qed.

#[export] Instance UpdateVGCStatus_spec vgc t ready :
  Spec (UpdateVGCStatus vgc t ready) (status_calls KVGC) returns.
Proof. unfold UpdateVGCStatus, Spec. solve_triple. Qed.

#[export] Instance vgcRetryOnConflictFunc_spec vgc :
  Spec (vgcRetryOnConflictFunc vgc) vgc_status_calls returns.
Proof. unfold vgcRetryOnConflictFunc, Spec. solve_triple. Qed.

#[export] Instance updateVGCStatusPVList_spec vgc l :
  Spec (updateVGCStatusPVList vgc l) vgc_status_calls returns.
Proof.
  unfold updateVGCStatusPVList, Spec. triple_step.
  eapply triple_retry_returns; [intros; apply _|solve_covers|intros r; cbn]. solve_triple.
Qed.

#[export] Instance UpdateVGCStatusError_spec vgc m :
  Spec (UpdateVGCStatusError vgc m) vgc_status_calls returns.
Proof.
  unfold UpdateVGCStatusError, Spec.
  eapply triple_retry_returns; [intros; apply _|solve_covers|intros r; cbn]. solve_triple.
Qed.

#[export] Instance RemovePVFromVGC_spec pv vgc :
  Spec (RemovePVFromVGC pv vgc) vgc_status_calls returns.
Proof. unfold RemovePVFromVGC, Spec. solve_triple. Qed.

#[export] Instance addPVToVGC_spec pv vgc : Spec (addPVToVGC pv vgc) vgc_status_calls returns.
Proof. unfold addPVToVGC, Spec. solve_triple. Qed.

#[export] Instance AddMatchingPVToMatchingVGC_spec pvc vg :
  Spec (AddMatchingPVToMatchingVGC pvc vg) add_pv_calls returns.
Proof.
  unfold AddMatchingPVToMatchingVGC, Spec. autorewrite with reflect. solve_triple.
Qed.

#[export] Instance UpdateStaticVGCFromVG_spec vg cl :
  Spec (UpdateStaticVGCFromVG vg cl) vgc_update_calls any.
Proof. unfold UpdateStaticVGCFromVG, Spec. solve_triple. Qed.

#[export] Instance UpdateStaticVGC_spec ns n cl :
  Spec (UpdateStaticVGC ns n cl) vgc_update_calls returns.
Proof. unfold UpdateStaticVGC, Spec. solve_triple. Qed.

#[export] Instance updateThinVGCSpec_spec vgc :
  Spec (updateThinVGCSpec vgc) (λ _, False) returns.
Proof. unfold updateThinVGCSpec, Spec. autorewrite with reflect. solve_triple. Qed.

#[export] Instance UpdateThinVGC_spec ns n :
  Spec (UpdateThinVGC ns n) vgc_update_calls returns.
Proof. unfold UpdateThinVGC, Spec. solve_triple. Qed.

#[export] Instance UpdateVGCByResponse_spec vgc r :
  Spec (UpdateVGCByResponse vgc r) (update_calls KVGC) any.
Proof. unfold UpdateVGCByResponse, Spec. solve_triple. Qed.

#[export] Instance deletePVC_spec n ns d : Spec (deletePVC n ns d) delete_pvc_calls returns.
Proof. unfold deletePVC, removePVCObject, Spec. solve_triple. Qed.

#[export] Instance pvc_of_pv_spec pv d : Spec (pvc_of_pv pv d) pvc_list_calls returns.
Proof.
  unfold pvc_of_pv, getPVCNameFromPV, getPVCNamespaceFromPV, Spec.
  autorewrite with reflect. solve_triple.
Qed.

#[export] Instance DeletePVCsUnderVGC_loop_spec n i s sh vgc d :
  Spec (DeletePVCsUnderVGC_loop n i s sh vgc d) delete_pvcs_calls any.
Proof.
  unfold Spec. revert i s sh vgc.
  induction n as [|n IH]; intros i s sh vgc; cbn [DeletePVCsUnderVGC_loop]; solve_triple;
    apply IH.
Qed.

#[export] Instance DeletePVCsUnderVGC_spec vgc d :
  Spec (DeletePVCsUnderVGC vgc d) delete_pvcs_calls any.
Proof. apply DeletePVCsUnderVGC_loop_spec. Qed.
End Specs.
