(* ===== verification/Membership.v ===== *)
(** * Membership of a group

    [controllers/utils/modify_volumegroup.go] and the membership part of
    [controllers/utils/controller_utils.go]: telling the driver the volumes of
    a group, then bringing the claims of the VolumeGroup, the volumes of its
    content and the finalizers of the claims in line. *)

From S2P Require Import Prelude GoLang Api Effects Externals Objects Params VolumeGroups Volumes.
From S2P Require Import Finalizers Driver VolumeGroupContents.

(** [sort.Strings] order on names: the order of the bytes. *)
Definition string_less (a b : string) : bool := String.ltb a b.

Section Membership.
Context `{Externals}.

(** ** modify_volumegroup.go *)

Definition getSecrets (vg : VolumeGroup)
  : prog ((error + gmap string string) * VolumeGroup) :=
  vgClassName ← or_panic nil_deref
    (GetStringField (to_value (vg_Spec vg)) "VolumeGroupClassName");
  r ← GetVGClass vgClassName;
  match r with
  | inl err => mret (inl err, vg)
  | inr vgc =>
      r ← GetSecretDataFromClass vgc;
      match r with
      | inl err =>
          '(uErr, vg) ← UpdateVGStatusError vg (Error err);
          match uErr with
          | Some _ => mret (inl err, vg)
          | None => mret (inl err, vg)
          end
      | inr secrets => mret (inr secrets, vg)
      end
  end.

Definition generateModifyVGParams (vg : VolumeGroup)
  : prog ((error + CommonRequestParameters) * VolumeGroup) :=
  r ← getVgId vg;
  match r with
  | inl err => mret (inl err, vg)
  | inr vgId =>
      r ← getPVCListVolumeIds (vgst_PVCList (vg_Status vg));
      match r with
      | inl err => mret (inl err, vg)
      | inr volumeIds =>
          '(r, vg) ← getSecrets vg;
          match r with
          | inl err => mret (inl err, vg)
          | inr secrets =>
              mret (inr {| crp_Name := ""; crp_VolumeGroupID := vgId;
                           crp_VolumeIds := volumeIds; crp_Parameters := ∅;
                           crp_Secrets := secrets |}, vg)
          end
      end
  end.

Definition ModifyVG (vg : VolumeGroup) : prog (option error * VolumeGroup) :=
  '(r, vg) ← generateModifyVGParams vg;
  match r with
  | inl err => mret (Some err, vg)
  | inr params =>
      modifyVGResponse ← request_Modify params;
      match Response_Error modifyVGResponse with
      | Some responseError => mret (Some responseError, vg)
      | None => mret (None, vg)
      end
  end.

(** ** controller_utils.go *)

(** [vg] is passed by value: the caller's object is not changed. *)
Definition ModifyVolumesInVG (matchingPvcs : list PersistentVolumeClaim) (vg : VolumeGroup)
  : prog (option error) :=
  let vg := set_vg_PVCList matchingPvcs vg in
  '(err, _) ← ModifyVG vg;
  match err with
  | Some err => mret (Some err)
  | None => mret None
  end.

Definition AddVolumeToPvcListAndPvList (pvc : PersistentVolumeClaim) (vg : VolumeGroup)
  : prog (option error * VolumeGroup) :=
  '(err, vg) ← AddPVCToVG pvc vg;
  match err with
  | Some err => mret (Some err, vg)
  | None =>
      err ← AddMatchingPVToMatchingVGC pvc vg;
      match err with
      | Some err => mret (Some err, vg)
      | None =>
          '(err, pvc) ← AddFinalizerToPVC pvc;
          match err with
          | Some err => mret (Some err, vg)
          | None =>
              let message := Sprintf messages.AddedPVCToVG
                               [AStr (GetNamespace KPVC pvc); AStr (GetName KPVC pvc);
                                AStr (GetNamespace KVG vg); AStr (GetName KVG vg)] in
              HandleSuccessMessage vg message addingPVC
          end
      end
  end.

Definition RemoveVolumeFromPvcListAndPvList (driver : string) (pvc : PersistentVolumeClaim)
    (vg : VolumeGroup) : prog (option error * VolumeGroup) :=
  '(err, vg) ← RemovePVCFromVG pvc vg;
  match err with
  | Some err => mret (Some err, vg)
  | None =>
      r ← GetPVFromPVC pvc;
      match r with
      | inl err => mret (Some err, vg)
      | inr pv =>
          vgcName ← or_panic nil_deref
            (GetStringField (to_value (vgspec_Source (vg_Spec vg))) "VolumeGroupContentName");
          r ← GetVGC vgcName (GetNamespace KVG vg);
          match r with
          | inl err => mret (Some err, vg)
          | inr vgc =>
              err ← match pv with
                    | Some pv => '(err, _) ← RemovePVFromVGC pv vgc; mret err
                    | None => mret None
                    end;
              match err with
              | Some err => mret (Some err, vg)
              | None =>
                  '(err, pvc) ← RemoveFinalizerFromPVC driver pvc;
                  match err with
                  | Some err => mret (Some err, vg)
                  | None =>
                      let message := Sprintf messages.RemovedPVCFromVG
                                       [AStr (GetNamespace KPVC pvc); AStr (GetName KPVC pvc);
                                        AStr (GetNamespace KVG vg); AStr (GetName KVG vg)] in
                      HandleSuccessMessage vg message removingPVC
                  end
              end
          end
      end
  end.

(** The first loop of [UpdatePvcAndPvList]. *)
Fixpoint remove_stale_loop (driver : string) (matchingPvcs : list PersistentVolumeClaim)
    (items : list PersistentVolumeClaim) (vg : VolumeGroup)
  : prog (option error * VolumeGroup) :=
  match items with
  | [] => mret (None, vg)
  | pvc :: rest =>
      if negb (IsPVCInPVCList pvc matchingPvcs) then
        '(err, vg) ← RemoveVolumeFromPvcListAndPvList driver pvc vg;
        match err with
        | Some err => HandleErrorMessage vg (Some err) removingPVC
        | None => remove_stale_loop driver matchingPvcs rest vg
        end
      else remove_stale_loop driver matchingPvcs rest vg
  end.

(** The second loop of [UpdatePvcAndPvList]. *)
Fixpoint add_matching_loop (vgPvcList : list PersistentVolumeClaim)
    (items : list PersistentVolumeClaim) (vg : VolumeGroup)
  : prog (option error * VolumeGroup) :=
  match items with
  | [] => mret (None, vg)
  | pvc :: rest =>
      if negb (IsPVCInPVCList pvc vgPvcList) then
        '(err, vg) ← AddVolumeToPvcListAndPvList pvc vg;
        match err with
        | Some err => HandleErrorMessage vg (Some err) addingPVC
        | None => add_matching_loop vgPvcList rest vg
        end
      else add_matching_loop vgPvcList rest vg
  end.

Definition UpdatePvcAndPvList (vg : VolumeGroup) (driver : string)
    (matchingPvcs : list PersistentVolumeClaim) : prog (option error * VolumeGroup) :=
  let vgPvcList := vgst_PVCList (vg_Status vg) in
  '(err, vg) ← remove_stale_loop driver matchingPvcs vgPvcList vg;
  match err with
  | Some err => mret (Some err, vg)
  | None => add_matching_loop vgPvcList matchingPvcs vg
  end.

Definition IsPVCListEqual (x y : list PersistentVolumeClaim) : bool :=
  let less a b := string_less (GetName KPVC a) (GetName KPVC b) in
  bool_decide (cmp_Diff_SortSlices less x y = ""%string).
End Membership.

(** ** Calls and results *)

Section Specs.
Context `{ExternalLaws}.

(** What preparing the request may do: read, and put an error in the status. *)
Definition modify_params_calls (c : call) : Prop :=
  match c with
  | CGet KVGC _ | CGet KPV _ | CGet KVGClass _ | CGet KSecret _ | CMapOrder
  | CStatusUpdate KVG _ | CGet KVG _ => True
  | _ => False
  end.

Definition modify_calls (c : call) : Prop :=
  match c with
  | CGet KVGC _ | CGet KPV _ | CGet KVGClass _ | CGet KSecret _ | CMapOrder
  | CStatusUpdate KVG _ | CGet KVG _ | CModifyVolumeGroupMembership _ _ _ => True
  | _ => False
  end.

(** What bringing the lists in line may do: no call to the driver, no
    deletion, no update of a VolumeGroup or content outside its status. *)
Definition lists_calls (c : call) : Prop :=
  match c with
  | CStatusUpdate KVG _ | CGet KVG _ | CStatusUpdate KVGC _ | CGet KVGC _ | CGet KPV _
  | CUpdate KPVC _ | CGet KPVC _ | CList KVG | CGet KVGClass _
  | CNow | CRandInts _ | CCreate KEvent _ => True
  | _ => False
  end.

#[export] Instance getSecrets_spec vg :
  Spec (getSecrets vg) modify_params_calls returns.
Proof. unfold getSecrets, Spec. autorewrite with reflect. solve_triple. Qed.

#[export] Instance generateModifyVGParams_spec vg :
  Spec (generateModifyVGParams vg) modify_params_calls any.
Proof. unfold generateModifyVGParams, Spec. solve_triple. Qed.

#[export] Instance ModifyVG_spec vg : Spec (ModifyVG vg) modify_calls any.
Proof. unfold ModifyVG, Spec. solve_triple. Qed.

#[export] Instance ModifyVolumesInVG_spec l vg :
  Spec (ModifyVolumesInVG l vg) modify_calls any.
Proof. unfold ModifyVolumesInVG, Spec. solve_triple. Qed.

#[export] Instance AddVolumeToPvcListAndPvList_spec pvc vg :
  Spec (AddVolumeToPvcListAndPvList pvc vg) lists_calls returns.
Proof. unfold AddVolumeToPvcListAndPvList, Spec. solve_triple. Qed.

(** The read of the content name, whatever VolumeGroup the status update left. *)
#[export] Instance content_name_spec w (vg : VolumeGroup) :
  Spec (or_panic w (GetStringField (to_value (vgspec_Source (vg_Spec vg)))
                      "VolumeGroupContentName")) (λ _, False)
    (λ o, o = Some (or_empty (vgsrc_VolumeGroupContentName (vgspec_Source (vg_Spec vg))))).
Proof. unfold Spec. autorewrite with reflect. solve_triple. Qed.

#[export] Instance RemoveVolumeFromPvcListAndPvList_spec d pvc vg :
  Spec (RemoveVolumeFromPvcListAndPvList d pvc vg) lists_calls returns.
Proof.
  unfold RemoveVolumeFromPvcListAndPvList, Spec.
  repeat first
    [ match goal with |- triple _ _ (or_panic _ (GetStringField _ _)) =>
        eapply triple_spec; [typeclasses eauto|solve_covers|outcome_cases] end
    | triple_step ].
Qed.

#[export] Instance remove_stale_loop_spec d m l vg :
  Spec (remove_stale_loop d m l vg) lists_calls returns.
Proof.
  unfold Spec. revert vg. induction l as [|pvc l IH]; intros vg; cbn [remove_stale_loop];
    solve_triple; apply IH.
Qed.

#[export] Instance add_matching_loop_spec m l vg :
  Spec (add_matching_loop m l vg) lists_calls returns.
Proof.
  unfold Spec. revert vg. induction l as [|pvc l IH]; intros vg; cbn [add_matching_loop];
    solve_triple; apply IH.
Qed.

#[export] Instance UpdatePvcAndPvList_spec vg d m :
  Spec (UpdatePvcAndPvList vg d m) lists_calls returns.
Proof. unfold UpdatePvcAndPvList, Spec. solve_triple. Qed.
End Specs.
