(* ===== verification/Predicates.v ===== *)
(** * Which events start a reconciliation

    [controllers/utils/predicate.go]: the filters put on the watches and the
    map from a claim to the VolumeGroups it concerns. *)

From S2P Require Import Prelude GoLang Api Effects Externals Objects Params VolumeGroups.

Inductive watch_event (K : Kind) :=
| CreateEvent (o : obj_of K)
| DeleteEvent (o : obj_of K)
| UpdateEvent (objectOld objectNew : obj_of K)
| GenericEvent (o : obj_of K).
Arguments CreateEvent {K} _.
Arguments DeleteEvent {K} _.
Arguments UpdateEvent {K} _ _.
Arguments GenericEvent {K} _.

Definition isLabelsChanged (oldObject newObject : PersistentVolumeClaim) : bool :=
  negb (bool_decide (om_Labels (pvc_ObjectMeta oldObject) = om_Labels (pvc_ObjectMeta newObject))).

Definition isPhaseChanged (oldObject newObject : PersistentVolumeClaim) : bool :=
  negb (bool_decide (pvc_Phase oldObject = pvc_Phase newObject)).

Definition PvcPredicate (e : watch_event KPVC) : bool :=
  match e with
  | CreateEvent _ => true
  | DeleteEvent _ => false
  | UpdateEvent objectOld objectNew =>
      isLabelsChanged objectOld objectNew || isPhaseChanged objectOld objectNew
  | GenericEvent _ => false
  end.

(** Only [UpdateFunc] is given; [predicate.Funcs] accepts the other events. *)
Definition FinalizerPredicate {K} (e : watch_event K) : bool :=
  match e with
  | UpdateEvent objectOld objectNew =>
      negb (bool_decide (GetFinalizers K objectNew = GetFinalizers K objectOld))
  | _ => true
  end.

Section Requests.
Context `{Externals}.

Fixpoint CreateRequests_loop (labels : gmap string string) (items : list VolumeGroup)
    (requests : list NamespacedName) : list NamespacedName :=
  match items with
  | [] => requests
  | vg :: rest =>
      match vgsrc_Selector (vgspec_Source (vg_Spec vg)) with
      | None => CreateRequests_loop labels rest requests
      | Some selector =>
          match areLabelsMatchLabelSelector labels selector with
          | inl _ => []
          | inr true =>
              CreateRequests_loop labels rest
                (requests ++ [mkNN (GetNamespace KVG vg) (GetName KVG vg)])
          | inr false => CreateRequests_loop labels rest requests
          end
      end
  end.

Definition CreateRequests (object : PersistentVolumeClaim) : prog (list NamespacedName) :=
  r ← trigger (CList KVG);
  match r with
  | inl _ => mret []
  | inr vgList => mret (CreateRequests_loop (om_Labels (pvc_ObjectMeta object)) vgList [])
  end.

(** The test [IsPVCMatchesVG] makes, as a boolean; false without a selector. *)
Definition selects (labels : gmap string string) (vg : VolumeGroup) : bool :=
  match vgsrc_Selector (vgspec_Source (vg_Spec vg)) with
  | None => false
  | Some s =>
      match areLabelsMatchLabelSelector labels s with inr b => b | inl _ => false end
  end.

Definition selector_ok (vg : VolumeGroup) : Prop :=
  ∀ s, vgsrc_Selector (vgspec_Source (vg_Spec vg)) = Some s →
       ∃ sel, LabelSelectorAsSelector s = inr sel.

Lemma CreateRequests_loop_ok labels vgs acc :
  Forall selector_ok vgs →
  CreateRequests_loop labels vgs acc =
  acc ++ (key_of KVG <$> filter (λ vg, selects labels vg = true) vgs).
Proof.
  intros Hok. revert acc. induction Hok as [|vg vgs Hvg Hok IH]; intros acc;
    cbn [CreateRequests_loop]; [by rewrite app_nil_r|].
  rewrite filter_cons.
  destruct (vgsrc_Selector (vgspec_Source (vg_Spec vg))) as [s|] eqn:Hs.
  - destruct (Hvg s Hs) as [sel Hsel].
    assert (selects labels vg = isSelectorMatchesLabels sel labels) as ->
      by (unfold selects, areLabelsMatchLabelSelector; by rewrite Hs, Hsel).
    unfold areLabelsMatchLabelSelector. rewrite Hsel.
    destruct (isSelectorMatchesLabels sel labels); rewrite IH; [|done].
    by rewrite decide_True, <- app_assoc by done.
  - assert (selects labels vg = false) as -> by (unfold selects; by rewrite Hs).
    by rewrite decide_False, IH by done.
Qed.

Lemma CreateRequests_loop_bad labels vgs acc :
  ¬ Forall selector_ok vgs → CreateRequests_loop labels vgs acc = [].
Proof.
  revert acc. induction vgs as [|vg vgs IH]; intros acc Hbad; [by destruct Hbad|].
  cbn [CreateRequests_loop]. unfold areLabelsMatchLabelSelector.
  destruct (vgsrc_Selector (vgspec_Source (vg_Spec vg))) as [s|] eqn:Hs.
  - destruct (LabelSelectorAsSelector s) as [e|sel] eqn:Hsel; [done|].
    assert (¬ Forall selector_ok vgs) as Hvgs.
    { intros Hok. apply Hbad. constructor; [|done]. intros s' Hs'.
      exists sel. congruence. }
    by destruct (isSelectorMatchesLabels sel labels); apply IH.
  - apply IH. intros Hok. apply Hbad. constructor; [|done]. intros s' Hs'. congruence.
Qed.

(** What the reconciliation tests agrees with what the watch tests. *)
Lemma IsPVCMatchesVG_selects pvc vg :
  selector_ok vg → is_Some (vgsrc_Selector (vgspec_Source (vg_Spec vg))) →
  IsPVCMatchesVG pvc vg = Ret (inr (selects (om_Labels (pvc_ObjectMeta pvc)) vg)).
Proof.
  intros Hok [s Hs]. unfold IsPVCMatchesVG, selects, areLabelsMatchLabelSelector.
  rewrite Hs. unfold deref, or_panic. cbn [mbind prog_bind].
  destruct (Hok s Hs) as [sel ->].
  by destruct (isSelectorMatchesLabels sel (om_Labels (pvc_ObjectMeta pvc))).
Qed.
End Requests.
