(* ===== verification/VGController.v ===== *)
(** * The VolumeGroup controller

    [controllers/volumegroup_controller.go]. *)

From S2P Require Import Prelude GoLang Api Effects Externals Objects Params VolumeGroups Volumes.
From S2P Require Import Finalizers Driver VolumeGroupContents Membership.
Import VGSettings.

(** [ctrl.Result]: only [Requeue] is ever set. *)
Record Result := { Requeue : bool }.
Definition Result_zero : Result := {| Requeue := false |}.

Definition empty_ObjectMeta : ObjectMeta :=
  {| om_Name := ""; om_Namespace := ""; om_UID := ""; om_ResourceVersion := "";
     om_Generation := 0; om_Labels := ∅; om_Annotations := ∅; om_Finalizers := [];
     om_DeletionTimestamp := None |}.

(** [&volumegroupv1.VolumeGroup{}]. *)
Definition zero_vg : VolumeGroup :=
  {| vg_TypeMeta := {| tm_Kind := ""; tm_APIVersion := "" |};
     vg_ObjectMeta := empty_ObjectMeta;
     vg_Spec := {| vgspec_VolumeGroupClassName := None;
                   vgspec_Source := {| vgsrc_VolumeGroupContentName := None;
                                       vgsrc_Selector := None |} |};
     vg_Status := {| vgst_BoundVolumeGroupContentName := None;
                     vgst_GroupCreationTime := None; vgst_PVCList := [];
                     vgst_Ready := None; vgst_Error := None |} |}.

(** [GetDeletionTimestamp().IsZero()]. *)
Definition IsZero (t : option Z) : bool := match t with None => true | Some _ => false end.

Section VGController.
Context `{Externals} (DriverConfig : DriverConfig).

Definition isPVCShouldBeRemovedFromVg (vg : VolumeGroup) (pvc : PersistentVolumeClaim)
  : prog (error + bool) :=
  if negb (IsPVCInPVCList pvc (vgst_PVCList (vg_Status vg))) then mret (inr false)
  else
    r ← IsPVCMatchesVG pvc vg;
    match r with
    | inl err => mret (inl err)
    | inr isPVCMatchesVG => mret (inr (negb isPVCMatchesVG))
    end.

Definition isPVCCanBeAddedToVG (pvc : PersistentVolumeClaim) : prog (option error) :=
  if decide (MultipleVGsToPVC DriverConfig = "true")%string then mret None
  else
    r ← GetVGList (DriverName DriverConfig);
    match r with
    | inl err => mret (Some err)
    | inr vgList => IsPVCCanBeAddedToVG pvc vgList
    end.

Definition isPVCShouldBeInVg (vg : VolumeGroup) (pvc : PersistentVolumeClaim)
  : prog (error + bool) :=
  r ← IsPVCMatchesVG pvc vg;
  match r with
  | inl err => mret (inl err)
  | inr false => mret (inr false)
  | inr true =>
      err ← isPVCCanBeAddedToVG pvc;
      match err with
      | Some err => mret (inl err)
      | None => mret (inr true)
      end
  end.

Fixpoint getMatchingPVCs_loop (vg : VolumeGroup) (items matchingPvcs : list PersistentVolumeClaim)
  : prog (error + list PersistentVolumeClaim) :=
  match items with
  | [] => mret (inr matchingPvcs)
  | pvc :: rest =>
      r ← isPVCShouldBeInVg vg pvc;
      match r with
      | inl err => mret (inl err)
      | inr isPVCShouldBeInVg =>
          r ← IsPVCNeedToBeHandled pvc (DriverName DriverConfig);
          match r with
          | inl err => mret (inl err)
          | inr isPVCShouldBeHandled =>
              if isPVCShouldBeInVg && negb (IsPVCInPVCList pvc matchingPvcs) &&
                 isPVCShouldBeHandled
              then getMatchingPVCs_loop vg rest (matchingPvcs ++ [pvc])
              else getMatchingPVCs_loop vg rest matchingPvcs
          end
      end
  end.

Definition getMatchingPVCs (vg : VolumeGroup) : prog (error + list PersistentVolumeClaim) :=
  r ← GetPVCList (DriverName DriverConfig);
  match r with
  | inl err => mret (inl err)
  | inr pvcList => getMatchingPVCs_loop vg pvcList []
  end.

Definition updatePVCs (vg : VolumeGroup) : prog (option error * VolumeGroup) :=
  r ← getMatchingPVCs vg;
  match r with
  | inl err => HandleErrorMessage vg (Some err) vgReconcile
  | inr matchingPvcs =>
      if IsPVCListEqual matchingPvcs (vgst_PVCList (vg_Status vg)) then mret (None, vg)
      else
        err ← ModifyVolumesInVG matchingPvcs vg;
        match err with
        | Some err => HandleErrorMessage vg (Some err) vgReconcile
        | None =>
            '(err, vg) ← UpdatePvcAndPvList vg (DriverName DriverConfig) matchingPvcs;
            match err with
            | Some err => mret (Some err, vg)
            | None => mret (None, vg)
            end
        end
  end.

Definition updateItems (instance : VolumeGroup) (groupCreationTime : option Z)
    (vgcName : string) : prog (option error * VolumeGroup) :=
  '(err, instance) ← UpdateVGSourceContent instance vgcName;
  match err with
  | Some err => HandleErrorMessage instance (Some err) updateVGC
  | None =>
      '(err, instance) ← UpdateVGStatus instance vgcName groupCreationTime true;
      match err with
      | Some err => HandleErrorMessage instance (Some err) updateStatusVG
      | None => mret (None, instance)
      end
  end.

(** [None] in the boolean position of Go's pair is "not static". *)
Definition handleStaticProvisionedVG (vg : VolumeGroup) (groupCreationTime : option Z)
    (vgClass : VolumeGroupClass) : prog (option error * bool * VolumeGroup) :=
  match vgsrc_VolumeGroupContentName (vgspec_Source (vg_Spec vg)) with
  | Some vgcName =>
      '(err, vg) ← updateItems vg groupCreationTime vgcName;
      match err with
      | Some err => mret (Some err, true, vg)
      | None =>
          err ← UpdateStaticVGCFromVG vg vgClass;
          match err with
          | Some err => mret (Some err, true, vg)
          | None =>
              '(err, vg) ← updatePVCs vg;
              match err with
              | Some err => mret (Some err, true, vg)
              | None => mret (None, true, vg)
              end
          end
      end
  | None => mret (None, false, vg)
  end.

Definition removeVGCObject (vgc : VolumeGroupContent) : prog (option error) :=
  policy ← deref (vgcspec_VolumeGroupDeletionPolicy (vgc_Spec vgc));
  if decide (policy = VolumeGroupContentDelete) then
    err ← trigger (CDelete KVGC vgc);
    match err with
    | Some err => mret (Some err)
    | None => mret None
    end
  else mret None.

Definition removeInstance (instance : VolumeGroup) : prog (option error * VolumeGroup) :=
  vgcName ← or_panic nil_deref
    (GetStringField (to_value (vgspec_Source (vg_Spec instance))) "VolumeGroupContentName");
  r ← GetVGC vgcName (GetNamespace KVG instance);
  err ← match r with
        | inl err => if negb (IsNotFound err) then mret (Some err) else mret None
        | inr vgc => removeVGCObject vgc
        end;
  match err with
  | Some err => mret (Some err, instance)
  | None =>
      '(err, instance) ← RemoveFinalizerFromVG instance;
      match err with
      | Some err => mret (Some err, instance)
      | None => mret (None, instance)
      end
  end.

(** The failure of the event is swallowed. *)
Definition createSuccessVGEvent (vg : VolumeGroup) : prog (option error * VolumeGroup) :=
  let message := Sprintf messages.VGCreated [AStr (GetNamespace KVG vg); AStr (GetName KVG vg)] in
  '(err, vg) ← HandleSuccessMessage vg message vgReconcile;
  match err with
  | Some _ => mret (None, vg)
  | None => mret (None, vg)
  end.

Definition isVGCReady (vgc : VolumeGroupContent) : prog (error + bool) :=
  r ← GetVGC (GetName KVGC vgc) (GetNamespace KVGC vgc);
  match r with
  | inl err => if negb (IsNotFound err) then mret (inl err) else mret (inr false)
  | inr vgcFromCluster =>
      ready ← or_panic "reflect: call of Elem"
        (GetBoolField (to_value (vgc_Status vgcFromCluster)) "Ready");
      mret (inr ready)
  end.

(** The end of [Reconcile], for a VolumeGroup that is not being deleted and
    has the finalizer. *)
Definition Reconcile_provision (instance : VolumeGroup) (vgClass : VolumeGroupClass)
  : prog (Result * option error) :=
  groupCreationTime ← GetCurrentTime;
  '(err, isStaticProvisioned, instance) ←
    handleStaticProvisionedVG instance (Some groupCreationTime) vgClass;
  if (isStaticProvisioned : bool) then mret (Result_zero, err)
  else
    match MakeVGName VGNamePrefix (GetUID KVG instance) with
    | inl err =>
        '(err, _) ← HandleErrorMessage instance (Some err) createVG; mret (Result_zero, err)
    | inr vgName =>
        let '(secretName, secretNamespace) := GetSecretCred vgClass in
        vgc ← GenerateVGC vgName instance vgClass secretName secretNamespace;
        '(err, vgc) ← CreateVGC vgc;
        match err with
        | Some err =>
            '(err, _) ← HandleErrorMessage instance (Some err) createVGC;
            mret (Result_zero, err)
        | None =>
            r ← isVGCReady vgc;
            match r with
            | inl err =>
                '(err, _) ← HandleErrorMessage instance (Some err) createVGC;
                mret (Result_zero, err)
            | inr false => mret ({| Requeue := true |}, None)
            | inr true =>
                '(err, instance) ←
                  updateItems instance (Some groupCreationTime) (GetName KVGC vgc);
                match err with
                | Some err => mret (Result_zero, Some err)
                | None =>
                    '(err, instance) ← updatePVCs instance;
                    match err with
                    | Some err => mret (Result_zero, Some err)
                    | None =>
                        '(err, instance) ← createSuccessVGEvent instance;
                        match err with
                        | Some err =>
                            '(err, _) ← HandleErrorMessage instance (Some err) vgReconcile;
                            mret (Result_zero, err)
                        | None => mret (Result_zero, None)
                        end
                    end
                end
            end
        end
    end.

(** The end of [Reconcile], once the class is known to be the driver's. *)
Definition Reconcile_class (instance : VolumeGroup) (vgClass : VolumeGroupClass)
  : prog (Result * option error) :=
  err ← ValidatePrefixedParameters (vgclass_Parameters vgClass);
  match err with
  | Some err =>
      '(uErr, _) ← UpdateVGStatusError instance (Error err);
      match uErr with
      | Some uErr => mret (Result_zero, Some uErr)
      | None => mret (Result_zero, Some err)
      end
  | None =>
      if IsZero (om_DeletionTimestamp (vg_ObjectMeta instance)) then
        '(err, instance) ← AddFinalizerToVG instance;
        match err with
        | Some err =>
            '(err, _) ← HandleErrorMessage instance (Some err) createVG;
            mret (Result_zero, err)
        | None => Reconcile_provision instance vgClass
        end
      else if Contains (GetFinalizers KVG instance) VGFinalizer &&
              negb (IsContainOtherFinalizers KVG instance) then
        '(err, instance) ← removeInstance instance;
        match err with
        | Some err =>
            '(err, _) ← HandleErrorMessage instance (Some err) deleteVG;
            mret (Result_zero, err)
        | None => mret (Result_zero, None)
        end
      else mret (Result_zero, None)
  end.

Definition Reconcile (req : NamespacedName) : prog (Result * option error) :=
  r ← trigger (CGet KVG req);
  match r with
  | inl err =>
      if IsNotFound err then mret (Result_zero, None)
      else '(err, _) ← HandleErrorMessage zero_vg (Some err) vgReconcile; mret (Result_zero, err)
  | inr instance =>
      vgClassName ← or_panic nil_deref
        (GetStringField (to_value (vg_Spec instance)) "VolumeGroupClassName");
      r ← GetVGClass vgClassName;
      match r with
      | inl err =>
          '(err, _) ← HandleErrorMessage instance (Some err) vgReconcile;
          mret (Result_zero, err)
      | inr vgClass =>
          if decide (DriverName DriverConfig ≠ vgclass_Driver vgClass)
          then mret (Result_zero, None)
          else
            Reconcile_class instance vgClass
      end
  end.

(** ** Waiting for the CRDs

    The loop of [waitForVGResource] has no bound; [fuel] is the number of
    rounds given to it and [None] says that they were not enough. *)

Fixpoint waitForVGResource (fuel : nat) (resourceName : string) : prog (option (option error)) :=
  match fuel with
  | 0 => mret None
  | S fuel =>
      err ← trigger (CListUnstructured resourceName);
      match err with
      | None => mret (Some None)
      | Some err =>
          if negb (IsNoMatchError err) then mret (Some (Some err))
          else
            _ ← trigger (CSleep 5000000000);
            waitForVGResource fuel resourceName
      end
  end.

Definition waitForCrds (fuel : nat) : prog (option (option error)) :=
  r ← waitForVGResource fuel "VolumeGroup";
  match r with
  | Some None =>
      r ← waitForVGResource fuel "VolumeGroupClass";
      match r with
      | Some None => waitForVGResource fuel "VolumeGroupContent"
      | r => mret r
      end
  | r => mret r
  end.
End VGController.

(** ** Calls and results *)

Section Specs.
Context `{ExternalLaws} (cfg : DriverConfig).

Definition matching_calls (c : call) : Prop :=
  match c with
  | CList KPVC | CGet KSC _ | CList KVG | CGet KVGClass _
  | CNow | CRandInts _ | CCreate KEvent _ => True
  | _ => False
  end.

(** Membership as a whole: the driver's RPC and the lists. *)
Definition membership_calls (c : call) : Prop :=
  match c with
  | CList KPVC | CGet _ _ | CList KVG | CMapOrder
  | CNow | CRandInts _ | CCreate KEvent _
  | CStatusUpdate KVG _ | CStatusUpdate KVGC _ | CUpdate KPVC _
  | CModifyVolumeGroupMembership _ _ _ => True
  | _ => False
  end.

Definition update_items_calls (c : call) : Prop :=
  match c with
  | CUpdate KVG _ | CStatusUpdate KVG _ | CGet KVG _
  | CNow | CRandInts _ | CCreate KEvent _ => True
  | _ => False
  end.

(** Reading the name of the class or of the content: no call, no panic. *)
#[export] Instance vg_class_name_spec w (vg : VolumeGroup) :
  Spec (or_panic w (GetStringField (to_value (vg_Spec vg)) "VolumeGroupClassName"))
    (λ _, False) (λ o, o = Some (or_empty (vgspec_VolumeGroupClassName (vg_Spec vg)))).
Proof. unfold Spec. autorewrite with reflect. solve_triple. Qed.

#[export] Instance isPVCCanBeAddedToVG_spec pvc :
  Spec (isPVCCanBeAddedToVG cfg pvc) vg_list_calls any.
Proof. unfold isPVCCanBeAddedToVG, Spec. solve_triple. Qed.

#[export] Instance isPVCShouldBeInVg_spec vg pvc :
  Spec (isPVCShouldBeInVg cfg vg pvc) vg_list_calls any.
Proof. unfold isPVCShouldBeInVg, Spec. solve_triple. Qed.

#[export] Instance getMatchingPVCs_loop_spec vg l acc :
  Spec (getMatchingPVCs_loop cfg vg l acc) matching_calls any.
Proof.
  unfold Spec. revert acc. induction l as [|pvc l IH]; intros acc; cbn [getMatchingPVCs_loop];
    solve_triple; apply IH.
Qed.

#[export] Instance getMatchingPVCs_spec vg :
  Spec (getMatchingPVCs cfg vg) matching_calls any.
Proof. unfold getMatchingPVCs, Spec. solve_triple. Qed.

#[export] Instance updatePVCs_spec vg : Spec (updatePVCs cfg vg) membership_calls any.
Proof. unfold updatePVCs, Spec. solve_triple. Qed.

#[export] Instance updateItems_spec vg t n :
  Spec (updateItems vg t n) update_items_calls returns.
Proof. unfold updateItems, Spec. solve_triple. Qed.

#[export] Instance createSuccessVGEvent_spec vg :
  Spec (createSuccessVGEvent vg) vg_message_calls (after (λ r, fst r = None) False).
Proof. unfold createSuccessVGEvent, Spec. solve_triple. Qed.

#[export] Instance isVGCReady_spec vgc : Spec (isVGCReady vgc) (get_calls KVGC) returns.
Proof.
  unfold isVGCReady, Spec. solve_triple.
  by rewrite GetBoolField_ready in *.
Qed.
End Specs.
