(* ===== verification/VGCController.v ===== *)
(** * The VolumeGroupContent controller

    [controllers/volumegroupcontent/volumegroupcontent_controller.go]. *)

From S2P Require Import Prelude GoLang Api Effects Externals Objects Params VolumeGroups Volumes.
From S2P Require Import Finalizers Driver VolumeGroupContents Membership VGController.
Import VGCSettings.

Section VGCController.
Context `{Externals} (DriverConfig : DriverConfig).

Definition deleteVG (vgId : string) (secrets : gmap string string) : prog (option error) :=
  let param := {| crp_Name := ""; crp_VolumeGroupID := vgId; crp_VolumeIds := [];
                  crp_Parameters := ∅; crp_Secrets := secrets |} in
  resp ← request_Delete param;
  match Response_Error resp with
  | Some err => mret (Some err)
  | None => mret None
  end.

(** [createVG] of the Go file; the name [createVG] is also a message there. *)
Definition createVG_request (vgName : string) (parameters secrets : gmap string string)
  : prog Response :=
  let param := {| crp_Name := vgName; crp_VolumeGroupID := ""; crp_VolumeIds := [];
                  crp_Parameters := parameters; crp_Secrets := secrets |} in
  request_Create param.

Definition removeVGC (vgc : VolumeGroupContent) (secret : gmap string string)
  : prog (option error * VolumeGroupContent) :=
  policy ← deref (vgcspec_VolumeGroupDeletionPolicy (vgc_Spec vgc));
  err ← (if decide (policy = VolumeGroupContentDelete) then
           source ← deref (vgcspec_Source (vgc_Spec vgc));
           deleteVG (vgcsrc_VolumeGroupHandle source) secret
         else mret None);
  match err with
  | Some err => mret (Some err, vgc)
  | None =>
      '(err, vgc) ← RemoveFinalizerFromVGC vgc;
      match err with
      | Some err => mret (Some err, vgc)
      | None => mret (None, vgc)
      end
  end.

Definition handleVGCWithDeletionTimestamp (vgc : VolumeGroupContent)
    (secret : gmap string string) : prog (option error * VolumeGroupContent) :=
  r ← IsVgExist vgc;
  match r with
  | inl err => mret (Some err, vgc)
  | inr true =>
      mret (Some (Errorf messages.VgIsStillExist
                    [AStr (GetName KVGC vgc); AStr (GetNamespace KVGC vgc)]), vgc)
  | inr false =>
      if Contains (GetFinalizers KVGC vgc) VgcFinalizer &&
         negb (IsContainOtherFinalizers KVGC vgc)
      then
        '(err, vgc) ←
          (if decide (DisableDeletePvcs DriverConfig = "false")%string
           then DeletePVCsUnderVGC vgc (DriverName DriverConfig)
           else mret (None, vgc));
        match err with
        | Some err => mret (Some err, vgc)
        | None =>
            '(err, vgc) ← removeVGC vgc secret;
            match err with
            | Some err => mret (Some err, vgc)
            | None => mret (None, vgc)
            end
        end
      else mret (None, vgc)
  end.

Definition handleCreateVG (vgc : VolumeGroupContent) (vgClass : VolumeGroupClass)
    (secret : gmap string string) : prog (option error * VolumeGroupContent) :=
  parameters ← FilterPrefixedParameters VGAsPrefix (vgclass_Parameters vgClass);
  createVGResponse ← createVG_request (GetName KVGC vgc) parameters secret;
  match Response_Error createVGResponse with
  | Some err => mret (Some err, vgc)
  | None =>
      '(err, vgc) ← UpdateVGCByResponse vgc createVGResponse;
      match err with
      | Some err => mret (Some err, vgc)
      | None =>
          now ← GetCurrentTime;
          '(err, vgc) ← UpdateVGCStatus vgc (Some now) true;
          match err with
          | Some err =>
              err ← HandleVGCErrorMessage (Some vgc) (Some err) updateStatusVGC;
              mret (err, vgc)
          | None => mret (None, vgc)
          end
      end
  end.

Definition updateStaticVGCSpec_controller (vgc : VolumeGroupContent) : prog (option error) :=
  className ← deref (vgcspec_VolumeGroupClassName (vgc_Spec vgc));
  r ← GetVGClass className;
  match r with
  | inl err => mret (Some err)
  | inr vgClass =>
      err ← UpdateStaticVGC (GetNamespace KVGC vgc) (GetName KVGC vgc) vgClass;
      match err with
      | Some err => mret (Some err)
      | None => mret None
      end
  end.

Definition updateStaticVGC (vgc : VolumeGroupContent)
  : prog (option error * VolumeGroupContent) :=
  err ← updateStaticVGCSpec_controller vgc;
  match err with
  | Some err => mret (Some err, vgc)
  | None =>
      now ← GetCurrentTime;
      '(err, vgc) ← UpdateVGCStatus vgc (Some now) true;
      match err with
      | Some err => mret (Some err, vgc)
      | None => mret (None, vgc)
      end
  end.

Definition handleStaticProvisionedVGC (vgc : VolumeGroupContent)
  : prog (option error * bool * VolumeGroupContent) :=
  isNil ← or_panic "reflect: call of IsNil on zero Value"
            (GetObjectField (to_value (vgc_Spec vgc)) "Source" ≫= IsNil);
  if negb isNil then
    source ← deref (vgcspec_Source (vgc_Spec vgc));
    if decide (vgcsrc_VolumeGroupHandle source ≠ "")%string then
      '(err, vgc) ← updateStaticVGC vgc;
      mret (err, true, vgc)
    else mret (None, false, vgc)
  else mret (None, false, vgc).

(** The end of [Reconcile], once the class is known to be the driver's. *)
Definition Reconcile_class (vgc : VolumeGroupContent) (vgClass : VolumeGroupClass)
  : prog (Result * option error) :=
  err ← ValidatePrefixedParameters (vgclass_Parameters vgClass);
  match err with
  | Some err =>
      '(uErr, _) ← UpdateVGCStatusError vgc (Error err);
      match uErr with
      | Some uErr => mret (Result_zero, Some uErr)
      | None => mret (Result_zero, Some err)
      end
  | None =>
      r ← GetSecretDataFromClass vgClass;
      match r with
      | inl err =>
          err ← HandleVGCErrorMessage (Some vgc) (Some err) vgcReconcile;
          mret (Result_zero, err)
      | inr secret =>
          if IsZero (om_DeletionTimestamp (vgc_ObjectMeta vgc)) then
            '(err, vgc) ← AddFinalizerToVGC vgc;
            match err with
            | Some err =>
                err ← HandleVGCErrorMessage (Some vgc) (Some err) VGCSettings.createVGC;
                mret (Result_zero, err)
            | None =>
                '(err, isStaticProvisioned, vgc) ← handleStaticProvisionedVGC vgc;
                if (isStaticProvisioned : bool) then mret (Result_zero, err)
                else
                  '(err, vgc) ← handleCreateVG vgc vgClass secret;
                  match err with
                  | Some err =>
                      err ← HandleVGCErrorMessage (Some vgc) (Some err) VGCSettings.createVGC;
                      mret (Result_zero, err)
                  | None =>
                      '(err, vgc) ← CreateSuccessVGCEvent vgc;
                      match err with
                      | Some err =>
                          err ← HandleVGCErrorMessage (Some vgc) (Some err) vgcReconcile;
                          mret (Result_zero, err)
                      | None => mret (Result_zero, None)
                      end
                  end
            end
          else
            '(err, vgc) ← handleVGCWithDeletionTimestamp vgc secret;
            match err with
            | Some err =>
                err ← HandleVGCErrorMessage (Some vgc) (Some err) deleteVGC;
                mret (Result_zero, err)
            | None => mret (Result_zero, None)
            end
      end
  end.

Definition Reconcile (req : NamespacedName) : prog (Result * option error) :=
  r ← GetVGC (nn_Name req) (nn_Namespace req);
  match r with
  | inl err =>
      if IsNotFound err then mret (Result_zero, None)
      else
        err ← HandleVGCErrorMessage None (Some err) vgcReconcile;
        mret (Result_zero, err)
  | inr vgc =>
      vgClassName ← or_panic nil_deref
        (GetStringField (to_value (vgc_Spec vgc)) "VolumeGroupClassName");
      if decide (vgClassName = "")%string then
        err ← UpdateThinVGC (GetNamespace KVGC vgc) (GetName KVGC vgc);
        match err with
        | Some err => mret (Result_zero, Some err)
        | None =>
            now ← GetCurrentTime;
            '(err, vgc) ← UpdateVGCStatus vgc (Some now) false;
            match err with
            | Some err => mret (Result_zero, Some err)
            | None => mret (Result_zero, None)
            end
        end
      else
        r ← GetVGClass vgClassName;
        match r with
        | inl err =>
            err ← HandleVGCErrorMessage (Some vgc) (Some err) vgcReconcile;
            mret (Result_zero, err)
        | inr vgClass =>
            if decide (DriverName DriverConfig ≠ vgclass_Driver vgClass)
            then mret (Result_zero, None)
            else Reconcile_class vgc vgClass
        end
  end.
End VGCController.

(** ** Calls and results *)

Section Specs.
Context `{ExternalLaws} (cfg : DriverConfig).

Definition static_vgc_calls (c : call) : Prop :=
  match c with
  | CUpdate KVGC _ | CGet KVGC _ | CGet KVGClass _ | CNow | CStatusUpdate KVGC _ => True
  | _ => False
  end.

#[export] Instance deleteVG_spec id s : Spec (deleteVG id s) delete_rpc returns.
Proof. unfold deleteVG, Spec. solve_triple. Qed.

#[export] Instance updateStaticVGCSpec_controller_spec vgc :
  Spec (updateStaticVGCSpec_controller vgc) static_vgc_calls any.
Proof. unfold updateStaticVGCSpec_controller, Spec. solve_triple. Qed.

#[export] Instance updateStaticVGC_spec vgc :
  Spec (updateStaticVGC vgc) static_vgc_calls any.
Proof. unfold updateStaticVGC, GetCurrentTime, Spec. solve_triple. Qed.

#[export] Instance handleStaticProvisionedVGC_spec vgc :
  Spec (handleStaticProvisionedVGC vgc) static_vgc_calls any.
Proof. unfold handleStaticProvisionedVGC, Spec. autorewrite with reflect. solve_triple. Qed.
End Specs.
