(* ===== verification/Histories.v ===== *)
(** * Reading a history

    What the theorems say of a history: which object a call answered with, what
    a content or a group was when it was read; and, for the operations the
    controllers build on, what the history tells once they return. *)

From S2P Require Import Prelude GoLang Api Effects Externals Objects Params VolumeGroups Volumes.
From S2P Require Import Finalizers Driver VolumeGroupContents Membership VGController.
From S2P Require Import VGCController.

(** The content the VolumeGroup names. *)
Definition content_key (vg : VolumeGroup) : NamespacedName :=
  mkNN (GetNamespace KVG vg) (or_empty (vgsrc_VolumeGroupContentName (vgspec_Source (vg_Spec vg)))).

(** An answer that is not an error satisfies [P]; the same as a test. *)
Definition answered {A} (P : A → Prop) (r : error + A) : Prop := ∀ a, r = inr a → P a.

Definition answeredb {A} (p : A → bool) (r : error + A) : bool :=
  match r with inl _ => true | inr a => p a end.

Lemma answeredb_sound {A} (p : A → bool) (P : A → Prop) r :
  (∀ a, p a = true → P a) → answeredb p r = true → answered P r.
Proof. intros HP Hr a ->. by apply HP. Qed.

(** A history that contains another. *)
Ltac sub_history := let e := fresh "e" in intros e; rewrite ?elem_of_app, ?elem_of_cons; tauto.

(** The first event of the history. *)
Definition first_is (tr : history) (e : event) : Prop := head tr = Some e.

(** The object a status update of a content answered with. *)
Definition vgc_status_answer (tr : history) (vgc : VolumeGroupContent) : Prop :=
  ∃ o, Ev (CStatusUpdate KVGC o) (inr vgc) ∈ tr.

(** The content at the time of a call: as read first, or as a status update
    answered it. *)
Definition current (tr : history) (vgc cur : VolumeGroupContent) : Prop :=
  cur = vgc ∨ vgc_status_answer tr cur.

(** The object a finalizer update answered with. *)
Definition update_answer (K : Kind) (tr : history) (obj : obj_of K) : Prop :=
  ∃ o, Ev (CUpdate K o) (inr obj) ∈ tr.

(** The events at which a predicate on calls holds first. *)
Fixpoint split_call (p : call → bool) (tr : history) : option (history * event * history) :=
  match tr with
  | [] => None
  | e :: tr' =>
      if p (tr_call e) then Some ([], e, tr')
      else match split_call p tr' with
           | Some (pre, e', post) => Some (e :: pre, e', post)
           | None => None
           end
  end.

Lemma split_call_Some p tr pre e post :
  split_call p tr = Some (pre, e, post) → tr = pre ++ e :: post ∧ p (tr_call e) = true.
Proof.
  revert pre. induction tr as [|e' tr IH]; intros pre; cbn; [done|].
  destruct (p (tr_call e')) eqn:Hp; [intros ?; by simplify_eq|].
  destruct (split_call p tr) as [[[pre' e''] post']|]; [|done].
  intros ?. simplify_eq. destruct (IH pre' eq_refl) as [-> Hp']. done.
Qed.

(** ** Writes of the status of a content *)

Section Contents.
Context `{ExternalLaws}.

Lemma vgc_status_retry_history (f : VolumeGroupContent → VolumeGroupContent) vgc :
  ensures (RetryOnConflict (λ vgc, vgcRetryOnConflictFunc (f vgc)) vgc)
    (λ tr out, ∀ vgc', out = Some (None, vgc') → vgc_status_answer tr vgc').
Proof.
  apply wp_ensures. apply (wp_retry _ _ (λ _ _, True)); [|done].
  intros tr s _. unfold vgcRetryOnConflictFunc, UpdateObjectStatus, getNamespacedObject.
  repeat wp_step; (split; [|done]); intros vgc' Heq; simplify_eq/=; try congruence.
  eexists. solve_event.
Qed.

(** A successful removal leaves the object the server answered with. *)
Lemma RemovePVFromVGC_history pv vgc :
  ensures (RemovePVFromVGC pv vgc)
    (λ tr out, ∀ vgc', out = Some (None, vgc') → vgc_status_answer tr vgc').
Proof.
  apply wp_ensures. unfold RemovePVFromVGC, updateVGCStatusPVList.
  do 2 wp_step. eapply wp_use; [|apply vgc_status_retry_history|done|].
  { eapply triple_retry_returns; [intros; apply _|exact (covers_refl _)|done]. }
  intros tr' [[[e|] vgc']|] _ Hh; cbn; repeat wp_step; intros vgc'' Heq; simplify_eq/=.
  by apply Hh.
Qed.

Lemma vgc_status_answer_app_r tr tr' vgc :
  vgc_status_answer tr' vgc → vgc_status_answer (tr ++ tr') vgc.
Proof. intros [o Ho]. exists o. apply elem_of_app. by right. Qed.

Lemma vgc_status_answer_app_l tr tr' vgc :
  vgc_status_answer tr vgc → vgc_status_answer (tr ++ tr') vgc.
Proof. intros [o Ho]. exists o. apply elem_of_app. by left. Qed.

(** After the loop over the volumes the content is the one given or the
    answer of a status update. *)
Lemma DeletePVCsUnderVGC_history vgc driver :
  ensures (DeletePVCsUnderVGC vgc driver)
    (λ tr out, ∀ vgc', out = Some (None, vgc') → vgc' = vgc ∨ vgc_status_answer tr vgc').
Proof.
  apply wp_ensures. unfold DeletePVCsUnderVGC.
  generalize (length (vgcst_PVList (vgc_Status vgc))) as n.
  generalize (slice_of (vgcst_PVList (vgc_Status vgc))) as s.
  generalize true as sh. generalize 0 as i. intros i sh s n.
  enough (∀ tr cur i sh s, cur = vgc ∨ vgc_status_answer tr cur →
    wp (λ _ _, True)
      (λ tr out, ∀ vgc', out = Some (None, vgc') → vgc' = vgc ∨ vgc_status_answer tr vgc')
      (DeletePVCsUnderVGC_loop n i s sh cur driver) tr) as Hloop by (apply Hloop; by left).
  clear i sh s.
  induction n as [|n IH]; intros tr cur i sh s Hcur; cbn [DeletePVCsUnderVGC_loop].
  { repeat wp_step. intros vgc' Heq. by simplify_eq. }
  repeat first
    [ match goal with |- wp _ _ (RemovePVFromVGC _ _) _ =>
        wp_with RemovePVFromVGC_history; intros ? [[[?|] ?]|] ? Hans end
    | match goal with |- wp _ _ (DeletePVCsUnderVGC_loop _ _ _ _ _ _) _ => apply IH end
    | wp_step ]; try (intros ? ?; discriminate).
  all: first [ by right; apply vgc_status_answer_app_r, Hans
             | destruct Hcur as [->|Hcur]; [by left|];
               right; repeat apply vgc_status_answer_app_l; exact Hcur ].
Qed.
End Contents.

(** ** Growing histories *)

Lemma first_is_app tr tr' e : first_is tr e → first_is (tr ++ tr') e.
Proof. unfold first_is. by destruct tr. Qed.

Lemma first_is_elem tr e : first_is tr e → e ∈ tr.
Proof. unfold first_is. destruct tr; [done|]. intros ?. simplify_eq/=. by left. Qed.

Lemma first_is_inj tr e e' : first_is tr e → first_is tr e' → e = e'.
Proof. unfold first_is. congruence. Qed.

(** The answer of a read. *)
Definition got (K : Kind) (e : event) : option (error + obj_of K) :=
  match tr_call e as c return resp c → option (error + obj_of K) with
  | CGet K' _ => λ r,
      match decide (K' = K) with
      | left Heq => Some (eq_rect K' (λ K, error + obj_of K)%type r K Heq)
      | right _ => None
      end
  | _ => λ _, None
  end (tr_resp e).

Lemma got_get K k (r : error + obj_of K) : got K (Ev (CGet K k) r) = Some r.
Proof. by destruct K. Qed.

Lemma cons_event_inj (e e' : event) tr tr' : e :: tr = e' :: tr' → e = e' ∧ tr = tr'.
Proof. intros Heq. split; [by apply (f_equal (hd e)) in Heq|by apply (f_equal tail) in Heq]. Qed.

Lemma get_event_inj K k k' (r r' : error + obj_of K) :
  Ev (CGet K k) r = Ev (CGet K k') r' → r = r'.
Proof. intros Heq. apply (f_equal (got K)) in Heq. rewrite !got_get in Heq. by simplify_eq. Qed.

(** The driver reported a creation without the group. *)
Definition groupless (e : event) : bool :=
  match tr_call e as c return resp c → bool with
  | CCreateVolumeGroup _ _ _ => λ r,
      match r with inr a => bool_decide (cvgr_VolumeGroup a = None) | inl _ => false end
  | _ => λ _, false
  end (tr_resp e).

Lemma groupless_create (tr : history) e :
  e ∈ tr → groupless e = true →
  ∃ name secrets parameters a,
    Ev (CCreateVolumeGroup name secrets parameters) (inr a) ∈ tr ∧ cvgr_VolumeGroup a = None.
Proof.
  intros Hin He. destruct e as [c r]. destruct c; try done. unfold groupless in He. cbn in He.
  destruct r as [|a]; [done|]. apply bool_decide_eq_true in He. eauto 6.
Qed.

(** The answer of a list. *)
Definition listed (K : Kind) (e : event) : option (error + list (obj_of K)) :=
  match tr_call e as c return resp c → option (error + list (obj_of K)) with
  | CList K' => λ r,
      match decide (K' = K) with
      | left Heq => Some (eq_rect K' (λ K, error + list (obj_of K))%type r K Heq)
      | right _ => None
      end
  | _ => λ _, None
  end (tr_resp e).

Lemma listed_list K (r : error + list (obj_of K)) : listed K (Ev (CList K) r) = Some r.
Proof. by destruct K. Qed.

Lemma list_event_inj K (r r' : error + list (obj_of K)) :
  Ev (CList K) r = Ev (CList K) r' → r = r'.
Proof.
  intros Heq. apply (f_equal (listed K)) in Heq. rewrite !listed_list in Heq. by simplify_eq.
Qed.

Lemma first_get_inj K tr k k' (o o' : obj_of K) :
  first_is tr (Ev (CGet K k) (inr o)) → first_is tr (Ev (CGet K k') (inr o')) → o = o'.
Proof.
  intros H1 H2. pose proof (get_event_inj _ _ _ _ _ (first_is_inj _ _ _ H1 H2)). by simplify_eq.
Qed.

Lemma guarded_mono {A} (p : prog A) (G G' : history → call → Prop) :
  guarded p G → (∀ tr c, G tr c → G' tr c) → guarded p G'.
Proof. intros Hp HG tr out pre e post Hex Heq. apply HG. by eapply Hp. Qed.

(** ** Finalizers and secrets *)

Section Finalizers.
Context `{ExternalLaws}.

(** The object after a successful update of the finalizers is the server's
    answer to an update that carried them. *)
Definition finalizers_written (K : Kind) (fs : list string) (tr : history) (obj : obj_of K) :=
  ∃ o, Ev (CUpdate K o) (inr obj) ∈ tr ∧ GetFinalizers K o = fs.

Lemma updateFinalizer_history K fs obj :
  ensures (updateFinalizer K fs obj)
    (λ tr out, ∀ obj', out = Some (None, obj') → finalizers_written K fs tr obj').
Proof.
  apply wp_ensures. unfold updateFinalizer. apply (wp_retry _ _ (λ _ _, True)); [|done].
  intros tr s _. unfold finalizerRetryOnConflictFunc, UpdateObject, getNamespacedObject.
  repeat wp_step; (split; [|done]); intros obj' Heq; simplify_eq/=; try congruence.
  eexists. split; [solve_event|apply GetFinalizers_Set].
Qed.

Lemma AddFinalizerToVGC_history vgc :
  ensures (AddFinalizerToVGC vgc)
    (λ tr out, ∀ vgc', out = Some (None, vgc') →
       (vgc' = vgc ∧ VgcFinalizer ∈ GetFinalizers KVGC vgc) ∨
       finalizers_written KVGC (GetFinalizers KVGC vgc ++ [VgcFinalizer]) tr vgc').
Proof.
  apply wp_ensures. unfold AddFinalizerToVGC. wp_step.
  - wp_step. wp_with (updateFinalizer_history KVGC). intros tr' [[[e|] vgc']|] _ Hans;
      cbn [after]; repeat wp_step; intros ? Heq; simplify_eq.
    right. by apply Hans.
  - wp_step. wp_step. intros vgc' Heq. simplify_eq. left. split; [done|].
    apply Contains_spec. by destruct (Contains _ _).
Qed.

Lemma AddFinalizerToVG_history vg :
  ensures (AddFinalizerToVG vg)
    (λ tr out, ∀ vg', out = Some (None, vg') →
       (vg' = vg ∧ VGFinalizer ∈ GetFinalizers KVG vg) ∨
       finalizers_written KVG (GetFinalizers KVG vg ++ [VGFinalizer]) tr vg').
Proof.
  apply wp_ensures. unfold AddFinalizerToVG. wp_step.
  - wp_step. wp_with (updateFinalizer_history KVG). intros tr' [[[e|] vg']|] _ Hans;
      cbn [after]; repeat wp_step; intros ? Heq; simplify_eq.
    right. by apply Hans.
  - wp_step. wp_step. intros vg' Heq. simplify_eq. left. split; [done|].
    apply Contains_spec. by destruct (Contains _ _).
Qed.

Lemma RemoveFinalizerFromVGC_history vgc :
  ensures (RemoveFinalizerFromVGC vgc)
    (λ tr out, ∀ vgc', out = Some (None, vgc') →
       (vgc' = vgc ∧ VgcFinalizer ∉ GetFinalizers KVGC vgc) ∨
       finalizers_written KVGC (Remove (GetFinalizers KVGC vgc) VgcFinalizer) tr vgc').
Proof.
  apply wp_ensures. unfold RemoveFinalizerFromVGC. wp_step.
  - wp_step. wp_with (updateFinalizer_history KVGC). intros tr' [[[e|] vgc']|] _ Hans;
      cbn [after]; repeat wp_step; intros ? Heq; simplify_eq.
    right. by apply Hans.
  - wp_step. wp_step. intros vgc' Heq. simplify_eq. left. split; [done|].
    by apply Contains_false.
Qed.

Lemma RemoveFinalizerFromVG_history vg :
  ensures (RemoveFinalizerFromVG vg)
    (λ tr out, ∀ vg', out = Some (None, vg') →
       (vg' = vg ∧ VGFinalizer ∉ GetFinalizers KVG vg) ∨
       finalizers_written KVG (Remove (GetFinalizers KVG vg) VGFinalizer) tr vg').
Proof.
  apply wp_ensures. unfold RemoveFinalizerFromVG. wp_step.
  - wp_step. wp_with (updateFinalizer_history KVG). intros tr' [[[e|] vg']|] _ Hans;
      cbn [after]; repeat wp_step; intros ? Heq; simplify_eq.
    right. by apply Hans.
  - wp_step. wp_step. intros vg' Heq. simplify_eq. left. split; [done|].
    by apply Contains_false.
Qed.

Lemma finalizers_written_mono K fs tr tr' (o : obj_of K) :
  finalizers_written K fs tr o → tr ⊆ tr' → finalizers_written K fs tr' o.
Proof. intros (u & Hin & Hf) Hsub. exists u. auto. Qed.

(** The secrets of a class: those of the secret it names, none when it names
    none. *)
Definition secrets_of (tr : history) (cl : VolumeGroupClass) (secrets : gmap string string) :=
  let '(name, namespace) := GetSecretCred cl in
  if decide (name ≠ "" ∧ namespace ≠ "")%string
  then ∃ s, Ev (CGet KSecret (mkNN namespace name)) (inr s) ∈ tr ∧
            secrets = String.string_of_list_byte <$> sec_Data s
  else secrets = ∅.

Lemma secrets_of_app tr tr' cl s : secrets_of tr cl s → secrets_of (tr ++ tr') cl s.
Proof.
  unfold secrets_of. destruct (GetSecretCred cl). case_decide; [|done].
  intros (sec & Hin & Hs). exists sec. split; [|done]. apply elem_of_app. by left.
Qed.

Lemma secrets_of_app_r tr tr' cl s : secrets_of tr' cl s → secrets_of (tr ++ tr') cl s.
Proof.
  unfold secrets_of. destruct (GetSecretCred cl). case_decide; [|done].
  intros (sec & Hin & Hs). exists sec. split; [|done]. apply elem_of_app. by right.
Qed.

Lemma GetSecretDataFromClass_history cl :
  ensures (GetSecretDataFromClass cl)
    (λ tr out, ∀ secrets, out = Some (inr secrets) → secrets_of tr cl secrets).
Proof.
  apply wp_ensures. unfold GetSecretDataFromClass, secrets_of, getSecretData.
  destruct (GetSecretCred cl) as [name ns]. case_decide.
  - repeat wp_step; intros ? Heq; simplify_eq. eexists. split; [solve_event|done].
  - repeat wp_step. intros ? Heq. by simplify_eq.
Qed.
End Finalizers.
