(* ===== verification/Cluster.v ===== *)
(** * A cluster to run the operator on

    A small API server with optimistic concurrency, a CSI driver that keeps the
    volumes of each group, a clock and a random source.  It is not part of the
    operator: it makes the programs of the development executable, so that the
    theorems are instantiated on runs that really happen.  [System] shows that
    it answers as the server specified there ([serve_serves]).

    - an update with a stale resource version answers [Conflict]; one that
      changes nothing keeps the resource version;
    - [CUpdate] leaves the status alone, [CStatusUpdate] changes only it;
    - deleting an object that has finalizers sets its deletion timestamp; it
      disappears when its last finalizer is removed. *)

From stdpp Require Import pretty.
From S2P Require Import Prelude GoLang Api Effects Externals.
Local Open Scope string_scope.

Record cluster := mk_cluster {
  store : ∀ K : Kind, gmap NamespacedName (obj_of K);
  version : nat;
  clock : Z;
  groups : gmap string (list string);
}.

#[export] Instance obj_eq_dec (K : Kind) : EqDecision (obj_of K) :=
  match K with
  | KVG => _ | KVGC => _ | KVGClass => _ | KPVC => _
  | KPV => _ | KSC => _ | KSecret => _ | KEvent => _
  end.

Definition put_store (K : Kind) (m : gmap NamespacedName (obj_of K))
    (s : ∀ K : Kind, gmap NamespacedName (obj_of K)) : ∀ K, gmap NamespacedName (obj_of K) :=
  λ K', match decide (K = K') with
        | left e => eq_rect K (λ K, gmap NamespacedName (obj_of K)) m K' e
        | right _ => s K'
        end.

(** The stored object with the status of another, and the reverse. *)
Definition with_status_of (K : Kind) : obj_of K → obj_of K → obj_of K :=
  match K with
  | KVG => λ base st, {| vg_TypeMeta := vg_TypeMeta base; vg_ObjectMeta := vg_ObjectMeta base;
                         vg_Spec := vg_Spec base; vg_Status := vg_Status st |}
  | KVGC => λ base st, {| vgc_TypeMeta := vgc_TypeMeta base; vgc_ObjectMeta := vgc_ObjectMeta base;
                          vgc_Spec := vgc_Spec base; vgc_Status := vgc_Status st |}
  | KPVC => λ base st, {| pvc_TypeMeta := pvc_TypeMeta base; pvc_ObjectMeta := pvc_ObjectMeta base;
                          pvc_Spec := pvc_Spec base; pvc_Phase := pvc_Phase st |}
  | _ => λ base _, base
  end.

Definition set_version (v : string) (m : ObjectMeta) : ObjectMeta :=
  {| om_Name := om_Name m; om_Namespace := om_Namespace m; om_UID := om_UID m;
     om_ResourceVersion := v; om_Generation := om_Generation m;
     om_Labels := om_Labels m; om_Annotations := om_Annotations m;
     om_Finalizers := om_Finalizers m; om_DeletionTimestamp := om_DeletionTimestamp m |}.

Definition set_deleted (t : Z) (m : ObjectMeta) : ObjectMeta :=
  {| om_Name := om_Name m; om_Namespace := om_Namespace m; om_UID := om_UID m;
     om_ResourceVersion := om_ResourceVersion m; om_Generation := om_Generation m;
     om_Labels := om_Labels m; om_Annotations := om_Annotations m;
     om_Finalizers := om_Finalizers m; om_DeletionTimestamp := Some t |}.

Definition version_of (K : Kind) (o : obj_of K) : string :=
  om_ResourceVersion (GetObjectMeta K o).

Definition write (K : Kind) (k : NamespacedName) (o : obj_of K) (w : cluster) : obj_of K * cluster :=
  let v := pretty (version w) in
  let o := SetObjectMeta K (set_version v (GetObjectMeta K o)) o in
  let gone := bool_decide (GetFinalizers K o = []) &&
              match om_DeletionTimestamp (GetObjectMeta K o) with
              | Some _ => true | None => false end in
  let m := if gone then delete k (store w K) else <[k := o]> (store w K) in
  (o, mk_cluster (put_store K m (store w)) (S (version w)) (clock w) (groups w)).

Definition api_error (code : string) : error := ExternalError code code.

(** An update of the stored object [old] to [new], sent with version [v]. *)
Definition change (K : Kind) (o : obj_of K) (make_new : obj_of K → obj_of K) (w : cluster)
  : (error + obj_of K) * cluster :=
  let k := key_of K o in
  match store w K !! k with
  | None => (inl (api_error "NotFound"), w)
  | Some old =>
      if decide (version_of K o = version_of K old) then
        let new := make_new old in
        if decide (new = old) then (inr old, w)
        else let '(new, w) := write K k new w in (inr new, w)
      else (inl (api_error "Conflict"), w)
  end.

Definition serve : handler cluster := λ c w,
  match c with
  | CGet K k =>
      (match store w K !! k with Some o => inr o | None => inl (api_error "NotFound") end, w)
  | CList K => (inr (snd <$> map_to_list (store w K)), w)
  | CListUnstructured _ => (None, w)
  | CCreate K o =>
      match store w K !! key_of K o with
      | Some _ => (inl (api_error "AlreadyExists"), w)
      | None => let '(o, w) := write K (key_of K o) o w in (inr o, w)
      end
  | CUpdate K o => change K o (λ old, with_status_of K o old) w
  | CStatusUpdate K o => change K o (λ old, with_status_of K old o) w
  | CDelete K o =>
      match store w K !! key_of K o with
      | None => (Some (api_error "NotFound"), w)
      | Some old =>
          let o := SetObjectMeta K (set_deleted (clock w) (GetObjectMeta K old)) old in
          (None, snd (write K (key_of K o) o w))
      end
  | CCreateVolumeGroup name _ _ =>
      let id := "group-" +:+ name in
      (inr {| cvgr_VolumeGroup := Some {| csi_VolumeGroupId := id; csi_VolumeGroupContext := ∅ |} |},
       mk_cluster (store w) (version w) (clock w)
         (match groups w !! id with None => <[id := []]> (groups w) | Some _ => groups w end))
  | CDeleteVolumeGroup id _ =>
      if decide (id = "") then (Some (ExternalError "InvalidArgument" "no identifier"), w)
      else (None, mk_cluster (store w) (version w) (clock w) (delete id (groups w)))
  | CModifyVolumeGroupMembership id ids _ =>
      match groups w !! id with
      | None => (Some (ExternalError "Internal" "no such group"), w)
      | Some _ => (None, mk_cluster (store w) (version w) (clock w) (<[id := ids]> (groups w)))
      end
  | CNow => (clock w, mk_cluster (store w) (version w) (clock w + 1)%Z (groups w))
  | CRandInts n =>
      (* the version of the store in base 36: names do not collide *)
      ((λ i, if decide (i = 0) then version w mod 36
             else if decide (i = 1) then version w / 36 else 0) <$> seq 0 n, w)
  | CMapOrder => ([], w)
  | CSleep _ => (tt, w)
  end.

(** ** The objects of [controllers/envtest/k8s_objects.go] *)

Module Samples.
Definition meta (name ns : string) : ObjectMeta :=
  {| om_Name := name; om_Namespace := ns; om_UID := ""; om_ResourceVersion := "";
     om_Generation := 0; om_Labels := ∅; om_Annotations := ∅; om_Finalizers := [];
     om_DeletionTimestamp := None |}.

Definition no_type : TypeMeta := {| tm_Kind := ""; tm_APIVersion := "" |}.

Definition VGName : string := "fake-vg-name".
Definition VGClassName : string := "fake-vgclass-name".
Definition Namespace : string := "default".
Definition SCName : string := "fake-storage-class-name".
Definition DriverName : string := "driver.name".
Definition VGUID : string := "uid1".
Definition VGCName : string := "volumegroup-uid1".

Definition FakeMatchLabels : gmap string string := {["fake-label" := "fake-value"]}.

Definition config : DriverConfig :=
  {| DriverEndpoint := "/run/csi/socket"; Api.DriverName := DriverName;
     RPCTimeout := 60000000000; MultipleVGsToPVC := "true"; DisableDeletePvcs := "false" |}.

Definition selector : LabelSelector :=
  {| ls_MatchLabels := FakeMatchLabels; ls_MatchExpressions := [] |}.

Definition VG : VolumeGroup :=
  {| vg_TypeMeta := no_type;
     vg_ObjectMeta :=
       {| om_Name := VGName; om_Namespace := Namespace; om_UID := VGUID;
          om_ResourceVersion := ""; om_Generation := 1; om_Labels := ∅; om_Annotations := ∅;
          om_Finalizers := []; om_DeletionTimestamp := None |};
     vg_Spec := {| vgspec_VolumeGroupClassName := Some VGClassName;
                   vgspec_Source := {| vgsrc_VolumeGroupContentName := None;
                                       vgsrc_Selector := Some selector |} |};
     vg_Status := {| vgst_BoundVolumeGroupContentName := None; vgst_GroupCreationTime := None;
                     vgst_PVCList := []; vgst_Ready := None; vgst_Error := None |} |}.

Definition VGClass : VolumeGroupClass :=
  {| vgclass_TypeMeta := no_type; vgclass_ObjectMeta := meta VGClassName "";
     vgclass_Driver := DriverName; vgclass_Parameters := {["param" := "value"]};
     vgclass_VolumeGroupDeletionPolicy := Some VolumeGroupContentDelete;
     vgclass_SupportVolumeGroupSnapshot := None |}.

Definition PVC (name pvname : string) : PersistentVolumeClaim :=
  {| pvc_TypeMeta := no_type;
     pvc_ObjectMeta :=
       {| om_Name := name; om_Namespace := Namespace; om_UID := "";
          om_ResourceVersion := ""; om_Generation := 0; om_Labels := FakeMatchLabels;
          om_Annotations := ∅; om_Finalizers := []; om_DeletionTimestamp := None |};
     pvc_Spec := {| pvcs_StorageClassName := Some SCName; pvcs_VolumeName := pvname |};
     pvc_Phase := ClaimBound |}.

Definition StorageClass : StorageClass :=
  {| sc_TypeMeta := no_type; sc_ObjectMeta := meta SCName ""; sc_Provisioner := DriverName;
     sc_Parameters := ∅ |}.

Definition PV (name pvcname : string) : PersistentVolume :=
  {| pv_TypeMeta := no_type; pv_ObjectMeta := meta name "";
     pv_CSI := Some {| csi_Driver := DriverName; csi_VolumeHandle := "handle-" +:+ name |};
     pv_ClaimRef := Some {| or_Kind := ""; or_Namespace := Namespace; or_Name := pvcname;
                            or_UID := ""; or_APIVersion := ""; or_ResourceVersion := "" |} |}.

Definition empty_cluster : cluster := mk_cluster (λ _, ∅) 1 100 ∅.

Definition add (K : Kind) (o : obj_of K) (w : cluster) : cluster :=
  snd (write K (key_of K o) o w).

(** Class, storage class, and three volumes with their claims. *)
Definition base : cluster :=
  add KPVC (PVC "c" "pv-c") (add KPV (PV "pv-c" "c")
  (add KPVC (PVC "b" "pv-b") (add KPV (PV "pv-b" "b")
  (add KPVC (PVC "a" "pv-a") (add KPV (PV "pv-a" "a")
  (add KSC StorageClass (add KVGClass VGClass empty_cluster))))))).

Definition with_vg : cluster := add KVG VG base.

Definition vg_req : NamespacedName := mkNN Namespace VGName.
Definition vgc_req : NamespacedName := mkNN Namespace VGCName.
End Samples.
