(* ===== verification/Scenario.v ===== *)
(** * A life cycle

    The two controllers run one after the other on the cluster of [Cluster]: a
    VolumeGroup with three claims is created, provisioned, then deleted.  The
    worlds named here are those the witnesses of the theorems start from. *)

From S2P Require Import Prelude GoLang Api Effects Externals Objects Params VolumeGroups Volumes.
From S2P Require Import Finalizers Driver VolumeGroupContents Membership VGController.
From S2P Require Import VGCController Histories Cluster.
Import Samples.

#[local] Existing Instance DocExternals.externals.

Definition reconcile_vg := VGController.Reconcile config vg_req.
Definition reconcile_vgc := VGCController.Reconcile config vgc_req.

Definition remove (K : Kind) (k : NamespacedName) (w : cluster) : cluster :=
  match store w K !! k with Some o => snd (serve (CDelete K o) w) | None => w end.

(** The content object exists, the group does not. *)
Definition content_created : cluster := run_world serve reconcile_vg with_vg.

(** The driver has created the group. *)
Definition group_created : cluster := run_world serve reconcile_vgc content_created.

(** The group has its three volumes. *)
Definition provisioned : cluster := run_world serve reconcile_vg group_created.

(** The user deletes the VolumeGroup; the controller deletes the content. *)
Definition vg_deleting : cluster := remove KVG vg_req provisioned.
Definition vg_deleted : cluster := run_world serve reconcile_vg vg_deleting.

(** The content is released. *)
Definition released : cluster := run_world serve reconcile_vgc vg_deleted.

Definition members (w : cluster) : list NamespacedName :=
  match store w KVG !! vg_req with Some vg => pvc_keys (vgst_PVCList (vg_Status vg)) | None => [] end.

(** The content of the group, as stored. *)
Definition zero_vgc : VolumeGroupContent :=
  {| vgc_TypeMeta := no_type; vgc_ObjectMeta := empty_ObjectMeta;
     vgc_Spec := {| vgcspec_VolumeGroupClassName := None; vgcspec_VolumeGroupRef := None;
                    vgcspec_Source := None; vgcspec_VolumeGroupDeletionPolicy := None;
                    vgcspec_SupportVolumeGroupSnapshot := None;
                    vgcspec_VolumeGroupSecretRef := None |};
     vgc_Status := {| vgcst_GroupCreationTime := None; vgcst_PVList := [];
                      vgcst_Ready := None; vgcst_Error := None |} |}.

Definition content_in (w : cluster) : VolumeGroupContent := default zero_vgc (store w KVGC !! vgc_req).

(** The VolumeGroup, as stored. *)
Definition group_in (w : cluster) : VolumeGroup := default zero_vg (store w KVG !! vg_req).

(** The configuration of the operator of another driver. *)
Definition other_config : DriverConfig :=
  {| DriverEndpoint := ""; Api.DriverName := "other.driver"; RPCTimeout := 0;
     MultipleVGsToPVC := "true"; DisableDeletePvcs := "false" |}.

(** The class of the samples, as stored. *)
Definition class_in (w : cluster) : VolumeGroupClass :=
  default VGClass (store w KVGClass !! mkNN "" VGClassName).

(** The VolumeGroup points to its content and has no members yet. *)
Definition ready : cluster :=
  run_world serve (updateItems (group_in group_created) (Some 0%Z) VGCName) group_created.

Definition claims (w : cluster) : list NamespacedName := fst <$> map_to_list (store w KPVC).

(** A contended cluster: before the operator's first update of a VolumeGroup
    somebody else adds a finalizer to it, and the update conflicts. *)
Definition someone_adds (f : string) (o : VolumeGroup) (w : cluster) : cluster :=
  match store w KVG !! key_of KVG o with
  | Some old => snd (write KVG (key_of KVG o)
                       (SetFinalizers KVG (GetFinalizers KVG old ++ [f]) old) w)
  | None => w
  end.

Definition contended : handler (bool * cluster) := λ c '(fresh, w),
  match c with
  | CUpdate KVG o =>
      let w := if (fresh : bool) then someone_adds "someone.else" o w else w in
      let '(r, w) := serve (CUpdate KVG o) w in (r, (false, w))
  | c => let '(r, w) := serve c w in (r, (fresh, w))
  end.

(** Kinds of calls. *)
Definition is_delete_rpc (c : call) : bool :=
  match c with CDeleteVolumeGroup _ _ => true | _ => false end.
Definition is_create_rpc (c : call) : bool :=
  match c with CCreateVolumeGroup _ _ _ => true | _ => false end.
Definition is_modify_rpc (c : call) : bool :=
  match c with CModifyVolumeGroupMembership _ _ _ => true | _ => false end.
Definition is_vgc_update (c : call) : bool :=
  match c with CUpdate KVGC _ => true | _ => false end.
Definition is_vg_update (c : call) : bool :=
  match c with CUpdate KVG _ => true | _ => false end.
Definition is_claim_update (c : call) : bool :=
  match c with CUpdate KPVC _ => true | _ => false end.
Definition is_claim_delete (c : call) : bool :=
  match c with CDelete KPVC _ => true | _ => false end.
Definition is_content_delete (c : call) : bool :=
  match c with CDelete KVGC _ => true | _ => false end.
Definition is_content_create (c : call) : bool :=
  match c with CCreate KVGC _ => true | _ => false end.

(** The life cycle in a few facts. *)
Example provisioned_members : members provisioned ≡ₚ claims provisioned.
Proof. by vm_compute. Qed.

Example provisioned_volumes :
  map_to_list (groups provisioned) =
  [("group-volumegroup-uid1", ["handle-pv-c"; "handle-pv-a"; "handle-pv-b"])]%string.
Proof. by vm_compute. Qed.

Example released_all :
  map_to_list (groups released) = [] ∧ map_to_list (store released KVGC) = [] ∧
  map_to_list (store released KVG) = [].
Proof. by vm_compute. Qed.

(** The first call of a kind in a run, with the guard that holds of it. *)
Ltac guard_witness isc Hthm :=
  match goal with |- ∃ pre e post, ?tr = _ ∧ _ =>
    let Hs := fresh "Hs" in
    destruct (split_call isc tr) as [[[pre e] post]|] eqn:Hs;
      [|vm_compute in Hs; discriminate Hs];
    apply split_call_Some in Hs as [Heq Hc];
    exists pre, e, post; split; [exact Heq|split; [exact Hc|]];
    eapply Hthm; [|exact Heq]; apply (run_executes serve)
  end.
