(* ===== verification/VGSafety.v ===== *)
(** * Safety of the VolumeGroup controller

    When [Reconcile] may create or delete a content, let a VolumeGroup go, or
    ask the driver to change the members of a group. *)

From S2P Require Import Prelude GoLang Api Effects Externals Objects Params VolumeGroups Volumes.
From S2P Require Import Finalizers Driver VolumeGroupContents Membership VGController.
From S2P Require Import VGCController Histories Cluster Scenario.
Import VGController.

Section Guards.
Context `{ExternalLaws} (cfg : DriverConfig) (req : NamespacedName).

(** [Reconcile] started from this VolumeGroup. *)
Definition started_from (tr : history) (vg : VolumeGroup) : Prop :=
  first_is tr (Ev (CGet KVG req) (inr vg)).

(** Being deleted, and only the operator holds it. *)
Definition vg_deletable (vg : VolumeGroup) : Prop :=
  is_Some (om_DeletionTimestamp (vg_ObjectMeta vg)) ∧
  VGFinalizer ∈ GetFinalizers KVG vg ∧
  ∀ f, f ∈ GetFinalizers KVG vg → str_Contains f VGFinalizer = true.

Definition delete_content_allowed (tr : history) (vgc : VolumeGroupContent) : Prop :=
  ∃ vg, started_from tr vg ∧ vg_deletable vg ∧
        Ev (CGet KVGC (content_key vg)) (inr vgc) ∈ tr ∧
        vgcspec_VolumeGroupDeletionPolicy (vgc_Spec vgc) = Some VolumeGroupContentDelete.

(** What became of the content the specification names before the VolumeGroup is
    let go.  A specification that names none settles nothing: the content generated
    for such a VolumeGroup is not looked for ([Unbound]). *)
Inductive content_settled (tr : history) (vg : VolumeGroup) : Prop :=
| content_absent err :
    nn_Name (content_key vg) ≠ ""%string →
    Ev (CGet KVGC (content_key vg)) (inl err) ∈ tr → IsNotFound err = true → content_settled tr vg
| content_unnamed err :
    nn_Name (content_key vg) = ""%string →
    Ev (CGet KVGC (content_key vg)) (inl err) ∈ tr → IsNotFound err = true → content_settled tr vg
| content_retained vgc policy :
    Ev (CGet KVGC (content_key vg)) (inr vgc) ∈ tr →
    vgcspec_VolumeGroupDeletionPolicy (vgc_Spec vgc) = Some policy →
    policy ≠ VolumeGroupContentDelete → content_settled tr vg
| content_deleted vgc :
    Ev (CGet KVGC (content_key vg)) (inr vgc) ∈ tr →
    vgcspec_VolumeGroupDeletionPolicy (vgc_Spec vgc) = Some VolumeGroupContentDelete →
    Ev (CDelete KVGC vgc) None ∈ tr → content_settled tr vg.

Lemma content_not_found tr vg err :
  Ev (CGet KVGC (content_key vg)) (inl err) ∈ tr → IsNotFound err = true → content_settled tr vg.
Proof.
  intros. destruct (decide (nn_Name (content_key vg) = ""%string));
    [by eapply content_unnamed|by eapply content_absent].
Qed.

Lemma content_settled_mono tr tr' vg : content_settled tr vg → tr ⊆ tr' → content_settled tr' vg.
Proof.
  intros [err ? Hin ?|err ? Hin ?|vgc policy Hin ? ?|vgc Hin ? Hd] Hsub.
  - by eapply content_absent; [|apply Hsub|].
  - by eapply content_unnamed; [|apply Hsub|].
  - by eapply content_retained; [apply Hsub|..].
  - by eapply content_deleted; [apply Hsub| |apply Hsub].
Qed.

Definition vg_release_allowed (tr : history) : Prop :=
  ∀ vg, started_from tr vg → is_Some (om_DeletionTimestamp (vg_ObjectMeta vg)) →
        vg_deletable vg ∧ content_settled tr vg.

(** The content made for a VolumeGroup of a class. *)
Definition content_for (vg : VolumeGroup) (cl : VolumeGroupClass) : VolumeGroupContent :=
  {| vgc_TypeMeta := {| tm_Kind := ""; tm_APIVersion := "" |};
     vgc_ObjectMeta :=
       {| om_Name := (VGNamePrefix +:+ "-" +:+ GetUID KVG vg)%string;
          om_Namespace := GetNamespace KVG vg; om_UID := ""; om_ResourceVersion := "";
          om_Generation := 0; om_Labels := ∅; om_Annotations := ∅; om_Finalizers := [];
          om_DeletionTimestamp := None |};
     vgc_Spec :=
       {| vgcspec_VolumeGroupClassName :=
            Some (or_empty (vgspec_VolumeGroupClassName (vg_Spec vg)));
          vgcspec_VolumeGroupRef :=
            Some {| or_Kind := tm_Kind (vg_TypeMeta vg); or_Namespace := GetNamespace KVG vg;
                    or_Name := GetName KVG vg; or_UID := GetUID KVG vg;
                    or_APIVersion := tm_APIVersion (vg_TypeMeta vg);
                    or_ResourceVersion := om_ResourceVersion (vg_ObjectMeta vg) |};
          vgcspec_Source :=
            Some {| vgcsrc_Driver := vgclass_Driver cl; vgcsrc_VolumeGroupHandle := "";
                    vgcsrc_VolumeGroupAttributes := ∅ |};
          vgcspec_VolumeGroupDeletionPolicy :=
            Some (default VolumeGroupContentDelete (vgclass_VolumeGroupDeletionPolicy cl));
          vgcspec_SupportVolumeGroupSnapshot := Some false;
          vgcspec_VolumeGroupSecretRef :=
            Some {| sr_Name := or_empty (vgclass_Parameters cl !! PrefixedVGSecretNameKey);
                    sr_Namespace :=
                      or_empty (vgclass_Parameters cl !! PrefixedVGSecretNamespaceKey) |} |};
     vgc_Status := {| vgcst_GroupCreationTime := None; vgcst_PVList := [];
                      vgcst_Ready := None; vgcst_Error := None |} |}.

Definition create_content_allowed (tr : history) (o : VolumeGroupContent) : Prop :=
  ∃ vg cur cl cn,
    started_from tr vg ∧
    om_DeletionTimestamp (vg_ObjectMeta vg) = None ∧
    cn = or_empty (vgspec_VolumeGroupClassName (vg_Spec vg)) ∧
    Ev (CGet KVGClass (mkNN "" cn)) (inr cl) ∈ tr ∧
    vgclass_Driver cl = DriverName cfg ∧
    map_Forall valid_parameter (vgclass_Parameters cl) ∧
    ((cur = vg ∧ VGFinalizer ∈ GetFinalizers KVG vg) ∨
     finalizers_written KVG (GetFinalizers KVG vg ++ [VGFinalizer]) tr cur) ∧
    vgsrc_VolumeGroupContentName (vgspec_Source (vg_Spec cur)) = None ∧
    GetUID KVG cur ≠ ""%string ∧
    o = content_for cur cl.

(** The VolumeGroup is not being deleted. *)
Definition vg_alive (tr : history) (vg : VolumeGroup) : Prop :=
  started_from tr vg ∧ om_DeletionTimestamp (vg_ObjectMeta vg) = None.

Definition vg_guard (tr : history) (c : call) : Prop :=
  match c with
  | CUpdate KVG _ => vg_release_allowed tr
  | CDelete KVGC vgc => delete_content_allowed tr vgc
  | CCreate KVGC o => create_content_allowed tr o
  | CModifyVolumeGroupMembership _ _ _ => ∃ vg, vg_alive tr vg
  | CCreate KEvent _ => True
  | CDelete _ _ | CCreate _ _ | CCreateVolumeGroup _ _ _ | CDeleteVolumeGroup _ _ => False
  | _ => True
  end.

Abbreviation Any := (λ (_ : history) (_ : option _), True).

(** ** Deletion *)

Lemma started_from_app tr tr' vg : started_from tr vg → started_from (tr ++ tr') vg.
Proof. apply first_is_app. Qed.

Lemma started_from_inj tr vg vg' : started_from tr vg → started_from tr vg' → vg = vg'.
Proof. apply first_get_inj. Qed.

Lemma content_settled_app tr tr' vg : content_settled tr vg → content_settled (tr ++ tr') vg.
Proof. intros Hset. eapply content_settled_mono; [done|]. intros e He. apply elem_of_app. by left. Qed.

Lemma vg_release_wp tr vg :
  started_from tr vg → vg_deletable vg → content_settled tr vg →
  wp vg_guard Any
    ('(err, instance) ← RemoveFinalizerFromVG vg;
     match err with
     | Some err => mret (Some err, instance)
     | None => mret (None, instance)
     end) tr.
Proof.
  intros Hs Hdel Hset. wp_step. eapply wp_spec; [typeclasses eauto| |].
  - intros tr' c _ Hc. destruct c; cbn in Hc; try done; subst; try done.
    intros vg' Hs' _. pose proof (started_from_inj _ _ _ Hs' (started_from_app _ tr' _ Hs)) as ->.
    split; [done|by apply content_settled_app].
  - intros tr' out _. revert out. outcome_cases. repeat wp_step; done.
Qed.

Lemma removeInstance_wp tr vg :
  started_from tr vg → vg_deletable vg → wp vg_guard Any (removeInstance vg) tr.
Proof.
  intros Hs Hdel. unfold removeInstance, GetVGC, removeVGCObject. autorewrite with reflect.
  do 4 wp_step. apply wp_trigger; [done|]. intros [err|vgc]; cbn [after]; wp_step.
  - destruct (IsNotFound err) eqn:Herr; cbn [negb]; do 2 wp_step; [|done].
    apply vg_release_wp; [by apply started_from_app|done|].
    apply (content_not_found _ _ err); [solve_event|done].
  - do 3 wp_step.
    destruct (vgcspec_VolumeGroupDeletionPolicy (vgc_Spec vgc)) as [policy|] eqn:Hp; [|done].
    cbn [wp after]. case_decide as Hpol.
    + wp_step. apply wp_trigger.
      { exists vg. split; [by apply started_from_app|]. split; [done|].
        split; [solve_event|congruence]. }
      intros [err|]; cbn [after]; do 2 wp_step; [done|].
      apply vg_release_wp; [by do 2 apply started_from_app|done|].
      apply (content_deleted _ _ vgc); [solve_event|congruence|solve_event].
    + do 2 wp_step. apply vg_release_wp; [by apply started_from_app|done|].
      apply (content_retained _ _ vgc policy); [solve_event|done..].
Qed.

(** ** Provisioning *)

(** Calls the guards say nothing of, while the VolumeGroup is alive. *)
Definition vg_ordinary (c : call) : Prop :=
  match c with
  | CCreate KEvent _ => True
  | CDelete _ _ | CCreate _ _ | CCreateVolumeGroup _ _ _ | CDeleteVolumeGroup _ _ => False
  | _ => True
  end.

Lemma vg_alive_app tr tr' vg : vg_alive tr vg → vg_alive (tr ++ tr') vg.
Proof. intros [Hs Hd]. split; [by apply started_from_app|done]. Qed.

Lemma vg_alive_ordinary tr vg c : vg_alive tr vg → vg_ordinary c → vg_guard tr c.
Proof.
  intros [Hs Hd] Hc. destruct c as [| | |[]|[]|[]|[]| | | | | | |]; cbn in *; try done;
    [|by exists vg].
  intros vg' Hs' [t Ht]. pose proof (started_from_inj _ _ _ Hs Hs') as <-. congruence.
Qed.

Lemma vg_alive_triple {A} (p : prog A) tr vg :
  vg_alive tr vg → triple vg_ordinary any p → wp vg_guard Any p tr.
Proof.
  intros Ha Hp. eapply wp_of_triple; [done| |done].
  intros tr' c _. by eapply vg_alive_ordinary, vg_alive_app.
Qed.

Lemma vg_alive_use {A} (p : prog A) S (R Q : history → option A → Prop) tr vg :
  triple S any p → ensures p R → vg_alive tr vg → covers S vg_ordinary →
  (∀ tr' o, R tr' o → Q (tr ++ tr') o) → wp vg_guard Q p tr.
Proof.
  intros HS HR Ha Hc HQ. eapply wp_use; [done..| |].
  - intros tr' c _ HSc. by eapply vg_alive_ordinary; [apply vg_alive_app|apply Hc].
  - intros tr' o _. apply HQ.
Qed.

Lemma create_content_allowed_app tr tr' o :
  create_content_allowed tr o → create_content_allowed (tr ++ tr') o.
Proof.
  intros (vg & cur & cl & cn & Hs & Hd & -> & Hcl & Hdr & Hv & Hcur & Hn & Hu & ->).
  exists vg, cur, cl. eexists. split_all; try done.
  - by apply started_from_app.
  - apply elem_of_app. by left.
  - destruct Hcur as [Hcur|(o & Ho & Hf)]; [by left|right].
    exists o. split; [apply elem_of_app; by left|done].
Qed.

(** A VolumeGroup that is not static is left alone. *)
Lemma handleStaticProvisionedVG_dynamic vg t cl :
  ensures (handleStaticProvisionedVG cfg vg t cl)
    (λ _ out, ∀ err vg', out = Some (err, false, vg') →
       vg' = vg ∧ vgsrc_VolumeGroupContentName (vgspec_Source (vg_Spec vg)) = None).
Proof.
  apply wp_ensures. unfold handleStaticProvisionedVG.
  destruct (vgsrc_VolumeGroupContentName _) as [n|] eqn:Hn;
    repeat wp_step; intros ? ? Heq; by simplify_eq.
Qed.

#[local] Instance handleStaticProvisionedVG_spec vg t cl :
  Spec (handleStaticProvisionedVG cfg vg t cl) vg_ordinary any.
Proof. unfold handleStaticProvisionedVG, Spec. solve_triple. Qed.

Lemma MakeVGName_inr uid :
  uid ≠ ""%string →
  MakeVGName VGNamePrefix uid = inr (VGNamePrefix +:+ "-" +:+ uid)%string.
Proof.
  intros Hne. unfold MakeVGName. rewrite decide_False by (by destruct uid).
  by rewrite Sprintf_dash.
Qed.

(** The content [GenerateVGC] makes. *)
Lemma GenerateVGC_content_for vg cl :
  GenerateVGC (VGNamePrefix +:+ "-" +:+ GetUID KVG vg)%string vg cl
    (fst (GetSecretCred cl)) (snd (GetSecretCred cl)) = Ret (content_for vg cl).
Proof.
  unfold GenerateVGC, generateVGCSpec. rewrite GetStringField_vg_class. cbn.
  unfold content_for, getVolumeGroupDeletionPolicy, generateObjectReference, generateVGCSource,
    generateSecretReference. cbn. by destruct (vgclass_VolumeGroupDeletionPolicy cl).
Qed.

Lemma CreateVGC_wp tr vg o :
  vg_alive tr vg → create_content_allowed tr o →
  wp vg_guard (λ tr' _, vg_alive tr' vg) (CreateVGC o) tr.
Proof.
  intros Ha Hok. unfold CreateVGC. wp_step. apply wp_trigger; [done|].
  intros r; cbn [after]; repeat wp_step; by apply vg_alive_app.
Qed.

Lemma Reconcile_provision_wp tr vg cur cl :
  vg_alive tr vg →
  (vgsrc_VolumeGroupContentName (vgspec_Source (vg_Spec cur)) = None →
   GetUID KVG cur ≠ ""%string →
   create_content_allowed tr (content_for cur cl)) →
  wp vg_guard Any (Reconcile_provision cfg cur cl) tr.
Proof.
  intros Ha Hok. unfold Reconcile_provision, GetCurrentTime. wp_step. wp_step. cbn [after]. wp_step.
  eapply vg_alive_use;
    [eapply spec_calls; typeclasses eauto|apply handleStaticProvisionedVG_dynamic
    |by apply vg_alive_app|exact (covers_refl _)|].
  intros tr1 [[[err static] cur']|] Hst; cbn [after]; [|done]. destruct static; [done|].
  destruct (Hst err cur' eq_refl) as [-> Hname].
  set (tr2 := (tr ++ _) ++ tr1). assert (vg_alive tr2 vg) as Ha2 by by do 2 apply vg_alive_app.
  destruct (decide (GetUID KVG cur = ""%string)) as [Huid|Huid].
  { unfold MakeVGName. rewrite Huid. eapply vg_alive_triple; [done|]. solve_triple. }
  rewrite MakeVGName_inr by done.
  destruct (GetSecretCred cl) as [sn sns] eqn:Hcred.
  pose proof (GenerateVGC_content_for cur cl) as Hgen. rewrite Hcred in Hgen. cbn [fst snd] in Hgen.
  rewrite Hgen. do 3 wp_step. eapply wp_mono; [apply (CreateVGC_wp _ vg); [done|]|].
  { apply create_content_allowed_app, create_content_allowed_app; auto. }
  intros tr3 [[err' vgc]|] Ha3; cbn [after]; [|done].
  eapply vg_alive_triple; [exact Ha3|]. solve_triple.
Qed.

Lemma Reconcile_vg_wp : wp vg_guard Any (Reconcile cfg req) [].
Proof.
  unfold Reconcile, Reconcile_class. wp_step. apply wp_trigger; [done|].
  intros [err|vg]; cbn [after app]; [repeat wp_step; done|].
  set (tr := [_]). assert (started_from tr vg) as Hs by done. clearbody tr.
  rewrite GetStringField_vg_class. do 3 wp_step. unfold GetVGClass. wp_step.
  set (cn := or_empty _). case_decide as Hcn; [repeat wp_step; done|].
  apply wp_trigger; [done|].
  intros [err|cl]; cbn [after]; [repeat wp_step; done|].
  case_decide as Hdr; [done|].
  set (tr' := tr ++ _). assert (started_from tr' vg) as Hs' by by apply started_from_app.
  assert (Ev (CGet KVGClass (mkNN "" cn)) (inr cl) ∈ tr') as Hcl by solve_event.
  clearbody tr'. wp_step. eapply wp_spec; [typeclasses eauto|solve_guard|].
  intros tr1 [[err|]|] _ Hval; cbn [after]; [repeat wp_step; done| |done].
  destruct (IsZero _) eqn:Hdel.
  - assert (om_DeletionTimestamp (vg_ObjectMeta vg) = None) as Hd
      by by destruct (om_DeletionTimestamp _).
    wp_step. eapply vg_alive_use;
      [eapply spec_calls; typeclasses eauto|apply AddFinalizerToVG_history
      |split; [by apply started_from_app|done]|solve_covers|].
    intros tr2 [[[err|] cur]|] Hcur; cbn [after]; [| |done].
    { eapply vg_alive_triple; [split; [by do 2 apply started_from_app|done]|]. solve_triple. }
    apply (Reconcile_provision_wp _ vg); [split; [by do 2 apply started_from_app|done]|].
    intros Hname Huid. exists vg, cur, cl, cn. split_all; try done.
    + by do 2 apply started_from_app.
    + do 2 (apply elem_of_app; left). done.
    + by apply Hval.
    + destruct (Hcur cur eq_refl) as [Hc|(o & Ho & Hf)]; [by left|right].
      exists o. split; [solve_event|done].
  - destruct (Contains _ _ && _) eqn:Hfin; [|done].
    apply andb_true_iff in Hfin as [Hown%Contains_spec Hother%negb_true_iff].
    rewrite IsContainOtherFinalizers_false in Hother.
    wp_step. eapply wp_mono; [apply (removeInstance_wp _ vg)|].
    + by apply started_from_app.
    + split; [by destruct (om_DeletionTimestamp _)|done].
    + intros tr2 [[[err|] cur]|] _; cbn [after]; repeat wp_step; done.
Qed.

Lemma Reconcile_vg_guarded : guarded (Reconcile cfg req) vg_guard.
Proof. apply wp_guarded, Reconcile_vg_wp. Qed.

(** ** The properties *)

(** C13: once a VolumeGroup is being deleted, the only update of it lets it go:
    the operator is the only one that holds it, and the content its specification
    names, if it names one, was found absent, or is kept because its policy is not
    Delete, or its deletion was accepted; nothing is known of a content when the
    specification names none. *)
Theorem vg_release_guarded :
  guarded (Reconcile cfg req) (λ tr c,
    match c with CUpdate KVG _ => vg_release_allowed tr | _ => True end).
Proof.
  eapply guarded_mono; [apply Reconcile_vg_guarded|].
  by intros tr [| | |[]|[]|[]|[]| | | | | | |].
Qed.

(** C14: the controller deletes nothing but the content of a VolumeGroup that is
    being deleted and that only the operator holds, and only when the policy of
    that content is Delete; it creates and deletes no volume group at the
    driver, and asks it to change members only for a VolumeGroup that is not
    being deleted. *)
Theorem vg_delete_guarded :
  guarded (Reconcile cfg req) (λ tr c,
    match c with
    | CDelete KVGC vgc => delete_content_allowed tr vgc
    | CDelete _ _ | CCreateVolumeGroup _ _ _ | CDeleteVolumeGroup _ _ => False
    | CModifyVolumeGroupMembership _ _ _ => ∃ vg, vg_alive tr vg
    | _ => True
    end).
Proof.
  eapply guarded_mono; [apply Reconcile_vg_guarded|].
  by intros tr [| | |[]|[]|[]|[]| | | | | | |].
Qed.

(** C15: the only object the controller creates, events aside, is the content
    of a VolumeGroup that is not being deleted, holds the operator's finalizer,
    names no content and has a UID, under a class of the operator with valid
    parameters; and that content is, field by field, [content_for] of the
    VolumeGroup and its class. *)
Theorem create_content_guarded :
  guarded (Reconcile cfg req) (λ tr c,
    match c with
    | CCreate KVGC o => create_content_allowed tr o
    | CCreate K _ => K = KEvent
    | _ => True
    end).
Proof.
  eapply guarded_mono; [apply Reconcile_vg_guarded|].
  by intros tr [| | |[]|[]|[]|[]| | | | | | |].
Qed.
End Guards.

(** ** The guards at work *)

#[local] Existing Instance DocExternals.externals.
#[local] Existing Instance DocExternals.laws.

Lemma vg_release_guarded_witness :
  ∃ pre e post,
    run_trace serve Scenario.reconcile_vg Scenario.vg_deleting = pre ++ e :: post ∧
    Scenario.is_vg_update (tr_call e) = true ∧
    match tr_call e with CUpdate KVG _ => vg_release_allowed Samples.vg_req pre | _ => True end.
Proof. guard_witness Scenario.is_vg_update vg_release_guarded. Defined.

Lemma vg_delete_guarded_witness :
  ∃ pre e post,
    run_trace serve Scenario.reconcile_vg Scenario.vg_deleting = pre ++ e :: post ∧
    Scenario.is_content_delete (tr_call e) = true ∧
    match tr_call e with
    | CDelete KVGC vgc => delete_content_allowed Samples.vg_req pre vgc
    | CDelete _ _ | CCreateVolumeGroup _ _ _ | CDeleteVolumeGroup _ _ => False
    | CModifyVolumeGroupMembership _ _ _ => ∃ vg, vg_alive Samples.vg_req pre vg
    | _ => True
    end.
Proof. guard_witness Scenario.is_content_delete vg_delete_guarded. Defined.

Lemma create_content_guarded_witness :
  ∃ pre e post,
    run_trace serve Scenario.reconcile_vg Samples.with_vg = pre ++ e :: post ∧
    Scenario.is_content_create (tr_call e) = true ∧
    match tr_call e with
    | CCreate KVGC o => create_content_allowed Samples.config Samples.vg_req pre o
    | CCreate K _ => K = KEvent
    | _ => True
    end.
Proof. guard_witness Scenario.is_content_create create_content_guarded. Defined.
