(* ===== verification/VGCSafety.v ===== *)
(** * Safety of the VolumeGroupContent controller

    When [Reconcile] may call the driver, delete a claim, or let a content go.
    The guards speak of the content as [Reconcile] first read it (the first
    event of the history) and as it is at the moment of the call. *)

From S2P Require Import Prelude GoLang Api Effects Externals Objects Params VolumeGroups Volumes.
From S2P Require Import Finalizers Driver VolumeGroupContents Membership VGController.
From S2P Require Import VGCController Histories Cluster Scenario.
Import VGCController.

Section Guards.
Context `{ExternalLaws} (cfg : DriverConfig) (req : NamespacedName).

(** [Reconcile] started from this content. *)
Definition started_with (tr : history) (vgc : VolumeGroupContent) : Prop :=
  first_is tr (Ev (CGet KVGC req) (inr vgc)).

(** The VolumeGroup the content refers to was looked for and not found. *)
Definition group_gone (tr : history) (vgc : VolumeGroupContent) : Prop :=
  match vgcspec_VolumeGroupRef (vgc_Spec vgc) with
  | None => True
  | Some ref =>
      ∃ err, Ev (CGet KVG (mkNN (or_Namespace ref) (or_Name ref))) (inl err) ∈ tr ∧
             IsNotFound err = true
  end.

(** The content is being deleted, only the operator holds it, and its
    VolumeGroup is gone. *)
Definition may_release (tr : history) (vgc : VolumeGroupContent) : Prop :=
  is_Some (om_DeletionTimestamp (vgc_ObjectMeta vgc)) ∧
  VgcFinalizer ∈ GetFinalizers KVGC vgc ∧
  (∀ f, f ∈ GetFinalizers KVGC vgc → str_Contains f VGFinalizer = true) ∧
  group_gone tr vgc.

Definition delete_group_allowed (tr : history) (id : string) : Prop :=
  ∃ vgc cur src,
    started_with tr vgc ∧ may_release tr vgc ∧ current tr vgc cur ∧
    vgcspec_VolumeGroupDeletionPolicy (vgc_Spec cur) = Some VolumeGroupContentDelete ∧
    vgcspec_Source (vgc_Spec cur) = Some src ∧ id = vgcsrc_VolumeGroupHandle src.

Definition delete_claim_allowed (tr : history) : Prop :=
  DisableDeletePvcs cfg = "false"%string ∧
  ∃ vgc, started_with tr vgc ∧ may_release tr vgc.

(** An update of a content that is being deleted lets it go: the group was
    deleted before, if the policy asks for it. *)
Definition release_allowed (tr : history) : Prop :=
  ∀ vgc, started_with tr vgc →
    is_Some (om_DeletionTimestamp (vgc_ObjectMeta vgc)) →
    or_empty (vgcspec_VolumeGroupClassName (vgc_Spec vgc)) ≠ ""%string →
    may_release tr vgc ∧
    ∃ cur policy,
      current tr vgc cur ∧ vgcspec_VolumeGroupDeletionPolicy (vgc_Spec cur) = Some policy ∧
      (policy = VolumeGroupContentDelete →
       ∃ src secrets, vgcspec_Source (vgc_Spec cur) = Some src ∧
         Ev (CDeleteVolumeGroup (vgcsrc_VolumeGroupHandle src) secrets) None ∈ tr).

Definition create_group_allowed (tr : history) (name : string)
    (secrets parameters : gmap string string) : Prop :=
  ∃ vgc cur cl cn,
    started_with tr vgc ∧
    om_DeletionTimestamp (vgc_ObjectMeta vgc) = None ∧
    vgcspec_VolumeGroupClassName (vgc_Spec vgc) = Some cn ∧
    Ev (CGet KVGClass (mkNN "" cn)) (inr cl) ∈ tr ∧
    vgclass_Driver cl = DriverName cfg ∧
    map_Forall valid_parameter (vgclass_Parameters cl) ∧
    ((cur = vgc ∧ VgcFinalizer ∈ GetFinalizers KVGC vgc) ∨
     finalizers_written KVGC (GetFinalizers KVGC vgc ++ [VgcFinalizer]) tr cur) ∧
    (∀ src, vgcspec_Source (vgc_Spec cur) = Some src →
            vgcsrc_VolumeGroupHandle src = ""%string) ∧
    name = GetName KVGC cur ∧
    parameters = filter (λ kv, str_HasPrefix (fst kv) VGAsPrefix = false)
                   (vgclass_Parameters cl) ∧
    secrets_of tr cl secrets.

(** All of them. *)
Definition vgc_guard (tr : history) (c : call) : Prop :=
  match c with
  | CDeleteVolumeGroup id _ => delete_group_allowed tr id
  | CCreateVolumeGroup name secrets parameters => create_group_allowed tr name secrets parameters
  | CDelete KPVC _ => delete_claim_allowed tr
  | CUpdate KVGC _ => release_allowed tr
  | CCreate KEvent _ => True
  | CDelete _ _ | CCreate _ _ | CModifyVolumeGroupMembership _ _ _ => False
  | _ => True
  end.

(** ** Facts stay true as the history grows *)

Lemma started_with_app tr tr' vgc : started_with tr vgc → started_with (tr ++ tr') vgc.
Proof. apply first_is_app. Qed.

Lemma group_gone_app tr tr' vgc : group_gone tr vgc → group_gone (tr ++ tr') vgc.
Proof.
  unfold group_gone. destruct (vgcspec_VolumeGroupRef _); [|done].
  intros (err & Hin & Herr). exists err. split; [|done]. apply elem_of_app. by left.
Qed.

Lemma may_release_app tr tr' vgc : may_release tr vgc → may_release (tr ++ tr') vgc.
Proof.
  intros (Hd & Hf & Ho & Hg). unfold may_release. split_all; try done.
  by apply group_gone_app.
Qed.

Lemma current_app tr tr' vgc cur : current tr vgc cur → current (tr ++ tr') vgc cur.
Proof. intros [->|Hans]; [by left|right]. by apply vgc_status_answer_app_l. Qed.

Lemma started_with_inj tr vgc vgc' :
  started_with tr vgc → started_with tr vgc' → vgc = vgc'.
Proof. apply first_get_inj. Qed.

(** ** Deletion *)

(** What is known on the way to the release. *)
Definition releasing (tr : history) (vgc : VolumeGroupContent) : Prop :=
  started_with tr vgc ∧ may_release tr vgc.

Lemma releasing_app tr tr' vgc : releasing tr vgc → releasing (tr ++ tr') vgc.
Proof. intros [Hs Hr]. split; [by apply started_with_app|by apply may_release_app]. Qed.

Abbreviation Any := (λ (_ : history) (_ : option _), True).

Lemma removeVGC_wp tr vgc cur secret :
  releasing tr vgc → current tr vgc cur → wp vgc_guard Any (removeVGC cur secret) tr.
Proof.
  intros Hrel Hcur. unfold removeVGC. do 3 wp_step.
  destruct (vgcspec_VolumeGroupDeletionPolicy (vgc_Spec cur)) as [policy|] eqn:Hp; [|done].
  cbn [wp after].
  set (released := λ tr', releasing tr' vgc ∧ current tr' vgc cur ∧
    (policy = VolumeGroupContentDelete →
     ∃ src secrets, vgcspec_Source (vgc_Spec cur) = Some src ∧
       Ev (CDeleteVolumeGroup (vgcsrc_VolumeGroupHandle src) secrets) None ∈ tr')).
  assert (∀ tr', released tr' → wp vgc_guard Any
    ('(err, vgc) ← RemoveFinalizerFromVGC cur;
     match err with Some err => mret (Some err, vgc) | None => mret (None, vgc) end) tr')
    as Hdrop.
  { intros tr' (Hrel' & Hcur' & Hdel). wp_step.
    eapply wp_spec; [typeclasses eauto| |].
    - intros tr'' c _ Hc. destruct c; cbn in Hc; try done; subst; try done.
      intros vgc' Hs _ _. assert (vgc' = vgc) as ->.
      { eapply started_with_inj; [done|]. by apply started_with_app, Hrel'. }
      split; [by apply may_release_app, Hrel'|]. exists cur, policy.
      split; [by apply current_app|]. split; [done|]. intros Hpol.
      destruct (Hdel Hpol) as (src & s & Hsrc & Hin). exists src, s.
      split; [done|]. apply elem_of_app. by left.
    - intros tr'' out _. revert out. outcome_cases. repeat wp_step; done. }
  wp_step. case_decide as Hpol.
  - wp_step. destruct (vgcspec_Source (vgc_Spec cur)) as [src|] eqn:Hsrc; [|done].
    cbn [wp after]. unfold deleteVG, request_Delete, DeleteVolumeGroup. cbn.
    split; [exists vgc, cur, src; rewrite <- Hpol; destruct Hrel; done|].
    intros [err|]; cbn; [done|]. apply Hdrop.
    split; [by apply releasing_app|]. split; [by apply current_app|].
    intros _. exists src, secret. split; [done|]. solve_event.
  - wp_step. wp_step. by apply Hdrop.
Qed.

(** The end of [handleVGCWithDeletionTimestamp], once the group is gone. *)
Lemma release_wp tr vgc secret :
  releasing tr vgc →
  wp vgc_guard Any
    ('(err, vgc) ←
       (if decide (DisableDeletePvcs cfg = "false")%string
        then DeletePVCsUnderVGC vgc (DriverName cfg)
        else mret (None, vgc));
     match err with
     | Some err => mret (Some err, vgc)
     | None =>
         '(err, vgc) ← removeVGC vgc secret;
         match err with
         | Some err => mret (Some err, vgc)
         | None => mret (None, vgc)
         end
     end) tr.
Proof.
  intros Hrel.
  assert (∀ tr' cur, releasing tr' vgc → current tr' vgc cur → wp vgc_guard Any
    ('(err, vgc) ← removeVGC cur secret;
     match err with Some err => mret (Some err, vgc) | None => mret (None, vgc) end) tr')
    as Hrem.
  { intros tr' cur Hr Hc. wp_step. eapply wp_mono; [by eapply removeVGC_wp|].
    intros ? [[[?|] ?]|] _; done. }
  wp_step. case_decide as Hdis; [|wp_step; wp_step; apply Hrem; [done|by left]].
  eapply wp_use; [eapply spec_calls; typeclasses eauto|apply DeletePVCsUnderVGC_history| |].
  - intros tr' c _ Hc.
    destruct c as [[]| | |[]|[]|[]|[]| | | | | | |]; cbn in Hc |- *; try done.
    split; [done|]. exists vgc. by apply releasing_app.
  - intros tr' [[[err|] cur]|] _ Hcur; cbn [after]; [done| |done].
    apply Hrem; [by apply releasing_app|].
    destruct (Hcur cur eq_refl) as [->|Hans]; [by left|right].
    by apply vgc_status_answer_app_r.
Qed.

Lemma handleVGCWithDeletionTimestamp_wp tr vgc secret :
  started_with tr vgc → is_Some (om_DeletionTimestamp (vgc_ObjectMeta vgc)) →
  wp vgc_guard Any (handleVGCWithDeletionTimestamp cfg vgc secret) tr.
Proof.
  intros Hs Hdel. unfold handleVGCWithDeletionTimestamp, IsVgExist, GetVG.
  autorewrite with reflect. wp_step.
  repeat first
    [ match goal with H : _ && _ = true |- _ =>
        apply andb_true_iff in H as [Hown%Contains_spec Hother%negb_true_iff];
        rewrite IsContainOtherFinalizers_false in Hother; apply release_wp
      end
    | wp_step ]; try done.
  - split; [by apply started_with_app|]. unfold may_release, group_gone.
    split_all; try done.
    destruct (vgcspec_VolumeGroupRef (vgc_Spec vgc)) as [ref|]; [|done]. simplify_eq.
    eexists. split; [solve_event|]. by apply negb_false_iff.
  - split; [done|]. unfold may_release, group_gone. split_all; try done.
    by destruct (vgcspec_VolumeGroupRef (vgc_Spec vgc)).
Qed.

(** ** Creation *)

(** Calls the guards say nothing of, while the content is alive. *)
Definition ordinary (c : call) : Prop :=
  match c with
  | CCreate KEvent _ => True
  | CDeleteVolumeGroup _ _ | CCreateVolumeGroup _ _ _ | CModifyVolumeGroupMembership _ _ _
  | CDelete _ _ | CCreate _ _ => False
  | _ => True
  end.

(** The content is alive, or is a thin one. *)
Definition alive (tr : history) (vgc : VolumeGroupContent) : Prop :=
  started_with tr vgc ∧
  (om_DeletionTimestamp (vgc_ObjectMeta vgc) = None ∨
   or_empty (vgcspec_VolumeGroupClassName (vgc_Spec vgc)) = ""%string).

Lemma alive_app tr tr' vgc : alive tr vgc → alive (tr ++ tr') vgc.
Proof. intros [Hs Hd]. split; [by apply started_with_app|done]. Qed.

Lemma alive_ordinary tr vgc c : alive tr vgc → ordinary c → vgc_guard tr c.
Proof.
  intros [Hs Hd] Hc. destruct c as [| | |[]|[]|[]|[]| | | | | | |]; cbn in *; try done.
  intros vgc' Hs' [t Ht] Hcn. pose proof (started_with_inj _ _ _ Hs Hs') as <-.
  destruct Hd; congruence.
Qed.

(** An operation whose calls are ordinary. *)
Lemma alive_wp {A} (p : prog A) S R (Q : history → option A → Prop) tr vgc :
  Spec p S R → alive tr vgc → covers S ordinary →
  (∀ tr' o, R o → Q (tr ++ tr') o) → wp vgc_guard Q p tr.
Proof.
  intros Hp Ha HS HQ. eapply wp_spec; [done| |].
  - intros tr' c _ Hc. by eapply alive_ordinary; [apply alive_app|apply HS].
  - intros tr' o _. apply HQ.
Qed.

(** A program all of whose calls are ordinary. *)
Lemma alive_triple {A} (p : prog A) tr vgc :
  alive tr vgc → triple ordinary any p → wp vgc_guard Any p tr.
Proof. intros Ha Hp. by apply (alive_wp p ordinary any _ _ vgc Hp Ha (covers_refl _)). Qed.

Lemma create_group_allowed_app tr tr' name secrets parameters :
  create_group_allowed tr name secrets parameters →
  create_group_allowed (tr ++ tr') name secrets parameters.
Proof.
  intros (vgc & cur & cl & cn & Hs & Hd & Hcn & Hcl & Hdr & Hv & Hcur & Hsrc & -> & -> & Hsec).
  exists vgc, cur, cl, cn. split_all; try done.
  - by apply started_with_app.
  - apply elem_of_app. by left.
  - destruct Hcur as [Hcur|(o & Ho & Hf)]; [by left|right].
    exists o. split; [apply elem_of_app; by left|done].
  - by apply secrets_of_app.
Qed.

Lemma handleCreateVG_wp tr vgc cur cl secret :
  alive tr vgc →
  create_group_allowed tr (GetName KVGC cur) secret
    (filter (λ kv, str_HasPrefix (fst kv) VGAsPrefix = false) (vgclass_Parameters cl)) →
  wp vgc_guard Any (handleCreateVG cur cl secret) tr.
Proof.
  intros Ha Hok. unfold handleCreateVG. wp_step.
  eapply alive_wp; [typeclasses eauto|done|solve_covers|].
  intros tr' o ->. cbn [after]. wp_step.
  unfold createVG_request, request_Create, CreateVolumeGroup. wp_step.
  apply wp_trigger; [by apply create_group_allowed_app|].
  intros [err|resp]; do 3 wp_step; cbn [Response_Error]; [done|].
  eapply (alive_triple _ _ vgc); [by do 2 apply alive_app|]. solve_triple.
Qed.

(** A content that is not static keeps its object and has no handle yet. *)
Lemma handleStaticProvisionedVGC_dynamic vgc :
  ensures (handleStaticProvisionedVGC vgc)
    (λ _ out, ∀ err vgc', out = Some (err, false, vgc') →
       vgc' = vgc ∧ ∀ src, vgcspec_Source (vgc_Spec vgc) = Some src →
                           vgcsrc_VolumeGroupHandle src = ""%string).
Proof.
  apply wp_ensures. unfold handleStaticProvisionedVGC. autorewrite with reflect.
  repeat wp_step; intros ? ? Heq; simplify_eq; (split; [done|]).
  - intros src Hsrc. simplify_eq. by apply dec_stable.
  - intros src Hsrc. by rewrite Hsrc in *.
Qed.

Lemma Reconcile_alive_wp tr vgc cl cn secret :
  started_with tr vgc → om_DeletionTimestamp (vgc_ObjectMeta vgc) = None →
  vgcspec_VolumeGroupClassName (vgc_Spec vgc) = Some cn →
  Ev (CGet KVGClass (mkNN "" cn)) (inr cl) ∈ tr →
  vgclass_Driver cl = DriverName cfg →
  map_Forall valid_parameter (vgclass_Parameters cl) →
  secrets_of tr cl secret →
  wp vgc_guard Any
    ('(err, vgc) ← AddFinalizerToVGC vgc;
     match err with
     | Some err =>
         err ← HandleVGCErrorMessage (Some vgc) (Some err) VGCSettings.createVGC;
         mret (Result_zero, err)
     | None =>
         '(err, isStaticProvisioned, vgc) ← handleStaticProvisionedVGC vgc;
         if (isStaticProvisioned : bool) then mret (Result_zero, err)
         else
           '(err, vgc) ← handleCreateVG vgc cl secret;
           match err with
           | Some err =>
               err ← HandleVGCErrorMessage (Some vgc) (Some err) VGCSettings.createVGC;
               mret (Result_zero, err)
           | None =>
               '(err, vgc) ← CreateSuccessVGCEvent vgc;
               match err with
               | Some err =>
                   err ← HandleVGCErrorMessage (Some vgc) (Some err) VGCSettings.vgcReconcile;
                   mret (Result_zero, err)
               | None => mret (Result_zero, None)
               end
           end
     end) tr.
Proof.
  intros Hs Hd Hcn Hcl Hdr Hv Hsec. assert (alive tr vgc) as Ha by (split; [done|by left]).
  wp_step. eapply wp_use; [eapply spec_calls; typeclasses eauto|apply AddFinalizerToVGC_history| |].
  { intros tr' c _ Hc. eapply alive_ordinary; [by apply alive_app|].
    destruct c as [| | |[]|[]|[]|[]| | | | | | |]; cbn in *; done. }
  intros tr' [[[err|] cur]|] _ Hcur; cbn [after]; [|specialize (Hcur cur eq_refl)|done].
  { eapply alive_triple; [by apply alive_app|]. solve_triple. }
  wp_step.
  eapply wp_use;
    [eapply spec_calls; typeclasses eauto|apply handleStaticProvisionedVGC_dynamic| |].
  { intros tr'' c _ Hc. eapply alive_ordinary; [by do 2 apply alive_app|].
    destruct c as [| | |[]|[]|[]|[]| | | | | | |]; cbn in *; done. }
  intros tr'' [[[err static] cur']|] _ Hst; cbn [after]; [|done].
  destruct static; [done|]. destruct (Hst err cur' eq_refl) as [-> Hsrc].
  wp_step. eapply wp_mono; [eapply handleCreateVG_wp; [by do 2 apply alive_app|]|].
  - apply create_group_allowed_app. exists vgc, cur, cl, cn. split_all; try done.
    + by apply started_with_app.
    + apply elem_of_app. by left.
    + destruct Hcur as [[-> Hf]|(o & Ho & Hf)]; [by left|right].
      exists o. split; [apply elem_of_app; by right|done].
    + by apply secrets_of_app.
  - intros tr3 [[err' cur']|] _; cbn [after]; [|done].
    eapply alive_triple; [by do 3 apply alive_app|]. solve_triple.
Qed.

Lemma Reconcile_wp : wp vgc_guard Any (Reconcile cfg req) [].
Proof.
  unfold Reconcile, GetVGC. wp_step. apply wp_trigger; [done|].
  intros [err|vgc]; cbn [after app]; [repeat wp_step; done|].
  assert (mkNN (nn_Namespace req) (nn_Name req) = req) as -> by by destruct req.
  set (tr := [_]). assert (started_with tr vgc) as Hs by done. clearbody tr.
  autorewrite with reflect. do 3 wp_step. case_decide as Hcn.
  { eapply (alive_triple _ _ vgc); [split; [done|by right]|]. solve_triple. }
  destruct (vgcspec_VolumeGroupClassName (vgc_Spec vgc)) as [cn|] eqn:Hclass; [|done].
  cbn [or_empty default from_option] in Hcn |- *. unfold GetVGClass. wp_step.
  rewrite decide_False by done. apply wp_trigger; [done|].
  intros [err|cl]; cbn [after]; [repeat wp_step; done|].
  case_decide as Hdr; [done|]. unfold Reconcile_class.
  set (tr' := tr ++ _). assert (started_with tr' vgc) as Hs' by by apply started_with_app.
  assert (Ev (CGet KVGClass (mkNN "" cn)) (inr cl) ∈ tr') as Hcl by solve_event.
  clearbody tr'. wp_step. eapply wp_spec; [typeclasses eauto|solve_guard|].
  intros tr1 [[err|]|] _ Hval; cbn [after]; [repeat wp_step; done| |done].
  wp_step. wp_with GetSecretDataFromClass_history.
  intros tr2 [[err|secret]|] _ Hsec; cbn [after]; [repeat wp_step; done| |done].
  specialize (Hsec secret eq_refl).
  destruct (IsZero _) eqn:Hdel.
  - eapply (Reconcile_alive_wp _ vgc cl cn).
    + by do 2 apply started_with_app.
    + by destruct (om_DeletionTimestamp _).
    + done.
    + do 2 (apply elem_of_app; left). done.
    + done.
    + by apply Hval.
    + by apply secrets_of_app_r.
  - wp_step. eapply wp_mono; [apply handleVGCWithDeletionTimestamp_wp|].
    + by do 2 apply started_with_app.
    + by destruct (om_DeletionTimestamp _).
    + intros tr3 [[[err|] cur]|] _; cbn [after]; repeat wp_step; done.
Qed.

Lemma Reconcile_guarded : guarded (Reconcile cfg req) vgc_guard.
Proof. apply wp_guarded, Reconcile_wp. Qed.

(** ** The properties *)

(** C7: a volume group is deleted at the driver only for a content that is
    being deleted, that the operator holds and no one else does, and whose
    VolumeGroup was looked for and not found; only when the deletion policy
    the content has at that moment is Delete; and the group deleted is the one
    the content names at that moment. *)
Theorem delete_group_guarded :
  guarded (Reconcile cfg req) (λ tr c,
    match c with CDeleteVolumeGroup id _ => delete_group_allowed tr id | _ => True end).
Proof. eapply guarded_mono; [apply Reconcile_guarded|]. by intros tr []. Qed.

(** C8: once a content of a class is being deleted, the only update of it lets
    it go, after its VolumeGroup is gone and, when the policy is Delete, after
    the driver has confirmed the deletion of the volume group. *)
Theorem release_guarded :
  guarded (Reconcile cfg req) (λ tr c,
    match c with CUpdate KVGC _ => release_allowed tr | _ => True end).
Proof. eapply guarded_mono; [apply Reconcile_guarded|]. by intros tr [| | |[]|[]|[]|[]| | | | | | |]. Qed.

(** C9: a volume group is created at the driver only for a content that is not
    being deleted, whose class is the operator's and has valid parameters,
    after the operator's finalizer is on the content, and which has no handle
    yet; it is created under the content's name, with the parameters of the
    class that are not reserved and with the secrets of the class. *)
Theorem create_group_guarded :
  guarded (Reconcile cfg req) (λ tr c,
    match c with
    | CCreateVolumeGroup name secrets parameters =>
        create_group_allowed tr name secrets parameters
    | _ => True
    end).
Proof. eapply guarded_mono; [apply Reconcile_guarded|]. by intros tr []. Qed.

(** C10: the only objects the controller deletes are claims, and it does so
    only when the deletion of claims is not disabled, for a content that is
    being deleted, that only the operator holds, and whose VolumeGroup is gone;
    it never creates an object other than an event and never changes the
    membership of a group. *)
Theorem delete_claim_guarded :
  guarded (Reconcile cfg req) (λ tr c,
    match c with
    | CDelete K _ => K = KPVC ∧ delete_claim_allowed tr
    | CCreate K _ => K = KEvent
    | CModifyVolumeGroupMembership _ _ _ => False
    | _ => True
    end).
Proof.
  eapply guarded_mono; [apply Reconcile_guarded|].
  by intros tr [| | |[]|[]|[]|[]| | | | | | |].
Qed.
End Guards.

(** ** The guards at work: a content created, then released *)

#[local] Existing Instance DocExternals.externals.
#[local] Existing Instance DocExternals.laws.


Lemma delete_group_guarded_witness :
  ∃ pre e post,
    run_trace serve Scenario.reconcile_vgc Scenario.vg_deleted = pre ++ e :: post ∧
    Scenario.is_delete_rpc (tr_call e) = true ∧
    match tr_call e with
    | CDeleteVolumeGroup id _ => delete_group_allowed Samples.vgc_req pre id
    | _ => True
    end.
Proof. guard_witness Scenario.is_delete_rpc delete_group_guarded. Defined.

Lemma release_guarded_witness :
  ∃ pre e post,
    run_trace serve Scenario.reconcile_vgc Scenario.vg_deleted = pre ++ e :: post ∧
    Scenario.is_vgc_update (tr_call e) = true ∧
    match tr_call e with
    | CUpdate KVGC _ => release_allowed Samples.vgc_req pre
    | _ => True
    end.
Proof. guard_witness Scenario.is_vgc_update release_guarded. Defined.

Lemma create_group_guarded_witness :
  ∃ pre e post,
    run_trace serve Scenario.reconcile_vgc Scenario.content_created = pre ++ e :: post ∧
    Scenario.is_create_rpc (tr_call e) = true ∧
    match tr_call e with
    | CCreateVolumeGroup name secrets parameters =>
        create_group_allowed Samples.config Samples.vgc_req pre name secrets parameters
    | _ => True
    end.
Proof. guard_witness Scenario.is_create_rpc create_group_guarded. Defined.

Lemma delete_claim_guarded_witness :
  ∃ pre e post,
    run_trace serve Scenario.reconcile_vgc Scenario.vg_deleted = pre ++ e :: post ∧
    Scenario.is_claim_delete (tr_call e) = true ∧
    match tr_call e with
    | CDelete K _ => K = KPVC ∧ delete_claim_allowed Samples.config Samples.vgc_req pre
    | CCreate K _ => K = KEvent
    | CModifyVolumeGroupMembership _ _ _ => False
    | _ => True
    end.
Proof. guard_witness Scenario.is_claim_delete delete_claim_guarded. Defined.
