(* ===== verification/ClaimDeletion.v ===== *)
(** * The loop that deletes the claims of a content

    [DeletePVCsUnderVGC] ranges over the list it shortens.  [visit] is what the
    loop does to the array of the list when everything else succeeds;
    [survivors] is the list that is left. *)

From S2P Require Import Prelude GoLang Api Effects Externals Objects Params VolumeGroups Volumes.
From S2P Require Import Finalizers Driver VolumeGroupContents Membership VGController.
From S2P Require Import VGCController Histories Cluster Scenario.

(** ** The loop on the array *)

Fixpoint visit (rounds i : nat) (s : slice PersistentVolume) : slice PersistentVolume :=
  match rounds with
  | 0 => s
  | S rounds =>
      match s_arr s !! i with
      | Some pv => visit rounds (S i) (removeFromPVList_slice pv s)
      | None => s
      end
  end.

(** Every second volume, the last one excepted. *)
Fixpoint survivors (l : list PersistentVolume) : list PersistentVolume :=
  match l with
  | _ :: y :: rest =>
      match rest with
      | [] => []
      | _ :: _ => y :: survivors rest
      end
  | _ => []
  end.

Definition pv_key (pv : PersistentVolume) : NamespacedName := key_of KPV pv.

Lemma same_pv_spec a b : same_pv a b = true ↔ pv_key a = pv_key b.
Proof.
  unfold same_pv, pv_key, key_of. rewrite andb_true_iff, !bool_decide_eq_true.
  split; [intros [-> ->]; done|intros Heq; by injection Heq].
Qed.

Lemma index_of_pv K x rest :
  pv_key x ∉ pv_key <$> K →
  index_of (λ p, same_pv p x) (K ++ x :: rest) = Some (length K).
Proof.
  intros Hx. apply index_of_Some. split.
  - exists x. rewrite lookup_app_r, Nat.sub_diag by lia. split; [done|by apply same_pv_spec].
  - intros j y Hy Hj. rewrite lookup_app_l in Hy by done.
    apply not_true_iff_false. rewrite same_pv_spec. intros Hk. apply Hx.
    rewrite <- Hk. apply list_elem_of_fmap_2. by eapply list_elem_of_lookup_2.
Qed.

Lemma index_of_pv_None K z :
  pv_key z ∉ pv_key <$> K → index_of (λ p, same_pv p z) K = None.
Proof.
  intros Hz. apply index_of_None. intros x Hx. apply not_true_iff_false.
  rewrite same_pv_spec. intros Hk. apply Hz. rewrite <- Hk. by apply list_elem_of_fmap_2.
Qed.

(** Once the reads are past the list, they see the last volume. *)
Lemma visit_past rounds i K z n :
  pv_key z ∉ pv_key <$> K → length K ≤ i → i + rounds ≤ length K + n →
  slice_view (visit rounds i (mk_slice (K ++ replicate n z) (length K))) = K.
Proof.
  revert i. induction rounds as [|rounds IH]; intros i Hz Hi Hn; cbn [visit s_arr].
  - unfold slice_view. cbn. by rewrite take_app_length.
  - rewrite lookup_app_r, lookup_replicate_2 by lia.
    unfold removeFromPVList_slice, slice_view. cbn [s_len s_arr].
    rewrite take_app_length, index_of_pv_None by done. apply IH; [done|lia..].
Qed.

(** One removal inside the list. *)
Lemma remove_slice_at K x rest z n :
  pv_key x ∉ pv_key <$> K → last (x :: rest) = Some z →
  removeFromPVList_slice x
    (mk_slice (K ++ x :: rest ++ replicate n z) (length K + S (length rest))) =
  mk_slice (K ++ rest ++ replicate (S n) z) (length K + length rest).
Proof.
  intros Hx Hlast. unfold removeFromPVList_slice, slice_view. cbn [s_len s_arr].
  change (x :: rest ++ replicate n z) with ((x :: rest) ++ replicate n z).
  rewrite (app_assoc K).
  rewrite take_app_length' by (rewrite length_app; cbn; lia).
  rewrite index_of_pv by done. unfold slice_remove_at, slice_view. cbn [s_len s_arr].
  rewrite take_app_length' by (rewrite length_app; cbn; lia).
  unfold remove_at. rewrite take_app_length, drop_app_ge by lia.
  replace (S (length K) - length K) with 1 by lia. cbn [drop].
  f_equal; [|lia]. rewrite <- app_assoc. f_equal. f_equal.
  destruct (exists_last (l := x :: rest)) as (front & z' & Heq); [done|].
  rewrite Heq in Hlast |- *. rewrite last_snoc in Hlast. simplify_eq.
  apply (f_equal length) in Heq. rewrite length_app in Heq. cbn in Heq.
  rewrite <- !app_assoc, (app_assoc K). apply drop_app_length'. rewrite length_app. lia.
Qed.

Lemma visit_survivors rest K z n rounds :
  NoDup (pv_key <$> K ++ rest) → last rest = Some z →
  rounds = length rest + n →
  slice_view (visit rounds (length K)
                (mk_slice (K ++ rest ++ replicate n z) (length K + length rest))) =
  K ++ survivors rest.
Proof.
  revert K n rounds. induction rest as [rest IH] using (well_founded_ind (Wf_nat.well_founded_ltof _ length)).
  unfold Wf_nat.ltof in IH. intros K n rounds Hnd Hlast ->.
  destruct rest as [|x rest]; [done|].
  assert (pv_key x ∉ pv_key <$> K) as Hx.
  { rewrite fmap_app, NoDup_app in Hnd. destruct Hnd as (_ & Hd & _).
    intros Hin. apply (Hd _ Hin). by left. }
  cbn [length Nat.add visit s_arr]. rewrite lookup_app_r, Nat.sub_diag by lia. cbn [lookup list_lookup app].
  rewrite (remove_slice_at K x rest z n) by done.
  destruct rest as [|y rest].
  { (* the last volume is removed *)
    cbn in Hlast. simplify_eq. cbn [survivors app length]. rewrite Nat.add_0_r, app_nil_r.
    apply (visit_past n (S (length K)) K z (S n)); [done|lia..]. }
  destruct rest as [|w rest].
  { (* the last volume is skipped, then found behind the list *)
    cbn in Hlast. simplify_eq. cbn [survivors app length Nat.add visit s_arr].
    rewrite lookup_app_r by lia. replace (S (length K) - length K) with 1 by lia.
    cbn [lookup list_lookup replicate].
    assert (pv_key z ∉ pv_key <$> K) as Hz.
    { rewrite fmap_app, NoDup_app in Hnd. destruct Hnd as (_ & Hd & _).
      intros Hin. apply (Hd _ Hin). right. by left. }
    pose proof (remove_slice_at K z [] z (S n) Hz eq_refl) as Hrem.
    cbn [app length replicate] in Hrem. rewrite Hrem.
    rewrite Nat.add_0_r. by rewrite app_nil_r, (visit_past n _ K z (S (S n))) by (done || lia). }
  (* one removed, one skipped *)
  change (survivors (x :: y :: w :: rest)) with ([y] ++ survivors (w :: rest)).
  rewrite (app_assoc K [y] (survivors (w :: rest))).
  rewrite <- (IH (w :: rest)) with (n := S n) (rounds := length (w :: rest) + S n).
  - rewrite <- app_assoc, length_app. cbn [app length].
    f_equal. f_equal; [lia..|]. f_equal. lia.
  - cbn. lia.
  - rewrite <- app_assoc. cbn [app]. rewrite fmap_app in Hnd |- *. cbn [fmap list_fmap] in Hnd |- *.
    rewrite <- Permutation_middle in Hnd. by apply NoDup_cons in Hnd as [_ ?].
  - done.
  - done.
Qed.

(** ** The loop of the operator is that loop *)

Section Loop.
Context `{ExternalLaws}.

(** Answers to the updates of the content: no conflict, and the list that was
    sent is the list that is stored. *)
Definition keeps_list (c : call) : resp c → Prop :=
  match c with
  | CStatusUpdate KVGC o => λ r,
      match r with
      | inl err => IsConflict err = false
      | inr o' => vgcst_PVList (vgc_Status o') = vgcst_PVList (vgc_Status o)
      end
  | _ => λ _, True
  end.

#[export] Instance keeps_list_dec c r : Decision (keeps_list c r).
Proof.
  destruct c as [| | | | |K o| | | | | | | |]; try (left; exact I).
  destruct K; try (left; exact I). destruct r; cbn; apply _.
Defined.

(** The volume names its claim. *)
Definition names_claim (pv : PersistentVolume) : Prop :=
  ∃ ref, pv_ClaimRef pv = Some ref ∧ or_Name ref ≠ ""%string ∧ or_Namespace ref ≠ ""%string.

Lemma RemovePVFromVGC_keeps pv vgc :
  along keeps_list
    (λ out, ∀ vgc', out = Some (None, vgc') →
       vgcst_PVList (vgc_Status vgc') = removeFromPVList pv (vgcst_PVList (vgc_Status vgc)))
    (RemovePVFromVGC pv vgc).
Proof.
  unfold RemovePVFromVGC, updateVGCStatusPVList. do 2 along_step.
  apply (along_retry _ _ (λ _, True)); [|done]. intros cur _.
  unfold vgcRetryOnConflictFunc, UpdateObjectStatus.
  repeat along_step; cbn in *; try congruence.
  all: split; [|done]; intros ? ?; simplify_eq; try congruence.
Qed.

(** The slice keeps its array through a removal. *)
Lemma removeFromPVList_slice_ok pv s :
  slice_wf s →
  slice_wf (removeFromPVList_slice pv s) ∧
  length (s_arr (removeFromPVList_slice pv s)) = length (s_arr s) ∧
  slice_view (removeFromPVList_slice pv s) = removeFromPVList pv (slice_view s).
Proof.
  intros Hwf. unfold removeFromPVList_slice, removeFromPVList.
  destruct (index_of _ (slice_view s)) as [i|] eqn:Hi; [|done].
  apply index_of_Some in Hi as ((x & Hx & _) & _). apply lookup_lt_Some in Hx.
  rewrite slice_view_length in Hx by done.
  assert (length (s_arr (slice_remove_at i s)) = length (s_arr s)) as Hcap
    by by apply slice_remove_at_cap.
  split_all; [|done|by apply slice_remove_at_view].
  unfold slice_wf in *. rewrite Hcap. cbn. lia.
Qed.

Lemma removeFromPVList_slice_elem pv s x :
  x ∈ s_arr (removeFromPVList_slice pv s) → x ∈ s_arr s.
Proof.
  unfold removeFromPVList_slice. destruct (index_of _ _) as [i|]; [|done].
  cbn. rewrite elem_of_app. intros [Hx%elem_of_remove_at|Hx].
  - unfold slice_view in Hx. apply list_elem_of_lookup in Hx as [j Hj].
    apply lookup_take_Some in Hj as [Hj _]. by eapply list_elem_of_lookup_2.
  - apply list_elem_of_lookup in Hx as [j Hj]. rewrite lookup_drop in Hj.
    by eapply list_elem_of_lookup_2.
Qed.

Lemma removeFromPVList_elem p pv l :
  p ∈ l → pv_key pv ≠ pv_key p → p ∈ removeFromPVList pv l.
Proof.
  intros Hp Hne. unfold removeFromPVList. destruct (index_of _ l) as [i|] eqn:Hi; [|done].
  apply index_of_Some in Hi as ((x & Hx & Hs) & _). apply same_pv_spec in Hs.
  destruct (remove_at_split l i x Hx) as (l1 & l2 & -> & _ & Hrem).
  unfold removeByIndexFromPVList. rewrite Hrem. rewrite elem_of_app, elem_of_cons in Hp.
  rewrite elem_of_app. destruct Hp as [?|[->|?]]; [by left|congruence|by right].
Qed.

Lemma names_claim_pvc_of_pv pv driver :
  names_claim pv → ∃ k, pvc_of_pv pv driver = Ret (inr (Some k)).
Proof.
  intros (ref & Href & Hn & Hns). exists (or_Name ref, or_Namespace ref).
  unfold pvc_of_pv, getPVCNameFromPV, getPVCNamespaceFromPV.
  rewrite GetStringField_claim_name, GetStringField_claim_namespace, Href. cbn.
  rewrite decide_False by (intros [?|?]; contradiction). done.
Qed.

Lemma DeletePVCsUnderVGC_loop_visit driver rounds i s cur :
  decode_reuses_array = true →
  slice_wf s → slice_view s = vgcst_PVList (vgc_Status cur) →
  Forall names_claim (s_arr s) →
  along keeps_list
    (λ out, ∀ vgc', out = Some (None, vgc') →
       vgcst_PVList (vgc_Status vgc') = slice_view (visit rounds i s))
    (DeletePVCsUnderVGC_loop rounds i s true cur driver).
Proof.
  intros Hreuse. revert i s cur. induction rounds as [|rounds IH]; intros i s cur Hwf Hview Hnames;
    cbn [DeletePVCsUnderVGC_loop visit]; [intros ? ?; by simplify_eq|].
  along_step. unfold or_panic. destruct (s_arr s !! i) as [pv|] eqn:Hpv; [|by intros ? ?].
  cbn [along after].
  assert (names_claim pv) as Hpvn by by eapply Forall_lookup_1.
  destruct (names_claim_pvc_of_pv pv driver Hpvn) as [[n ns] ->].
  do 4 along_step. destruct r as [err|]; [by intros ? ?|].
  along_step. eapply along_mono; [apply RemovePVFromVGC_keeps|].
  intros [[[err|] vgc']|] Hkeep; cbn [after]; try (by intros ? ?).
  specialize (Hkeep vgc' eq_refl). rewrite <- Hview in Hkeep.
  destruct (removeFromPVList_slice_ok pv s Hwf) as (Hwf' & Hlen & Hview').
  unfold decode_list. rewrite Hreuse, Hkeep, <- Hview'.
  rewrite slice_view_length by done. rewrite decide_True by done.
  rewrite slice_decode_same by done. apply IH; [done|by rewrite Hview'|].
  apply Forall_forall. intros x Hx. eapply Forall_forall; [exact Hnames|].
  by eapply removeFromPVList_slice_elem.
Qed.

(** Without the list in the array, the array is only read. *)
Lemma DeletePVCsUnderVGC_loop_unshared driver p rounds i s cur :
  p ∈ vgcst_PVList (vgc_Status cur) →
  (∀ j q, i ≤ j → s_arr s !! j = Some q → pv_key q ≠ pv_key p) →
  Forall names_claim (s_arr s) →
  along keeps_list
    (λ out, ∀ vgc', out = Some (None, vgc') → p ∈ vgcst_PVList (vgc_Status vgc'))
    (DeletePVCsUnderVGC_loop rounds i s false cur driver).
Proof.
  revert i cur. induction rounds as [|rounds IH]; intros i cur Hp Hne Hnames;
    cbn [DeletePVCsUnderVGC_loop]; [intros ? ?; by simplify_eq|].
  along_step. unfold or_panic. destruct (s_arr s !! i) as [pv|] eqn:Hpv; [|by intros ? ?].
  cbn [along after].
  assert (names_claim pv) as Hpvn by by eapply Forall_lookup_1.
  destruct (names_claim_pvc_of_pv pv driver Hpvn) as [[n ns] ->].
  do 4 along_step. destruct r as [err|]; [by intros ? ?|].
  along_step. eapply along_mono; [apply RemovePVFromVGC_keeps|].
  intros [[[err|] vgc']|] Hkeep; cbn [after]; try (by intros ? ?).
  apply IH; [|intros j q Hj; apply Hne; lia|done]. rewrite (Hkeep vgc' eq_refl).
  apply removeFromPVList_elem; [done|]. by eapply Hne.
Qed.

Lemma decode_list_ok l s :
  slice_wf s →
  slice_wf (fst (decode_list l s)) ∧ length (s_arr (fst (decode_list l s))) = length (s_arr s).
Proof.
  intros Hwf. unfold decode_list. destruct decode_reuses_array; [|done].
  unfold slice_wf, slice_decode. case_decide as Hl; cbn [fst s_arr s_len].
  - rewrite length_app, length_drop. lia.
  - rewrite length_take. lia.
Qed.

(** The slice of the range is never read out of its array. *)
Lemma DeletePVCsUnderVGC_loop_returns driver rounds i s shared cur :
  slice_wf s → i + rounds ≤ length (s_arr s) →
  triple (λ _, True) returns (DeletePVCsUnderVGC_loop rounds i s shared cur driver).
Proof.
  revert i s shared cur. induction rounds as [|rounds IH]; intros i s shared cur Hwf Hlen;
    cbn [DeletePVCsUnderVGC_loop]; [by eexists|].
  destruct (lookup_lt_is_Some_2 (s_arr s) i) as [pv Hpv]; [lia|]. rewrite Hpv.
  destruct (removeFromPVList_slice_ok pv s Hwf) as (Hwf' & Hcap & _).
  do 3 triple_step. triple_step. triple_step. cbn [after].
  destruct r as [err|[[n ns]|]]; [by eexists| |apply IH; [done|lia]].
  triple_step. triple_step. cbn [after]. destruct r as [err|]; [by eexists|].
  triple_step. triple_step. cbn [after]. destruct r as [[err|] vgc']; [by eexists|].
  destruct shared.
  - pose proof (decode_list_ok (vgcst_PVList (vgc_Status vgc'))
                  (removeFromPVList_slice pv s) Hwf') as [Hwf2 Hcap2].
    destruct (decode_list _ _) as [s2 sh]. cbn in *. apply IH; [done|lia].
  - apply IH; [done|lia].
Qed.

(** In place, the whole loop leaves the survivors. *)
Lemma DeletePVCsUnderVGC_in_place vgc driver :
  decode_reuses_array = true →
  NoDup (pv_key <$> vgcst_PVList (vgc_Status vgc)) →
  Forall names_claim (vgcst_PVList (vgc_Status vgc)) →
  along keeps_list
    (λ out, ∀ vgc', out = Some (None, vgc') →
       vgcst_PVList (vgc_Status vgc') = survivors (vgcst_PVList (vgc_Status vgc)))
    (DeletePVCsUnderVGC vgc driver).
Proof.
  intros Hreuse Hnd Hnames. unfold DeletePVCsUnderVGC.
  set (l := vgcst_PVList (vgc_Status vgc)) in *.
  eapply along_mono; [apply (DeletePVCsUnderVGC_loop_visit driver (length l) 0 (slice_of l) vgc
                Hreuse (slice_of_wf l) (slice_of_view l) Hnames)|].
  intros out Hout vgc' Heq. rewrite (Hout vgc' Heq).
  destruct (last l) as [z|] eqn:Hlast; [|by apply last_None in Hlast as ->].
  pose proof (visit_survivors l [] z 0 (length l) Hnd Hlast) as Hv.
  cbn in Hv. rewrite app_nil_r in Hv. apply Hv. lia.
Qed.

Lemma last_elem (l : list PersistentVolume) z : last l = Some z → z ∈ l.
Proof. rewrite last_Some. intros [l' ->]. apply elem_of_app. right. by left. Qed.

(** Elsewhere, the first round moves the second volume out of reach. *)
Lemma DeletePVCsUnderVGC_elsewhere vgc driver v0 v1 v2 rest :
  decode_reuses_array = false →
  vgcst_PVList (vgc_Status vgc) = v0 :: v1 :: v2 :: rest →
  NoDup (pv_key <$> v0 :: v1 :: v2 :: rest) →
  Forall names_claim (v0 :: v1 :: v2 :: rest) →
  along keeps_list
    (λ out, ∀ vgc', out = Some (None, vgc') → v1 ∈ vgcst_PVList (vgc_Status vgc'))
    (DeletePVCsUnderVGC vgc driver).
Proof.
  intros Hreuse Hl Hnd Hnames. unfold DeletePVCsUnderVGC. rewrite Hl.
  set (l := v0 :: v1 :: v2 :: rest) in *.
  destruct (last (v2 :: rest)) as [z|] eqn:Hlast; [|by apply last_None in Hlast].
  assert (removeFromPVList_slice v0 (slice_of l) =
          mk_slice ((v1 :: v2 :: rest) ++ [z]) (length (v1 :: v2 :: rest))) as Hrem.
  { pose proof (remove_slice_at [] v0 (v1 :: v2 :: rest) z 0) as Hr. cbn in Hr.
    rewrite app_nil_r in Hr. apply Hr; [apply not_elem_of_nil|exact Hlast]. }
  assert (v1 ∈ removeFromPVList v0 l) as Hin.
  { apply removeFromPVList_elem; [right; by left|]. intros Heq.
    apply (NoDup_cons_1_1 _ _ Hnd). rewrite Heq. by left. }
  change (length l) with (S (length (v1 :: v2 :: rest))).
  cbn [DeletePVCsUnderVGC_loop slice_of s_arr]. change (l !! 0) with (Some v0). along_step. unfold or_panic. cbn [along after].
  destruct (names_claim_pvc_of_pv v0 driver) as [[n ns] ->].
  { by apply (Forall_cons_1 _ _ _ Hnames). }
  do 4 along_step. destruct r as [err|]; [by intros ? ?|].
  along_step. eapply along_mono; [apply RemovePVFromVGC_keeps|].
  intros [[[err|] vgc']|] Hkeep; cbn [after]; try (by intros ? ?).
  specialize (Hkeep vgc' eq_refl). rewrite Hl in Hkeep. fold l in Hkeep.
  unfold decode_list. rewrite Hreuse, Hrem.
  apply DeletePVCsUnderVGC_loop_unshared; [by rewrite Hkeep| |].
  - intros j q Hj Hq Heq. apply (NoDup_cons_1_2 _ _) in Hnd.
    apply (NoDup_cons_1_1 _ _ Hnd). rewrite <- Heq.
    change (pv_key q ∈ pv_key <$> v2 :: rest). apply list_elem_of_fmap_2.
    destruct j as [|j]; [lia|]. change (((v2 :: rest) ++ [z]) !! j = Some q) in Hq.
    apply list_elem_of_lookup_2, elem_of_app in Hq as [Hq|Hq];
      [done|]. apply list_elem_of_singleton in Hq as ->. by apply last_elem.
  - apply Forall_cons_1 in Hnames as [_ Hnames]. apply Forall_app. split; [done|].
    apply Forall_singleton. eapply Forall_forall; [exact Hnames|]. right. by apply last_elem.
Qed.

(** ** The properties *)

Lemma DeletePVCsUnderVGC_returns vgc driver :
  triple (λ _, True) returns (DeletePVCsUnderVGC vgc driver).
Proof.
  unfold DeletePVCsUnderVGC. apply DeletePVCsUnderVGC_loop_returns; [apply slice_of_wf|cbn; lia].
Qed.

(** C11: the loop over the volumes of a content being deleted always returns: it
    terminates and never reads outside the array it ranges over, whatever the
    cluster answers and although the array changes under it. *)
Theorem DeletePVCsUnderVGC_total vgc driver :
  ensures (DeletePVCsUnderVGC vgc driver) (λ tr out, is_Some out).
Proof.
  intros tr out Hex. by eapply triple_sound; [apply DeletePVCsUnderVGC_returns|].
Qed.

(** C12: when every step succeeds and the answers are decoded in place, the loop
    leaves [survivors] in the content: of the volumes v0, v1, ..., those at odd
    positions are skipped, the last one excepted.  Their claims are not
    deleted, and the volumes stay listed in the content. *)
Theorem DeletePVCsUnderVGC_survivors vgc driver tr vgc' :
  decode_reuses_array = true →
  NoDup (pv_key <$> vgcst_PVList (vgc_Status vgc)) →
  Forall names_claim (vgcst_PVList (vgc_Status vgc)) →
  executes (DeletePVCsUnderVGC vgc driver) tr (Some (None, vgc')) →
  Forall (λ e, keeps_list (tr_call e) (tr_resp e)) tr →
  vgcst_PVList (vgc_Status vgc') = survivors (vgcst_PVList (vgc_Status vgc)).
Proof.
  intros Hreuse Hnd Hnames Hex Htr.
  by apply (along_sound _ _ _ _ _ (DeletePVCsUnderVGC_in_place vgc driver Hreuse Hnd Hnames)
              Hex Htr).
Qed.

(** Whether or not the answers are decoded in place, the second of three or
    more volumes is still listed in the content when the loop has succeeded. *)
Theorem DeletePVCsUnderVGC_skips_second vgc driver tr vgc' v0 v1 v2 rest :
  vgcst_PVList (vgc_Status vgc) = v0 :: v1 :: v2 :: rest →
  NoDup (pv_key <$> v0 :: v1 :: v2 :: rest) →
  Forall names_claim (v0 :: v1 :: v2 :: rest) →
  executes (DeletePVCsUnderVGC vgc driver) tr (Some (None, vgc')) →
  Forall (λ e, keeps_list (tr_call e) (tr_resp e)) tr →
  v1 ∈ vgcst_PVList (vgc_Status vgc').
Proof.
  intros Hl Hnd Hnames Hex Htr. destruct decode_reuses_array eqn:Hreuse.
  - rewrite <- Hl in Hnd, Hnames.
    rewrite (along_sound _ _ _ _ _ (DeletePVCsUnderVGC_in_place vgc driver Hreuse Hnd Hnames)
              Hex Htr vgc' eq_refl), Hl. by left.
  - by apply (along_sound _ _ _ _ _
                (DeletePVCsUnderVGC_elsewhere vgc driver v0 v1 v2 rest Hreuse Hl Hnd Hnames)
                Hex Htr).
Qed.
End Loop.

(** ** The loop on the content of a deleted VolumeGroup *)

#[local] Existing Instance DocExternals.externals.
#[local] Existing Instance DocExternals.laws.

Definition deleted_content : VolumeGroupContent := Scenario.content_in Scenario.vg_deleted.

Abbreviation delete_loop := (DeletePVCsUnderVGC deleted_content Samples.DriverName).

Definition content_left : VolumeGroupContent :=
  match run_outcome serve delete_loop Scenario.vg_deleted with
  | Some (_, vgc) => vgc
  | None => deleted_content
  end.

Lemma delete_loop_run :
  executes delete_loop (run_trace serve delete_loop Scenario.vg_deleted) (Some (None, content_left)).
Proof.
  pose proof (run_executes serve delete_loop Scenario.vg_deleted) as Hex.
  assert (run_outcome serve delete_loop Scenario.vg_deleted = Some (None, content_left)) as Hout
    by (vm_compute; reflexivity).
  by rewrite Hout in Hex.
Qed.

Lemma delete_loop_keeps :
  Forall (λ e, keeps_list (tr_call e) (tr_resp e))
    (run_trace serve delete_loop Scenario.vg_deleted).
Proof. by apply (bool_decide_unpack _); vm_compute. Qed.

Lemma deleted_content_ok :
  NoDup (pv_key <$> vgcst_PVList (vgc_Status deleted_content)) ∧
  Forall names_claim (vgcst_PVList (vgc_Status deleted_content)).
Proof.
  split; [by apply (bool_decide_unpack _); vm_compute|].
  vm_compute. repeat (apply Forall_cons; split; [by eexists|]). apply Forall_nil. exact I.
Qed.

Lemma DeletePVCsUnderVGC_total_witness :
  is_Some (run_outcome serve delete_loop Scenario.vg_deleted).
Proof.
  exact (DeletePVCsUnderVGC_total _ _ _ _ (run_executes serve delete_loop Scenario.vg_deleted)).
Defined.

(** Three volumes: one of them, and its claim, survive. *)
Lemma DeletePVCsUnderVGC_survivors_witness :
  length (vgcst_PVList (vgc_Status deleted_content)) = 3 ∧
  vgcst_PVList (vgc_Status content_left) =
    survivors (vgcst_PVList (vgc_Status deleted_content)) ∧
  length (vgcst_PVList (vgc_Status content_left)) = 1 ∧
  length (Scenario.claims Scenario.released) = 1.
Proof.
  split; [by vm_compute|]. split.
  - apply (DeletePVCsUnderVGC_survivors deleted_content Samples.DriverName
             (run_trace serve delete_loop Scenario.vg_deleted)); first reflexivity;
      [apply deleted_content_ok..|apply delete_loop_run|apply delete_loop_keeps].
  - split; by vm_compute.
Defined.

Lemma DeletePVCsUnderVGC_skips_second_witness :
  ∃ v0 v1 v2, vgcst_PVList (vgc_Status deleted_content) = [v0; v1; v2] ∧
              v1 ∈ vgcst_PVList (vgc_Status content_left).
Proof.
  destruct deleted_content_ok as [Hnd Hnames].
  destruct (vgcst_PVList (vgc_Status deleted_content)) as [|v0 [|v1 [|v2 [|]]]] eqn:Hl;
    try (apply (f_equal length) in Hl; vm_compute in Hl; discriminate Hl).
  exists v0, v1, v2. split; [done|].
  apply (DeletePVCsUnderVGC_skips_second deleted_content Samples.DriverName
           (run_trace serve delete_loop Scenario.vg_deleted) content_left v0 v1 v2 [] Hl Hnd Hnames
           delete_loop_run delete_loop_keeps).
Defined.
