(* ===== verification/VGCProgress.v ===== *)
(** * Progress of the VolumeGroupContent controller

    When [Reconcile] cannot panic, what it has done when it reports success,
    and what it leaves to other operators. *)

From S2P Require Import Prelude GoLang Api Effects Externals Objects Params VolumeGroups Volumes.
From S2P Require Import Finalizers Driver VolumeGroupContents Membership VGController.
From S2P Require Import VGCController Histories Cluster Scenario ClaimDeletion.
Import VGCController.

Section Progress.
Context `{ExternalLaws} (cfg : DriverConfig) (req : NamespacedName).

(** ** Well-formed answers *)

(** A content that names its class, its deletion policy and its source. *)
Definition complete (vgc : VolumeGroupContent) : Prop :=
  is_Some (vgcspec_VolumeGroupClassName (vgc_Spec vgc)) ∧
  is_Some (vgcspec_VolumeGroupDeletionPolicy (vgc_Spec vgc)) ∧
  is_Some (vgcspec_Source (vgc_Spec vgc)).

(** The contents the API server answers with are complete, and the driver's
    answer to a creation carries a group. *)
Definition vgc_answer_ok (c : call) : resp c → Prop :=
  match c with
  | CGet K _ | CUpdate K _ | CStatusUpdate K _ =>
      match K return error + obj_of K → Prop with
      | KVGC => answered complete
      | _ => λ _, True
      end
  | CCreateVolumeGroup _ _ _ => answered (λ a, is_Some (cvgr_VolumeGroup a))
  | _ => λ _, True
  end.

Definition answers_ok (tr : history) : Prop :=
  Forall (λ e, vgc_answer_ok (tr_call e) (tr_resp e)) tr.

Lemma update_answer_complete tr o v :
  answers_ok tr → Ev (CUpdate KVGC o) (inr v) ∈ tr → complete v.
Proof. unfold answers_ok. rewrite Forall_forall. intros Hok Hin. by apply (Hok _ Hin). Qed.

Lemma status_answer_complete tr v : answers_ok tr → vgc_status_answer tr v → complete v.
Proof.
  unfold answers_ok. rewrite Forall_forall. intros Hok [o Hin]. by apply (Hok _ Hin).
Qed.

Abbreviation Returns := (along vgc_answer_ok returns).

Lemma removeVGC_returns vgc secret : complete vgc → Returns (removeVGC vgc secret).
Proof.
  intros (_ & [policy Hp] & [src Hs]). unfold removeVGC. rewrite Hp, Hs. returning.
Qed.

(** The content is complete after the loop over its volumes. *)
Lemma DeletePVCsUnderVGC_complete vgc driver :
  complete vgc →
  along vgc_answer_ok (after (λ r, fst r = None → complete (snd r)) False)
    (DeletePVCsUnderVGC vgc driver).
Proof.
  intros Hc. eapply (along_use _ _ returns).
  - apply DeletePVCsUnderVGC_returns.
  - apply DeletePVCsUnderVGC_history.
  - intros tr o Htr [[err vgc'] ->] Hh. cbn. intros ->.
    destruct (Hh vgc' eq_refl) as [->|Hans]; [done|by eapply status_answer_complete].
Qed.

Lemma handleVGCWithDeletionTimestamp_returns vgc secret :
  complete vgc → Returns (handleVGCWithDeletionTimestamp cfg vgc secret).
Proof.
  intros Hc. unfold handleVGCWithDeletionTimestamp, IsVgExist. autorewrite with reflect.
  assert (∀ cur, complete cur → Returns
    ('(err, vgc) ← removeVGC cur secret;
     match err with Some err => mret (Some err, vgc) | None => mret (None, vgc) end)) as Hrem.
  { intros cur Hcur. along_step. eapply along_mono; [by apply removeVGC_returns|].
    intros ? [[[e|] v] ->]; by eexists. }
  repeat first
    [ match goal with |- along _ _ (DeletePVCsUnderVGC _ _) =>
        eapply along_mono; [by apply DeletePVCsUnderVGC_complete|]; intros [[[?|] ?]|] Hcur
      end
    | match goal with |- Returns (_ ← removeVGC _ _; _) => apply Hrem; auto end
    | along_step | done | by eexists ].
Qed.

Lemma AddFinalizerToVGC_complete vgc :
  complete vgc →
  along vgc_answer_ok (after (λ r, fst r = None → complete (snd r)) False) (AddFinalizerToVGC vgc).
Proof.
  intros Hc. eapply (along_use _ _ returns); [typeclasses eauto|apply AddFinalizerToVGC_history|].
  intros tr o Htr [[err vgc'] ->] Hh. cbn. intros ->.
  destruct (Hh vgc' eq_refl) as [[-> _]|(u & Hu & _)]; [done|by eapply update_answer_complete].
Qed.

Lemma handleStaticProvisionedVGC_complete vgc :
  complete vgc →
  along vgc_answer_ok
    (after (λ '(_, static, vgc'), static = false → complete vgc') False)
    (handleStaticProvisionedVGC vgc).
Proof.
  intros (Hcl & Hp & [src Hsrc]). unfold handleStaticProvisionedVGC, updateStaticVGC,
    updateStaticVGCSpec_controller. autorewrite with reflect. rewrite Hsrc.
  destruct Hcl as [cn Hcn]. rewrite Hcn. returning.
  all: cbn; intros _; unfold complete; rewrite Hcn, Hsrc; by eauto.
Qed.

(** The driver's answer, or its error. *)
Lemma request_Create_answer p :
  along vgc_answer_ok
    (after (λ r, Response_Error r = None →
                 ∃ a g, Response_Response r = Some a ∧ cvgr_VolumeGroup a = Some g) False)
    (request_Create p).
Proof.
  unfold request_Create, CreateVolumeGroup. along_step. intros [e|a] Ha; [done|].
  cbn. intros _. destruct (Ha a eq_refl) as [g Hg]. eauto.
Qed.

Lemma UpdateVGCByResponse_returns vgc r a g :
  complete vgc → Response_Response r = Some a → cvgr_VolumeGroup a = Some g →
  Returns (UpdateVGCByResponse vgc r).
Proof.
  intros (_ & _ & [src Hsrc]) Hr Hg. unfold UpdateVGCByResponse. rewrite Hr.
  repeat first [progress rewrite ?Hg, ?Hsrc|along_step]; by eexists.
Qed.

Lemma handleCreateVG_returns vgc cl secret : complete vgc → Returns (handleCreateVG vgc cl secret).
Proof.
  intros Hc. unfold handleCreateVG, createVG_request. do 2 along_step. along_step.
  eapply along_mono; [apply request_Create_answer|]. intros [resp|] Hresp; [|done]. cbn [after].
  cbn in Hresp. destruct (Response_Error resp); [by eexists|].
  destruct (Hresp eq_refl) as (a & g & Ha & Hg). along_step.
  eapply along_mono; [by eapply UpdateVGCByResponse_returns|].
  intros ? [[err cur] ->]. cbn [after]. returning.
Qed.

Lemma Reconcile_class_returns vgc cl : complete vgc → Returns (Reconcile_class cfg vgc cl).
Proof.
  intros Hc. unfold Reconcile_class.
  repeat first
    [ match goal with
      | |- along _ _ (AddFinalizerToVGC _) =>
          eapply along_mono; [by apply AddFinalizerToVGC_complete|]; intros [[[?|] cur]|] Hcur;
          cbn in Hcur
      | |- along _ _ (handleStaticProvisionedVGC _) =>
          eapply along_mono; [apply handleStaticProvisionedVGC_complete; auto|];
          intros [[[? []] cur']|] Hst; cbn in Hst
      | |- along _ _ (handleCreateVG _ _ _) =>
          eapply along_mono; [apply handleCreateVG_returns; auto|]; intros ? [[[?|] ?] ->]
      | |- along _ _ (handleVGCWithDeletionTimestamp _ _ _) =>
          eapply along_mono; [by apply handleVGCWithDeletionTimestamp_returns|];
          intros ? [[[?|] ?] ->]
      end
    | along_step | done | by eexists ].
Qed.

(** ** Reading the start of a run *)

(** The content is read, then its class; the rest is [Reconcile_class]. *)
Lemma vgc_reads tr out :
  executes (Reconcile cfg req) tr out →
  ∃ r tr1, tr = Ev (CGet KVGC req) r :: tr1 ∧
    match r with
    | inl e =>
        tr1 = [] ∧ out = if IsNotFound e then Some (Result_zero, None) else None
    | inr vgc =>
        let cn := or_empty (vgcspec_VolumeGroupClassName (vgc_Spec vgc)) in
        if decide (cn = "")%string then is_Some out
        else
          ∃ r2 tr2, tr1 = Ev (CGet KVGClass (mkNN "" cn)) r2 :: tr2 ∧
            match r2 with
            | inl e => ∃ e', out = Some (Result_zero, Some e')
            | inr cl =>
                if decide (DriverName cfg ≠ vgclass_Driver cl)
                then tr2 = [] ∧ out = Some (Result_zero, None)
                else executes (Reconcile_class cfg vgc cl) tr2 out
            end
    end.
Proof.
  unfold Reconcile, GetVGC. intros (r & tr1 & -> & Hex)%executes_trigger_inv.
  assert (mkNN (nn_Namespace req) (nn_Name req) = req) as -> by by destruct req.
  exists r, tr1. split; [done|]. destruct r as [e|vgc].
  { destruct (IsNotFound e); [by apply executes_ret_inv|].
    by apply (executes_inv (Panic nil_deref)). }
  rewrite GetStringField_vgc_class in Hex. cbn zeta. set (cn := or_empty _) in *.
  cbn [or_panic mbind prog_bind] in Hex.
  unfold GetVGClass in Hex. destruct (decide (cn = "")%string) as [Hcn|Hcn].
  { enough (triple (λ _, True) returns
      (err ← UpdateThinVGC (GetNamespace KVGC vgc) (GetName KVGC vgc);
       match err with
       | Some err => mret (Result_zero, Some err)
       | None =>
           now ← GetCurrentTime;
           '(err, vgc) ← UpdateVGCStatus vgc (Some now) false;
           match err with
           | Some err => mret (Result_zero, Some err)
           | None => mret (Result_zero, None)
           end
       end)) as Ht by by eapply triple_sound.
    solve_triple. }
  apply executes_trigger_inv in Hex as (r2 & tr2 & -> & Hex). exists r2, tr2. split; [done|].
  destruct r2 as [e|cl].
  - enough (triple (λ _, True) (after (λ r, ∃ e', r = (Result_zero, Some e')) False)
      (err ← HandleVGCErrorMessage (Some vgc) (Some e) VGCSettings.vgcReconcile;
       mret (Result_zero, err))) as Ht.
    { eapply triple_sound in Ht as [Ho _]; [|exact Hex]. destruct out as [r|]; [|done].
      destruct Ho as [e' ->]. by exists e'. }
    solve_triple. destruct Hr as [e' ->]. by exists e'.
  - case_decide; [by apply executes_ret_inv in Hex|done].
Qed.

(** ** What a success means *)

(** The status of a content was set to ready. *)
Definition status_ready (tr : history) : Prop :=
  ∃ o v, Ev (CStatusUpdate KVGC o) (inr v) ∈ tr ∧ vgcst_Ready (vgc_Status o) = Some true.

(** The driver made the group and its identifier was stored in the content. *)
Definition group_stored (tr : history) (name : string) : Prop :=
  ∃ secrets parameters a g o v src,
    Ev (CCreateVolumeGroup name secrets parameters) (inr a) ∈ tr ∧ cvgr_VolumeGroup a = Some g ∧
    Ev (CUpdate KVGC o) (inr v) ∈ tr ∧ vgcspec_Source (vgc_Spec o) = Some src ∧
    vgcsrc_VolumeGroupHandle src = csi_VolumeGroupId g ∧
    vgcsrc_VolumeGroupAttributes src = csi_VolumeGroupContext g.

(** The content has a handle already. *)
Definition static_content (vgc : VolumeGroupContent) : Prop :=
  ∃ src, vgcspec_Source (vgc_Spec vgc) = Some src ∧ vgcsrc_VolumeGroupHandle src ≠ ""%string.

(** The content with the operator's finalizer: as it was, or as the server
    answered it. *)
Definition held (tr : history) (vgc cur : VolumeGroupContent) : Prop :=
  (cur = vgc ∧ VgcFinalizer ∈ GetFinalizers KVGC vgc) ∨
  finalizers_written KVGC (GetFinalizers KVGC vgc ++ [VgcFinalizer]) tr cur.

Lemma UpdateVGCStatus_ready vgc t tr0 :
  wp (λ _ _, True) (λ tr out, ∀ v, out = Some (None, v) → status_ready tr)
    (UpdateVGCStatus vgc t true) tr0.
Proof.
  unfold UpdateVGCStatus, UpdateObjectStatus. repeat wp_step; intros v Heq; simplify_eq.
  do 2 eexists. split; [solve_event|done].
Qed.

Lemma handleCreateVG_success vgc cl secret :
  ensures (handleCreateVG vgc cl secret)
    (λ tr out, ∀ v, out = Some (None, v) →
       status_ready tr ∧ group_stored tr (GetName KVGC vgc)).
Proof.
  apply wp_ensures.
  unfold handleCreateVG, createVG_request, request_Create, CreateVolumeGroup, UpdateVGCByResponse,
    UpdateObject.
  repeat first
    [ match goal with |- wp _ _ (UpdateVGCStatus _ _ _) _ =>
        eapply wp_mono; [apply UpdateVGCStatus_ready|]; intros ? [[[?|] ?]|] Hready; cbn [after]
      end
    | wp_step ]; intros out Heq; simplify_eq/=; try by (destruct (is_Some_None Hr1)).
  split; [by eapply Hready|]. repeat eexists; [solve_event|eassumption|solve_event|..]; done.
Qed.

Lemma handleStaticProvisionedVGC_success vgc :
  ensures (handleStaticProvisionedVGC vgc)
    (λ tr out, ∀ err static v, out = Some (err, static, v) →
       (static = false → v = vgc) ∧
       (static = true → err = None → status_ready tr ∧ static_content vgc)).
Proof.
  apply wp_ensures. unfold handleStaticProvisionedVGC, updateStaticVGC.
  autorewrite with reflect.
  repeat first
    [ match goal with |- wp _ _ (UpdateVGCStatus _ _ _) _ =>
        eapply wp_mono; [apply UpdateVGCStatus_ready|]; intros ? [[[?|] ?]|] Hready; cbn [after]
      end
    | wp_step ]; intros err static out Heq; simplify_eq/=; (split; [done|]); intros ? ?; simplify_eq.
  split; [by eapply Hready|]. by eexists.
Qed.

(** What a history tells, a longer one tells. *)
Lemma status_ready_mono tr tr' : status_ready tr → tr ⊆ tr' → status_ready tr'.
Proof. intros (o & v & Hin & Hr) Hsub. exists o, v. auto. Qed.

Lemma group_stored_mono tr tr' name : group_stored tr name → tr ⊆ tr' → group_stored tr' name.
Proof.
  intros (s & ps & a & g & o & v & src & H1 & H2 & H3 & H4) Hsub.
  exists s, ps, a, g, o, v, src. split_all; auto; tauto.
Qed.

Lemma held_mono tr tr' vgc cur : held tr vgc cur → tr ⊆ tr' → held tr' vgc cur.
Proof. intros [?|Hw] Hsub; [by left|right]. by eapply finalizers_written_mono. Qed.

Definition success_ready (vgc : VolumeGroupContent) (tr : history) : Prop :=
  status_ready tr ∧
  ∃ cur, held tr vgc cur ∧ (static_content cur ∨ group_stored tr (GetName KVGC cur)).

Lemma vgc_class_success vgc cl :
  om_DeletionTimestamp (vgc_ObjectMeta vgc) = None →
  ensures (Reconcile_class cfg vgc cl)
    (λ tr out, out = Some (Result_zero, None) → success_ready vgc tr).
Proof.
  intros Hd. apply wp_ensures. unfold Reconcile_class. rewrite Hd. cbn [IsZero].
  do 3 wp_step; [repeat wp_step; done|]. do 3 wp_step; [repeat wp_step; naive_solver|].
  wp_step. wp_with AddFinalizerToVGC_history. intros tr1 [[[e|] cur]|] _ Hcur; cbn [after];
    [repeat wp_step; naive_solver| |done].
  wp_step. wp_with handleStaticProvisionedVGC_success.
  intros tr2 [[[err static] cur']|] _ Hst; cbn [after]; [|done].
  destruct (Hst _ _ _ eq_refl) as [Hdyn Hstatic]. clear Hst.
  destruct static.
  - unfold mret, prog_ret. cbn [wp]. intros Heq. simplify_eq.
    destruct (Hstatic eq_refl eq_refl) as [Hready Hs].
    split; [eapply status_ready_mono; [done|sub_history]|].
    exists cur. split; [eapply held_mono; [by apply Hcur|sub_history]|by left].
  - rewrite (Hdyn eq_refl). wp_step. eapply wp_execs; [done|].
    intros tr3 out Hex. pose proof (handleCreateVG_success _ _ _ _ _ Hex) as Hs.
    destruct out as [[[e|] v]|]; cbn [after]; [repeat wp_step; naive_solver| |done].
    destruct (Hs v eq_refl) as [Hready Hstored].
    repeat wp_step; [naive_solver..|]. intros _. split.
    + eapply status_ready_mono; [done|sub_history].
    + exists cur. split; [eapply held_mono; [by apply Hcur|sub_history]|right].
      eapply group_stored_mono; [done|sub_history].
Qed.

(** The content was let go: its group deleted first, if its policy says so, and
    the operator's finalizer taken off. *)
Definition let_go (tr : history) (vgc : VolumeGroupContent) : Prop :=
  ∃ cur policy, current tr vgc cur ∧
    vgcspec_VolumeGroupDeletionPolicy (vgc_Spec cur) = Some policy ∧
    (policy = VolumeGroupContentDelete →
       ∃ src s, vgcspec_Source (vgc_Spec cur) = Some src ∧
                Ev (CDeleteVolumeGroup (vgcsrc_VolumeGroupHandle src) s) None ∈ tr) ∧
    (VgcFinalizer ∉ GetFinalizers KVGC cur ∨
     ∃ v, finalizers_written KVGC (Remove (GetFinalizers KVGC cur) VgcFinalizer) tr v).

Lemma removeVGC_success vgc secret :
  ensures (removeVGC vgc secret) (λ tr out, ∀ v, out = Some (None, v) → let_go tr vgc).
Proof.
  apply wp_ensures. unfold removeVGC, deleteVG, request_Delete, DeleteVolumeGroup.
  repeat first
    [ match goal with |- wp _ _ (RemoveFinalizerFromVGC _) _ =>
        wp_with RemoveFinalizerFromVGC_history; intros ? [[[?|] ?]|] _ Hrem; cbn [after]
      end
    | wp_step ]; intros v' Heq; simplify_eq/=.
  all: exists vgc; eexists; split; [by left|]; split; [done|]; split.
  all: try by intros; simplify_eq.
  - intros _. do 2 eexists. split; [done|by left].
  - destruct (Hrem _ eq_refl) as [[_ ?]|Hw]; [by left|right]. eexists.
    eapply finalizers_written_mono; [done|sub_history].
  - destruct (Hrem _ eq_refl) as [[_ ?]|Hw]; [by left|right]. eexists.
    eapply finalizers_written_mono; [done|sub_history].
Qed.

Lemma let_go_mono tr tr' vgc cur :
  current tr' vgc cur → let_go tr cur → tr ⊆ tr' → let_go tr' vgc.
Proof.
  intros Hcur (c & p & Hc & Hp & Hd & Hf) Hsub. exists c, p. split.
  { destruct Hc as [->|[o Ho]]; [done|right]. exists o. auto. }
  split; [done|]. split.
  - intros Hpol. destruct (Hd Hpol) as (src & s & ? & ?). eauto.
  - destruct Hf as [?|[v Hv]]; [by left|right]. exists v. by eapply finalizers_written_mono.
Qed.

Lemma current_mono tr tr' vgc cur : current tr vgc cur → tr ⊆ tr' → current tr' vgc cur.
Proof. intros [->|[o Ho]] Hsub; [by left|right]. exists o. auto. Qed.

Lemma handleVGCWithDeletionTimestamp_success vgc secret :
  VgcFinalizer ∈ GetFinalizers KVGC vgc →
  (∀ f, f ∈ GetFinalizers KVGC vgc → str_Contains f VGFinalizer = true) →
  ensures (handleVGCWithDeletionTimestamp cfg vgc secret)
    (λ tr out, ∀ v, out = Some (None, v) → let_go tr vgc).
Proof.
  intros Hown Hother. apply wp_ensures. unfold handleVGCWithDeletionTimestamp.
  do 2 wp_step. destruct r as [e|[]]; [repeat wp_step; naive_solver..|].
  assert (Contains (GetFinalizers KVGC vgc) VgcFinalizer &&
          negb (IsContainOtherFinalizers KVGC vgc) = true) as ->.
  { apply andb_true_iff. split; [by apply Contains_spec|].
    by rewrite (proj2 (IsContainOtherFinalizers_false KVGC vgc) Hother). }
  assert (∀ tr0 cur, current tr0 vgc cur →
    wp (λ _ _, True) (λ tr out, ∀ v, out = Some (None, v) → let_go tr vgc)
      ('(err, vgc) ← removeVGC cur secret;
       match err with Some err => mret (Some err, vgc) | None => mret (None, vgc) end) tr0) as Hrem.
  { intros tr0 cur Hcur. wp_step. eapply wp_execs; [done|]. intros tr1 o Hex.
    pose proof (removeVGC_success _ _ _ _ Hex) as Hs.
    destruct o as [[[e|] v]|]; cbn [after]; repeat wp_step; [naive_solver| |done].
    intros ? _. eapply let_go_mono; [|by eapply Hs|sub_history].
    eapply current_mono; [done|sub_history]. }
  wp_step. wp_step.
  - wp_with DeletePVCsUnderVGC_history. intros tr1 [[[err|] cur]|] _ Hcur; cbn [after];
      [repeat wp_step; naive_solver| |done].
    apply Hrem. destruct (Hcur cur eq_refl) as [->|Hans]; [by left|right].
    by apply vgc_status_answer_app_r.
  - wp_step. wp_step. apply Hrem. by left.
Qed.

Lemma vgc_class_let_go vgc cl :
  is_Some (om_DeletionTimestamp (vgc_ObjectMeta vgc)) →
  VgcFinalizer ∈ GetFinalizers KVGC vgc →
  (∀ f, f ∈ GetFinalizers KVGC vgc → str_Contains f VGFinalizer = true) →
  ensures (Reconcile_class cfg vgc cl) (λ tr out, out = Some (Result_zero, None) → let_go tr vgc).
Proof.
  intros [t Hd] Hown Hother. apply wp_ensures. unfold Reconcile_class. rewrite Hd. cbn [IsZero].
  do 3 wp_step; [repeat wp_step; done|]. do 3 wp_step; [repeat wp_step; naive_solver|].
  wp_step. eapply wp_execs; [done|]. intros tr1 out Hex.
  pose proof (handleVGCWithDeletionTimestamp_success _ _ Hown Hother _ _ Hex) as Hs.
  destruct out as [[[err|] v]|]; cbn [after]; [repeat wp_step; naive_solver| |done].
  repeat wp_step. intros _. eapply let_go_mono; [by left|by eapply Hs|sub_history].
Qed.

(** From a run of [Reconcile] to a run of its end. *)
Lemma vgc_to_class vgc k cl rest out :
  executes (Reconcile cfg req)
    (Ev (CGet KVGC req) (inr vgc) :: Ev (CGet KVGClass k) (inr cl) :: rest) out →
  or_empty (vgcspec_VolumeGroupClassName (vgc_Spec vgc)) ≠ ""%string →
  if decide (DriverName cfg ≠ vgclass_Driver cl)
  then rest = [] ∧ out = Some (Result_zero, None)
  else executes (Reconcile_class cfg vgc cl) rest out.
Proof.
  intros (r & tr1 & Heq & Hrest)%vgc_reads Hcn. apply cons_event_inj in Heq as [Heq <-].
  apply (get_event_inj KVGC) in Heq as <-. cbn zeta in Hrest. rewrite decide_False in Hrest by done.
  destruct Hrest as (r2 & tr2 & Heq & Hrest). apply cons_event_inj in Heq as [Heq <-].
  by apply (get_event_inj KVGClass) in Heq as <-.
Qed.

(** An answer of the driver that accepts a creation. *)
Definition creation_accepted (e : event) : bool :=
  match tr_call e as c return resp c → bool with
  | CCreateVolumeGroup _ _ _ => λ r, match r with inl _ => false | inr _ => true end
  | _ => λ _, false
  end (tr_resp e).

(** ** The properties *)

(** C25: [Reconcile] of a content always returns when the first read answers with
    the content or says it does not exist, and either the content is thin (it
    names no class), or the contents answered are complete and the driver
    answers a creation with a group.  Nothing is asked of the other answers:
    errors and conflicts of every call, any claims and volumes, any parameters. *)
Theorem vgc_reconcile_returns tr out :
  executes (Reconcile cfg req) tr out →
  (∀ e, first_is tr (Ev (CGet KVGC req) (inl e)) → IsNotFound e = true) →
  answers_ok tr ∨
  (∃ vgc, first_is tr (Ev (CGet KVGC req) (inr vgc)) ∧
          or_empty (vgcspec_VolumeGroupClassName (vgc_Spec vgc)) = ""%string) →
  is_Some out.
Proof.
  intros (r & tr1 & -> & Hrest)%vgc_reads Hget Hok. destruct r as [e|vgc].
  - destruct Hrest as [_ ->]. by rewrite (Hget e eq_refl).
  - cbn zeta in Hrest. case_decide as Hcn; [done|].
    destruct Hrest as (r2 & tr2 & -> & Hrest). destruct r2 as [e|cl]; [naive_solver|].
    case_decide; [naive_solver|]. destruct Hok as [Hok|(vgc' & Hf & Hcn')].
    + apply Forall_cons in Hok as [Hvgc [_ Hok]%Forall_cons].
      eapply along_sound; [|exact Hrest|exact Hok].
      apply Reconcile_class_returns. by apply Hvgc.
    + apply (first_get_inj KVGC _ req req vgc) in Hf as <-; done.
Qed.

(** C28: when [Reconcile] reports success on a content that is not being deleted and
    names a class, and this class is of the operator's driver, the content has the
    operator's finalizer, its status was set to ready, and it either had a handle
    already or the driver made a group for it, whose identifier and attributes were
    stored in it. *)
Theorem vgc_success_ready tr vgc k cl rest :
  executes (Reconcile cfg req) tr (Some (Result_zero, None)) →
  tr = Ev (CGet KVGC req) (inr vgc) :: Ev (CGet KVGClass k) (inr cl) :: rest →
  or_empty (vgcspec_VolumeGroupClassName (vgc_Spec vgc)) ≠ ""%string →
  vgclass_Driver cl = DriverName cfg →
  om_DeletionTimestamp (vgc_ObjectMeta vgc) = None →
  success_ready vgc tr.
Proof.
  intros Hex -> Hcn Hdr Hd. apply vgc_to_class in Hex; [|done].
  rewrite decide_False in Hex by congruence.
  destruct (vgc_class_success _ _ Hd _ _ Hex eq_refl) as [Hready (cur & Hheld & Hg)].
  split; [eapply status_ready_mono; [done|sub_history]|].
  exists cur. split; [eapply held_mono; [done|sub_history]|].
  destruct Hg as [?|?]; [by left|right]. eapply group_stored_mono; [done|sub_history].
Qed.

(** When [Reconcile] reports success on a content of the operator's class that
    is being deleted and that only the operator holds, the content has been let
    go: its group deleted, if its policy says so, and the finalizer taken off. *)
Theorem vgc_success_let_go tr vgc k cl rest :
  executes (Reconcile cfg req) tr (Some (Result_zero, None)) →
  tr = Ev (CGet KVGC req) (inr vgc) :: Ev (CGet KVGClass k) (inr cl) :: rest →
  or_empty (vgcspec_VolumeGroupClassName (vgc_Spec vgc)) ≠ ""%string →
  vgclass_Driver cl = DriverName cfg →
  is_Some (om_DeletionTimestamp (vgc_ObjectMeta vgc)) →
  VgcFinalizer ∈ GetFinalizers KVGC vgc →
  (∀ f, f ∈ GetFinalizers KVGC vgc → str_Contains f VGFinalizer = true) →
  let_go tr vgc.
Proof.
  intros Hex -> Hcn Hdr Hd Hown Hother. apply vgc_to_class in Hex; [|done].
  rewrite decide_False in Hex by congruence.
  pose proof (vgc_class_let_go _ cl Hd Hown Hother _ _ Hex eq_refl) as Hgo.
  eapply let_go_mono; [by left|exact Hgo|sub_history].
Qed.

(** A content of the class of another driver is left alone: after its class is
    read nothing is called and success is reported. *)
Theorem vgc_foreign_untouched vgc k cl rest out :
  executes (Reconcile cfg req)
    (Ev (CGet KVGC req) (inr vgc) :: Ev (CGet KVGClass k) (inr cl) :: rest) out →
  vgclass_Driver cl ≠ DriverName cfg →
  or_empty (vgcspec_VolumeGroupClassName (vgc_Spec vgc)) ≠ ""%string →
  rest = [] ∧ out = Some (Result_zero, None).
Proof.
  intros Hex Hdr Hcn. apply vgc_to_class in Hex; [|done].
  by rewrite decide_True in Hex by congruence.
Qed.

(** When the first read of the content fails otherwise than by not finding it,
    [Reconcile] panics: the error is reported on a nil content. *)
Theorem vgc_read_error_panics e tr out :
  executes (Reconcile cfg req) (Ev (CGet KVGC req) (inl e) :: tr) out →
  IsNotFound e = false → tr = [] ∧ out = None.
Proof.
  intros (r & tr1 & Heq & Hrest)%vgc_reads He. apply cons_event_inj in Heq as [Heq <-].
  apply (get_event_inj KVGC) in Heq as <-. by rewrite He in Hrest.
Qed.

(** For a content without a source, a creation the driver accepts is followed
    by a panic: the group exists and its identifier is stored nowhere. *)
Theorem handleCreateVG_no_source vgc cl secret :
  vgcspec_Source (vgc_Spec vgc) = None →
  ensures (handleCreateVG vgc cl secret) (λ tr out,
    existsb creation_accepted tr = true → out = None).
Proof.
  intros Hsrc. apply wp_ensures.
  unfold handleCreateVG, createVG_request, request_Create, CreateVolumeGroup, UpdateVGCByResponse.
  rewrite Hsrc. wp_step. eapply wp_spec; [typeclasses eauto|solve_guard|].
  intros tr ps Htr ->. cbn [after app]. do 2 wp_step.
  apply wp_trigger; [done|]. intros [e|a]; do 3 wp_step; cbn [Response_Error].
  - repeat wp_step. rewrite existsb_app. cbn. rewrite orb_false_r.
    intros (x & Hx & Hacc)%existsb_elem. apply (calls_in_elem _ _ x Htr) in Hx.
    by destruct x as [[] ?].
  - repeat first [wp_step|done].
Qed.

(** A content that is deleted before its group has a handle (its creation failed,
    or is not over) asks the driver to delete the group of the empty name; as
    long as the driver refuses that, the removal ends with an error and the
    finalizer stays: the content can never be deleted. *)
Theorem removeVGC_without_handle vgc secret src tr out :
  executes (removeVGC vgc secret) tr out →
  vgcspec_VolumeGroupDeletionPolicy (vgc_Spec vgc) = Some VolumeGroupContentDelete →
  vgcspec_Source (vgc_Spec vgc) = Some src → vgcsrc_VolumeGroupHandle src = ""%string →
  (∀ r, Ev (CDeleteVolumeGroup "" secret) r ∈ tr → is_Some r) →
  ∃ e err, tr = [Ev (CDeleteVolumeGroup "" secret) (Some e)] ∧ out = Some (Some err, vgc).
Proof.
  unfold removeVGC, deleteVG, request_Delete, DeleteVolumeGroup. intros Hex Hp Hsrc Hh Href.
  rewrite Hp, Hsrc in Hex. cbn in Hex. rewrite Hh in Hex.
  apply executes_inv in Hex as (r & tr' & -> & Hex).
  destruct (Href r) as [e ->]; [by left|]. cbn in Hex. apply executes_inv in Hex as [-> ->].
  by do 2 eexists.
Qed.
End Progress.

(** ** Witnesses: the life cycle *)

#[local] Existing Instance DocExternals.externals.
#[local] Existing Instance DocExternals.laws.

(** The well-formedness of the answers, as a test. *)
Definition completeb (vgc : VolumeGroupContent) : bool :=
  bool_decide (is_Some (vgcspec_VolumeGroupClassName (vgc_Spec vgc))) &&
  bool_decide (is_Some (vgcspec_VolumeGroupDeletionPolicy (vgc_Spec vgc))) &&
  bool_decide (is_Some (vgcspec_Source (vgc_Spec vgc))).

Definition vgc_answer_okb (c : call) : resp c → bool :=
  match c with
  | CGet K _ | CUpdate K _ | CStatusUpdate K _ =>
      match K return error + obj_of K → bool with
      | KVGC => answeredb completeb
      | _ => λ _, true
      end
  | CCreateVolumeGroup _ _ _ => answeredb (λ a, bool_decide (is_Some (cvgr_VolumeGroup a)))
  | _ => λ _, true
  end.

Lemma completeb_sound vgc : completeb vgc = true → complete vgc.
Proof.
  unfold completeb, complete. rewrite !andb_true_iff, !bool_decide_eq_true. tauto.
Qed.

Lemma vgc_answer_okb_sound c r : vgc_answer_okb c r = true → vgc_answer_ok c r.
Proof.
  destruct c as [K|K| |K|K|K|K| | | | | | |]; try done; [destruct K; try done..|];
    cbn; apply answeredb_sound; try apply completeb_sound; intros a; apply bool_decide_eq_true_1.
Qed.

Lemma vgc_answers_okb tr :
  forallb (λ e, vgc_answer_okb (tr_call e) (tr_resp e)) tr = true → answers_ok tr.
Proof.
  intros Hall. apply Forall_forall. intros e He. apply vgc_answer_okb_sound.
  rewrite forallb_forall in Hall. apply Hall. by apply list_elem_of_In.
Qed.

(** The first read answered, or did not find. *)
Definition first_readb (tr : history) : bool :=
  match tr with
  | e :: _ => match got KVGC e with Some (inl err) => IsNotFound err | _ => true end
  | [] => true
  end.

Lemma first_readb_sound tr k e :
  first_readb tr = true → first_is tr (Ev (CGet KVGC k) (inl e)) → IsNotFound e = true.
Proof.
  destruct tr as [|e' tr]; [done|]. intros Hr Hf. apply (f_equal (default e')) in Hf. cbn in Hf.
  subst e'. unfold first_readb in Hr. by rewrite got_get in Hr.
Qed.

Abbreviation create_run := (run_trace serve Scenario.reconcile_vgc Scenario.content_created).
Abbreviation delete_run := (run_trace serve Scenario.reconcile_vgc Scenario.vg_deleted).

Lemma vgc_reconcile_returns_witness :
  length create_run = 13 ∧ length delete_run = 22 ∧
  is_Some (run_outcome serve Scenario.reconcile_vgc Scenario.content_created) ∧
  is_Some (run_outcome serve Scenario.reconcile_vgc Scenario.vg_deleted).
Proof.
  split; [vm_compute; reflexivity|]. split; [vm_compute; reflexivity|].
  split; (eapply vgc_reconcile_returns;
    [apply (run_executes serve)
    |intros e; apply first_readb_sound; by vm_compute
    |left; apply vgc_answers_okb; by vm_compute]).
Defined.

Abbreviation stored_class := (Scenario.class_in Scenario.content_created).
Abbreviation class_key := (mkNN "" Samples.VGClassName).
Abbreviation fresh_content := (Scenario.content_in Scenario.content_created).
Abbreviation dying_content := (Scenario.content_in Scenario.vg_deleted).

(** The runs start by reading the content and its class. *)
Lemma create_run_starts :
  create_run = Ev (CGet KVGC Samples.vgc_req) (inr fresh_content) ::
               Ev (CGet KVGClass class_key) (inr stored_class) :: drop 2 create_run.
Proof. by vm_compute. Qed.

Lemma vgc_delete_run_starts :
  delete_run = Ev (CGet KVGC Samples.vgc_req) (inr dying_content) ::
               Ev (CGet KVGClass class_key) (inr stored_class) :: drop 2 delete_run.
Proof. by vm_compute. Qed.

Lemma vgc_success_ready_witness :
  run_outcome serve Scenario.reconcile_vgc Scenario.content_created = Some (Result_zero, None) ∧
  success_ready fresh_content create_run.
Proof.
  assert (run_outcome serve Scenario.reconcile_vgc Scenario.content_created =
          Some (Result_zero, None)) as Hout by by vm_compute.
  split; [exact Hout|].
  eapply (vgc_success_ready Samples.config Samples.vgc_req);
    [rewrite <- Hout; apply (run_executes serve)|exact create_run_starts|..].
  - by vm_compute.
  - by vm_compute.
  - by vm_compute.
Defined.

Lemma vgc_success_let_go_witness :
  run_outcome serve Scenario.reconcile_vgc Scenario.vg_deleted = Some (Result_zero, None) ∧
  let_go delete_run dying_content.
Proof.
  assert (run_outcome serve Scenario.reconcile_vgc Scenario.vg_deleted =
          Some (Result_zero, None)) as Hout by by vm_compute.
  split; [exact Hout|].
  eapply (vgc_success_let_go Samples.config Samples.vgc_req);
    [rewrite <- Hout; apply (run_executes serve)|exact vgc_delete_run_starts|..].
  - by vm_compute.
  - by vm_compute.
  - by apply (bool_decide_unpack _); vm_compute.
  - by apply (bool_decide_unpack _); vm_compute.
  - apply (proj1 (IsContainOtherFinalizers_false KVGC dying_content)). by vm_compute.
Defined.

Abbreviation other_run := (VGCController.Reconcile Scenario.other_config Samples.vgc_req).

Lemma vgc_foreign_untouched_witness :
  length (run_trace serve other_run Scenario.vg_deleted) = 2 ∧
  run_outcome serve other_run Scenario.vg_deleted = Some (Result_zero, None).
Proof.
  assert (∃ rest, run_trace serve other_run Scenario.vg_deleted =
    Ev (CGet KVGC Samples.vgc_req) (inr dying_content) ::
    Ev (CGet KVGClass class_key) (inr stored_class) :: rest) as [rest Hstart].
  { exists (drop 2 (run_trace serve other_run Scenario.vg_deleted)). by vm_compute. }
  destruct (vgc_foreign_untouched Scenario.other_config Samples.vgc_req dying_content class_key stored_class
              rest (run_outcome serve other_run Scenario.vg_deleted)) as [Hrest Hout].
  - pose proof (run_executes serve other_run Scenario.vg_deleted) as Hex.
    rewrite Hstart in Hex. exact Hex.
  - by vm_compute.
  - by vm_compute.
  - split; [|exact Hout]. by rewrite Hstart, Hrest.
Defined.

(** A server that is down: every call fails. *)
Definition down : handler unit := λ c w, (some_answer c, w).

Lemma vgc_read_error_panics_witness :
  run_outcome down Scenario.reconcile_vgc tt = None.
Proof.
  apply (vgc_read_error_panics Samples.config Samples.vgc_req (ErrorString "") []); [|done].
  exact (run_executes down Scenario.reconcile_vgc tt).
Defined.

Definition no_source : VolumeGroupContent := set_vgc_source None fresh_content.
Abbreviation create_no_source := (handleCreateVG no_source stored_class ∅).

(** The driver has the group, the content does not know it. *)
Lemma handleCreateVG_no_source_witness :
  run_outcome serve create_no_source Scenario.content_created = None ∧
  map_to_list (groups (run_world serve create_no_source Scenario.content_created)) =
    [("group-volumegroup-uid1"%string, [])].
Proof.
  split; [|by vm_compute].
  apply (handleCreateVG_no_source no_source stored_class ∅ eq_refl
           (run_trace serve create_no_source Scenario.content_created)).
  - apply (run_executes serve).
  - by vm_compute.
Defined.

Definition deletion_answer (e : event) : option (option error) :=
  match tr_call e as c return resp c → option (option error) with
  | CDeleteVolumeGroup _ _ => λ r, Some r
  | _ => λ _, None
  end (tr_resp e).

(** The content of the sample VolumeGroup, before the driver was asked. *)
Abbreviation unnamed_removal := (removeVGC fresh_content ∅).

Lemma removeVGC_without_handle_witness :
  ∃ e err, run_trace serve unnamed_removal Scenario.content_created =
             [Ev (CDeleteVolumeGroup "" ∅) (Some e)] ∧
           run_outcome serve unnamed_removal Scenario.content_created =
             Some (Some err, fresh_content).
Proof.
  eapply removeVGC_without_handle.
  - apply (run_executes serve).
  - by vm_compute.
  - by vm_compute.
  - by vm_compute.
  - assert (run_trace serve unnamed_removal Scenario.content_created =
      [Ev (CDeleteVolumeGroup "" ∅) (Some (ExternalError "InvalidArgument" "no identifier"))])
      as -> by by vm_compute.
    intros r Hr%list_elem_of_singleton.
    assert (deletion_answer (Ev (CDeleteVolumeGroup "" ∅) r) = deletion_answer (Ev (CDeleteVolumeGroup "" ∅) (Some (ExternalError "InvalidArgument" "no identifier")))) as Heq by by rewrite Hr.
    cbn in Heq. simplify_eq. by eexists.
Defined.
