(* ===== verification/VGProgress.v ===== *)
(** * Progress of the VolumeGroup controller

    When [Reconcile] cannot panic, what it has done when it reports success,
    and what it leaves to other operators. *)

From S2P Require Import Prelude GoLang Api Effects Externals Objects Params VolumeGroups Volumes.
From S2P Require Import Finalizers Driver VolumeGroupContents Membership VGController.
From S2P Require Import VGCController Histories Cluster Scenario VGSafety.
Import VGController.

Section Progress.
Context `{ExternalLaws} (cfg : DriverConfig) (req : NamespacedName).

(** ** Well-formed answers *)

Definition has_selector (vg : VolumeGroup) : Prop :=
  is_Some (vgsrc_Selector (vgspec_Source (vg_Spec vg))).

Definition names_content (vg : VolumeGroup) : Prop :=
  is_Some (vgsrc_VolumeGroupContentName (vgspec_Source (vg_Spec vg))).

(** A content that names its deletion policy and its source. *)
Definition usable (vgc : VolumeGroupContent) : Prop :=
  is_Some (vgcspec_VolumeGroupDeletionPolicy (vgc_Spec vgc)) ∧
  is_Some (vgcspec_Source (vgc_Spec vgc)).

(** VolumeGroups that satisfy [P], usable contents, CSI volumes. *)
Definition answer_with (P : VolumeGroup → Prop) (c : call) : resp c → Prop :=
  match c with
  | CGet K _ | CUpdate K _ | CStatusUpdate K _ =>
      match K return error + obj_of K → Prop with
      | KVG => answered P
      | KVGC => answered usable
      | KPV => answered (λ pv, is_Some (pv_CSI pv))
      | _ => λ _, True
      end
  | CList K =>
      match K return error + list (obj_of K) → Prop with
      | KVG => answered (Forall P)
      | _ => λ _, True
      end
  | _ => λ _, True
  end.

Section Answers.
Context (P : VolumeGroup → Prop) (P_selector : ∀ vg, P vg → has_selector vg).

Abbreviation ok := (answer_with P).
Abbreviation Returns := (along ok returns).

(** ** Membership *)

Lemma getVgId_returns vg : Returns (getVgId vg).
Proof.
  unfold getVgId, GetVGC. autorewrite with reflect. do 4 along_step. intros [e|vgc] Hr; cbn [after].
  - returning.
  - destruct (Hr vgc eq_refl) as [_ [src Hsrc]].
    repeat first [progress rewrite ?Hsrc|along_step]; by eexists.
Qed.

Lemma GetPVFromPVC_csi pvc :
  along ok (after (λ r, ∀ pv, r = inr (Some pv) → is_Some (pv_CSI pv)) False) (GetPVFromPVC pvc).
Proof.
  unfold GetPVFromPVC, getPVNameFromPVC, getPV. autorewrite with reflect. do 3 along_step.
  case_decide; [done|]. along_step. intros [err|pv] Hr; cbn [after].
  - destruct (IsNotFound err); repeat along_step; done.
  - repeat along_step. intros pv' Heq. simplify_eq. by apply Hr.
Qed.

Lemma getPVCListVolumeIds_returns l : Returns (getPVCListVolumeIds l).
Proof.
  unfold getPVCListVolumeIds. generalize (@nil string).
  induction l as [|pvc l IH]; intros acc; cbn [getPVCListVolumeIds_loop]; [by eexists|].
  along_step. eapply along_mono; [apply GetPVFromPVC_csi|].
  intros [[e|[pv|]]|] Hr; cbn [after] in *; [by eexists| |apply IH|done].
  destruct (Hr pv eq_refl) as [csi Hcsi]. rewrite Hcsi. along_step. apply IH.
Qed.

Lemma ModifyVolumesInVG_returns l vg : Returns (ModifyVolumesInVG l vg).
Proof.
  unfold ModifyVolumesInVG, ModifyVG, generateModifyVGParams.
  do 3 along_step. eapply along_mono; [apply getVgId_returns|].
  intros ? [[e|id] ->]; cbn [after]; [returning|].
  along_step. eapply along_mono; [apply getPVCListVolumeIds_returns|].
  intros ? [[e|ids] ->]; cbn [after]; returning.
Qed.

(** ** Matching claims *)

Lemma IsPVCMatchesVG_returns pvc vg : has_selector vg → Returns (IsPVCMatchesVG pvc vg).
Proof. intros [s Hs]. unfold IsPVCMatchesVG. rewrite Hs. returning. Qed.

Lemma IsPVCCanBeAddedToVG_returns pvc vgs :
  Forall has_selector vgs → Returns (IsPVCCanBeAddedToVG pvc vgs).
Proof.
  unfold IsPVCCanBeAddedToVG. generalize (@nil string) at 1. generalize (@nil string).
  induction vgs as [|vg vgs IH]; intros n w Hvgs; cbn [IsPVCCanBeAddedToVG_loop]; [by eexists|].
  apply Forall_cons in Hvgs as [Hvg Hvgs]. destruct (IsPVCInPVCList _ _); [by apply IH|].
  along_step. eapply along_mono; [by apply IsPVCMatchesVG_returns|].
  intros ? [[e|[]] ->]; cbn [after]; by apply IH.
Qed.

(** The VolumeGroups of the driver are among those listed. *)
Lemma GetVGList_selectors driver :
  along ok (after (λ r, ∀ l, r = inr l → Forall has_selector l) False) (GetVGList driver).
Proof.
  unfold GetVGList, getProvisionedVGs. along_step. intros [e|vgs] Hr; cbn [after]; [done|].
  specialize (Hr vgs eq_refl).
  enough (∀ acc, Forall has_selector acc →
    along ok (after (λ r, ∀ l, r = inr l → Forall has_selector l) False)
      (getProvisionedVGs_loop vgs driver acc)) as Hloop.
  { apply along_bind. eapply along_mono; [by apply Hloop|].
    intros [[e|l]|] Hl; by repeat along_step. }
  induction Hr as [|vg vgs Hvg Hvgs IH]; intros acc Hacc; cbn [getProvisionedVGs_loop].
  { cbn. intros l Heq. by simplify_eq. }
  do 2 along_step. destruct r as [e|[]]; [done| |by apply IH].
  apply IH, Forall_app. split; [done|]. constructor; [|done]. by apply P_selector.
Qed.

Lemma isPVCShouldBeInVg_returns vg pvc : has_selector vg → Returns (isPVCShouldBeInVg cfg vg pvc).
Proof.
  intros Hvg. unfold isPVCShouldBeInVg, isPVCCanBeAddedToVG. apply along_bind.
  eapply along_mono; [by apply IsPVCMatchesVG_returns|].
  intros ? [[e|[]] ->]; cbn [after]; [by eexists| |by eexists].
  apply along_bind. case_decide; [by returning|]. apply along_bind.
  eapply along_mono; [apply GetVGList_selectors|].
  intros [[e|l]|] Hl; cbn [after] in *; [by returning| |done].
  eapply along_mono; [apply IsPVCCanBeAddedToVG_returns; auto|].
  intros ? [[e|] ->]; by eexists.
Qed.

Lemma getMatchingPVCs_returns vg : has_selector vg → Returns (getMatchingPVCs cfg vg).
Proof.
  intros Hvg. unfold getMatchingPVCs. do 2 along_step. cbn [after]. destruct r as [e|l]; [by eexists|].
  clear Hr. generalize (@nil PersistentVolumeClaim).
  induction l as [|pvc l IH]; intros acc; cbn [getMatchingPVCs_loop]; [by eexists|].
  apply along_bind. eapply along_mono; [by apply isPVCShouldBeInVg_returns|].
  intros ? [[e|b] ->]; cbn [after]; [by eexists|].
  do 2 along_step. destruct r as [e|b']; [by eexists|]. destruct (_ && _); apply IH.
Qed.

Lemma updatePVCs_returns vg : has_selector vg → Returns (updatePVCs cfg vg).
Proof.
  intros Hvg. unfold updatePVCs. apply along_bind.
  eapply along_mono; [by apply getMatchingPVCs_returns|].
  intros ? [[e|l] ->]; cbn [after]; [by returning|]. destruct (IsPVCListEqual _ _); [by eexists|].
  apply along_bind. eapply along_mono; [apply ModifyVolumesInVG_returns|].
  intros ? [[e|] ->]; cbn [after]; by returning.
Qed.

(** ** The content of the group *)

Lemma removeVGCObject_returns vgc : usable vgc → Returns (removeVGCObject vgc).
Proof.
  intros [[p Hp] _]. unfold removeVGCObject. rewrite Hp. by returning.
Qed.

Lemma removeInstance_returns vg : Returns (removeInstance vg).
Proof.
  unfold removeInstance, GetVGC. autorewrite with reflect. do 3 along_step. cbn [after].
  apply along_bind. intros r Hr. cbn [after along]. apply along_bind. destruct r as [e|vgc].
  - destruct (IsNotFound e); by returning.
  - eapply along_mono; [apply removeVGCObject_returns; by apply Hr|].
    intros ? [[e|] ->]; cbn [after]; by returning.
Qed.

(** The VolumeGroup after a successful update of its fields is an answer. *)
Lemma updateItems_answer vg t n :
  along ok (after (λ r, fst r = None → P (snd r)) False) (updateItems vg t n).
Proof.
  unfold updateItems, UpdateVGStatus, updateVGStatus, UpdateObjectStatus.
  repeat first
    [ match goal with
      | |- along _ _ (RetryOnConflict _ _) =>
          eapply along_of_triple;
            [eapply (triple_retry_returns _ (λ _, True) returns);
              [intros; apply _|done|by eexists]|intros ? [[[?|] ?] ->]]
      | Hr : answer_with P (CStatusUpdate KVG _) (inr _) |- fst _ = None → P _ =>
          intros _; by apply Hr
      | Hr : after _ False (Some ?r) |- fst ?r = None → _ =>
          intros Hn; cbn in Hr; rewrite Hn in Hr; by destruct Hr
      end
    | along_step | done ].
Qed.

(** A dynamic VolumeGroup: no content is named. *)
Lemma handleStaticProvisionedVG_unnamed vg t cl :
  ¬ names_content vg → handleStaticProvisionedVG cfg vg t cl = Ret (None, false, vg).
Proof.
  intros Hn. unfold handleStaticProvisionedVG.
  destruct (vgsrc_VolumeGroupContentName _) eqn:Hc; [|done]. destruct Hn. by exists s.
Qed.


Lemma Reconcile_provision_dynamic vg cl :
  ¬ names_content vg → Returns (Reconcile_provision cfg vg cl).
Proof.
  intros Hvg. unfold Reconcile_provision. do 2 along_step. cbn [after]. apply along_bind.
  rewrite handleStaticProvisionedVG_unnamed by done. cbn [along after].
  repeat first
    [ match goal with
      | |- along _ _ (updateItems _ _ _) =>
          eapply along_mono; [apply updateItems_answer|]; intros [[[?|] cur]|] Hcur;
          cbn in Hcur
      | |- along _ _ (updatePVCs _ _) =>
          eapply along_mono; [apply updatePVCs_returns; auto|]; intros ? [[[?|] ?] ->]
      end
    | along_step | done | by eexists ].
Qed.

(** The rest of the static path, once the VolumeGroup is bound. *)
Lemma static_rest_returns cur cl :
  P cur → names_content cur →
  along ok (after (λ '(_, static, _), static = true) False)
    (err ← UpdateStaticVGCFromVG cur cl;
     match err with
     | Some err => mret (Some err, true, cur)
     | None =>
         '(err, vg) ← updatePVCs cfg cur;
         match err with
         | Some err => mret (Some err, true, vg)
         | None => mret (None, true, vg)
         end
     end).
Proof.
  intros HP [n Hn].
  assert (Returns (UpdateStaticVGCFromVG cur cl)) as Hstatic.
  { unfold UpdateStaticVGCFromVG. rewrite Hn. returning. }
  apply along_bind. eapply along_mono; [exact Hstatic|]. intros ? [[e|] ->]; [done|].
  cbn [after]. apply along_bind. eapply along_mono; [apply updatePVCs_returns; auto|].
  by intros ? [[[e|] ?] ->].
Qed.
End Answers.

(** ** Reading the start of a run *)

(** Reporting an error on a VolumeGroup returns an error. *)
Lemma report_error vg e reason tr out :
  executes ('(err, _) ← HandleErrorMessage vg (Some e) reason; mret (Result_zero, err)) tr out →
  ∃ e', out = Some (Result_zero, Some e').
Proof.
  intros Hex.
  enough (triple (λ _, True) (after (λ r, ∃ e', r = (Result_zero, Some e')) False)
    ('(err, _) ← HandleErrorMessage vg (Some e) reason; mret (Result_zero, err))) as Ht.
  { eapply triple_sound in Ht as [Ho _]; [|exact Hex]. destruct out as [r|]; [|done].
    destruct Ho as [e' ->]. by exists e'. }
  solve_triple. destruct Hr as [e' He]. cbn in He. subst. by exists e'.
Qed.

(** The VolumeGroup is read, then its class; the rest is [Reconcile_class]. *)
Lemma vg_reads tr out :
  executes (Reconcile cfg req) tr out →
  ∃ r tr1, tr = Ev (CGet KVG req) r :: tr1 ∧
    match r with
    | inl e =>
        if IsNotFound e then tr1 = [] ∧ out = Some (Result_zero, None)
        else ∃ e', out = Some (Result_zero, Some e')
    | inr vg =>
        let cn := or_empty (vgspec_VolumeGroupClassName (vg_Spec vg)) in
        if decide (cn = "")%string then ∃ e', out = Some (Result_zero, Some e')
        else
          ∃ r2 tr2, tr1 = Ev (CGet KVGClass (mkNN "" cn)) r2 :: tr2 ∧
            match r2 with
            | inl e => ∃ e', out = Some (Result_zero, Some e')
            | inr cl =>
                if decide (DriverName cfg ≠ vgclass_Driver cl)
                then tr2 = [] ∧ out = Some (Result_zero, None)
                else executes (Reconcile_class cfg vg cl) tr2 out
            end
    end.
Proof.
  unfold Reconcile. intros (r & tr1 & -> & Hex)%executes_trigger_inv.
  exists r, tr1. split; [done|]. destruct r as [e|vg].
  { destruct (IsNotFound e); [by apply executes_ret_inv|]. exact (report_error _ _ _ _ _ Hex). }
  rewrite GetStringField_vg_class in Hex. cbn zeta. set (cn := or_empty _) in *.
  cbn [or_panic mbind prog_bind] in Hex. unfold GetVGClass in Hex.
  destruct (decide (cn = "")%string) as [Hcn|Hcn]; [exact (report_error _ _ _ _ _ Hex)|].
  apply executes_trigger_inv in Hex as (r2 & tr2 & -> & Hex). exists r2, tr2. split; [done|].
  destruct r2 as [e|cl]; [exact (report_error _ _ _ _ _ Hex)|].
  case_decide; [by apply executes_ret_inv in Hex|done].
Qed.

Lemma vg_to_class vg k cl rest out :
  executes (Reconcile cfg req)
    (Ev (CGet KVG req) (inr vg) :: Ev (CGet KVGClass k) (inr cl) :: rest) out →
  or_empty (vgspec_VolumeGroupClassName (vg_Spec vg)) ≠ ""%string →
  if decide (DriverName cfg ≠ vgclass_Driver cl)
  then rest = [] ∧ out = Some (Result_zero, None)
  else executes (Reconcile_class cfg vg cl) rest out.
Proof.
  intros (r & tr1 & Heq & Hrest)%vg_reads Hcn. apply cons_event_inj in Heq as [Heq <-].
  apply (get_event_inj KVG) in Heq as <-. cbn zeta in Hrest. rewrite decide_False in Hrest by done.
  destruct Hrest as (r2 & tr2 & Heq & Hrest). apply cons_event_inj in Heq as [Heq <-].
  by apply (get_event_inj KVGClass) in Heq as <-.
Qed.

(** ** What a success means *)

(** The VolumeGroup with the operator's finalizer: as it was, or as the server
    answered it. *)
Definition vg_held (tr : history) (vg cur : VolumeGroup) : Prop :=
  (cur = vg ∧ VGFinalizer ∈ GetFinalizers KVG vg) ∨
  finalizers_written KVG (GetFinalizers KVG vg ++ [VGFinalizer]) tr cur.

(** The VolumeGroup was bound to its content: the content's name was written to
    its specification, then to its status, which was set to ready. *)
Definition bound (tr : history) (name : string) : Prop :=
  (∃ o v, Ev (CUpdate KVG o) (inr v) ∈ tr ∧
          vgsrc_VolumeGroupContentName (vgspec_Source (vg_Spec o)) = Some name) ∧
  (∃ o v, Ev (CStatusUpdate KVG o) (inr v) ∈ tr ∧
          vgst_BoundVolumeGroupContentName (vg_Status o) = Some name ∧
          vgst_Ready (vg_Status o) = Some true ∧ vgst_Error (vg_Status o) = None).

(** The content of that name was read and was ready. *)
Definition content_ready (tr : history) (name : string) : Prop :=
  ∃ ns vgc, Ev (CGet KVGC (mkNN ns name)) (inr vgc) ∈ tr ∧
            vgcst_Ready (vgc_Status vgc) = Some true.

Lemma bound_mono tr tr' name : bound tr name → tr ⊆ tr' → bound tr' name.
Proof.
  intros [(o & v & Ho & Hn) (o' & v' & Ho' & Hs)] Hsub. split; [exists o, v|exists o', v']; auto.
Qed.

Lemma content_ready_mono tr tr' name : content_ready tr name → tr ⊆ tr' → content_ready tr' name.
Proof. intros (ns & vgc & Hin & Hr) Hsub. exists ns, vgc. auto. Qed.

Lemma vg_held_mono tr tr' vg cur : vg_held tr vg cur → tr ⊆ tr' → vg_held tr' vg cur.
Proof. intros [?|Hw] Hsub; [by left|right]. by eapply finalizers_written_mono. Qed.

(** The retried status update ends with one that was accepted. *)
Lemma vg_status_retry_history (f : VolumeGroup → VolumeGroup) vg :
  ensures (RetryOnConflict (λ vg, vgRetryOnConflictFunc (f vg)) vg)
    (λ tr out, ∀ v, out = Some (None, v) → ∃ o, Ev (CStatusUpdate KVG (f o)) (inr v) ∈ tr).
Proof.
  apply wp_ensures. apply (wp_retry _ _ (λ _ _, True)); [|done].
  intros tr s _. unfold vgRetryOnConflictFunc, updateVGStatus, UpdateObjectStatus, getNamespacedObject.
  repeat wp_step; (split; [|done]); intros v Heq; simplify_eq/=; try congruence.
  eexists. solve_event.
Qed.

Lemma updateItems_success vg t name :
  ensures (updateItems vg t name) (λ tr out, ∀ v, out = Some (None, v) → bound tr name).
Proof.
  apply wp_ensures. unfold updateItems, UpdateVGSourceContent, UpdateVGStatus, UpdateObject.
  repeat first
    [ match goal with |- wp _ _ (RetryOnConflict _ _) _ =>
        eapply wp_use;
          [eapply triple_retry_returns; [intros; apply _|exact (covers_refl _)|done]
          |apply vg_status_retry_history|done|];
        intros ? [[[?|] ?]|] _ Hretry; cbn [after]
      end
    | wp_step ]; intros out Heq; simplify_eq/=.
  all: try match goal with H : is_Some None |- _ => by destruct H end.
  destruct (Hretry _ eq_refl) as [o' Ho']. split.
  - do 2 eexists. split; [by left|done].
  - exists (set_vg_bound name t true o'). eexists. split; [|done].
    right. apply elem_of_app. left. exact Ho'.
Qed.

(** Bound after the operator's finalizer was put on it. *)
Definition success_bound (vg : VolumeGroup) (tr : history) : Prop :=
  ∃ cur name, vg_held tr vg cur ∧ bound tr name ∧
    (vgsrc_VolumeGroupContentName (vgspec_Source (vg_Spec cur)) = Some name ∨
     (vgsrc_VolumeGroupContentName (vgspec_Source (vg_Spec cur)) = None ∧ content_ready tr name)).

Lemma handleStaticProvisionedVG_success vg t cl :
  ensures (handleStaticProvisionedVG cfg vg t cl) (λ tr out,
    ∀ err static v, out = Some (err, static, v) →
      match vgsrc_VolumeGroupContentName (vgspec_Source (vg_Spec vg)) with
      | None => static = false ∧ v = vg
      | Some name => static = true ∧ (err = None → bound tr name)
      end).
Proof.
  apply wp_ensures. unfold handleStaticProvisionedVG.
  destruct (vgsrc_VolumeGroupContentName _) as [name|].
  - wp_step. wp_with updateItems_success. intros tr1 [[[e|] cur]|] _ Hb; cbn [after];
      repeat wp_step; intros ? ? ? Heq; simplify_eq; (split; [done|]); intros ?; simplify_eq.
    all: eapply bound_mono; [by eapply Hb|sub_history].
  - repeat wp_step. intros ? ? ? Heq. by simplify_eq.
Qed.

Lemma isVGCReady_history vgc :
  ensures (isVGCReady vgc) (λ tr out,
    out = Some (inr true) → content_ready tr (GetName KVGC vgc)).
Proof.
  apply wp_ensures. unfold isVGCReady, GetVGC. wp_step. apply wp_trigger; [done|].
  intros [e|o]; cbn [after]; [repeat wp_step; done|]. rewrite GetBoolField_ready. repeat wp_step.
  intros Heq. simplify_eq. exists (GetNamespace KVGC vgc), o. split; [solve_event|].
  by destruct (vgcst_Ready _) as [[]|].
Qed.

Lemma Reconcile_provision_success vg cur cl tr0 :
  vg_held tr0 vg cur →
  wp (λ _ _, True) (λ tr out, out = Some (Result_zero, None) → success_bound vg tr)
    (Reconcile_provision cfg cur cl) tr0.
Proof.
  intros Hheld. unfold Reconcile_provision. do 2 wp_step. wp_step.
  eapply wp_execs; [done|]. intros tr1 out Hex.
  pose proof (handleStaticProvisionedVG_success _ _ _ _ _ Hex) as Hs.
  destruct out as [[[err static] v]|]; cbn [after]; [|done]. specialize (Hs _ _ _ eq_refl).
  destruct (vgsrc_VolumeGroupContentName _) as [name|] eqn:Hname.
  - destruct Hs as [-> Hb]. repeat wp_step. intros Heq. simplify_eq. exists cur, name.
    split; [eapply vg_held_mono; [done|sub_history]|].
    split; [eapply bound_mono; [by apply Hb|sub_history]|by left].
  - destruct Hs as [-> ->].
    repeat first
      [ match goal with
        | |- wp _ _ (isVGCReady _) _ =>
            wp_with isVGCReady_history; intros ? [[?|[]]|] _ Hready; cbn [after]
        | |- wp _ _ (updateItems _ _ _) _ =>
            wp_with updateItems_success; intros ? [[[?|] ?]|] _ Hb; cbn [after]
        end
      | wp_step ]; intros Heq; simplify_eq/=; try congruence.
    all: try match goal with H : is_Some None |- _ => by destruct H end.
    exists cur. eexists. split; [eapply vg_held_mono; [done|sub_history]|].
    split; [eapply bound_mono; [by eapply Hb|sub_history]|right].
    split; [done|]. eapply content_ready_mono; [by apply Hready|sub_history].
Qed.

Lemma vg_class_success vg cl :
  om_DeletionTimestamp (vg_ObjectMeta vg) = None →
  ensures (Reconcile_class cfg vg cl)
    (λ tr out, out = Some (Result_zero, None) → success_bound vg tr).
Proof.
  intros Hd. apply wp_ensures. unfold Reconcile_class. rewrite Hd. cbn [IsZero].
  do 3 wp_step; [repeat wp_step; done|].
  wp_step. wp_with AddFinalizerToVG_history. intros tr1 [[[e|] cur]|] _ Hcur; cbn [after];
    [repeat wp_step; intros Heq; simplify_eq/=; by destruct Hr0| |done].
  apply Reconcile_provision_success. eapply vg_held_mono; [by apply Hcur|sub_history].
Qed.

(** The VolumeGroup was let go: its content dealt with, the finalizer taken off. *)
Definition vg_let_go (tr : history) (vg : VolumeGroup) : Prop :=
  content_settled tr vg ∧
  ∃ v, finalizers_written KVG (Remove (GetFinalizers KVG vg) VGFinalizer) tr v.

Lemma vg_let_go_mono tr tr' vg : vg_let_go tr vg → tr ⊆ tr' → vg_let_go tr' vg.
Proof.
  intros [Hset [v Hv]] Hsub. split; [|exists v; by eapply finalizers_written_mono].
  by eapply content_settled_mono.
Qed.

Lemma removeInstance_success vg :
  VGFinalizer ∈ GetFinalizers KVG vg →
  ensures (removeInstance vg) (λ tr out, ∀ v, out = Some (None, v) → vg_let_go tr vg).
Proof.
  intros Hown. apply wp_ensures. unfold removeInstance, GetVGC, removeVGCObject.
  autorewrite with reflect.
  repeat first
    [ match goal with |- wp _ _ (RemoveFinalizerFromVG _) _ =>
        wp_with RemoveFinalizerFromVG_history; intros ? [[[?|] ?]|] _ Hrem; cbn [after]
      end
    | wp_step ]; intros out Heq; simplify_eq/=.
  all: destruct (Hrem _ eq_refl) as [[_ ?]|Hw]; [done|];
    (split; [|eexists; eapply finalizers_written_mono; [exact Hw|sub_history]]).
  - eapply content_not_found; [by left|]. by destruct (IsNotFound _).
  - eapply content_deleted; [by left|congruence|right; by left].
  - eapply content_retained; [by left|done..].
Qed.

Lemma vg_class_let_go vg cl :
  vg_deletable vg →
  ensures (Reconcile_class cfg vg cl)
    (λ tr out, out = Some (Result_zero, None) → vg_let_go tr vg).
Proof.
  intros ([t Hd] & Hown & Hother). apply wp_ensures. unfold Reconcile_class. rewrite Hd. cbn [IsZero].
  assert (Contains (GetFinalizers KVG vg) VGFinalizer &&
          negb (IsContainOtherFinalizers KVG vg) = true) as ->.
  { apply andb_true_iff. split; [by apply Contains_spec|].
    by rewrite (proj2 (IsContainOtherFinalizers_false KVG vg) Hother). }
  do 3 wp_step; [repeat wp_step; done|].
  wp_step. eapply wp_execs; [done|]. intros tr1 out Hex.
  pose proof (removeInstance_success _ Hown _ _ Hex) as Hs.
  destruct out as [[[e|] v]|]; cbn [after]; [| |done].
  - repeat wp_step. intros Heq. simplify_eq/=. by destruct Hr0.
  - repeat wp_step. intros _. eapply vg_let_go_mono; [by eapply Hs|sub_history].
Qed.


(** ** The name of the content is kept *)

(** A write that names a content is answered with a VolumeGroup that names one,
    and so is a read that comes after an accepted update that names one. *)
Definition named_stays (tr : history) : Prop :=
  (∀ o v, Ev (CUpdate KVG o) (inr v) ∈ tr ∨ Ev (CStatusUpdate KVG o) (inr v) ∈ tr →
          names_content o → names_content v) ∧
  (∀ pre k v post o w, tr = pre ++ Ev (CGet KVG k) (inr v) :: post →
     Ev (CUpdate KVG o) (inr w) ∈ pre → names_content o → names_content v).

Lemma named_stays_infix tr1 tr tr2 : named_stays (tr1 ++ tr ++ tr2) → named_stays tr.
Proof.
  intros [Hw Hr]. split.
  - intros o v Hin. apply (Hw o v). rewrite !elem_of_app. tauto.
  - intros pre k v post o w -> Hin. apply (Hr (tr1 ++ pre) k v (post ++ tr2) o w).
    + by rewrite <- !app_assoc.
    + apply elem_of_app. by right.
Qed.

Lemma named_stays_prefix tr tr' : named_stays (tr ++ tr') → named_stays tr.
Proof. apply (named_stays_infix []). Qed.

Lemma named_stays_tail e tr : named_stays (e :: tr) → named_stays tr.
Proof. intros Hn. apply (named_stays_infix [e] tr []). by rewrite app_nil_r. Qed.

(** An update that names a content was accepted, and the VolumeGroup names one. *)
Definition renamed (tr : history) (s : VolumeGroup) : Prop :=
  (∃ o w, Ev (CUpdate KVG o) (inr w) ∈ tr ∧ names_content o) ∧
  (named_stays tr → names_content s).

Lemma renamed_app tr tr' s : renamed tr s → renamed (tr ++ tr') s.
Proof.
  intros [(o & w & Hin & Ho) Hs]. split.
  - exists o, w. split; [apply elem_of_app; by left|done].
  - intros Hn. by eapply Hs, named_stays_prefix.
Qed.

(** What a status update answers names a content, when what it sends does. *)
Lemma renamed_status tr s o :
  renamed tr s → renamed (tr ++ [Ev (CStatusUpdate KVG s) (inr o)]) o.
Proof.
  intros Hr. split; [apply (renamed_app _ _ _ Hr)|]. intros Hn.
  pose proof Hn as Hs%named_stays_prefix. destruct Hr as [_ Hr]. apply Hr in Hs.
  destruct Hn as [Hw _]. apply (Hw s o); [right; solve_event|done].
Qed.

Lemma renamed_get tr s k v : renamed tr s → renamed (tr ++ [Ev (CGet KVG k) (inr v)]) v.
Proof.
  intros Hr. split; [apply (renamed_app _ _ _ Hr)|]. intros [_ Hn].
  destruct Hr as [(o & w & Hin & Ho) _]. by apply (Hn tr k v [] o w).
Qed.

Lemma status_attempt_renamed f tr s :
  (∀ x, names_content x → names_content (f x)) →
  renamed tr s →
  wp (λ _ _, True)
    (λ tr', after (λ r, (fst r = None → renamed tr' (snd r)) ∧
                        ∀ e, fst r = Some e → IsConflict e = true → renamed tr' (snd r)) True)
    (vgRetryOnConflictFunc (f s)) tr.
Proof.
  intros Hf Hr. assert (renamed tr (f s)) as Hfs.
  { destruct Hr as [Hu Hs]. split; [done|]. auto. }
  unfold vgRetryOnConflictFunc, updateVGStatus, UpdateObjectStatus, getNamespacedObject.
  repeat wp_step; (split; [|intros e' Heq Hc]); cbn [fst snd] in *; intros; simplify_eq/=.
  all: first [ by apply renamed_status | by eapply renamed_get, renamed_app
             | by repeat apply renamed_app ].
Qed.

Lemma UpdateVGStatus_renamed vg n t ready tr :
  renamed tr vg →
  wp (λ _ _, True) (λ tr' out, ∀ v, out = Some (None, v) → renamed tr' v)
    (UpdateVGStatus vg n t ready) tr.
Proof.
  intros Hvg. unfold UpdateVGStatus. apply wp_bind.
  apply (wp_retry _ _ renamed); [|done]. intros tr0 s Hs.
  eapply wp_mono; [apply status_attempt_renamed; [by intros x [m Hm]; exists m|done]|].
  intros tr1 [[[e|] v]|]; cbn [after fst snd]; [intros [_ Hc]|intros [Hv _]|done].
  - split; [by repeat wp_step|]. intros e' Heq. simplify_eq. by apply Hc.
  - split; [|done]. unfold updateVGStatus, UpdateObjectStatus.
    repeat wp_step; intros v' Heq; simplify_eq. apply renamed_status. by apply Hv.
Qed.

Lemma updateItems_named vg t n :
  ensures (updateItems vg t n) (λ tr out,
    ∀ v, out = Some (None, v) → named_stays tr → names_content v).
Proof.
  apply wp_ensures. unfold updateItems, UpdateVGSourceContent, UpdateObject. do 3 wp_step.
  apply wp_trigger; [done|]. intros [e|o]; cbn [after].
  { repeat wp_step; intros v Heq; simplify_eq/=; by destruct Hr. }
  do 3 wp_step. eapply wp_mono; [apply UpdateVGStatus_renamed|].
  - split.
    + do 2 eexists. split; [solve_event|by eexists].
    + intros [Hw _]. eapply Hw; [left; solve_event|by eexists].
  - intros tr' [[[e|] v]|] Hv; cbn [after]; [|destruct (Hv v eq_refl) as [_ Hn]|done].
    + repeat wp_step. intros v' Heq. simplify_eq/=. by destruct Hr.
    + repeat wp_step. intros v' Heq. by simplify_eq.
Qed.
(** ** Runs with good answers *)

Definition answers_ok (tr : history) : Prop :=
  Forall (λ e, answer_with has_selector (tr_call e) (tr_resp e)) tr.

(** Every execution with good answers ends in [Q]. *)
Definition well {A} (p : prog A) (Q : option A → Prop) : Prop :=
  ∀ tr out, executes p tr out → answers_ok tr → named_stays tr → Q out.

Lemma well_along {A} (p : prog A) Q : along (answer_with has_selector) Q p → well p Q.
Proof. intros Hp tr out Hex Hok _. by eapply along_sound. Qed.

Lemma well_bind {A B} (p : prog A) (f : A → prog B) (Q : option B → Prop) :
  well p (after (λ a, well (f a) Q) (Q None)) → well (p ≫= f) Q.
Proof.
  intros Hp tr out [(tr1 & tr2 & a & -> & H1 & H2)|[H1 ->]]%executes_bind_inv Hok Hn.
  - apply Forall_app in Hok as [Hok1 Hok2].
    apply (Hp tr1 (Some a) H1 Hok1 (named_stays_prefix _ _ Hn) tr2 out H2 Hok2).
    apply (named_stays_infix tr1 tr2 []). by rewrite app_nil_r.
  - by apply (Hp tr None).
Qed.

Abbreviation selector_kept := (λ vg (Hvg : has_selector vg), Hvg).

Lemma handleStaticProvisionedVG_well vg t cl :
  names_content vg →
  well (handleStaticProvisionedVG cfg vg t cl) (after (λ '(_, static, _), static = true) False).
Proof.
  intros [n Hn]. unfold handleStaticProvisionedVG. rewrite Hn. apply well_bind.
  intros tr out Hex Hok Hnamed.
  pose proof (along_sound _ _ _ _ _ (updateItems_answer has_selector vg t n) Hex Hok) as Hsel.
  pose proof (updateItems_named vg t n tr out Hex) as Hname.
  destruct out as [[[e|] cur]|]; [|cbn in Hsel|done]; cbn [after].
  - apply well_along. done.
  - apply well_along, static_rest_returns; [done|by apply Hsel|by apply Hname].
Qed.

Lemma Reconcile_provision_well vg cl : well (Reconcile_provision cfg vg cl) returns.
Proof.
  destruct (decide (names_content vg)) as [Hvg|Hvg];
    [|by apply well_along, Reconcile_provision_dynamic].
  unfold Reconcile_provision. apply well_bind, well_along. along_step. cbn [after].
  apply well_bind. intros tr out Hex Hok Hn.
  pose proof (handleStaticProvisionedVG_well vg _ cl Hvg tr out Hex Hok Hn) as Hs.
  destruct out as [[[e static] cur]|]; [|done]. cbn in Hs. subst.
  apply well_along. by eexists.
Qed.

Lemma Reconcile_class_well vg cl : well (Reconcile_class cfg vg cl) returns.
Proof.
  unfold Reconcile_class. apply well_bind, well_along. along_step. cbn [after].
  destruct r as [e|]; [apply well_along; by returning|].
  destruct (IsZero _).
  - apply well_bind, well_along. along_step. destruct r as [[e|] cur]; cbn [after].
    + apply well_along. by returning.
    + apply Reconcile_provision_well.
  - apply well_along. destruct (_ && _); [|by eexists]. apply along_bind.
    eapply along_mono; [apply removeInstance_returns|]. intros ? [[[e|] cur] ->]; cbn [after]; by returning.
Qed.

(** ** The properties *)

(** C26: [Reconcile] of a VolumeGroup always returns, whatever errors and conflicts
    the calls answer with, when the VolumeGroups answered have a selector, the
    contents have a policy and a source, the volumes are CSI volumes, and the
    name of the content stays in the VolumeGroup once it was written. *)
Theorem vg_reconcile_returns tr out :
  executes (Reconcile cfg req) tr out → answers_ok tr → named_stays tr → is_Some out.
Proof.
  intros (r & tr1 & -> & Hrest)%vg_reads Hok Hn. destruct r as [e|vg].
  - destruct (IsNotFound e); naive_solver.
  - cbn zeta in Hrest. case_decide as Hcn; [naive_solver|].
    destruct Hrest as (r2 & tr2 & -> & Hrest). destruct r2 as [e|cl]; [naive_solver|].
    case_decide; [naive_solver|]. apply Forall_cons in Hok as [_ [_ Hok]%Forall_cons].
    apply (Reconcile_class_well vg cl tr2 out Hrest Hok).
    by do 2 eapply named_stays_tail.
Qed.

(** When [Reconcile] reports success, without asking to be called again, on a
    VolumeGroup of the operator's class that is not being deleted, then the
    VolumeGroup has the operator's finalizer and was bound to its content: the
    one it names, or, when it names none, the one made for it, which was read
    and was ready. *)
Theorem vg_success_bound tr vg k cl rest :
  executes (Reconcile cfg req) tr (Some (Result_zero, None)) →
  tr = Ev (CGet KVG req) (inr vg) :: Ev (CGet KVGClass k) (inr cl) :: rest →
  or_empty (vgspec_VolumeGroupClassName (vg_Spec vg)) ≠ ""%string →
  vgclass_Driver cl = DriverName cfg →
  om_DeletionTimestamp (vg_ObjectMeta vg) = None →
  success_bound vg tr.
Proof.
  intros Hex -> Hcn Hdr Hd. apply vg_to_class in Hex; [|done].
  rewrite decide_False in Hex by congruence.
  destruct (vg_class_success _ _ Hd _ _ Hex eq_refl) as (cur & name & Hheld & Hb & Hn).
  exists cur, name. split; [eapply vg_held_mono; [done|sub_history]|].
  split; [eapply bound_mono; [done|sub_history]|].
  destruct Hn as [?|[? Hr]]; [by left|right]. split; [done|].
  eapply content_ready_mono; [done|sub_history].
Qed.

(** When [Reconcile] reports success on a VolumeGroup of the operator's class
    that is being deleted and that only the operator holds, its content was
    absent, kept by policy or deleted, and its finalizer was taken off. *)
Theorem vg_success_let_go tr vg k cl rest :
  executes (Reconcile cfg req) tr (Some (Result_zero, None)) →
  tr = Ev (CGet KVG req) (inr vg) :: Ev (CGet KVGClass k) (inr cl) :: rest →
  or_empty (vgspec_VolumeGroupClassName (vg_Spec vg)) ≠ ""%string →
  vgclass_Driver cl = DriverName cfg →
  vg_deletable vg →
  vg_let_go tr vg.
Proof.
  intros Hex -> Hcn Hdr Hd. apply vg_to_class in Hex; [|done].
  rewrite decide_False in Hex by congruence.
  pose proof (vg_class_let_go _ cl Hd _ _ Hex eq_refl) as Hgo.
  eapply vg_let_go_mono; [exact Hgo|sub_history].
Qed.

(** A VolumeGroup of the class of another driver is left alone: after its
    class is read nothing is called and success is reported. *)
Theorem vg_foreign_untouched vg k cl rest out :
  executes (Reconcile cfg req)
    (Ev (CGet KVG req) (inr vg) :: Ev (CGet KVGClass k) (inr cl) :: rest) out →
  vgclass_Driver cl ≠ DriverName cfg →
  or_empty (vgspec_VolumeGroupClassName (vg_Spec vg)) ≠ ""%string →
  rest = [] ∧ out = Some (Result_zero, None).
Proof.
  intros Hex Hdr Hcn. apply vg_to_class in Hex; [|done].
  by rewrite decide_True in Hex by congruence.
Qed.
End Progress.

(** ** Witnesses: the life cycle *)

#[local] Existing Instance DocExternals.externals.
#[local] Existing Instance DocExternals.laws.

(** The hypotheses on the answers, as tests. *)
Definition has_selectorb (vg : VolumeGroup) : bool := bool_decide (has_selector vg).
Definition names_contentb (vg : VolumeGroup) : bool := bool_decide (names_content vg).

Definition answer_okb (c : call) : resp c → bool :=
  match c with
  | CGet K _ | CUpdate K _ | CStatusUpdate K _ =>
      match K return error + obj_of K → bool with
      | KVG => answeredb has_selectorb
      | KVGC => answeredb (λ vgc,
          bool_decide (is_Some (vgcspec_VolumeGroupDeletionPolicy (vgc_Spec vgc))) &&
          bool_decide (is_Some (vgcspec_Source (vgc_Spec vgc))))
      | KPV => answeredb (λ pv, bool_decide (is_Some (pv_CSI pv)))
      | _ => λ _, true
      end
  | CList K =>
      match K return error + list (obj_of K) → bool with
      | KVG => answeredb (forallb has_selectorb)
      | _ => λ _, true
      end
  | _ => λ _, true
  end.

Lemma answer_okb_sound c r : answer_okb c r = true → answer_with has_selector c r.
Proof.
  destruct c as [K|K| |K|K|K|K| | | | | | |]; try done; destruct K; try done; cbn;
    apply answeredb_sound; intros a; unfold has_selectorb, usable;
    rewrite ?andb_true_iff, ?bool_decide_eq_true; try done.
  rewrite forallb_forall, Forall_forall. intros Hall x Hx.
  specialize (Hall x (proj1 (list_elem_of_In _ _) Hx)). by apply bool_decide_eq_true in Hall.
Qed.

Lemma vg_answers_okb tr :
  forallb (λ e, answer_okb (tr_call e) (tr_resp e)) tr = true → answers_ok tr.
Proof.
  intros Hall. apply Forall_forall. intros e He. apply answer_okb_sound.
  rewrite forallb_forall in Hall. apply Hall. by apply list_elem_of_In.
Qed.

(** A write that names a content is answered with a VolumeGroup that does. *)
Definition write_namedb (e : event) : bool :=
  match tr_call e as c return resp c → bool with
  | CUpdate K o | CStatusUpdate K o =>
      match K return obj_of K → error + obj_of K → bool with
      | KVG => λ o, answeredb (λ v, implb (names_contentb o) (names_contentb v))
      | _ => λ _ _, true
      end o
  | _ => λ _, true
  end (tr_resp e).

(** A read that names a content. *)
Definition read_namedb (e : event) : bool :=
  match got KVG e with Some (inr v) => names_contentb v | _ => true end.

Lemma implb_names o v :
  implb (names_contentb o) (names_contentb v) = true → names_content o → names_content v.
Proof.
  unfold names_contentb. intros Hi Ho. rewrite (bool_decide_true _ Ho) in Hi.
  by apply bool_decide_eq_true in Hi.
Qed.

Lemma named_staysb tr :
  forallb write_namedb tr = true → forallb read_namedb (tail tr) = true → named_stays tr.
Proof.
  rewrite !forallb_forall. setoid_rewrite <- list_elem_of_In. intros Hw Hr. split.
  - intros o v [Hin|Hin]; apply implb_names; exact (Hw _ Hin).
  - intros [|e pre] k v post o w -> Hin _; [by apply elem_of_nil in Hin|].
    assert (Ev (CGet KVG k) (inr v) ∈ tail (e :: pre ++ Ev (CGet KVG k) (inr v) :: post)) as Hget.
    { cbn. apply elem_of_app. right. by left. }
    apply Hr in Hget. unfold read_namedb in Hget. rewrite got_get in Hget.
    by apply bool_decide_eq_true in Hget.
Qed.

Abbreviation provision_run := (run_trace serve Scenario.reconcile_vg Scenario.group_created).
Abbreviation again_run := (run_trace serve Scenario.reconcile_vg Scenario.provisioned).
Abbreviation delete_run := (run_trace serve Scenario.reconcile_vg Scenario.vg_deleting).

(** Provisioning, a second reconciliation (now static), and the deletion. *)
Lemma vg_reconcile_returns_witness :
  is_Some (run_outcome serve Scenario.reconcile_vg Scenario.group_created) ∧
  is_Some (run_outcome serve Scenario.reconcile_vg Scenario.provisioned) ∧
  is_Some (run_outcome serve Scenario.reconcile_vg Scenario.vg_deleting).
Proof.
  split; [|split]; (eapply vg_reconcile_returns;
    [apply (run_executes serve)
    |apply vg_answers_okb; by vm_compute
    |apply named_staysb; by vm_compute]).
Defined.

Abbreviation stored_class := (Scenario.class_in Scenario.content_created).
Abbreviation class_key := (mkNN "" Samples.VGClassName).
Abbreviation new_group := (Scenario.group_in Scenario.group_created).
Abbreviation dying_group := (Scenario.group_in Scenario.vg_deleting).

Lemma provision_run_starts :
  provision_run = Ev (CGet KVG Samples.vg_req) (inr new_group) ::
                  Ev (CGet KVGClass class_key) (inr stored_class) :: drop 2 provision_run.
Proof. by vm_compute. Qed.

Lemma vg_delete_run_starts :
  delete_run = Ev (CGet KVG Samples.vg_req) (inr dying_group) ::
               Ev (CGet KVGClass class_key) (inr stored_class) :: drop 2 delete_run.
Proof. by vm_compute. Qed.

Lemma vg_success_bound_witness :
  run_outcome serve Scenario.reconcile_vg Scenario.group_created = Some (Result_zero, None) ∧
  success_bound new_group provision_run.
Proof.
  assert (run_outcome serve Scenario.reconcile_vg Scenario.group_created =
          Some (Result_zero, None)) as Hout by by vm_compute.
  split; [exact Hout|].
  eapply (vg_success_bound Samples.config Samples.vg_req);
    [rewrite <- Hout; apply (run_executes serve)|exact provision_run_starts|..].
  - by vm_compute.
  - by vm_compute.
  - by vm_compute.
Defined.

Lemma vg_success_let_go_witness :
  run_outcome serve Scenario.reconcile_vg Scenario.vg_deleting = Some (Result_zero, None) ∧
  vg_let_go delete_run dying_group.
Proof.
  assert (run_outcome serve Scenario.reconcile_vg Scenario.vg_deleting =
          Some (Result_zero, None)) as Hout by by vm_compute.
  split; [exact Hout|].
  eapply (vg_success_let_go Samples.config Samples.vg_req);
    [rewrite <- Hout; apply (run_executes serve)|exact vg_delete_run_starts|..].
  - by vm_compute.
  - by vm_compute.
  - split; [by apply (bool_decide_unpack _); vm_compute|].
    split; [by apply (bool_decide_unpack _); vm_compute|].
    apply (proj1 (IsContainOtherFinalizers_false KVG dying_group)). by vm_compute.
Defined.

Abbreviation other_run := (VGController.Reconcile Scenario.other_config Samples.vg_req).

(** The same VolumeGroup for the operator of another driver. *)
Lemma vg_foreign_untouched_witness :
  length (run_trace serve other_run Scenario.vg_deleting) = 2 ∧
  run_outcome serve other_run Scenario.vg_deleting = Some (Result_zero, None).
Proof.
  assert (∃ rest, run_trace serve other_run Scenario.vg_deleting =
    Ev (CGet KVG Samples.vg_req) (inr dying_group) ::
    Ev (CGet KVGClass class_key) (inr stored_class) :: rest) as [rest Hstart].
  { exists (drop 2 (run_trace serve other_run Scenario.vg_deleting)). by vm_compute. }
  destruct (vg_foreign_untouched Scenario.other_config Samples.vg_req dying_group class_key stored_class
              rest (run_outcome serve other_run Scenario.vg_deleting)) as [Hrest Hout].
  - pose proof (run_executes serve other_run Scenario.vg_deleting) as Hex.
    rewrite Hstart in Hex. exact Hex.
  - by vm_compute.
  - by vm_compute.
  - split; [|exact Hout]. by rewrite Hstart, Hrest.
Defined.
