(* ===== verification/Utilities.v ===== *)
(** * Classes, lists and requests

    The functions the controllers share: parameters of a class, lists of claims,
    the VolumeGroups of a driver, the requests a claim starts, generated names,
    waiting for the CRDs. *)

From S2P Require Import Prelude GoLang Api Effects Externals Objects Params VolumeGroups Volumes.
From S2P Require Import Finalizers Driver VolumeGroupContents Membership Predicates VGController.
From S2P Require Import VGCController Histories Cluster Scenario.

(** ** Parameters of a class *)

(** Whatever the order in which the parameters are ranged over, validation
    accepts exactly the classes all of whose parameters with the reserved prefix
    are the two names of the secret, with a value, and filtering returns exactly
    the parameters without the prefix. *)
Theorem class_parameters params :
  ensures (ValidatePrefixedParameters params) (λ _ out,
    ∃ res, out = Some res ∧ (res = None ↔ map_Forall valid_parameter params)) ∧
  ensures (FilterPrefixedParameters VGAsPrefix params) (λ _ out,
    ∃ m, out = Some m ∧
         ∀ k v, m !! k = Some v ↔ params !! k = Some v ∧ str_HasPrefix k VGAsPrefix = false).
Proof.
  split; intros tr out Hex.
  - destruct (triple_sound _ _ _ _ _ (spec_triple (Spec := ValidatePrefixedParameters_spec params)) Hex)
      as [Ho _].
    destruct out as [res|]; [by exists res|done].
  - destruct (triple_sound _ _ _ _ _ (spec_triple (Spec := FilterPrefixedParameters_spec VGAsPrefix params)) Hex)
      as [-> _].
    eexists. split; [done|]. intros k v. by rewrite map_lookup_filter_Some.
Qed.

(** ** Lists of claims *)

(** The lists of claims are sets of keys: adding a claim and removing one keep
    them without repetition and change the key of that claim only; a claim is
    found in a list exactly when its key is there. *)
Theorem claim_lists_are_sets pvc l :
  NoDup (pvc_keys l) →
  (IsPVCInPVCList pvc l = true ↔ pvc_key pvc ∈ pvc_keys l) ∧
  (NoDup (pvc_keys (appendPVC l pvc)) ∧
   ∀ k, k ∈ pvc_keys (appendPVC l pvc) ↔ k ∈ pvc_keys l ∨ k = pvc_key pvc) ∧
  (NoDup (pvc_keys (removeFromPVCList pvc l)) ∧
   ∀ k, k ∈ pvc_keys (removeFromPVCList pvc l) ↔ k ∈ pvc_keys l ∧ k ≠ pvc_key pvc).
Proof.
  intros Hl. split; [apply IsPVCInPVCList_spec|]. split.
  - split; [by apply NoDup_pvc_keys_append|intros k; apply elem_of_appendPVC].
  - by apply NoDup_pvc_keys_remove.
Qed.

Lemma claim_lists_are_sets_witness :
  pvc_keys (appendPVC [Samples.PVC "a" "pv-a"] (Samples.PVC "b" "pv-b")) =
    [mkNN "default" "a"; mkNN "default" "b"] ∧
  NoDup (pvc_keys (appendPVC [Samples.PVC "a" "pv-a"] (Samples.PVC "b" "pv-b"))).
Proof.
  split; [by vm_compute|].
  apply (claim_lists_are_sets (Samples.PVC "b" "pv-b") [Samples.PVC "a" "pv-a"]).
  apply NoDup_singleton.
Defined.

(** ** Completing a content *)

(** Completing a content from a class fills what is missing and nothing else:
    a second completion, with any class, changes nothing; the source, the
    reference, the metadata and the status stay; and the content then names its
    class, its deletion policy and its secret. *)
Theorem updateStaticVGCSpec_fills cl cl' vgc :
  let done := updateStaticVGCSpec cl vgc in
  let s := vgc_Spec vgc in
  updateStaticVGCSpec cl' done = done ∧
  vgc_ObjectMeta done = vgc_ObjectMeta vgc ∧ vgc_Status done = vgc_Status vgc ∧
  vgcspec_Source (vgc_Spec done) = vgcspec_Source s ∧
  vgcspec_VolumeGroupRef (vgc_Spec done) = vgcspec_VolumeGroupRef s ∧
  vgcspec_VolumeGroupClassName (vgc_Spec done) =
    Some (default (GetName KVGClass cl) (vgcspec_VolumeGroupClassName s)) ∧
  vgcspec_VolumeGroupDeletionPolicy (vgc_Spec done) =
    Some (default (default VolumeGroupContentDelete (vgclass_VolumeGroupDeletionPolicy cl))
            (vgcspec_VolumeGroupDeletionPolicy s)) ∧
  vgcspec_VolumeGroupSecretRef (vgc_Spec done) =
    Some (default {| sr_Name := or_empty (vgclass_Parameters cl !! PrefixedVGSecretNameKey);
                     sr_Namespace :=
                       or_empty (vgclass_Parameters cl !! PrefixedVGSecretNamespaceKey) |}
            (vgcspec_VolumeGroupSecretRef s)).
Proof.
  destruct vgc as [tm om [cn ref src pol snap sec] st].
  unfold updateStaticVGCSpec, GetSecretCred, getVolumeGroupDeletionPolicy. cbn.
  destruct cn, pol, sec, (vgclass_VolumeGroupDeletionPolicy cl); cbn; by split_all.
Qed.

(** Completing a thin content writes the policy Retain where none is given (or
    an empty one) and leaves everything else. *)
Theorem updateThinVGCSpec_policy vgc :
  updateThinVGCSpec vgc =
    Ret (if decide (or_empty (vgcspec_VolumeGroupDeletionPolicy (vgc_Spec vgc)) = "")%string
         then set_vgc_policy (Some VolumeGroupContentRetain) vgc else vgc).
Proof.
  unfold updateThinVGCSpec. rewrite GetStringField_vgc_policy. unfold or_panic.
  cbn [mbind prog_bind]. by case_decide.
Qed.

(** ** Generated names *)

Lemma length_string_of_list l : String.length (String.string_of_list_ascii l) = length l.
Proof. induction l as [|c l IH]; cbn; congruence. Qed.

Lemma get_in_string n s : n < String.length s →
  ∃ c, String.get n s = Some c ∧ c ∈ String.list_ascii_of_string s.
Proof.
  revert n. induction s as [|c s IH]; intros n Hn; [cbn in Hn; lia|].
  destruct n as [|n]; cbn.
  - exists c. split; [done|by left].
  - destruct (IH n) as (c' & Hc & Hin); [cbn in Hn; lia|]. exists c'. split; [done|by right].
Qed.

Lemma letter_in n : letter n ∈ String.list_ascii_of_string letterBytes.
Proof.
  unfold letter. destruct (get_in_string (n mod String.length letterBytes) letterBytes)
    as (c & -> & Hin); [by apply Nat.mod_upper_bound|done].
Qed.

(** A generated suffix has sixteen characters, each one of [letterBytes]. *)
Theorem generateString_letters :
  ensures generateString (λ _ out, ∃ s, out = Some s ∧ String.length s = 16 ∧
    Forall (λ c, c ∈ String.list_ascii_of_string letterBytes) (String.list_ascii_of_string s)).
Proof.
  apply wp_ensures. unfold generateString. repeat wp_step. eexists. split; [done|].
  rewrite length_string_of_list, length_fmap, length_seq. split; [done|].
  rewrite String.list_ascii_of_string_of_list_ascii. apply Forall_fmap, Forall_true.
  intros i. apply letter_in.
Qed.

(** ** Requests started by a claim *)

Section Requests.
Context `{ExternalLaws}.

(** A claim starts a request for exactly the VolumeGroups whose selector
    selects its labels, in the order of the list; but when the selector of any
    VolumeGroup of the cluster is invalid, or the list fails, for none. *)
Theorem CreateRequests_selected pvc :
  ensures (CreateRequests pvc) (λ tr out,
    (∃ vgs, tr = [Ev (CList KVG) (inr vgs)] ∧
       (Forall selector_ok vgs →
          out = Some (key_of KVG <$> filter (λ vg, selects (om_Labels (pvc_ObjectMeta pvc)) vg = true) vgs)) ∧
       (¬ Forall selector_ok vgs → out = Some [])) ∨
    (∃ e, tr = [Ev (CList KVG) (inl e)] ∧ out = Some [])).
Proof.
  intros tr out (r & tr' & -> & Hex)%executes_trigger_inv. destruct r as [e|vgs].
  - right. apply executes_ret_inv in Hex as [-> ->]. by exists e.
  - left. apply executes_ret_inv in Hex as [-> ->]. exists vgs. split; [done|]. split.
    + intros Hok. by rewrite CreateRequests_loop_ok.
    + intros Hbad. by rewrite CreateRequests_loop_bad.
Qed.

(** ** The VolumeGroups of a driver *)

Abbreviation class_name vg := (or_empty (vgspec_VolumeGroupClassName (vg_Spec vg))).

(** A class the operator would take the VolumeGroup for its own by. *)
Definition own_vg (tr : history) (driver : string) (vg : VolumeGroup) : Prop :=
  ∃ cl, Ev (CGet KVGClass (mkNN "" (class_name vg))) (inr cl) ∈ tr ∧ vgclass_Driver cl = driver.

(** A VolumeGroup of another driver, or whose class does not exist. *)
Definition other_vg (tr : history) (driver : string) (vg : VolumeGroup) : Prop :=
  (∃ cl, Ev (CGet KVGClass (mkNN "" (class_name vg))) (inr cl) ∈ tr ∧ vgclass_Driver cl ≠ driver) ∨
  (∃ e, Ev (CGet KVGClass (mkNN "" (class_name vg))) (inl e) ∈ tr ∧ IsNotFound e = true).

Lemma own_vg_mono tr tr' d vg : own_vg tr d vg → tr ⊆ tr' → own_vg tr' d vg.
Proof. intros (cl & Hin & Hd) Hsub. exists cl. auto. Qed.

Lemma other_vg_mono tr tr' d vg : other_vg tr d vg → tr ⊆ tr' → other_vg tr' d vg.
Proof. intros [(cl & Hin & Hd)|(e & Hin & He)] Hsub; [left|right]; eauto. Qed.

Lemma isVGHasMatchingDriver_history vg driver :
  ensures (isVGHasMatchingDriver vg driver) (λ tr out,
    is_Some out ∧ (class_name vg = ""%string → ∃ e, out = Some (inl e)) ∧
    (out = Some (inr true) → own_vg tr driver vg) ∧
    (out = Some (inr false) → other_vg tr driver vg)).
Proof.
  apply wp_ensures. unfold isVGHasMatchingDriver, getVGClassDriver, GetVGClass.
  rewrite GetStringField_vg_class. repeat wp_step; (split; [by eexists|]).
  - unfold Errorf in Heqb. by rewrite IsNotFound_string in Heqb.
  - split; [eauto|done].
  - split; [done|]. split; [done|]. intros _. right. exists e. split; [by left|].
    by destruct (IsNotFound e).
  - by split_all; eauto.
  - split; [done|]. split; intros Heq; simplify_eq.
    + exists o. split; [by left|by apply bool_decide_eq_true in Heq].
    + left. exists o. split; [by left|by apply bool_decide_eq_false in Heq].
Qed.

(** What the loop finds in a list of VolumeGroups. *)
Definition found (tr : history) (driver : string) (vgs l : list VolumeGroup) : Prop :=
  l `sublist_of` vgs ∧ Forall (own_vg tr driver) l ∧
  Forall (λ vg, (own_vg tr driver vg ∧ vg ∈ l) ∨ other_vg tr driver vg) vgs.

Lemma found_mono tr tr' d vgs l : found tr d vgs l → tr ⊆ tr' → found tr' d vgs l.
Proof.
  intros (Hs & Hl & Hv) Hsub. unfold found. split_all; [done|..].
  - eapply Forall_impl; [exact Hl|]. intros vg Hvg. by eapply own_vg_mono.
  - eapply Forall_impl; [exact Hv|]. intros vg [[Ho ?]|Ho]; [left|right].
    + split; [by eapply own_vg_mono|done].
    + by eapply other_vg_mono.
Qed.

Lemma getProvisionedVGs_loop_found driver vgs acc :
  ensures (getProvisionedVGs_loop vgs driver acc) (λ tr out,
    (∀ l, out = Some (inr l) → ∃ l', l = acc ++ l' ∧ found tr driver vgs l') ∧
    (∀ vg, vg ∈ vgs → class_name vg = ""%string → ∃ e, out = Some (inl e))).
Proof.
  revert acc. induction vgs as [|vg vgs IH]; intros acc; apply wp_ensures;
    cbn [getProvisionedVGs_loop].
  { cbn. split; [|by intros vg Hin%elem_of_nil]. intros l Heq. simplify_eq. exists [].
    rewrite app_nil_r. unfold found. by split_all. }
  wp_step. wp_with isVGHasMatchingDriver_history.
  intros tr1 [[e|b]|] _ (Hret & Hempty & Hown & Hother); cbn [after].
  - cbn. split; [done|eauto].
  - assert (∀ acc', (b = true → acc' = acc ++ [vg]) → (b = false → acc' = acc) →
      wp (λ _ _, True) (λ tr out,
        (∀ l, out = Some (inr l) → ∃ l', l = acc ++ l' ∧ found tr driver (vg :: vgs) l') ∧
        (∀ vg0, vg0 ∈ vg :: vgs → class_name vg0 = ""%string → ∃ e, out = Some (inl e)))
        (getProvisionedVGs_loop vgs driver acc') ([] ++ tr1)) as Hrest.
    { intros acc' Htrue Hfalse. eapply wp_execs; [done|]. intros tr2 out Hex.
      destruct (IH acc' tr2 out Hex) as [Hl He]. split.
      - intros l Heq. destruct (Hl l Heq) as (l' & -> & Hf).
        apply (found_mono _ (([] ++ tr1) ++ tr2)) in Hf as (Hs & Ho & Hv); [|sub_history].
        destruct b.
        + specialize (Hown eq_refl). eapply own_vg_mono in Hown;
            [|instantiate (1 := ([] ++ tr1) ++ tr2); sub_history].
          exists (vg :: l'). rewrite (Htrue eq_refl), <- app_assoc. split; [done|].
          split; [by constructor|]. split; [by constructor|]. constructor.
          * left. split; [done|by left].
          * eapply Forall_impl; [exact Hv|]. intros x [[? ?]|?]; [left|by right].
            split; [done|by right].
        + specialize (Hother eq_refl). eapply other_vg_mono in Hother;
            [|instantiate (1 := ([] ++ tr1) ++ tr2); sub_history].
          exists l'. rewrite (Hfalse eq_refl). split; [done|].
          split; [by constructor|]. split; [done|]. constructor; [by right|done].
      - intros vg0 [->|Hin]%elem_of_cons Hcn; [|by eapply He].
        destruct (Hempty Hcn) as [e Heq]. by simplify_eq. }
    destruct b; by apply Hrest.
  - by destruct Hret.
Qed.

(** Listing the VolumeGroups of a driver gives, in the order of the cluster,
    those whose class was read and names the driver, and leaves out those whose
    class names another or does not exist. *)
Theorem GetVGList_exact driver :
  ensures (GetVGList driver) (λ tr out, ∀ l, out = Some (inr l) →
    ∃ vgs, Ev (CList KVG) (inr vgs) ∈ tr ∧ found tr driver vgs l).
Proof.
  apply wp_ensures. unfold GetVGList, getProvisionedVGs. wp_step. apply wp_trigger; [done|].
  intros [e|vgs]; cbn [after]; [repeat wp_step; naive_solver|].
  wp_step. eapply wp_execs; [done|]. intros tr0 out Hex.
  destruct (getProvisionedVGs_loop_found driver vgs [] tr0 out Hex) as [Hl _].
  destruct out as [[e|l]|]; cbn [after]; repeat wp_step; [naive_solver| |done].
  intros l' Heq. simplify_eq. destruct (Hl l' eq_refl) as (l & -> & Hf).
  exists vgs. split; [solve_event|]. eapply found_mono; [exact Hf|sub_history].
Qed.

(** One VolumeGroup of the cluster without a class name makes the listing fail,
    for every driver. *)
Theorem GetVGList_fails_without_class driver vgs vg tr out :
  executes (GetVGList driver) (Ev (CList KVG) (inr vgs) :: tr) out →
  vg ∈ vgs → class_name vg = ""%string → ∃ e, out = Some (inl e).
Proof.
  intros (r & tr' & Heq & Hex)%executes_trigger_inv Hin Hcn.
  apply cons_event_inj in Heq as [Heq <-]. apply (list_event_inj KVG) in Heq as <-.
  apply executes_bind_inv in Hex as [(tr1 & tr2 & r & -> & H1 & H2)|[H1 ->]].
  - destruct (getProvisionedVGs_loop_found _ _ _ _ _ H1) as [_ He].
    destruct (He vg Hin Hcn) as [e Heq]. simplify_eq. apply executes_ret_inv in H2 as [_ ->]. eauto.
  - destruct (getProvisionedVGs_loop_found _ _ _ _ _ H1) as [_ He].
    destruct (He vg Hin Hcn) as [e Heq]. by simplify_eq.
Qed.

(** ** Waiting for the CRDs *)

(** [n] rounds in which the kind is not known. *)
Fixpoint rounds (kind : string) (n : nat) (tr : history) : Prop :=
  match n with
  | 0 => tr = []
  | S n => ∃ e tr', tr = Ev (CListUnstructured kind) (Some e) :: Ev (CSleep 5000000000) tt :: tr' ∧
                    IsNoMatchError e = true ∧ rounds kind n tr'
  end.

Lemma waitForVGResource_rounds fuel kind :
  ensures (waitForVGResource fuel kind) (λ tr out,
    (rounds kind fuel tr ∧ out = Some None) ∨
    ∃ n tr0 r, n < fuel ∧ rounds kind n tr0 ∧ tr = tr0 ++ [Ev (CListUnstructured kind) r] ∧
      out = Some (Some r) ∧ ∀ e, r = Some e → IsNoMatchError e = false).
Proof.
  induction fuel as [|fuel IH]; intros tr out Hex; cbn [waitForVGResource] in Hex.
  { left. by apply executes_ret_inv in Hex as [-> ->]. }
  apply executes_trigger_inv in Hex as (r & tr1 & -> & Hex).
  destruct r as [e|]; [destruct (IsNoMatchError e) eqn:He; cbn [negb] in Hex|].
  - apply executes_trigger_inv in Hex as ([] & tr2 & -> & Hex).
    destruct (IH tr2 out Hex) as [[Hr ->]|(n & tr0 & r & Hn & Hr & -> & -> & Hlast)].
    + left. split; [|done]. by exists e, tr2.
    + right. exists (S n), (Ev (CListUnstructured kind) (Some e) :: Ev (CSleep 5000000000) tt :: tr0), r.
      split_all; try done; [lia|]. by exists e, tr0.
  - apply executes_ret_inv in Hex as [-> ->]. right. exists 0, [], (Some e).
    split_all; try done; [lia|]. intros e' Heq. by simplify_eq.
  - apply executes_ret_inv in Hex as [-> ->]. right. exists 0, [], None.
    split_all; try done. lia.
Qed.

Definition crds : list string := ["VolumeGroup"; "VolumeGroupClass"; "VolumeGroupContent"]%string.

(** C33: waiting for the CRDs ends with success only when each of the three kinds
    was listed, with an error only when a list failed otherwise than by not
    knowing the kind, and goes on only as long as a kind is not known: the fuel
    runs out only after that many such answers for one kind. *)
Theorem waitForCrds_outcome fuel :
  ensures (waitForCrds fuel) (λ tr out,
    (out = Some (Some None) ∧ Forall (λ kind, Ev (CListUnstructured kind) None ∈ tr) crds) ∨
    (∃ e kind, out = Some (Some (Some e)) ∧ IsNoMatchError e = false ∧
               kind ∈ crds ∧ Ev (CListUnstructured kind) (Some e) ∈ tr) ∨
    (∃ kind tr1 tr2 , out = Some None ∧ kind ∈ crds ∧ tr = tr1 ++ tr2 ∧ rounds kind fuel tr2)).
Proof.
  apply wp_ensures. unfold waitForCrds.
  wp_step. eapply wp_execs; [done|]. intros tr1 o1 H1.
  destruct (waitForVGResource_rounds _ _ _ _ H1) as [[Hr1 ->]|(n1 & t1 & r1 & _ & _ & -> & -> & L1)];
    cbn [after].
  { right. right. exists "VolumeGroup"%string, [], tr1. split_all; try done. by left. }
  destruct r1 as [e|].
  { right. left. exists e, "VolumeGroup"%string. split_all; [done|by apply L1|by left|solve_event]. }
  wp_step. eapply wp_execs; [done|]. intros tr2 o2 H2.
  destruct (waitForVGResource_rounds _ _ _ _ H2) as [[Hr2 ->]|(n2 & t2 & r2 & _ & _ & -> & -> & L2)];
    cbn [after].
  { right. right. exists "VolumeGroupClass"%string. do 2 eexists.
    split_all; [done|by right; left|done|done]. }
  destruct r2 as [e|].
  { right. left. exists e, "VolumeGroupClass"%string.
    split_all; [done|by apply L2|by right; left|solve_event]. }
  eapply wp_execs; [done|]. intros tr3 o3 H3.
  destruct (waitForVGResource_rounds _ _ _ _ H3) as [[Hr3 ->]|(n3 & t3 & r3 & _ & _ & -> & -> & L3)].
  { right. right. exists "VolumeGroupContent"%string. do 2 eexists.
    split_all; [done|by right; right; left|done|done]. }
  destruct r3 as [e|].
  { right. left. exists e, "VolumeGroupContent"%string.
    split_all; [done|by apply L3|by right; right; left|solve_event]. }
  left. split; [done|]. repeat constructor; solve_event.
Qed.
End Requests.

(** ** Witnesses *)

#[local] Existing Instance DocExternals.externals.
#[local] Existing Instance DocExternals.laws.

(** The sample VolumeGroup, and one without a class in another namespace. *)
Definition classless : VolumeGroup :=
  {| vg_TypeMeta := Samples.no_type; vg_ObjectMeta := Samples.meta "other" "elsewhere";
     vg_Spec := {| vgspec_VolumeGroupClassName := None;
                   vgspec_Source := vgspec_Source (vg_Spec Samples.VG) |};
     vg_Status := vg_Status Samples.VG |}.

Definition with_classless : cluster := Samples.add KVG classless Samples.with_vg.
Abbreviation list_groups := (GetVGList Samples.DriverName).

Lemma GetVGList_fails_without_class_witness :
  (∃ l, run_outcome serve list_groups Samples.with_vg = Some (inr l)) ∧
  ∃ e, run_outcome serve list_groups with_classless = Some (inl e).
Proof.
  split; [by vm_compute; eexists|].
  assert (∃ vg vgs rest, run_trace serve list_groups with_classless =
            Ev (CList KVG) (inr vgs) :: rest ∧ vg ∈ vgs ∧
            or_empty (vgspec_VolumeGroupClassName (vg_Spec vg)) = ""%string)
    as (vg & vgs & rest & Hstart & Hin & Hcn).
  { exists (default classless (store with_classless KVG !! mkNN "elsewhere" "other")),
      (snd <$> map_to_list (store with_classless KVG)),
      (drop 1 (run_trace serve list_groups with_classless)).
    split; [by vm_compute|]. split; [|by vm_compute].
    by apply (bool_decide_unpack _); vm_compute. }
  eapply (GetVGList_fails_without_class Samples.DriverName vgs vg rest); [|exact Hin|exact Hcn].
  pose proof (run_executes serve list_groups with_classless) as Hex. rewrite Hstart in Hex. exact Hex.
Defined.
