(* ===== verification/Retries.v ===== *)
(** * Updates repeated on a conflict

    What the repeated updates of finalizers and of the status send, and how
    often. *)

From S2P Require Import Prelude GoLang Api Effects Externals Objects Params VolumeGroups Volumes.
From S2P Require Import Finalizers Driver VolumeGroupContents Membership VGController.
From S2P Require Import VGCController Histories Cluster Scenario.

Section Retries.
Context `{ExternalLaws}.

(** The object last read, or the one started from. *)
Definition seen (K : Kind) (obj : obj_of K) (tr : history) (cur : obj_of K) : Prop :=
  cur = obj ∨ ∃ k, Ev (CGet K k) (inr cur) ∈ tr.

Lemma seen_app K obj tr tr' cur : seen K obj tr cur → seen K obj (tr ++ tr') cur.
Proof. intros [->|[k Hin]]; [by left|right]. exists k. apply elem_of_app. by left. Qed.

(** The calls of a repeated write: what it sends is [f] of an object seen; the
    reads are of the object written. *)
Definition repeats (K : Kind) (obj : obj_of K) (f : obj_of K → call) (tr : history) (c : call) : Prop :=
  (∃ cur, seen K obj tr cur ∧ c = f cur) ∨ ∃ k, c = CGet K k.

(** Before an attempt: what it would send is what an object seen would send. *)
Definition ready_to_send (K : Kind) (obj : obj_of K) (g : obj_of K → obj_of K) (tr : history)
    (s : obj_of K) : Prop := ∃ cur, seen K obj tr cur ∧ g s = g cur.

Lemma ready_to_send_app K obj g tr tr' s :
  ready_to_send K obj g tr s → ready_to_send K obj g (tr ++ tr') s.
Proof. intros (cur & Hs & Hg). exists cur. split; [by apply seen_app|done]. Qed.

Lemma SetFinalizers_twice K fs (o : obj_of K) :
  SetFinalizers K fs (SetFinalizers K fs o) = SetFinalizers K fs o.
Proof. by destruct K, o as [? []]. Qed.

(** Runs an attempt after its update; [Hagain] says the object sent can be sent
    again. *)
Ltac attempt_rest Hagain :=
  repeat first [ apply wp_trigger; [right; by eexists|intros ?] | wp_step ];
  (split; [done|]); intros; cbn [fst snd] in *; simplify_eq;
  first
    [ apply Hagain
    | rewrite <- (app_nil_r (_ ++ _)); apply Hagain
    | eexists; split; [right; eexists; solve_event|reflexivity] ].

(** How an attempt must end. *)
Abbreviation attempt_ends I :=
  (λ tr, after (λ r, True ∧ ∀ e, fst r = Some e → IsConflict e = true → I tr (snd r)) True).

Lemma finalizerRetry_wp K fs obj s tr :
  ready_to_send K obj (SetFinalizers K fs) tr s →
  wp (repeats K obj (λ cur, CUpdate K (SetFinalizers K fs cur)))
    (attempt_ends (ready_to_send K obj (SetFinalizers K fs)))
    (finalizerRetryOnConflictFunc K fs s) tr.
Proof.
  intros Hs. unfold finalizerRetryOnConflictFunc, UpdateObject, getNamespacedObject.
  do 2 wp_step. apply wp_trigger.
  { destruct Hs as (cur & Hc & Hg). left. exists cur. by rewrite Hg. }
  intros r.
  assert (∀ tr', ready_to_send K obj (SetFinalizers K fs) ((tr ++ [Ev (CUpdate K (SetFinalizers K fs s)) r]) ++ tr')
                   (SetFinalizers K fs s)) as Hagain.
  { intros tr'. do 2 apply ready_to_send_app. destruct Hs as (cur & Hc & Hg). exists cur.
    split; [done|]. by rewrite SetFinalizers_twice. }
  destruct r as [e|o]; attempt_rest Hagain.
Qed.

Lemma statusRetry_wp (g : VolumeGroup → VolumeGroup) vg s tr :
  (∀ x, g (g x) = g x) →
  ready_to_send KVG vg g tr s →
  wp (repeats KVG vg (λ cur, CStatusUpdate KVG (g cur)))
    (attempt_ends (ready_to_send KVG vg g)) (vgRetryOnConflictFunc (g s)) tr.
Proof.
  intros Hg2 Hs. unfold vgRetryOnConflictFunc, updateVGStatus, UpdateObjectStatus, getNamespacedObject.
  do 3 wp_step. apply wp_trigger.
  { destruct Hs as (cur & Hc & Hg). left. exists cur. by rewrite Hg. }
  intros r.
  assert (∀ tr', ready_to_send KVG vg g ((tr ++ [Ev (CStatusUpdate KVG (g s)) r]) ++ tr') (g s))
    as Hagain.
  { intros tr'. do 2 apply ready_to_send_app. destruct Hs as (cur & Hc & Hg). exists cur.
    split; [done|]. by rewrite Hg2. }
  destruct r as [e|o]; attempt_rest Hagain.
Qed.

(** How many calls satisfy a predicate. *)
Definition count_calls (p : call → bool) (tr : history) : nat :=
  length (filter (λ e, p (tr_call e) = true) tr).

Lemma count_calls_app p tr tr' : count_calls p (tr ++ tr') = count_calls p tr + count_calls p tr'.
Proof. unfold count_calls. by rewrite filter_app, length_app. Qed.

(** Repeating an operation repeats its calls at most [retries] times more. *)
Lemma retry_count {St} p k (fn : St → prog (option error * St)) s :
  (∀ s, ensures (fn s) (λ tr _, count_calls p tr ≤ k)) →
  ensures (RetryOnConflict fn s) (λ tr _, count_calls p tr ≤ S retries * k).
Proof.
  intros Hfn. rewrite RetryOnConflict_spec. revert s.
  induction retries as [|n IH]; intros s; apply wp_ensures; cbn [retry_attempts]; apply wp_bind.
  all: eapply wp_execs; [done|]; intros tr out Hex; cbn [app];
    pose proof (Hfn s tr out Hex) as Hk.
  all: destruct out as [[[e|] s']|]; cbn [after]; try (repeat wp_step; lia).
  destruct (IsConflict e); [|repeat wp_step; lia].
  eapply wp_execs; [done|]. intros tr' out' Hex'. rewrite count_calls_app.
  specialize (IH s' tr' out' Hex'). cbn in IH |- *. lia.
Qed.

Definition is_update (K : Kind) (c : call) : bool :=
  match c with CUpdate K' _ => bool_decide (K' = K) | _ => false end.
Definition is_status_update (K : Kind) (c : call) : bool :=
  match c with CStatusUpdate K' _ => bool_decide (K' = K) | _ => false end.

Lemma count_calls_cons p c r tr :
  count_calls p (Ev c r :: tr) = (if p c then 1 else 0) + count_calls p tr.
Proof. unfold count_calls. rewrite filter_cons. cbn. by destruct (p c). Qed.

(** An attempt writes once. *)
Lemma finalizerRetry_count K fs s :
  ensures (finalizerRetryOnConflictFunc K fs s) (λ tr _, count_calls (is_update K) tr ≤ 1).
Proof.
  apply wp_ensures. unfold finalizerRetryOnConflictFunc, UpdateObject, getNamespacedObject.
  repeat wp_step; rewrite <- ?app_assoc; cbn [app]; rewrite ?count_calls_cons; cbn;
    case_bool_decide; lia.
Qed.

Lemma statusRetry_count s :
  ensures (vgRetryOnConflictFunc s) (λ tr _, count_calls (is_status_update KVG) tr ≤ 1).
Proof.
  apply wp_ensures.
  unfold vgRetryOnConflictFunc, updateVGStatus, UpdateObjectStatus, getNamespacedObject.
  repeat wp_step; rewrite <- ?app_assoc; cbn [app]; rewrite ?count_calls_cons; cbn;
    repeat case_bool_decide; lia.
Qed.

(** C32: adding or removing a finalizer writes at most one time more than the
    number of retries, and every write carries the list of finalizers computed
    before the first one, put on the object given or on the object read after a
    conflict: the finalizers that object has when it is read again do not
    matter. *)
Theorem updateFinalizer_writes K fs obj :
  guarded (updateFinalizer K fs obj) (repeats K obj (λ cur, CUpdate K (SetFinalizers K fs cur))) ∧
  ensures (updateFinalizer K fs obj) (λ tr _, count_calls (is_update K) tr ≤ S retries).
Proof.
  split.
  - apply wp_guarded. unfold updateFinalizer.
    apply (wp_retry _ _ (ready_to_send K obj (SetFinalizers K fs))).
    + intros tr s Hs. by apply finalizerRetry_wp.
    + exists obj. split; [by left|done].
  - intros tr out Hex. rewrite <- (Nat.mul_1_r (S retries)).
    by eapply (retry_count _ 1 (finalizerRetryOnConflictFunc K fs)); [apply finalizerRetry_count|].
Qed.

(** A status update repeated on a conflict. *)
Lemma retried_status_writes (g : VolumeGroup → VolumeGroup) vg :
  (∀ x, g (g x) = g x) →
  guarded (RetryOnConflict (λ s, vgRetryOnConflictFunc (g s)) vg)
    (repeats KVG vg (λ cur, CStatusUpdate KVG (g cur))) ∧
  ensures (RetryOnConflict (λ s, vgRetryOnConflictFunc (g s)) vg)
    (λ tr _, count_calls (is_status_update KVG) tr ≤ S retries).
Proof.
  intros Hg. split.
  - apply wp_guarded. apply (wp_retry _ _ (ready_to_send KVG vg g)).
    + intros tr s Hs. by apply statusRetry_wp.
    + exists vg. split; [by left|done].
  - intros tr out Hex. rewrite <- (Nat.mul_1_r (S retries)).
    by eapply (retry_count _ 1 (λ s, vgRetryOnConflictFunc (g s)));
      [intros s; apply statusRetry_count|].
Qed.

(** What follows only returns. *)
Lemma tail_writes {A B} (p : prog A) (f : A → prog B) G (Q : history → Prop) :
  (∀ a, ∃ b, f a = Ret b) →
  guarded p G ∧ ensures p (λ tr _, Q tr) →
  guarded (r ← p; f r) G ∧ ensures (r ← p; f r) (λ tr _, Q tr).
Proof.
  intros Hf [HG HQ].
  assert (∀ tr out, executes (r ← p; f r) tr out → ∃ out', executes p tr out') as Hp.
  { intros tr out [(tr1 & tr2 & a & -> & H1 & H2)|[H1 ->]]%executes_bind_inv; [|by eexists].
    destruct (Hf a) as [b Hb]. rewrite Hb in H2. apply executes_inv in H2 as [-> _].
    rewrite app_nil_r. by eexists. }
  split.
  - intros tr out pre e post Hex Heq. destruct (Hp _ _ Hex) as [out' Hex']. by eapply HG.
  - intros tr out Hex. destruct (Hp _ _ Hex) as [out' Hex']. by eapply HQ.
Qed.

(** Storing the list of claims of a VolumeGroup, or its error, writes the status
    at most one time more than the number of retries; every write is the
    VolumeGroup given, or the one read after a conflict, with that list, or that
    error, put in its status and nothing else changed. *)
Theorem vg_status_writes vg l message :
  (guarded (updateVGStatusPVCList vg l)
     (repeats KVG vg (λ cur, CStatusUpdate KVG (set_vg_PVCList l cur))) ∧
   ensures (updateVGStatusPVCList vg l)
     (λ tr _, count_calls (is_status_update KVG) tr ≤ S retries)) ∧
  (guarded (UpdateVGStatusError vg message)
     (repeats KVG vg (λ cur, CStatusUpdate KVG
        (set_vg_Error (Some {| vge_Time := None; vge_Message := Some message |}) cur))) ∧
   ensures (UpdateVGStatusError vg message)
     (λ tr _, count_calls (is_status_update KVG) tr ≤ S retries)).
Proof.
  split; apply tail_writes; try (intros [[e|] v]; by eexists); by apply retried_status_writes.
Qed.

(** An attempt that meets a conflict, and one that succeeds. *)
Lemma finalizerRetry_conflict K fs s o e :
  IsConflict e = true →
  ∃ m, executes (finalizerRetryOnConflictFunc K fs s)
         [Ev (CUpdate K (SetFinalizers K fs s)) (inl e);
          Ev (CGet K (key_of K (SetFinalizers K fs s))) (inr o)]
         (Some (Some (WrapError m e), o)).
Proof.
  intros He. eexists. unfold finalizerRetryOnConflictFunc, UpdateObject, getNamespacedObject.
  eapply (executes_bind _ _ [_] [_]).
  - apply (executes_bind _ _ [_] [] (inl e)); repeat constructor.
  - cbn beta iota delta [on_err]. rewrite IsConflict_wrap, He.
    apply (executes_bind _ _ [_] [] (None, o)); [|constructor].
    apply (executes_bind _ _ [_] [] (inr o)); repeat constructor.
Qed.

Lemma finalizerRetry_success K fs s o :
  executes (finalizerRetryOnConflictFunc K fs s)
    [Ev (CUpdate K (SetFinalizers K fs s)) (inr o)] (Some (None, o)).
Proof.
  unfold finalizerRetryOnConflictFunc, UpdateObject.
  apply (executes_bind _ _ [_] [] (None, o)); [|constructor].
  apply (executes_bind _ _ [_] [] (inr o)); repeat constructor.
Qed.

(** C37: when the update that adds the operator's finalizer meets a conflict, the
    VolumeGroup is read again and its finalizers are overwritten by those of the
    first read: one that someone else added in between is lost. *)
Theorem AddFinalizerToVG_overwrites vg vg' o e :
  VGFinalizer ∉ GetFinalizers KVG vg → IsConflict e = true → 0 < retries →
  let fs := GetFinalizers KVG vg ++ [VGFinalizer] in
  executes (AddFinalizerToVG vg)
    [Ev (CUpdate KVG (SetFinalizers KVG fs vg)) (inl e);
     Ev (CGet KVG (key_of KVG vg)) (inr vg');
     Ev (CUpdate KVG (SetFinalizers KVG fs vg')) (inr o)]
    (Some (None, o)).
Proof.
  intros Hnot He Hret fs. apply Contains_false in Hnot.
  unfold AddFinalizerToVG, updateFinalizer. rewrite Hnot. cbn [negb].
  rewrite RetryOnConflict_spec. destruct retries as [|n]; [lia|]. cbn [retry_attempts].
  destruct (finalizerRetry_conflict KVG fs (SetFinalizers KVG fs vg) vg' e He) as (m & Hex1).
  pose proof (finalizerRetry_success KVG fs vg' o) as Hex2.
  rewrite SetFinalizers_twice in Hex1. rewrite GetFinalizers_Set.
  apply (executes_bind _ _ [_; _; _] [] (None, o)); [|constructor].
  apply (executes_bind _ _ [_; _] [_] (Some (WrapError m e), vg') _ Hex1).
  cbn beta iota. rewrite IsConflict_wrap, He.
  destruct n; cbn [retry_attempts]; apply (executes_bind _ _ [_] [] (None, o) _ Hex2); constructor.
Qed.
End Retries.

(** ** Witnesses: the update of the sample VolumeGroup, contended *)

#[local] Existing Instance DocExternals.externals.
#[local] Existing Instance DocExternals.laws.

(** The VolumeGroup as it is stored when the operator reads it. *)
Definition fresh_group : VolumeGroup := Scenario.group_in Samples.with_vg.

Abbreviation add_finalizer := (AddFinalizerToVG fresh_group).
Abbreviation put_finalizer := (updateFinalizer KVG [VGFinalizer] fresh_group).

(** Both of the writes of a contended update carry the finalizers computed first. *)
Lemma updateFinalizer_writes_witness :
  count_calls (is_update KVG)
    (run_trace Scenario.contended put_finalizer (true, Samples.with_vg)) = 2 ∧
  (∃ pre e post,
    run_trace Scenario.contended put_finalizer (true, Samples.with_vg) = pre ++ e :: post ∧
    Scenario.is_vg_update (tr_call e) = true ∧
    repeats KVG fresh_group (λ cur, CUpdate KVG (SetFinalizers KVG [VGFinalizer] cur)) pre (tr_call e)).
Proof.
  split; [by vm_compute|].
  destruct (split_call Scenario.is_vg_update
              (run_trace Scenario.contended put_finalizer (true, Samples.with_vg)))
    as [[[pre e] post]|] eqn:Hs; [|vm_compute in Hs; discriminate Hs].
  apply split_call_Some in Hs as [Heq Hc].
  exists pre, e, post. split; [exact Heq|split; [exact Hc|]].
  eapply (proj1 (updateFinalizer_writes KVG [VGFinalizer] fresh_group)); [|exact Heq].
  apply (run_executes Scenario.contended).
Defined.

Definition conflict : error := api_error "Conflict".

(** On the contended cluster this is what happens: the finalizer of somebody
    else is gone in the end. *)
Lemma AddFinalizerToVG_overwrites_witness :
  run_outcome Scenario.contended add_finalizer (true, Samples.with_vg) ≠ None ∧
  GetFinalizers KVG (Scenario.group_in
    (Scenario.someone_adds "someone.else" fresh_group Samples.with_vg)) = ["someone.else"%string] ∧
  GetFinalizers KVG (Scenario.group_in
    (snd (run_world Scenario.contended add_finalizer (true, Samples.with_vg)))) = [VGFinalizer] ∧
  ∃ vg' o,
    GetFinalizers KVG vg' = ["someone.else"%string] ∧
    executes add_finalizer
      [Ev (CUpdate KVG (SetFinalizers KVG [VGFinalizer] fresh_group)) (inl conflict);
       Ev (CGet KVG (key_of KVG fresh_group)) (inr vg');
       Ev (CUpdate KVG (SetFinalizers KVG [VGFinalizer] vg')) (inr o)]
      (Some (None, o)).
Proof.
  split; [by vm_compute|]. split; [by vm_compute|]. split; [by vm_compute|].
  exists (Scenario.group_in (Scenario.someone_adds "someone.else" fresh_group Samples.with_vg)),
    fresh_group.
  split; [by vm_compute|].
  apply (AddFinalizerToVG_overwrites fresh_group
           (Scenario.group_in (Scenario.someone_adds "someone.else" fresh_group Samples.with_vg))
           fresh_group conflict).
  - apply (bool_decide_unpack _). by vm_compute.
  - by vm_compute.
  - vm_compute. lia.
Defined.
