(* ===== verification/MembershipProofs.v ===== *)
(** * The members of a group

    What the driver is told, when the lists may change, and what the lists are
    in the end. *)

From S2P Require Import Prelude GoLang Api Effects Externals Objects Params VolumeGroups Volumes.
From S2P Require Import Finalizers Driver VolumeGroupContents Membership VGController.
From S2P Require Import VGCController Histories Cluster Scenario.

(** ** What the driver is told *)

Section Request.
Context `{ExternalLaws}.

(** Claims that have a volume. *)
Definition with_volume (l : list PersistentVolumeClaim) : list PersistentVolumeClaim :=
  filter (λ pvc, pvcs_VolumeName (pvc_Spec pvc) ≠ ""%string) l.

(** The volume of the claim was read, and this is its CSI source. *)
Definition volume_read (tr : history) (pvc : PersistentVolumeClaim)
    (csi : CSIPersistentVolumeSource) : Prop :=
  ∃ pv, Ev (CGet KPV (mkNN "" (pvcs_VolumeName (pvc_Spec pvc)))) (inr pv) ∈ tr ∧
        pv_CSI pv = Some csi.

Definition membership_request (tr : history) (l : list PersistentVolumeClaim) (vg : VolumeGroup)
    (id : string) (ids : list string) (secrets : gmap string string) : Prop :=
  ∃ vgc src cl sources,
    Ev (CGet KVGC (content_key vg)) (inr vgc) ∈ tr ∧
    vgcspec_Source (vgc_Spec vgc) = Some src ∧ id = vgcsrc_VolumeGroupHandle src ∧
    Ev (CGet KVGClass (mkNN "" (or_empty (vgspec_VolumeGroupClassName (vg_Spec vg))))) (inr cl) ∈ tr ∧
    secrets_of tr cl secrets ∧
    Forall2 (volume_read tr) (with_volume l) sources ∧
    ids = csi_VolumeHandle <$> sources.

Lemma volume_read_app tr tr' pvc csi : volume_read tr pvc csi → volume_read (tr ++ tr') pvc csi.
Proof. intros (pv & Hin & Hcsi). exists pv. split; [apply elem_of_app; by left|done]. Qed.

Lemma volume_read_app_r tr tr' pvc csi : volume_read tr' pvc csi → volume_read (tr ++ tr') pvc csi.
Proof. intros (pv & Hin & Hcsi). exists pv. split; [apply elem_of_app; by right|done]. Qed.

(** The volumes of the claims, in the order of the claims. *)
Lemma getPVCListVolumeIds_history l :
  ensures (getPVCListVolumeIds l)
    (λ tr out, ∀ ids, out = Some (inr ids) →
       ∃ sources, Forall2 (volume_read tr) (with_volume l) sources ∧
                  ids = csi_VolumeHandle <$> sources).
Proof.
  apply wp_ensures. unfold getPVCListVolumeIds.
  enough (∀ l done acc tr,
    (∃ sources, Forall2 (volume_read tr) (with_volume done) sources ∧
                acc = csi_VolumeHandle <$> sources) →
    wp (λ _ _, True)
      (λ tr out, ∀ ids, out = Some (inr ids) →
         ∃ sources, Forall2 (volume_read tr) (with_volume (done ++ l)) sources ∧
                    ids = csi_VolumeHandle <$> sources)
      (getPVCListVolumeIds_loop l acc) tr) as Hloop.
  { apply (Hloop l []). by exists []. }
  clear l. induction l as [|pvc l IH]; intros done acc tr (sources & Hs & ->);
    cbn [getPVCListVolumeIds_loop].
  { wp_step. wp_step. intros ids Heq. simplify_eq. exists sources. by rewrite app_nil_r. }
  unfold GetPVFromPVC, getPVNameFromPVC, getPV. rewrite GetStringField_volume_name.
  rewrite (cons_middle pvc done l), (app_assoc done).
  repeat first
    [ match goal with |- wp _ _ (getPVCListVolumeIds_loop _ _) _ => apply IH end | wp_step ];
    try (intros ? ?; discriminate); simplify_eq.
  - exists sources. unfold with_volume. rewrite filter_app, filter_cons_False, app_nil_r by auto.
    done.
  - eexists (sources ++ [_]). rewrite fmap_app. split; [|reflexivity].
    unfold with_volume. rewrite filter_app, filter_cons_True by done.
    apply Forall2_app; [|constructor; [|done]].
    + eapply Forall2_impl; [exact Hs|]. intros. by apply volume_read_app.
    + eexists. split; [solve_event|done].
Qed.

Lemma getVgId_history vg :
  ensures (getVgId vg)
    (λ tr out, ∀ id, out = Some (inr id) →
       ∃ vgc src, Ev (CGet KVGC (content_key vg)) (inr vgc) ∈ tr ∧
                  vgcspec_Source (vgc_Spec vgc) = Some src ∧
                  id = vgcsrc_VolumeGroupHandle src).
Proof.
  apply wp_ensures. unfold getVgId, GetVGC. rewrite GetStringField_vg_content.
  repeat wp_step; intros id Heq; simplify_eq. do 2 eexists. split; [solve_event|done].
Qed.

Lemma getSecrets_history vg :
  ensures (getSecrets vg)
    (λ tr out, ∀ secrets vg', out = Some (inr secrets, vg') →
       ∃ cl, Ev (CGet KVGClass (mkNN "" (or_empty (vgspec_VolumeGroupClassName (vg_Spec vg)))))
                (inr cl) ∈ tr ∧ secrets_of tr cl secrets).
Proof.
  apply wp_ensures. unfold getSecrets, GetVGClass. rewrite GetStringField_vg_class.
  repeat first
    [ match goal with |- wp _ _ (GetSecretDataFromClass _) _ =>
        wp_with GetSecretDataFromClass_history; intros ? [[?|?]|] _ Hsec end
    | wp_step ]; intros ? ? Heq; simplify_eq.
  eexists. split; [solve_event|]. apply secrets_of_app_r. by apply Hsec.
Qed.

(** What getting the request ready tells. *)
Lemma generateModifyVGParams_history vg :
  ensures (generateModifyVGParams vg)
    (λ tr out, ∀ params vg', out = Some (inr params, vg') →
       membership_request tr (vgst_PVCList (vg_Status vg)) vg
         (crp_VolumeGroupID params) (crp_VolumeIds params) (crp_Secrets params)).
Proof.
  apply wp_ensures. unfold generateModifyVGParams. wp_step.
  wp_with getVgId_history. intros tr1 [[err|id]|] _ Hid; cbn [after]; try (repeat wp_step; by intros ? ?).
  wp_step. wp_with getPVCListVolumeIds_history.
  intros tr2 [[err|ids]|] _ Hids; cbn [after]; try (repeat wp_step; by intros ? ?).
  wp_step. wp_with getSecrets_history.
  intros tr3 [[[err|secrets] vg']|] _ Hsec; cbn [after]; try (repeat wp_step; by intros ? ?).
  repeat wp_step. intros params vg'' Heq. simplify_eq. cbn.
  destruct (Hid _ eq_refl) as (vgc & src & Hvgc & Hsrc & Hhandle).
  destruct (Hids _ eq_refl) as (sources & Hsources & Hidseq).
  destruct (Hsec _ _ eq_refl) as (cl & Hcl & Hsecrets).
  exists vgc, src, cl, sources. split_all; try done; [solve_event..| |].
  - by apply secrets_of_app_r.
  - eapply Forall2_impl; [exact Hsources|]. intros pvc csi Hr.
    apply volume_read_app, volume_read_app_r, Hr.
Qed.

(** C20: the driver is told the members of a group by one request: it names the
    handle of the content the VolumeGroup points to, and lists the volume handles
    of the matching claims that have a volume, each read from its
    PersistentVolume, in the order of the claims; it carries the secrets of the
    VolumeGroup's class. *)
Theorem ModifyVolumesInVG_request matching vg :
  guarded (ModifyVolumesInVG matching vg) (λ tr c,
    match c with
    | CModifyVolumeGroupMembership id ids secrets =>
        membership_request tr matching vg id ids secrets
    | _ => True
    end).
Proof.
  apply wp_guarded. unfold ModifyVolumesInVG, ModifyVG. do 2 wp_step.
  wp_with generateModifyVGParams_history.
  intros tr [[[err|params] vg']|] _ Hreq; cbn [after app]; [repeat wp_step; done| |done].
  unfold request_Modify, ModifyVolumeGroupMembership. do 2 wp_step.
  apply wp_trigger.
  - exact (Hreq params vg' eq_refl).
  - intros r. repeat wp_step; done.
Qed.

(** ** When the lists change *)

(** The driver accepted a membership. *)
Definition driver_agreed (tr : history) : Prop :=
  ∃ id ids secrets, Ev (CModifyVolumeGroupMembership id ids secrets) None ∈ tr.

Lemma ModifyVolumesInVG_history matching vg :
  ensures (ModifyVolumesInVG matching vg) (λ tr out, out = Some None → driver_agreed tr).
Proof.
  apply wp_ensures. unfold ModifyVolumesInVG, ModifyVG, request_Modify, ModifyVolumeGroupMembership.
  repeat wp_step; try (intros ?; discriminate); cbn in *; simplify_eq.
  intros _. do 3 eexists. solve_event.
Qed.

(** C21: in [updatePVCs] the volumes of the content and the claims (their
    finalizers) are written only after the driver has accepted the new
    membership; when it refuses, or cannot be asked, nothing of them changes. *)
Theorem lists_follow_driver cfg vg :
  guarded (updatePVCs cfg vg) (λ tr c,
    match c with
    | CStatusUpdate KVGC _ | CUpdate KPVC _ | CUpdate KVGC _ | CDelete _ _ => driver_agreed tr
    | _ => True
    end).
Proof.
  apply wp_guarded. unfold updatePVCs. wp_step.
  eapply wp_spec; [typeclasses eauto|solve_guard|].
  intros tr [[err|matching]|] _ _; cbn [after]; [repeat wp_step; done| |done].
  wp_step; [done|]. wp_step. wp_with ModifyVolumesInVG_history.
  intros tr' [[err|]|] _ Hok; cbn [after]; [repeat wp_step; done| |done].
  wp_step. eapply wp_spec; [typeclasses eauto| |].
  - intros tr'' c _ Hc. destruct (Hok eq_refl) as (id & ids & s & Hin).
    destruct c as [| | |[]|[]|[]|[]| | | | | | |]; cbn in Hc |- *; try done;
      exists id, ids, s; apply elem_of_app; left; apply elem_of_app; by right.
  - intros tr'' out _. revert out. outcome_cases. repeat wp_step; done.
Qed.
End Request.

(** ** What the lists are in the end *)

Section Lists.
Context `{ExternalLaws}.

(** Answers to the updates of the VolumeGroup: no conflict, and the list that was
    sent is the list that is stored. *)
Definition keeps_claims (c : call) : resp c → Prop :=
  match c with
  | CStatusUpdate KVG o => λ r,
      match r with
      | inl err => IsConflict err = false
      | inr o' => vgst_PVCList (vg_Status o') = vgst_PVCList (vg_Status o)
      end
  | _ => λ _, True
  end.

#[export] Instance keeps_claims_dec c r : Decision (keeps_claims c r).
Proof.
  destruct c as [| | | | |K o| | | | | | | |]; try (left; exact I).
  destruct K; try (left; exact I). destruct r; cbn; apply _.
Defined.

Abbreviation claims_of vg := (vgst_PVCList (vg_Status vg)).

(** Ends, when it succeeds, with this list in the VolumeGroup. *)
Abbreviation ends_with l :=
  (λ out : option (option error * VolumeGroup), ∀ vg', out = Some (None, vg') → claims_of vg' = l).

Lemma vg_status_retry_keeps (f : VolumeGroup → VolumeGroup) vg l :
  claims_of (f vg) = l →
  along keeps_claims (ends_with l) (RetryOnConflict (λ vg, vgRetryOnConflictFunc (f vg)) vg).
Proof.
  intros Hf. apply (along_retry _ _ (λ cur, cur = vg)); [|done]. intros cur ->.
  unfold vgRetryOnConflictFunc, updateVGStatus, UpdateObjectStatus.
  repeat along_step; cbn in *; simplify_eq; try congruence.
  all: split; intros ? ?; simplify_eq; rewrite ?IsConflict_wrap in *; congruence.
Qed.

Lemma AddPVCToVG_keeps pvc vg :
  along keeps_claims (ends_with (appendPVC (claims_of vg) pvc)) (AddPVCToVG pvc vg).
Proof.
  unfold AddPVCToVG, updateVGStatusPVCList. do 2 along_step.
  eapply along_mono; [by apply vg_status_retry_keeps|].
  intros [[[err|] vg']|] Hend; repeat along_step; intros ? ?; simplify_eq. by apply Hend.
Qed.

Lemma RemovePVCFromVG_keeps pvc vg :
  along keeps_claims (ends_with (removeFromPVCList pvc (claims_of vg))) (RemovePVCFromVG pvc vg).
Proof.
  unfold RemovePVCFromVG, updateVGStatusPVCList. do 2 along_step.
  eapply along_mono; [by apply vg_status_retry_keeps|].
  intros [[[err|] vg']|] Hend; repeat along_step; intros ? ?; simplify_eq. by apply Hend.
Qed.

Lemma HandleSuccessMessage_keeps vg m reason :
  along keeps_claims (ends_with (claims_of vg)) (HandleSuccessMessage vg m reason).
Proof.
  unfold HandleSuccessMessage, UpdateVGStatusError. do 2 along_step.
  eapply along_mono; [by apply vg_status_retry_keeps|].
  intros [[[err|] vg']|] Hend; repeat along_step; intros ? ?; simplify_eq. by apply Hend.
Qed.

Lemma AddVolume_keeps pvc vg :
  along keeps_claims (ends_with (appendPVC (claims_of vg) pvc)) (AddVolumeToPvcListAndPvList pvc vg).
Proof.
  unfold AddVolumeToPvcListAndPvList. along_step.
  eapply along_mono; [apply AddPVCToVG_keeps|].
  intros [[[err|] vg']|] Hend; cbn [after];
    [repeat along_step; intros ? ?; by simplify_eq| |intros ? ?; by simplify_eq].
  rewrite <- (Hend vg' eq_refl).
  repeat first
    [ match goal with |- along _ _ (HandleSuccessMessage _ _ _) =>
        apply HandleSuccessMessage_keeps end
    | along_step ]; intros ? ?; simplify_eq.
Qed.

Lemma RemoveVolume_keeps driver pvc vg :
  along keeps_claims (ends_with (removeFromPVCList pvc (claims_of vg)))
    (RemoveVolumeFromPvcListAndPvList driver pvc vg).
Proof.
  unfold RemoveVolumeFromPvcListAndPvList. along_step.
  eapply along_mono; [apply RemovePVCFromVG_keeps|].
  intros [[[err|] vg']|] Hend; cbn [after];
    [repeat along_step; intros ? ?; by simplify_eq| |intros ? ?; by simplify_eq].
  rewrite <- (Hend vg' eq_refl), GetStringField_vg_content.
  repeat first
    [ match goal with |- along _ _ (HandleSuccessMessage _ _ _) =>
        apply HandleSuccessMessage_keeps end
    | along_step ]; intros ? ?; simplify_eq.
Qed.

(** The list after the claims that no longer match are taken out, and after the
    new ones are put in. *)
Definition without_stale (matching items l : list PersistentVolumeClaim) :=
  foldl (λ l pvc, if IsPVCInPVCList pvc matching then l else removeFromPVCList pvc l) l items.
Definition with_new (present items l : list PersistentVolumeClaim) :=
  foldl (λ l pvc, if IsPVCInPVCList pvc present then l else appendPVC l pvc) l items.

Lemma remove_stale_loop_keeps driver matching items vg :
  along keeps_claims (ends_with (without_stale matching items (claims_of vg)))
    (remove_stale_loop driver matching items vg).
Proof.
  revert vg. induction items as [|pvc items IH]; intros vg; cbn [remove_stale_loop].
  { intros ? ?. by simplify_eq. }
  unfold without_stale. cbn [foldl]. destruct (IsPVCInPVCList pvc matching); cbn [negb]; [apply IH|].
  along_step. eapply along_mono; [apply RemoveVolume_keeps|].
  intros [[[err|] vg']|] Hend; cbn [after]; [| |intros ? ?; simplify_eq].
  - eapply along_of_triple; [apply HandleErrorMessage_spec|].
    intros [[[|] ?]|] Ho ? ?; simplify_eq. by destruct Ho.
  - rewrite <- (Hend vg' eq_refl). apply IH.
Qed.

Lemma add_matching_loop_keeps present items vg :
  along keeps_claims (ends_with (with_new present items (claims_of vg)))
    (add_matching_loop present items vg).
Proof.
  revert vg. induction items as [|pvc items IH]; intros vg; cbn [add_matching_loop].
  { intros ? ?. by simplify_eq. }
  unfold with_new. cbn [foldl]. destruct (IsPVCInPVCList pvc present); cbn [negb]; [apply IH|].
  along_step. eapply along_mono; [apply AddVolume_keeps|].
  intros [[[err|] vg']|] Hend; cbn [after]; [| |intros ? ?; simplify_eq].
  - eapply along_of_triple; [apply HandleErrorMessage_spec|].
    intros [[[|] ?]|] Ho ? ?; simplify_eq. by destruct Ho.
  - rewrite <- (Hend vg' eq_refl). apply IH.
Qed.

Lemma UpdatePvcAndPvList_keeps vg driver matching :
  along keeps_claims
    (ends_with (with_new (claims_of vg) matching
                  (without_stale matching (claims_of vg) (claims_of vg))))
    (UpdatePvcAndPvList vg driver matching).
Proof.
  unfold UpdatePvcAndPvList. along_step. eapply along_mono; [apply remove_stale_loop_keeps|].
  intros [[[err|] vg']|] Hend; cbn [after];
    [intros ? ?; by simplify_eq| |intros ? ?; by simplify_eq].
  rewrite <- (Hend vg' eq_refl). apply add_matching_loop_keeps.
Qed.

(** As sets of claims. *)
Lemma without_stale_spec matching items l :
  NoDup (pvc_keys l) →
  NoDup (pvc_keys (without_stale matching items l)) ∧
  ∀ k, k ∈ pvc_keys (without_stale matching items l) ↔
       k ∈ pvc_keys l ∧ (k ∈ pvc_keys items → k ∈ pvc_keys matching).
Proof.
  revert l. induction items as [|pvc items IH]; intros l Hl; unfold without_stale; cbn [foldl].
  { split; [done|]. intros k. cbn. rewrite elem_of_nil. tauto. }
  destruct (IsPVCInPVCList pvc matching) eqn:Hm.
  - apply IsPVCInPVCList_spec in Hm. destruct (IH l Hl) as [Hnd Hk]. split; [done|].
    intros k. unfold without_stale in Hk. rewrite Hk. cbn. rewrite elem_of_cons.
    split; [|tauto]. intros [Hin Him]. split; [done|]. intros [->|?]; auto.
  - apply IsPVCInPVCList_false in Hm. destruct (NoDup_pvc_keys_remove l pvc Hl) as [Hl' Hr].
    destruct (IH _ Hl') as [Hnd Hk]. split; [done|].
    intros k. unfold without_stale in Hk. rewrite Hk, Hr. cbn. rewrite elem_of_cons.
    split; [intros ([Hin Hne] & Him); split; [done|]; intros [->|?]; [done|auto]|].
    intros [Hin Him]. split; [split; [done|]|auto]. intros ->. auto.
Qed.

Lemma with_new_spec present items l :
  NoDup (pvc_keys l) →
  NoDup (pvc_keys (with_new present items l)) ∧
  ∀ k, k ∈ pvc_keys (with_new present items l) ↔
       k ∈ pvc_keys l ∨ (k ∈ pvc_keys items ∧ k ∉ pvc_keys present).
Proof.
  revert l. induction items as [|pvc items IH]; intros l Hl; unfold with_new; cbn [foldl].
  { split; [done|]. intros k. cbn. rewrite elem_of_nil. tauto. }
  destruct (IsPVCInPVCList pvc present) eqn:Hm.
  - apply IsPVCInPVCList_spec in Hm. destruct (IH l Hl) as [Hnd Hk]. split; [done|].
    intros k. unfold with_new in Hk. rewrite Hk. cbn. rewrite elem_of_cons.
    split; [tauto|]. intros [?|[[->|?] ?]]; tauto.
  - apply IsPVCInPVCList_false in Hm. pose proof (NoDup_pvc_keys_append l pvc Hl) as Hl'.
    destruct (IH _ Hl') as [Hnd Hk]. split; [done|].
    intros k. unfold with_new in Hk. rewrite Hk, elem_of_appendPVC. cbn. rewrite elem_of_cons.
    split; [intros [[?| ->]|?]; tauto|]. intros [?|[[->|?] ?]]; tauto.
Qed.

(** C22: bringing the lists of a VolumeGroup in line with the matching claims,
    when it succeeds and the status is stored as sent, leaves exactly the
    matching claims in the VolumeGroup, each once, whatever was there before. *)
Theorem UpdatePvcAndPvList_members vg driver matching tr vg' :
  NoDup (pvc_keys (claims_of vg)) →
  executes (UpdatePvcAndPvList vg driver matching) tr (Some (None, vg')) →
  Forall (λ e, keeps_claims (tr_call e) (tr_resp e)) tr →
  NoDup (pvc_keys (claims_of vg')) ∧
  ∀ k, k ∈ pvc_keys (claims_of vg') ↔ k ∈ pvc_keys matching.
Proof.
  intros Hnd Hex Htr.
  rewrite (along_sound _ _ _ _ _ (UpdatePvcAndPvList_keeps vg driver matching) Hex Htr vg' eq_refl).
  destruct (without_stale_spec matching (claims_of vg) _ Hnd) as [Hnd1 Hk1].
  destruct (with_new_spec (claims_of vg) matching _ Hnd1) as [Hnd2 Hk2].
  split; [done|]. intros k. rewrite Hk2, Hk1.
  destruct (decide (k ∈ pvc_keys (claims_of vg))); tauto.
Qed.
End Lists.

(** ** A request that cannot be made *)

Section Failure.
Context `{ExternalLaws}.

(** A call that is not in a set. *)
Ltac no_call := let Hc := fresh "Hc" in intros; intros Hc; cbn in Hc; first [contradiction|discriminate].

(** The read of a secret failed. *)
Definition secret_refused (tr : history) : Prop := ∃ k e, Ev (CGet KSecret k) (inl e) ∈ tr.

Definition not_asked (tr : history) : Prop :=
  ∀ id ids secrets r, Ev (CModifyVolumeGroupMembership id ids secrets) r ∉ tr.

(** The first write of a status of a VolumeGroup lists the claims [l]. *)
Definition not_status (c : call) : Prop :=
  match c with CStatusUpdate KVG _ => False | _ => True end.

Definition first_status_lists (l : list PersistentVolumeClaim) (tr : history) : Prop :=
  ∃ pre o r post, tr = pre ++ Ev (CStatusUpdate KVG o) r :: post ∧ calls_in not_status pre ∧
                  vgst_PVCList (vg_Status o) = l.

Lemma first_status_app l tr tr' : first_status_lists l tr → first_status_lists l (tr ++ tr').
Proof.
  intros (pre & o & r & post & -> & Hpre & Hl). exists pre, o, r, (post ++ tr').
  by rewrite <- app_assoc.
Qed.

Lemma first_status_after l tr tr' :
  calls_in not_status tr → first_status_lists l tr' → first_status_lists l (tr ++ tr').
Proof.
  intros Htr (pre & o & r & post & -> & Hpre & Hl). exists (tr ++ pre), o, r, post.
  rewrite <- app_assoc. split; [done|]. split; [by apply calls_in_app|done].
Qed.

Lemma calls_in_mono S S' tr : calls_in S tr → covers S S' → calls_in S' tr.
Proof. intros Htr HS. eapply Forall_impl; [exact Htr|]. intros e. apply HS. Qed.

Lemma not_asked_calls tr S :
  calls_in S tr → (∀ id ids secrets, ¬ S (CModifyVolumeGroupMembership id ids secrets)) →
  not_asked tr.
Proof.
  intros Htr HS id ids secrets r Hin. apply (HS id ids secrets).
  exact (calls_in_elem S tr (Ev (CModifyVolumeGroupMembership id ids secrets) r) Htr Hin).
Qed.

Lemma not_asked_app tr tr' : not_asked tr → not_asked tr' → not_asked (tr ++ tr').
Proof. intros H1 H2 id ids s r [Hin|Hin]%elem_of_app; [by eapply H1|by eapply H2]. Qed.

Lemma not_refused tr S : calls_in S tr → (∀ k, ¬ S (CGet KSecret k)) → ¬ secret_refused tr.
Proof.
  intros Htr HS (k & e & Hin). apply (HS k). exact (calls_in_elem S tr (Ev (CGet KSecret k) (inl e)) Htr Hin).
Qed.

Lemma secret_refused_app tr tr' :
  secret_refused (tr ++ tr') → secret_refused tr ∨ secret_refused tr'.
Proof. intros (k & e & [Hin|Hin]%elem_of_app); [left|right]; by exists k, e. Qed.

(** The report of an error starts with a write of the status as the caller has it. *)
Lemma UpdateVGStatusError_writes vg m :
  ensures (UpdateVGStatusError vg m)
    (λ tr out, is_Some out ∧ first_status_lists (vgst_PVCList (vg_Status vg)) tr).
Proof.
  intros tr out Hex. split; [by destruct (triple_sound _ _ _ _ _ (UpdateVGStatusError_spec vg m) Hex)|].
  revert tr out Hex. apply (wp_ensures _ (λ tr _, first_status_lists (vgst_PVCList (vg_Status vg)) tr)).
  unfold UpdateVGStatusError. wp_step.
  apply (wp_mono _ (λ tr _, first_status_lists (vgst_PVCList (vg_Status vg)) tr));
    [|intros tr' [[[?|] ?]|] Hq; cbn [after]; repeat wp_step; exact Hq].
  apply (wp_retry _ _ (λ tr s, first_status_lists (vgst_PVCList (vg_Status vg)) tr ∨ (s = vg ∧ tr = [])));
    [|by right].
  intros tr' s Hs. unfold vgRetryOnConflictFunc, updateVGStatus, UpdateObjectStatus, getNamespacedObject.
  do 3 wp_step. apply wp_trigger; [done|]. intros r.
  assert (first_status_lists (vgst_PVCList (vg_Status vg))
            (tr' ++ [Ev (CStatusUpdate KVG (set_vg_Error (Some {| vge_Time := None; vge_Message := Some m |}) s)) r]))
    as Hw.
  { destruct Hs as [Hs|[-> ->]]; [by apply first_status_app|].
    eexists [], _, r, []. split; [done|]. by split; [constructor|]. }
  set (tr2 := tr' ++ _) in *. assert (∀ tr3, first_status_lists (vgst_PVCList (vg_Status vg)) (tr2 ++ tr3)) as Hw'
    by (intros; by apply first_status_app).
  destruct r as [e|o]; repeat wp_step; split; intros; auto.
Qed.

Lemma GetSecretDataFromClass_refused cl :
  ensures (GetSecretDataFromClass cl)
    (λ tr out, secret_refused tr → ∃ e, out = Some (inl e)).
Proof.
  apply wp_ensures. unfold GetSecretDataFromClass, getSecretData.
  destruct (GetSecretCred cl) as [name namespace]. wp_step;
    [|by intros (? & ? & ?%elem_of_nil)].
  do 2 wp_step. apply wp_trigger; [done|]. intros [e|secret]; cbn [after app]; repeat wp_step;
    [by eexists|].
  intros [(k & e & Hin)|Href]%secret_refused_app.
  - apply list_elem_of_singleton, (get_event_inj KSecret) in Hin. done.
  - by eapply not_refused in Href; [|eassumption|no_call].
Qed.

Lemma getSecrets_refused vg :
  ensures (getSecrets vg) (λ tr out, secret_refused tr →
    first_status_lists (vgst_PVCList (vg_Status vg)) tr ∧ ∃ e vg', out = Some (inl e, vg')).
Proof.
  apply wp_ensures. unfold getSecrets. rewrite GetStringField_vg_class. do 4 wp_step.
  eapply wp_spec; [typeclasses eauto|solve_guard|].
  intros tr1 o Hc1 _. assert (¬ secret_refused tr1) as Hn1 by (eapply not_refused; [exact Hc1|no_call]).
  assert (calls_in not_status tr1) as Hs1 by (eapply calls_in_mono; [exact Hc1|solve_covers]).
  destruct o as [[err|cl]|]; cbn [after app]; [by intros ?| |by intros ?]. wp_step.
  eapply wp_use; [eapply spec_calls; typeclasses eauto|apply GetSecretDataFromClass_refused|solve_guard|].
  intros tr2 o Hc2 Href. assert (calls_in not_status tr2) as Hs2 by (eapply calls_in_mono; [exact Hc2|solve_covers]).
  destruct o as [[err|secrets]|]; cbn [after].
  - wp_step. wp_with UpdateVGStatusError_writes. intros tr3 o Hc3 [[[[?|] ?] ->] Hw]; cbn [after]; repeat wp_step; intros _;
      (split; [by rewrite <- app_assoc; do 2 (apply first_status_after; [done|])|by do 2 eexists]).
  - intros [?|Hr]%secret_refused_app; [done|]. by destruct (Href Hr).
  - intros [?|Hr]%secret_refused_app; [done|]. by destruct (Href Hr).
Qed.

(** C36: when the secret of the class cannot be read, the request ends with an error
    and the driver is never asked to change the members, but the status of the
    VolumeGroup is sent to the server, and the first status that is sent lists the
    matching claims: it claims members that the group does not have. *)
Theorem failed_request_stores_members matching vg tr out :
  executes (ModifyVolumesInVG matching vg) tr out → secret_refused tr →
  (∃ err, out = Some (Some err)) ∧ not_asked tr ∧ first_status_lists matching tr.
Proof.
  revert tr out. change (ensures (ModifyVolumesInVG matching vg) (λ tr out, secret_refused tr →
    (∃ err, out = Some (Some err)) ∧ not_asked tr ∧ first_status_lists matching tr)).
  apply wp_ensures. unfold ModifyVolumesInVG, ModifyVG, generateModifyVGParams. do 3 wp_step.
  eapply wp_spec; [typeclasses eauto|solve_guard|].
  intros tr1 o1 Hc1 _. assert (¬ secret_refused tr1) as Hn1 by (eapply not_refused; [exact Hc1|no_call]).
  destruct o1 as [[err|id]|]; cbn [after app]; [repeat wp_step; by intros ?| |by intros ?]. wp_step.
  eapply wp_spec; [typeclasses eauto|solve_guard|].
  intros tr2 o2 Hc2 _. assert (¬ secret_refused (tr1 ++ tr2)) as Hn2.
  { intros [?|Hr]%secret_refused_app; [done|]. by eapply not_refused in Hr; [|exact Hc2|no_call]. }
  assert (calls_in not_status (tr1 ++ tr2)) as Hs2.
  { apply calls_in_app. split; (eapply calls_in_mono; [eassumption|by intros [| | | | |[]| | | | | | | |]]). }
  destruct o2 as [[err|ids]|]; cbn [after]; [repeat wp_step; by intros ?| |by intros ?]. wp_step.
  wp_with getSecrets_refused. intros tr3 o3 Hc3 Href.
  destruct o3 as [[[err|secrets] vg']|]; cbn [after].
  - repeat wp_step. intros [?|Hr]%secret_refused_app; [done|]. destruct (Href Hr) as [Hw _].
    split; [by eexists|]. split; [|by apply first_status_after].
    repeat apply not_asked_app; (eapply not_asked_calls; [eassumption|no_call]).
  - assert (¬ secret_refused ((tr1 ++ tr2) ++ tr3)) as Hn3.
    { intros [?|Hr]%secret_refused_app; [done|]. by destruct (Href Hr) as (_ & ? & ? & ?). }
    repeat (lazymatch goal with |- wp _ _ (request_Modify _) _ => fail | _ => wp_step end).
    eapply wp_spec; [typeclasses eauto|solve_guard|].
    intros tr4 o4 Hc4 _. assert (¬ secret_refused (((tr1 ++ tr2) ++ tr3) ++ tr4)) as Hn4.
    { intros [?|Hr]%secret_refused_app; [done|]. by eapply not_refused in Hr; [|exact Hc4|no_call]. }
    destruct o4; cbn [after]; repeat wp_step; by intros ?.
  - intros [?|Hr]%secret_refused_app; [done|]. by destruct (Href Hr) as (_ & ? & ? & ?).
Qed.
End Failure.

(** ** The theorems at work *)

#[local] Existing Instance DocExternals.externals.
#[local] Existing Instance DocExternals.laws.

(** The sample VolumeGroup, ready, without members. *)
Definition ready_group : VolumeGroup := Scenario.group_in Scenario.ready.

Definition three_claims : list PersistentVolumeClaim :=
  [Samples.PVC "a" "pv-a"; Samples.PVC "b" "pv-b"; Samples.PVC "c" "pv-c"].

Abbreviation ask := (ModifyVolumesInVG three_claims ready_group).

Lemma ModifyVolumesInVG_request_witness :
  ∃ pre e post,
    run_trace serve ask Scenario.ready = pre ++ e :: post ∧
    Scenario.is_modify_rpc (tr_call e) = true ∧
    match tr_call e with
    | CModifyVolumeGroupMembership id ids secrets =>
        membership_request pre three_claims ready_group id ids secrets
    | _ => True
    end.
Proof. guard_witness Scenario.is_modify_rpc ModifyVolumesInVG_request. Defined.

Abbreviation update_sample := (updatePVCs Samples.config ready_group).

Lemma lists_follow_driver_witness :
  ∃ pre e post,
    run_trace serve update_sample Scenario.ready = pre ++ e :: post ∧
    Scenario.is_claim_update (tr_call e) = true ∧
    match tr_call e with
    | CStatusUpdate KVGC _ | CUpdate KPVC _ | CUpdate KVGC _ | CDelete _ _ => driver_agreed pre
    | _ => True
    end.
Proof. guard_witness Scenario.is_claim_update lists_follow_driver. Defined.

(** The same with a class whose secret does not exist. *)
Definition class_with_secret : VolumeGroupClass :=
  {| vgclass_TypeMeta := vgclass_TypeMeta Samples.VGClass;
     vgclass_ObjectMeta := vgclass_ObjectMeta Samples.VGClass;
     vgclass_Driver := vgclass_Driver Samples.VGClass;
     vgclass_Parameters := {[PrefixedVGSecretNameKey := "none"%string;
                             PrefixedVGSecretNamespaceKey := "none"%string]};
     vgclass_VolumeGroupDeletionPolicy := vgclass_VolumeGroupDeletionPolicy Samples.VGClass;
     vgclass_SupportVolumeGroupSnapshot := None |}.

Definition secret_missing : cluster := Samples.add KVGClass class_with_secret Scenario.ready.

(** The status now lists three claims, and the driver's group has no volume. *)
Lemma failed_request_stores_members_witness :
  ((∃ err, run_outcome serve ask secret_missing = Some (Some err)) ∧
   not_asked (run_trace serve ask secret_missing) ∧
   first_status_lists three_claims (run_trace serve ask secret_missing)) ∧
  length (Scenario.members (run_world serve ask secret_missing)) = 3 ∧
  map_to_list (groups (run_world serve ask secret_missing)) =
    [("group-volumegroup-uid1"%string, [])].
Proof.
  split; [|split; by vm_compute].
  apply (failed_request_stores_members three_claims ready_group); [apply run_executes|].
  exists (mkNN "none" "none"), (api_error "NotFound").
  assert (∃ pre post, run_trace serve ask secret_missing =
    pre ++ Ev (CGet KSecret (mkNN "none" "none")) (inl (api_error "NotFound")) :: post) as (pre & post & ->).
  { eexists (take 5 (run_trace serve ask secret_missing)), (drop 6 (run_trace serve ask secret_missing)). by vm_compute. }
  apply elem_of_app. right. by left.
Defined.

Abbreviation settle := (UpdatePvcAndPvList ready_group Samples.DriverName three_claims).

Definition settled_group : VolumeGroup :=
  match run_outcome serve settle Scenario.ready with
  | Some (_, vg) => vg
  | None => ready_group
  end.

Lemma UpdatePvcAndPvList_members_witness :
  length (pvc_keys (vgst_PVCList (vg_Status settled_group))) = 3 ∧
  ∀ k, k ∈ pvc_keys (vgst_PVCList (vg_Status settled_group)) ↔ k ∈ pvc_keys three_claims.
Proof.
  split; [by vm_compute|].
  apply (UpdatePvcAndPvList_members ready_group Samples.DriverName three_claims
           (run_trace serve settle Scenario.ready) settled_group).
  - vm_compute. constructor.
  - assert (run_outcome serve settle Scenario.ready = Some (None, settled_group)) as Hout
      by (vm_compute; reflexivity).
    rewrite <- Hout. apply run_executes.
  - by apply (bool_decide_unpack _); vm_compute.
Defined.
