(* ===== verification/Matching.v ===== *)
(** * Which claims match a VolumeGroup

    [getMatchingPVCs] and the decision whether a claim may join a group. *)

From S2P Require Import Prelude GoLang Api Effects Externals Objects Params VolumeGroups Volumes.
From S2P Require Import Finalizers Driver VolumeGroupContents Membership Predicates VGController.
From S2P Require Import VGCController Histories Cluster Scenario.

Section Matching.
Context `{ExternalLaws} (cfg : DriverConfig).

(** The storage class of the claim was read. *)
Definition class_read (tr : history) (pvc : PersistentVolumeClaim) (sc : StorageClass) : Prop :=
  ∃ cn, GetPVCClass pvc = inr cn ∧ Ev (CGet KSC (mkNN "" cn)) (inr sc) ∈ tr.

Definition own_class_read (tr : history) (pvc : PersistentVolumeClaim) : Prop :=
  ∃ sc, class_read tr pvc sc ∧ sc_Provisioner sc = DriverName cfg.

(** A claim that belongs in the group: bound, selected by its labels, of a
    storage class of the driver that does not itself name a group. *)
Definition eligible (tr : history) (vg : VolumeGroup) (pvc : PersistentVolumeClaim) : Prop :=
  pvc_Phase pvc = ClaimBound ∧ selects (om_Labels (pvc_ObjectMeta pvc)) vg = true ∧
  own_class_read tr pvc ∧
  ∃ sc, class_read tr pvc sc ∧ sc_Parameters sc !! storageClassVGParameter = None.

(** A reason to leave a claim out. *)
Definition excluded (tr : history) (vg : VolumeGroup) (pvc : PersistentVolumeClaim) : Prop :=
  pvc_Phase pvc ≠ ClaimBound ∨ selects (om_Labels (pvc_ObjectMeta pvc)) vg = false ∨
  (∃ sc, class_read tr pvc sc ∧ sc_Provisioner sc ≠ DriverName cfg) ∨
  (∃ sc, class_read tr pvc sc ∧ is_Some (sc_Parameters sc !! storageClassVGParameter)).

Lemma class_read_app tr tr' pvc sc : class_read tr pvc sc → class_read (tr ++ tr') pvc sc.
Proof. intros (cn & Hcn & Hin). exists cn. split; [done|]. apply elem_of_app. by left. Qed.

Lemma class_read_app_r tr tr' pvc sc : class_read tr' pvc sc → class_read (tr ++ tr') pvc sc.
Proof. intros (cn & Hcn & Hin). exists cn. split; [done|]. apply elem_of_app. by right. Qed.

Lemma own_class_read_app tr tr' pvc : own_class_read tr pvc → own_class_read (tr ++ tr') pvc.
Proof. intros (sc & Hr & Hp). exists sc. split; [by apply class_read_app|done]. Qed.

Lemma eligible_app tr tr' vg pvc : eligible tr vg pvc → eligible (tr ++ tr') vg pvc.
Proof.
  intros (Hb & Hs & Ho & sc & Hr & Hp). unfold eligible. split_all; try done; [by apply own_class_read_app|].
  exists sc. split; [by apply class_read_app|done].
Qed.

Lemma excluded_app tr tr' vg pvc : excluded tr vg pvc → excluded (tr ++ tr') vg pvc.
Proof.
  intros [?|[?|[(sc & Hr & Hp)|(sc & Hr & Hp)]]]; [by left|by right; left
    |do 2 right; left|do 3 right]; exists sc; (split; [by apply class_read_app|done]).
Qed.

(** ** The tests on one claim *)

Lemma IsPVCHasMatchingDriver_history pvc :
  ensures (IsPVCHasMatchingDriver pvc (DriverName cfg))
    (λ tr out,
       (out = Some (inr true) → own_class_read tr pvc) ∧
       (out = Some (inr false) →
        ∃ sc, class_read tr pvc sc ∧ sc_Provisioner sc ≠ DriverName cfg)).
Proof.
  apply wp_ensures. unfold IsPVCHasMatchingDriver, getStorageClassProvisioner, getStorageClass.
  repeat wp_step; (split; intros ?; simplify_eq/=).
  all: match goal with H : bool_decide _ = _ |- _ =>
         first [apply bool_decide_eq_true in H | apply bool_decide_eq_false in H] end.
  all: eexists; split; [eexists; split; [done|solve_event]|done].
Qed.

Lemma IsPVCInStaticVG_history pvc :
  ensures (IsPVCInStaticVG pvc)
    (λ tr out, ∀ b, out = Some (inr b) →
       ∃ sc, class_read tr pvc sc ∧
             if b then is_Some (sc_Parameters sc !! storageClassVGParameter)
             else sc_Parameters sc !! storageClassVGParameter = None).
Proof.
  apply wp_ensures. unfold IsPVCInStaticVG, getStorageClass, isSCHasParam.
  repeat wp_step; intros b Heq; simplify_eq.
  all: eexists; split; [eexists; split; [done|solve_event]|].
  all: unfold isSCHasParam; match goal with |- context [sc_Parameters ?sc !! ?k] => destruct (sc_Parameters sc !! k) eqn:Hp end; try done.
Qed.

Lemma IsPVCNeedToBeHandled_history vg pvc :
  selects (om_Labels (pvc_ObjectMeta pvc)) vg = true →
  ensures (IsPVCNeedToBeHandled pvc (DriverName cfg))
    (λ tr out, (out = Some (inr true) → eligible tr vg pvc) ∧
               (out = Some (inr false) → excluded tr vg pvc)).
Proof.
  intros Hsel. apply wp_ensures. unfold IsPVCNeedToBeHandled. wp_step.
  wp_with IsPVCHasMatchingDriver_history. intros tr [[err|b]|] _ [Ht Hf]; cbn [after]; [done| |done].
  destruct b; [specialize (Ht eq_refl)|specialize (Hf eq_refl)]; cbn [app].
  2:{ split; [done|]. intros _. do 2 right. left. destruct Hf as (sc & Hr & Hp). by exists sc. }
  case_decide as Hphase; [split; [done|]; intros _; by left|]. wp_step.
  wp_with IsPVCInStaticVG_history. intros tr' [[err|b]|] _ Hst; cbn [after]; [done| |done].
  destruct (Hst b eq_refl) as (sc & Hr & Hp). destruct b.
  - assert (∀ tr'', excluded ((tr ++ tr') ++ tr'') vg pvc) as Hex.
    { intros tr''. do 3 right. exists sc. split; [by apply class_read_app, class_read_app_r|done]. }
    wp_step; [repeat wp_step; done|].
    wp_step. eapply wp_spec; [typeclasses eauto|solve_guard|].
    intros tr'' [[?|]|] _ _; cbn [after]; [done| |done]. split; [done|]. intros _. apply Hex.
  - split; [|done]. intros _. unfold eligible. split_all; [done|done| |].
    + by apply own_class_read_app.
    + exists sc. split; [by apply class_read_app_r|done].
Qed.

(** The same when the claim is left out anyway. *)
Lemma isPVCShouldBeInVg_history vg pvc :
  ensures (isPVCShouldBeInVg cfg vg pvc)
    (λ tr out, ∀ b, out = Some (inr b) → b = selects (om_Labels (pvc_ObjectMeta pvc)) vg).
Proof.
  apply wp_ensures. unfold isPVCShouldBeInVg, IsPVCMatchesVG, selects.
  repeat wp_step; intros b0 Heq; by simplify_eq/=.
Qed.

(** ** The whole list *)

(** What [getMatchingPVCs] answers: among the claims of the cluster, the eligible
    ones, once each, and all those that there is no reason to leave out. *)
Definition matching_claims (tr : history) (vg : VolumeGroup) (l : list PersistentVolumeClaim) : Prop :=
  ∃ all, Ev (CList KPVC) (inr all) ∈ tr ∧
    NoDup (pvc_keys l) ∧
    (∀ pvc, pvc ∈ l → pvc ∈ all ∧ eligible tr vg pvc) ∧
    (∀ pvc, pvc ∈ all → pvc_key pvc ∈ pvc_keys l ∨ excluded tr vg pvc).

Lemma getProvisionedPVCList_history l :
  ensures (getProvisionedPVCList (DriverName cfg) l)
    (λ tr out, ∀ l', out = Some (inr l') →
       ∀ pvc, (pvc ∈ l' → pvc ∈ l ∧ own_class_read tr pvc) ∧
              (pvc ∈ l → pvc ∈ l' ∨
                 ∃ sc, class_read tr pvc sc ∧ sc_Provisioner sc ≠ DriverName cfg)).
Proof.
  apply wp_ensures. unfold getProvisionedPVCList.
  set (ok := λ tr (done l' : list PersistentVolumeClaim), ∀ pvc,
         (pvc ∈ l' → pvc ∈ done ∧ own_class_read tr pvc) ∧
         (pvc ∈ done → pvc ∈ l' ∨
            ∃ sc, class_read tr pvc sc ∧ sc_Provisioner sc ≠ DriverName cfg)).
  enough (∀ l done acc tr, ok tr done acc →
    wp (λ _ _, True) (λ tr out, ∀ l', out = Some (inr l') → ok tr (done ++ l) l')
      (getProvisionedPVCList_loop (DriverName cfg) l acc) tr) as Hloop.
  { apply (Hloop l [] [] []). intros pvc. split; intros Hin; by apply elem_of_nil in Hin. }
  clear l. induction l as [|p l IH]; intros done acc tr Hok; cbn [getProvisionedPVCList_loop].
  { intros l' Heq. simplify_eq. by rewrite app_nil_r. }
  rewrite (cons_middle p done l), (app_assoc done).
  assert (∀ tr', ok (tr ++ tr') done acc) as Hok'.
  { intros tr' pvc. destruct (Hok pvc) as [H1 H2]. split.
    - intros Hin. destruct (H1 Hin). split; [done|by apply own_class_read_app].
    - intros Hin. destruct (H2 Hin) as [?|(sc & Hr & Hp)]; [by left|right].
      exists sc. split; [by apply class_read_app|done]. }
  wp_step. wp_with IsPVCHasMatchingDriver_history.
  intros tr' [[err|b]|] _ [Ht Hf]; cbn [after]; [by intros ? ?| |by intros ? ?].
  destruct b; apply IH; intros pvc; destruct (Hok' tr' pvc) as [H1 H2]; rewrite !elem_of_app,
    !list_elem_of_singleton.
  - split; [intros [?| ->]; [naive_solver|]|naive_solver].
    split; [by right|]. destruct (Ht eq_refl) as (sc & Hr & Hp).
    exists sc. split; [by apply class_read_app_r|done].
  - split; [naive_solver|]. intros [?| ->]; [auto|right].
    destruct (Hf eq_refl) as (sc & Hr & Hp). exists sc. split; [by apply class_read_app_r|done].
Qed.

(** The claims that are candidates: bound, and of the driver. *)
Definition candidates (tr : history) (all l : list PersistentVolumeClaim) : Prop :=
  ∀ pvc, (pvc ∈ l → pvc ∈ all) ∧
         (pvc ∈ all → pvc ∈ l ∨ pvc_Phase pvc ≠ ClaimBound ∨
            ∃ sc, class_read tr pvc sc ∧ sc_Provisioner sc ≠ DriverName cfg).

Lemma GetPVCList_history :
  ensures (GetPVCList (DriverName cfg))
    (λ tr out, ∀ l, out = Some (inr l) →
       ∃ all, Ev (CList KPVC) (inr all) ∈ tr ∧ candidates tr all l).
Proof.
  apply wp_ensures. unfold GetPVCList, getPVCList. wp_step. apply wp_trigger; [done|].
  intros [err|all]; cbn [after app]; [by intros ? ?|].
  wp_with getProvisionedPVCList_history. intros tr out _ Hl l ->. exists all.
  split; [apply elem_of_app; left; by left|].
  intros pvc. destruct (Hl l eq_refl pvc) as [H1 H2].
  rewrite getBoundPVCList_spec, list_elem_of_filter in H1, H2. split; [naive_solver|].
  intros Hin. destruct (decide (pvc_Phase pvc = ClaimBound)); [|by right; left].
  destruct H2 as [?|(sc & Hr & Hp)]; [done|by left|].
  do 2 right. exists sc. split; [by apply class_read_app_r|done].
Qed.

(** The state of the loop: [done] has been looked at, [acc] has been taken. *)
Definition taken (tr : history) (vg : VolumeGroup) (done acc : list PersistentVolumeClaim) : Prop :=
  NoDup (pvc_keys acc) ∧
  (∀ pvc, pvc ∈ acc → pvc ∈ done ∧ eligible tr vg pvc) ∧
  (∀ pvc, pvc ∈ done → pvc_key pvc ∈ pvc_keys acc ∨ excluded tr vg pvc).

Lemma taken_app tr tr' vg done acc : taken tr vg done acc → taken (tr ++ tr') vg done acc.
Proof.
  intros (Hnd & Hin & Hall). split; [done|]. split.
  - intros pvc Hp. destruct (Hin pvc Hp). split; [done|by apply eligible_app].
  - intros pvc Hp. destruct (Hall pvc Hp); [by left|right]. by apply excluded_app.
Qed.

(** One more claim, left out, there already, or taken. *)
Lemma taken_skip tr vg done acc pvc :
  taken tr vg done acc → pvc_key pvc ∈ pvc_keys acc ∨ excluded tr vg pvc →
  taken tr vg (done ++ [pvc]) acc.
Proof.
  intros (Hnd & Hin & Hall) Hp. split; [done|]. split.
  - intros q Hq. destruct (Hin q Hq). split; [apply elem_of_app; by left|done].
  - intros q [Hq| ->%list_elem_of_singleton]%elem_of_app; auto.
Qed.

Lemma taken_add tr vg done acc pvc :
  taken tr vg done acc → pvc_key pvc ∉ pvc_keys acc → eligible tr vg pvc →
  taken tr vg (done ++ [pvc]) (acc ++ [pvc]).
Proof.
  intros (Hnd & Hin & Hall) Hk Hel. unfold taken, pvc_keys in *. rewrite fmap_app. split.
  { apply NoDup_app. split; [done|]. split; [|apply NoDup_singleton].
    intros k Hk1 Hk2. apply list_elem_of_singleton in Hk2. by subst. }
  split.
  - intros q [Hq| ->%list_elem_of_singleton]%elem_of_app.
    + destruct (Hin q Hq). split; [apply elem_of_app; by left|done].
    + split; [apply elem_of_app; right; by left|done].
  - intros q [Hq| ->%list_elem_of_singleton]%elem_of_app; rewrite elem_of_app.
    + destruct (Hall q Hq); [by left; left|by right].
    + left. right. by left.
Qed.

Lemma getMatchingPVCs_loop_wp vg l done acc tr :
  taken tr vg done acc →
  wp (λ _ _, True) (λ tr out, ∀ l', out = Some (inr l') → taken tr vg (done ++ l) l')
    (getMatchingPVCs_loop cfg vg l acc) tr.
Proof.
  revert done acc tr. induction l as [|pvc l IH]; intros done acc tr Hok;
    cbn [getMatchingPVCs_loop].
  { intros l' Heq. simplify_eq. by rewrite app_nil_r. }
  rewrite (cons_middle pvc done l), (app_assoc done). wp_step.
  wp_with isPVCShouldBeInVg_history.
  intros tr1 [[err|b]|] _ Hb; cbn [after]; [by intros ? ?| |by intros ? ?].
  rewrite (Hb b eq_refl). wp_step.
  destruct (selects (om_Labels (pvc_ObjectMeta pvc)) vg) eqn:Hsel.
  - wp_with (IsPVCNeedToBeHandled_history vg pvc Hsel).
    intros tr2 [[err|b2]|] _ [Ht Hf]; cbn [after]; [by intros ? ?| |by intros ? ?].
    pose proof (taken_app _ tr2 _ _ _ (taken_app _ tr1 _ _ _ Hok)) as Hok2.
    destruct (IsPVCInPVCList pvc acc) eqn:Hin; cbn [andb negb].
    + apply IH, taken_skip; [done|]. left. by apply IsPVCInPVCList_spec.
    + apply IsPVCInPVCList_false in Hin. destruct b2; apply IH.
      * apply taken_add; [done..|]. destruct (Ht eq_refl) as (Hb1 & Hb2 & Hb3 & sc & Hr & Hp).
        unfold eligible. split_all; try done.
        -- destruct Hb3 as (sc' & Hr' & Hp'). exists sc'. split; [by apply class_read_app_r|done].
        -- exists sc. split; [by apply class_read_app_r|done].
      * apply taken_skip; [done|]. right.
        destruct (Hf eq_refl) as [?|[?|[(sc & Hr & Hp)|(sc & Hr & Hp)]]];
          [by left|by right; left|do 2 right; left|do 3 right]; exists sc;
          (split; [by apply class_read_app_r|done]).
  - eapply wp_spec; [typeclasses eauto|solve_guard|].
    intros tr2 [[err|b2]|] _ _; cbn [after]; [by intros ? ?| |by intros ? ?].
    cbn [andb]. apply IH, taken_skip; [by do 2 apply taken_app|]. right. by right; left.
Qed.

(** C23: [getMatchingPVCs] answers the members of a group exactly: each claim it
    answers is one of the cluster's, is bound, is selected by its labels, and has
    a storage class of the driver that names no group of its own; no claim is
    answered twice; and every claim of the cluster it does not answer was found
    to fail one of these tests. *)
Theorem getMatchingPVCs_exact vg :
  ensures (getMatchingPVCs cfg vg)
    (λ tr out, ∀ l, out = Some (inr l) → matching_claims tr vg l).
Proof.
  apply wp_ensures. unfold getMatchingPVCs. wp_step. wp_with GetPVCList_history.
  intros tr [[err|l0]|] _ Hl; cbn [after app]; [by intros ? ?| |by intros ? ?].
  destruct (Hl l0 eq_refl) as (all & Hall & Hcand).
  eapply wp_mono; [apply (getMatchingPVCs_loop_wp vg l0 [] [] tr)|].
  { split; [apply NoDup_nil_2|]. split; intros pvc Hin; by apply elem_of_nil in Hin. }
  intros tr' out Hout l ->. destruct (Hout l eq_refl) as (Hnd & Hin & Hex). cbn [app] in *.
  exists all. split; [apply elem_of_app; by left|]. split; [done|]. split.
  - intros pvc Hp. destruct (Hin pvc Hp) as [Hp0 Hel]. split; [by apply Hcand|done].
  - intros pvc Hp. destruct (Hcand pvc) as [_ Hc]. destruct (Hc Hp) as [Hp0|[?|(sc & Hr & Hpr)]].
    + by apply Hex.
    + right. by left.
    + right. do 2 right. left. exists sc. split; [by apply class_read_app|done].
Qed.
End Matching.

(** ** May a claim join a group? *)

Section Joining.
Context `{ExternalLaws}.

(** The groups the claim is in, and those it would join. *)
Definition groups_with (pvc : PersistentVolumeClaim) (vgs : list VolumeGroup) : list VolumeGroup :=
  filter (λ vg, IsPVCInPVCList pvc (vgst_PVCList (vg_Status vg)) = true) vgs.
Definition groups_wanting (pvc : PersistentVolumeClaim) (vgs : list VolumeGroup) : list VolumeGroup :=
  filter (λ vg, IsPVCInPVCList pvc (vgst_PVCList (vg_Status vg)) = false ∧
                selects (om_Labels (pvc_ObjectMeta pvc)) vg = true) vgs.

(** The group has a selector, or holds the claim and is not asked for one. *)
Definition selector_known (pvc : PersistentVolumeClaim) (vg : VolumeGroup) : Prop :=
  IsPVCInPVCList pvc (vgst_PVCList (vg_Status vg)) = true ∨
  is_Some (vgsrc_Selector (vgspec_Source (vg_Spec vg))).

Lemma IsPVCMatchesVG_value pvc vg :
  is_Some (vgsrc_Selector (vgspec_Source (vg_Spec vg))) →
  ∃ r, IsPVCMatchesVG pvc vg = Ret r ∧
       match r with inr b => b | inl _ => false end = selects (om_Labels (pvc_ObjectMeta pvc)) vg.
Proof.
  intros [s Hs]. unfold IsPVCMatchesVG, selects. rewrite Hs. cbn.
  destruct (areLabelsMatchLabelSelector _ s) as [e|[]]; by eexists.
Qed.

Lemma IsPVCCanBeAddedToVG_loop_value pvc vgs w n :
  Forall (selector_known pvc) vgs →
  IsPVCCanBeAddedToVG_loop pvc vgs w n =
  Ret (checkIfPVCCanBeAddedToVG pvc (w ++ (GetName KVG <$> groups_with pvc vgs))
         (n ++ (GetName KVG <$> groups_wanting pvc vgs))).
Proof.
  intros Hok. revert w n.
  induction Hok as [|vg vgs Hvg Hok IH]; intros w n; cbn [IsPVCCanBeAddedToVG_loop].
  { by rewrite !app_nil_r. }
  unfold groups_with, groups_wanting. rewrite !filter_cons.
  destruct (IsPVCInPVCList pvc (vgst_PVCList (vg_Status vg))) eqn:Hin.
  - rewrite IH, decide_True, decide_False by naive_solver. by rewrite <- app_assoc.
  - destruct Hvg as [?|Hsel]; [congruence|].
    destruct (IsPVCMatchesVG_value pvc vg Hsel) as (r & -> & Hr). cbn.
    rewrite (decide_False (P := false = true)) by done.
    destruct r as [e|[]]; rewrite IH, <- Hr; repeat case_decide; try naive_solver.
    by rewrite <- app_assoc.
Qed.

(** C24: whether a claim may join depends on the groups it is in and on the
    groups that select it and do not have it: it may when no such group selects
    it, or when exactly one does and it is in none.  The check panics exactly
    when a group that does not have the claim has no selector. *)
Theorem IsPVCCanBeAddedToVG_decision pvc vgs :
  (Forall (selector_known pvc) vgs →
   ∃ res, IsPVCCanBeAddedToVG pvc vgs = Ret res ∧
     (res = None ↔ groups_wanting pvc vgs = [] ∨
                   (length (groups_wanting pvc vgs) = 1 ∧ groups_with pvc vgs = []))) ∧
  (¬ Forall (selector_known pvc) vgs → IsPVCCanBeAddedToVG pvc vgs = Panic nil_deref).
Proof.
  split.
  - intros Hok. eexists. split; [by apply IsPVCCanBeAddedToVG_loop_value|].
    rewrite checkIfPVCCanBeAddedToVG_None. cbn [app]. rewrite !length_fmap.
    by rewrite !length_zero_iff_nil.
  - unfold IsPVCCanBeAddedToVG. generalize (@nil string) at 1. generalize (@nil string).
    induction vgs as [|vg vgs IH]; intros n w Hbad; [by destruct Hbad|].
    cbn [IsPVCCanBeAddedToVG_loop].
    destruct (IsPVCInPVCList pvc (vgst_PVCList (vg_Status vg))) eqn:Hin.
    { apply IH. intros Hok. apply Hbad. constructor; [by left|done]. }
    destruct (vgsrc_Selector (vgspec_Source (vg_Spec vg))) as [s|] eqn:Hs.
    + assert (is_Some (vgsrc_Selector (vgspec_Source (vg_Spec vg)))) as Hsel by (rewrite Hs; eauto).
      destruct (IsPVCMatchesVG_value pvc vg Hsel) as (r & -> & _). cbn.
      assert (¬ Forall (selector_known pvc) vgs) as Hvgs.
      { intros Hok. apply Hbad. constructor; [by right|done]. }
      destruct r as [e|[]]; by apply IH.
    + unfold IsPVCMatchesVG. by rewrite Hs.
Qed.
End Joining.

#[local] Existing Instance DocExternals.externals.
#[local] Existing Instance DocExternals.laws.

(** The claims found for the sample group. *)
Lemma getMatchingPVCs_exact_witness :
  ∃ tr l, run_outcome serve (getMatchingPVCs Samples.config Samples.VG) Samples.base = Some (inr l) ∧
          length l = 3 ∧ matching_claims Samples.config tr Samples.VG l.
Proof.
  destruct (run_outcome serve (getMatchingPVCs Samples.config Samples.VG) Samples.base)
    as [[e|l]|] eqn:Hout; try (vm_compute in Hout; discriminate Hout).
  exists (run_trace serve (getMatchingPVCs Samples.config Samples.VG) Samples.base), l.
  split; [done|]. split.
  - assert (match run_outcome serve (getMatchingPVCs Samples.config Samples.VG) Samples.base with
            | Some (inr l) => length l | _ => 0 end = 3) as Hlen by by vm_compute.
    by rewrite Hout in Hlen.
  - apply (getMatchingPVCs_exact Samples.config Samples.VG _ (Some (inr l))); [|done].
    rewrite <- Hout. apply run_executes.
Defined.

(** A claim of no group, wanted by one group. *)
Lemma IsPVCCanBeAddedToVG_decision_witness :
  IsPVCCanBeAddedToVG (Samples.PVC "a" "pv-a") [Samples.VG] = Ret None ∧
  IsPVCCanBeAddedToVG (Samples.PVC "a" "pv-a") [zero_vg] = Panic nil_deref.
Proof.
  split.
  - destruct (proj1 (IsPVCCanBeAddedToVG_decision (Samples.PVC "a" "pv-a") [Samples.VG]))
      as (res & Heq & Hres).
    { constructor; [right; by eexists|constructor]. }
    rewrite Heq. f_equal. apply Hres. right. by split.
  - apply (IsPVCCanBeAddedToVG_decision (Samples.PVC "a" "pv-a") [zero_vg]).
    intros Hok. apply Forall_cons_1 in Hok as [[Hc|[s Hs]] _]; [discriminate Hc|discriminate Hs].
Defined.
