(* ===== verification/Heap.v ===== *)
(** * A memory of cells

    What the deep copies of [api/v1] need of Go's memory: allocation, loads and
    stores through pointers, and the statements the generator writes for a
    pointer, a map and a slice.  A program of [mem] is given the memory and
    answers with the memory it leaves; [None] is the use of a pointer that
    points to nothing of its type.

    [wp h m p Q] runs [p] on two disjoint parts: [h], which it may read, and
    [m], its own.  It ends without an error, leaves [h] as it was, and its
    result and its own part satisfy [Q]. *)

From S2P Require Import Prelude.

Definition loc := positive.

Section Memory.
Context {cell : Type}.

Abbreviation heap := (gmap loc cell).

Definition mem (A : Type) : Type := heap → option (A * heap).

#[export] Instance mem_ret : MRet mem := λ A a h, Some (a, h).
#[export] Instance mem_bind : MBind mem := λ A B f p h,
  '(a, h) ← p h; f a h.

(** The Go types whose values have cells of their own, and their zero values. *)
Class Storable (T : Type) := {
  to_cell : T → cell;
  of_cell : cell → option T;
  zero : T;
  of_to_cell x : of_cell (to_cell x) = Some x;
}.

Definition read_at `{Storable T} (h : heap) (l : loc) : option T := h !! l ≫= of_cell.

(** [*l], [new(T)] with an initial value, and [*l = x]. *)
Definition load `{Storable T} (l : loc) : mem T := λ h, (λ x, (x, h)) <$> read_at h l.

Definition alloc `{Storable T} (x : T) : mem loc := λ h,
  let l := fresh (dom h) in Some (l, <[l := to_cell x]> h).

Definition store `{Storable T} (l : loc) (x : T) : mem unit := λ h,
  match h !! l with Some _ => Some (tt, <[l := to_cell x]> h) | None => None end.

(** ** The statements of a generated copy *)

(** [if in.F != nil { *out = new(T); **out = **in }] *)
Definition copy_ptr (T : Type) `{Storable T} (p : option loc) : mem (option loc) :=
  match p with
  | None => mret None
  | Some l => out ← alloc zero; x ← load l; _ ← store out x; mret (Some out)
  end.

(** [if in.F != nil { *out = new(T); ( *in).DeepCopyInto( *out) }], which is also the
    body of the method [DeepCopy] of [T]. *)
Definition copy_deep {T : Type} `{Storable T} (DeepCopyInto : T → mem T) (p : option loc)
  : mem (option loc) :=
  match p with
  | None => mret None
  | Some l => out ← alloc zero; x ← load l; y ← DeepCopyInto x; _ ← store out y; mret (Some out)
  end.

(** [for key, val := range *in { ( *out)[key] = val }], the pairs in some order. *)
Fixpoint copy_pairs `{Storable (gmap string string)} (out : loc) (l : list (string * string))
  : mem unit :=
  match l with
  | [] => mret tt
  | (key, val) :: l => m ← load out; _ ← store out (<[key := val]> m); copy_pairs out l
  end.

(** [if in.F != nil { *out = make(map[string]string, len( *in)); for ... }]; the
    order of the iteration may depend on anything, here on the new map. *)
Definition copy_map `{Storable (gmap string string)} (order : loc → list nat) (p : option loc)
  : mem (option loc) :=
  match p with
  | None => mret None
  | Some l =>
      out ← alloc (∅ : gmap string string); m ← load l;
      _ ← copy_pairs out (arrange (order out) (map_to_list (m : gmap string string)));
      mret (Some out)
  end.

(** A slice: the first [sl_len] elements of its array. *)
Record slice_ref := { sl_arr : loc; sl_len : nat }.

(** [for i := range *in { ( *in)[i].DeepCopyInto(&( *out)[i]) }] from [i] on, for
    [n] more elements. *)
Fixpoint copy_elems {T : Type} `{Storable (list T)} (DeepCopyInto : T → mem T)
    (in_ out : loc) (i n : nat) : mem unit :=
  match n with
  | 0 => mret tt
  | S n =>
      xs ← load in_;
      match (xs : list T) !! i with
      | None => λ _, None
      | Some x =>
          y ← DeepCopyInto x; ys ← load out;
          _ ← store out (<[i := y]> (ys : list T)); copy_elems DeepCopyInto in_ out (S i) n
      end
  end.

(** [if in.F != nil { *out = make([]T, len( *in)); for ... }]; [zero] is the zero value
    of [T]. *)
Definition copy_slice {T : Type} `{Storable (list T)} (zero : T) (DeepCopyInto : T → mem T)
    (p : option slice_ref) : mem (option slice_ref) :=
  match p with
  | None => mret None
  | Some s =>
      out ← alloc (replicate (sl_len s) zero);
      _ ← copy_elems DeepCopyInto (sl_arr s) out 0 (sl_len s);
      mret (Some {| sl_arr := out; sl_len := sl_len s |})
  end.

(** ** What is seen through a pointer, a map, a slice *)

Definition view_ptr (T : Type) `{Storable T} (h : heap) (p : option loc) : option (option T) :=
  match p with None => Some None | Some l => Some <$> read_at h l end.

Definition view_deep {T V : Type} `{Storable T} (view : heap → T → option V) (h : heap)
    (p : option loc) : option (option V) :=
  match p with None => Some None | Some l => x ← read_at h l; Some <$> view h x end.

(** A nil map reads as an empty one, a nil slice as one without elements. *)
Definition view_map `{Storable (gmap string string)} (h : heap) (p : option loc)
  : option (gmap string string) :=
  match p with None => Some ∅ | Some l => read_at h l end.

Definition view_slice {T V : Type} `{Storable (list T)} (view : heap → T → option V) (h : heap)
    (p : option slice_ref) : option (list V) :=
  match p with
  | None => Some []
  | Some s =>
      xs ← read_at h (sl_arr s);
      if decide (sl_len s ≤ length xs) then mapM (view h) (take (sl_len s) xs) else None
  end.

(** ** The logic *)

Definition wp {A} (h m : heap) (p : mem A) (Q : A → heap → Prop) : Prop :=
  m ##ₘ h → ∃ a m', p (m ∪ h) = Some (a, m' ∪ h) ∧ m' ##ₘ h ∧ Q a m'.

(** What is seen of a value is seen in every larger memory. *)
Definition grows {A V} (view : heap → A → option V) : Prop :=
  ∀ m h x v, m ⊆ h → view m x = Some v → view h x = Some v.

(** [copies view copy]: [copy] makes, in cells that are all new, a value of which
    the same is seen, without any help of the old cells. *)
Definition copies {A V} (view : heap → A → option V) (copy : A → mem A) : Prop :=
  grows view ∧
  ∀ h x v, view h x = Some v → wp h ∅ (copy x) (λ y m, view m y = Some v).

Section Logic.
Context {A B : Type}.
Implicit Types (h m : heap).

Lemma wp_ret h m (a : A) (Q : A → heap → Prop) : Q a m → wp h m (mret a) Q.
Proof. intros HQ Hd. by exists a, m. Qed.

Lemma wp_seq h m (p : mem A) (f : A → mem B) (Q : B → heap → Prop) :
  wp h m p (λ a m', wp h m' (f a) Q) → wp h m (p ≫= f) Q.
Proof.
  intros Hp Hd. destruct (Hp Hd) as (a & m' & Hrun & Hd' & Hf).
  destruct (Hf Hd') as (b & m'' & Hrun' & Hd'' & HQ). exists b, m''.
  split; [|done]. unfold mbind, mem_bind. by rewrite Hrun; cbn; rewrite Hrun'.
Qed.

Lemma wp_weaken h m (p : mem A) (Q Q' : A → heap → Prop) :
  wp h m p Q → (∀ a m', m' ##ₘ h → Q a m' → Q' a m') → wp h m p Q'.
Proof.
  intros Hp HQ Hd. destruct (Hp Hd) as (a & m' & Hrun & Hd' & Ha). exists a, m'. auto.
Qed.

(** A program that only needs to read what another one owns. *)
Lemma wp_frame h m (p : mem A) (Q : A → heap → Prop) :
  wp (m ∪ h) ∅ p Q →
  wp h m p (λ a m', ∃ m1, m' = m1 ∪ m ∧ m1 ##ₘ m ∧ Q a m1).
Proof.
  intros Hp Hd. destruct (Hp (map_disjoint_empty_l _)) as (a & m1 & Hrun & Hd1 & Ha).
  rewrite map_empty_union in Hrun. apply map_disjoint_union_r in Hd1 as [Hd1 Hd2].
  exists a, (m1 ∪ m). split; [by rewrite <- (assoc_L (∪))|].
  split; [by apply map_disjoint_union_l|]. by exists m1.
Qed.

Context {T : Type} `{Storable T}.

Lemma read_at_insert h l (x : T) : read_at (<[l := to_cell x]> h) l = Some x.
Proof. unfold read_at. rewrite lookup_insert_eq. apply of_to_cell. Qed.

Lemma read_at_mono h m l (x : T) : m ⊆ h → read_at m l = Some x → read_at h l = Some x.
Proof.
  unfold read_at. intros Hsub (c & Hc & Hx)%bind_Some. by rewrite (lookup_weaken _ _ _ _ Hc Hsub).
Qed.

Lemma wp_load h m l (x : T) (Q : T → heap → Prop) :
  read_at (m ∪ h) l = Some x → Q x m → wp h m (load l) Q.
Proof. intros Hl HQ Hd. exists x, m. unfold load. by rewrite Hl. Qed.

(** The cell at [l] is the new one in the own part. *)
Lemma wp_load_own h m l (x : T) (Q : T → heap → Prop) :
  Q x (<[l := to_cell x]> m) → wp h (<[l := to_cell x]> m) (load l) Q.
Proof.
  intros HQ. apply wp_load with x; [|done].
  eapply read_at_mono; [apply map_union_subseteq_l|apply read_at_insert].
Qed.

Lemma wp_load_old h m l (x : T) (Q : T → heap → Prop) :
  read_at h l = Some x → Q x m → wp h m (load l) Q.
Proof.
  intros Hl HQ Hd. apply (wp_load h m l x); [|done..].
  eapply read_at_mono; [by apply map_union_subseteq_r|done].
Qed.

Lemma wp_alloc h m (x : T) (Q : loc → heap → Prop) :
  (∀ l, m !! l = None → Q l (<[l := to_cell x]> m)) → wp h m (alloc x) Q.
Proof.
  intros HQ Hd. set (l := fresh (dom (m ∪ h))).
  assert ((m ∪ h) !! l = None) as Hl by (apply not_elem_of_dom; apply is_fresh).
  apply lookup_union_None in Hl as [Hm Hh].
  exists l, (<[l := to_cell x]> m). unfold alloc. rewrite <- insert_union_l.
  split; [done|]. split; [by apply map_disjoint_insert_l_2|auto].
Qed.

Lemma wp_store_own h m l c (x : T) (Q : unit → heap → Prop) :
  Q tt (<[l := to_cell x]> m) → wp h (<[l := c]> m) (store l x) Q.
Proof.
  intros HQ Hd. exists tt, (<[l := to_cell x]> m). unfold store.
  rewrite <- insert_union_l, lookup_insert_eq, insert_insert_eq, insert_union_l.
  split; [done|]. split; [|done].
  apply map_disjoint_insert_l in Hd as [Hl Hd]. by apply map_disjoint_insert_l_2.
Qed.
End Logic.

Lemma copies_grows {A V} (view : heap → A → option V) copy : copies view copy → grows view.
Proof. by intros [Hmono _]. Qed.

Lemma view_mono {A V} (view : heap → A → option V) copy m h x v :
  copies view copy → m ⊆ h → view m x = Some v → view h x = Some v.
Proof. intros Hcopy. by eapply copies_grows. Qed.

(** A copy of something seen in the old part, into cells [m1] of its own. *)
Lemma wp_copy {A V} (view : heap → A → option V) copy h m x v (Q : A → heap → Prop) :
  copies view copy → view h x = Some v →
  (∀ y m1, m1 ##ₘ m → view m1 y = Some v → Q y (m1 ∪ m)) → wp h m (copy x) Q.
Proof.
  intros [Hmono Hcopy] Hx HQ Hd. refine (wp_weaken _ _ _ _ _ _ _ Hd).
  - eapply wp_frame, Hcopy, Hmono, Hx. by apply map_union_subseteq_r.
  - intros y m' _ (m1 & -> & Hd1 & Hy). by apply HQ.
Qed.

(** ** The statements are copies *)

Lemma copies_ptr T `{Storable T} : copies (view_ptr T) (copy_ptr T).
Proof.
  split.
  - intros m h [l|] v Hsub; cbn; [|done]. intros (x & Hx & ->)%fmap_Some.
    by rewrite (read_at_mono _ _ _ _ Hsub Hx).
  - intros h [l|] v; cbn [view_ptr copy_ptr]; [|intros; by apply wp_ret].
    intros (x & Hx & ->)%fmap_Some. apply wp_seq, wp_alloc. intros out _.
    apply wp_seq, (wp_load_old _ _ _ x); [done|]. apply wp_seq, wp_store_own, wp_ret.
    cbn. by rewrite read_at_insert.
Qed.

Lemma copies_deep {T V} `{Storable T} (view : heap → T → option V) DeepCopyInto :
  copies view DeepCopyInto → copies (view_deep view) (copy_deep DeepCopyInto).
Proof.
  intros Hcopy. split.
  - intros m h [l|] v Hsub; cbn; [|done].
    intros (x & Hx & (w & Hw & ->)%fmap_Some)%bind_Some.
    rewrite (read_at_mono _ _ _ _ Hsub Hx). cbn. by rewrite (view_mono _ _ _ _ _ _ Hcopy Hsub Hw).
  - intros h [l|] v; cbn [view_deep copy_deep]; [|intros; by apply wp_ret].
    intros (x & Hx & (w & Hw & ->)%fmap_Some)%bind_Some.
    apply wp_seq, wp_alloc. intros out _.
    apply wp_seq, (wp_load_old _ _ _ x); [done|]. apply wp_seq, (wp_copy view _ _ _ _ w); [done..|].
    intros y m1 Hd1 Hy. apply map_disjoint_insert_r in Hd1 as [Hout _].
    rewrite <- insert_union_r by done. apply wp_seq, wp_store_own, wp_ret.
    cbn. rewrite read_at_insert. cbn.
    rewrite (view_mono _ _ m1 _ _ w Hcopy); [done| |done].
    rewrite (right_id_L ∅ (∪)). by apply insert_subseteq.
Qed.

Lemma wp_copy_pairs `{Storable (gmap string string)} h m out (kvs : list (string * string)) done_
    (Q : unit → heap → Prop) :
  NoDup kvs.*1 →
  Q tt (<[out := to_cell (list_to_map kvs ∪ done_)]> m) →
  wp h (<[out := to_cell done_]> m) (copy_pairs out kvs) Q.
Proof.
  revert done_. induction kvs as [|[k v] kvs IH]; intros done_ Hnd HQ; cbn [copy_pairs].
  - apply wp_ret. cbn in HQ. by rewrite map_empty_union in HQ.
  - apply NoDup_cons in Hnd as [Hk Hnd].
    apply wp_seq, wp_load_own, wp_seq, wp_store_own, IH; [done|].
    cbn in HQ. rewrite <- insert_union_l in HQ.
    rewrite <- insert_union_r; [done|]. by apply not_elem_of_list_to_map_1.
Qed.

Lemma copies_map `{Storable (gmap string string)} order : copies view_map (copy_map order).
Proof.
  split.
  - intros m h [l|] v Hsub; cbn; [|done]. by apply read_at_mono.
  - intros h [l|] v Hv; cbn [view_map copy_map] in *; [|by apply wp_ret].
    apply wp_seq, wp_alloc. intros out _. apply wp_seq, (wp_load_old _ _ _ v); [done|].
    pose proof (arrange_Permutation (order out) (map_to_list v)) as Hp.
    apply wp_seq, wp_copy_pairs.
    { rewrite Hp. apply NoDup_fst_map_to_list. }
    apply wp_ret. cbn. rewrite read_at_insert, (right_id_L ∅ (∪)).
    f_equal. rewrite <- (list_to_map_to_list v) at 2. apply list_to_map_proper; [|done].
    rewrite Hp. apply NoDup_fst_map_to_list.
Qed.

Lemma grows_map `{Storable (gmap string string)} : grows view_map.
Proof. exact (copies_grows _ _ (copies_map (λ _, []))). Qed.

Section Slices.
Context {T V : Type} `{Storable (list T)}.
Context (view : heap → T → option V) (DeepCopyInto : T → mem T).
Context (Hcopy : copies view DeepCopyInto).

Definition all_seen (m : heap) (xs : list T) (vs : list V) : Prop := mapM (view m) xs = Some vs.

Lemma all_seen_mono m h xs vs : m ⊆ h → all_seen m xs vs → all_seen h xs vs.
Proof.
  unfold all_seen. rewrite !mapM_Some. intros Hsub Hm. eapply Forall2_impl; [exact Hm|].
  intros x v. by apply (view_mono _ _ _ _ _ _ Hcopy).
Qed.

Lemma all_seen_snoc m xs vs x v :
  all_seen m xs vs → view m x = Some v → all_seen m (xs ++ [x]) (vs ++ [v]).
Proof.
  unfold all_seen. rewrite !mapM_Some. intros Hm Hx. apply Forall2_app; [done|].
  by repeat constructor.
Qed.

(** The elements copied so far, [ys], see [vs]; those left, [zs], get overwritten. *)
Lemma wp_copy_elems h in_ out xs ys zs vs ws m :
  read_at h in_ = Some xs → all_seen h (take (length zs) (drop (length ys) xs)) ws →
  length ws = length zs → all_seen m ys vs → m !! out = None →
  wp h (<[out := to_cell (ys ++ zs)]> m) (copy_elems DeepCopyInto in_ out (length ys) (length zs))
    (λ _ m', ∃ ys' m1, m' = <[out := to_cell ys']> m1 ∧ length ys' = length ys + length zs ∧
                       m1 !! out = None ∧ all_seen m1 ys' (vs ++ ws)).
Proof.
  intros Hin. revert ys vs ws m. induction zs as [|z zs IH]; intros ys vs ws m Hws Hlen Hys Hout.
  - destruct ws; [|done]. cbn [copy_elems length]. apply wp_ret. exists ys, m.
    rewrite !app_nil_r, Nat.add_0_r. done.
  - cbn [copy_elems length] in *. apply wp_seq, (wp_load_old _ _ _ xs); [done|].
    unfold all_seen in Hws. destruct (drop (length ys) xs) as [|x rest] eqn:Hdrop.
    { apply length_mapM in Hws. cbn in *. lia. }
    assert (xs !! length ys = Some x) as ->.
    { rewrite <- (Nat.add_0_r (length ys)), <- lookup_drop, Hdrop. done. }
    cbn in Hws. apply bind_Some in Hws as (w & Hw & (ws' & Hws & [= <-])%bind_Some).
    apply wp_seq, (wp_copy view _ _ _ _ w); [done..|]. intros y m1 Hd1 Hy.
    apply map_disjoint_insert_r in Hd1 as [Hout1 Hd1]. rewrite <- insert_union_r by done.
    apply wp_seq, wp_load_own, wp_seq, wp_store_own.
    replace (<[length ys := y]> (ys ++ z :: zs)) with ((ys ++ [y]) ++ zs)
      by (by rewrite <- (Nat.add_0_r (length ys)), insert_app_r, <- (assoc_L (++))).
    replace (S (length ys)) with (length (ys ++ [y])) by (rewrite length_app; cbn; lia).
    eapply wp_weaken; [apply (IH (ys ++ [y]) (vs ++ [w]) ws')|].
    + unfold all_seen. rewrite length_app, <- drop_drop, Hdrop. done.
    + cbn in Hlen. lia.
    + apply all_seen_snoc.
      * eapply all_seen_mono; [by apply map_union_subseteq_r|done].
      * eapply (view_mono _ _ _ _ _ _ Hcopy); [apply map_union_subseteq_l|done].
    + by apply lookup_union_None.
    + intros [] m' _ (ys' & m2 & -> & Hl & Hm2 & Hall). exists ys', m2.
      rewrite <- (assoc_L (++)) in Hall. rewrite length_app in Hl. cbn in Hl.
      split_and!; [done|lia|done|done].
Qed.

Lemma grows_slice : grows (view_slice view).
Proof.
  intros m h [s|] v Hsub; cbn; [|done]. intros (xs & Hxs & Hv)%bind_Some.
  rewrite (read_at_mono _ _ _ _ Hsub Hxs). cbn. case_decide; [|done].
  by eapply all_seen_mono.
Qed.

Lemma copies_slice zero : copies (view_slice view) (copy_slice zero DeepCopyInto).
Proof.
  split; [exact grows_slice|].
  intros h [s|] v Hv; cbn [view_slice copy_slice] in *; [|by apply wp_ret].
  apply bind_Some in Hv as (xs & Hxs & Hv). case_decide as Hlen; [|done].
  apply wp_seq, wp_alloc. intros out Hout. apply wp_seq. eapply wp_weaken.
  - pose proof (wp_copy_elems h (sl_arr s) out xs [] (replicate (sl_len s) zero) [] v ∅) as Hw.
    rewrite length_replicate in Hw. apply Hw; try done.
    apply length_mapM in Hv. rewrite length_take in Hv. lia.
  - intros [] m' _ (ys & m1 & -> & Hl & Hm1 & Hall). apply wp_ret.
    cbn in *. rewrite read_at_insert. cbn.
    rewrite decide_True by lia. rewrite take_ge by lia.
    eapply all_seen_mono; [|exact Hall]. by apply insert_subseteq.
Qed.
End Slices.
End Memory.

Arguments mem : clear implicits.
Arguments Storable : clear implicits.
