(* ===== verification/DeepCopy.v ===== *)
(** * The generated deep copies

    [api/v1/zz_generated.deepcopy.go].  The types of [api/v1] as they are in
    memory, pointers, maps and slices included (module [Go]), and the methods
    [DeepCopyInto], [DeepCopy] and [DeepCopyObject].  [DeepCopyInto] is given the
    struct behind [in] and answers with the struct it leaves behind [out], which
    it overwrites as a whole first ([*out = *in]).

    What is read of a struct in memory is a value of [Api]: the rest of the
    development works on these values and takes every copy for the identity.
    The types of Kubernetes, their copies and what is read of them are the
    parameters [Foreign] and [ForeignCode]; that they are copies themselves is
    [ForeignLaws].  [DocForeign] is an instance. *)

From S2P Require Import Prelude GoLang Api Heap.
Local Open Scope string_scope.

(** The struct types of the libraries, their zero values, the cells they point
    to, and what is read of a [metav1.ListMeta]. *)
Class Foreign := {
  f_ObjectMeta : Type;
  f_ListMeta : Type;
  f_PersistentVolume : Type;
  f_PersistentVolumeClaim : Type;
  f_LabelSelector : Type;
  f_cell : Type;
  ListMeta : Type;
  zero_ObjectMeta : f_ObjectMeta;
  zero_ListMeta : f_ListMeta;
  zero_PersistentVolume : f_PersistentVolume;
  zero_PersistentVolumeClaim : f_PersistentVolumeClaim;
  zero_LabelSelector : f_LabelSelector;
}.

(** ** The types of [api/v1] in memory *)

Module Go.
Section Types.
Context `{Foreign}.

Record VolumeGroupError_struct := { vge_Time : option loc; vge_Message : option loc }.

Record VolumeGroupSource_struct := {
  vgsrc_VolumeGroupContentName : option loc;
  vgsrc_Selector : option loc;
}.

Record VolumeGroupSpec_struct := {
  vgspec_VolumeGroupClassName : option loc;
  vgspec_Source : VolumeGroupSource_struct;
}.

Record VolumeGroupStatus_struct := {
  vgst_BoundVolumeGroupContentName : option loc;
  vgst_GroupCreationTime : option loc;
  vgst_PVCList : option slice_ref;
  vgst_Ready : option loc;
  vgst_Error : option loc;
}.

Record VolumeGroup_struct := {
  vg_TypeMeta : TypeMeta;
  vg_ObjectMeta : f_ObjectMeta;
  vg_Spec : VolumeGroupSpec_struct;
  vg_Status : VolumeGroupStatus_struct;
}.

Record VolumeGroupList_struct := {
  vgl_TypeMeta : TypeMeta;
  vgl_ListMeta : f_ListMeta;
  vgl_Items : option slice_ref;
}.

Record VolumeGroupClass_struct := {
  vgclass_TypeMeta : TypeMeta;
  vgclass_ObjectMeta : f_ObjectMeta;
  vgclass_Driver : string;
  vgclass_Parameters : option loc;
  vgclass_VolumeGroupDeletionPolicy : option loc;
  vgclass_SupportVolumeGroupSnapshot : option loc;
}.

Record VolumeGroupClassList_struct := {
  vgclassl_TypeMeta : TypeMeta;
  vgclassl_ListMeta : f_ListMeta;
  vgclassl_Items : option slice_ref;
}.

Record VolumeGroupContentSource_struct := {
  vgcsrc_Driver : string;
  vgcsrc_VolumeGroupHandle : string;
  vgcsrc_VolumeGroupAttributes : option loc;
}.

Record VolumeGroupContentSpec_struct := {
  vgcspec_VolumeGroupClassName : option loc;
  vgcspec_VolumeGroupRef : option loc;
  vgcspec_Source : option loc;
  vgcspec_VolumeGroupDeletionPolicy : option loc;
  vgcspec_SupportVolumeGroupSnapshot : option loc;
  vgcspec_VolumeGroupSecretRef : option loc;
}.

Record VolumeGroupContentStatus_struct := {
  vgcst_GroupCreationTime : option loc;
  vgcst_PVList : option slice_ref;
  vgcst_Ready : option loc;
  vgcst_Error : option loc;
}.

Record VolumeGroupContent_struct := {
  vgc_TypeMeta : TypeMeta;
  vgc_ObjectMeta : f_ObjectMeta;
  vgc_Spec : VolumeGroupContentSpec_struct;
  vgc_Status : VolumeGroupContentStatus_struct;
}.

Record VolumeGroupContentList_struct := {
  vgcl_TypeMeta : TypeMeta;
  vgcl_ListMeta : f_ListMeta;
  vgcl_Items : option slice_ref;
}.
End Types.
End Go.

(** ** The lists of the API, as values *)

Section Lists.
Context `{Foreign}.

Record VolumeGroupList := {
  vgl_TypeMeta : TypeMeta; vgl_ListMeta : ListMeta; vgl_Items : list VolumeGroup
}.
Record VolumeGroupClassList := {
  vgclassl_TypeMeta : TypeMeta; vgclassl_ListMeta : ListMeta;
  vgclassl_Items : list VolumeGroupClass
}.
Record VolumeGroupContentList := {
  vgcl_TypeMeta : TypeMeta; vgcl_ListMeta : ListMeta; vgcl_Items : list VolumeGroupContent
}.
End Lists.

(** ** Cells *)

Inductive cell `{Foreign} :=
| CString (x : string)
| CBool (x : bool)
| CMap (x : gmap string string)
| CObjectReference (x : ObjectReference)
| CSecretReference (x : SecretReference)
| CLabelSelector (x : f_LabelSelector)
| CVolumeGroupError (x : Go.VolumeGroupError_struct)
| CVolumeGroupSource (x : Go.VolumeGroupSource_struct)
| CVolumeGroupSpec (x : Go.VolumeGroupSpec_struct)
| CVolumeGroupStatus (x : Go.VolumeGroupStatus_struct)
| CVolumeGroup (x : Go.VolumeGroup_struct)
| CVolumeGroupList (x : Go.VolumeGroupList_struct)
| CVolumeGroupClass (x : Go.VolumeGroupClass_struct)
| CVolumeGroupClassList (x : Go.VolumeGroupClassList_struct)
| CVolumeGroupContentSource (x : Go.VolumeGroupContentSource_struct)
| CVolumeGroupContentSpec (x : Go.VolumeGroupContentSpec_struct)
| CVolumeGroupContentStatus (x : Go.VolumeGroupContentStatus_struct)
| CVolumeGroupContent (x : Go.VolumeGroupContent_struct)
| CVolumeGroupContentList (x : Go.VolumeGroupContentList_struct)
| CPersistentVolumes (x : list f_PersistentVolume)
| CPersistentVolumeClaims (x : list f_PersistentVolumeClaim)
| CVolumeGroups (x : list Go.VolumeGroup_struct)
| CVolumeGroupClasses (x : list Go.VolumeGroupClass_struct)
| CVolumeGroupContents (x : list Go.VolumeGroupContent_struct)
| CForeign (x : f_cell).

Definition zero_TypeMeta : TypeMeta := {| tm_Kind := ""; tm_APIVersion := "" |}.

Section Storage.
Context `{Foreign}.

#[export] Instance string_storable : Storable cell string :=
  {| to_cell := CString; of_cell c := match c with CString x => Some x | _ => None end;
     zero := ""; of_to_cell _ := eq_refl |}.
#[export] Instance bool_storable : Storable cell bool :=
  {| to_cell := CBool; of_cell c := match c with CBool x => Some x | _ => None end;
     zero := false; of_to_cell _ := eq_refl |}.
#[export] Instance Map_storable : Storable cell (gmap string string) :=
  {| to_cell := CMap; of_cell c := match c with CMap x => Some x | _ => None end;
     zero := ∅; of_to_cell _ := eq_refl |}.
#[export] Instance ObjectReference_storable : Storable cell ObjectReference :=
  {| to_cell := CObjectReference; of_cell c := match c with CObjectReference x => Some x | _ => None end;
     zero := {| or_Kind := ""; or_Namespace := ""; or_Name := "";
             or_UID := ""; or_APIVersion := ""; or_ResourceVersion := "" |}; of_to_cell _ := eq_refl |}.
#[export] Instance SecretReference_storable : Storable cell SecretReference :=
  {| to_cell := CSecretReference; of_cell c := match c with CSecretReference x => Some x | _ => None end;
     zero := {| sr_Name := ""; sr_Namespace := "" |}; of_to_cell _ := eq_refl |}.
#[export] Instance LabelSelector_storable : Storable cell f_LabelSelector :=
  {| to_cell := CLabelSelector; of_cell c := match c with CLabelSelector x => Some x | _ => None end;
     zero := zero_LabelSelector; of_to_cell _ := eq_refl |}.
#[export] Instance VolumeGroupError_storable : Storable cell Go.VolumeGroupError_struct :=
  {| to_cell := CVolumeGroupError; of_cell c := match c with CVolumeGroupError x => Some x | _ => None end;
     zero := {| Go.vge_Time := None; Go.vge_Message := None |}; of_to_cell _ := eq_refl |}.
#[export] Instance VolumeGroupSource_storable : Storable cell Go.VolumeGroupSource_struct :=
  {| to_cell := CVolumeGroupSource; of_cell c := match c with CVolumeGroupSource x => Some x | _ => None end;
     zero := {| Go.vgsrc_VolumeGroupContentName := None; Go.vgsrc_Selector := None |}; of_to_cell _ := eq_refl |}.
#[export] Instance VolumeGroupSpec_storable : Storable cell Go.VolumeGroupSpec_struct :=
  {| to_cell := CVolumeGroupSpec; of_cell c := match c with CVolumeGroupSpec x => Some x | _ => None end;
     zero := {| Go.vgspec_VolumeGroupClassName := None; Go.vgspec_Source := zero |}; of_to_cell _ := eq_refl |}.
#[export] Instance VolumeGroupStatus_storable : Storable cell Go.VolumeGroupStatus_struct :=
  {| to_cell := CVolumeGroupStatus; of_cell c := match c with CVolumeGroupStatus x => Some x | _ => None end;
     zero := {| Go.vgst_BoundVolumeGroupContentName := None;
             Go.vgst_GroupCreationTime := None; Go.vgst_PVCList := None;
             Go.vgst_Ready := None; Go.vgst_Error := None |}; of_to_cell _ := eq_refl |}.
#[export] Instance VolumeGroup_storable : Storable cell Go.VolumeGroup_struct :=
  {| to_cell := CVolumeGroup; of_cell c := match c with CVolumeGroup x => Some x | _ => None end;
     zero := {| Go.vg_TypeMeta := zero_TypeMeta; Go.vg_ObjectMeta := zero_ObjectMeta;
             Go.vg_Spec := zero; Go.vg_Status := zero |}; of_to_cell _ := eq_refl |}.
#[export] Instance VolumeGroupList_storable : Storable cell Go.VolumeGroupList_struct :=
  {| to_cell := CVolumeGroupList; of_cell c := match c with CVolumeGroupList x => Some x | _ => None end;
     zero := {| Go.vgl_TypeMeta := zero_TypeMeta; Go.vgl_ListMeta := zero_ListMeta;
             Go.vgl_Items := None |}; of_to_cell _ := eq_refl |}.
#[export] Instance VolumeGroupClass_storable : Storable cell Go.VolumeGroupClass_struct :=
  {| to_cell := CVolumeGroupClass; of_cell c := match c with CVolumeGroupClass x => Some x | _ => None end;
     zero := {| Go.vgclass_TypeMeta := zero_TypeMeta; Go.vgclass_ObjectMeta := zero_ObjectMeta;
             Go.vgclass_Driver := ""; Go.vgclass_Parameters := None;
             Go.vgclass_VolumeGroupDeletionPolicy := None;
             Go.vgclass_SupportVolumeGroupSnapshot := None |}; of_to_cell _ := eq_refl |}.
#[export] Instance VolumeGroupClassList_storable : Storable cell Go.VolumeGroupClassList_struct :=
  {| to_cell := CVolumeGroupClassList; of_cell c := match c with CVolumeGroupClassList x => Some x | _ => None end;
     zero := {| Go.vgclassl_TypeMeta := zero_TypeMeta; Go.vgclassl_ListMeta := zero_ListMeta;
             Go.vgclassl_Items := None |}; of_to_cell _ := eq_refl |}.
#[export] Instance VolumeGroupContentSource_storable : Storable cell Go.VolumeGroupContentSource_struct :=
  {| to_cell := CVolumeGroupContentSource; of_cell c := match c with CVolumeGroupContentSource x => Some x | _ => None end;
     zero := {| Go.vgcsrc_Driver := ""; Go.vgcsrc_VolumeGroupHandle := "";
             Go.vgcsrc_VolumeGroupAttributes := None |}; of_to_cell _ := eq_refl |}.
#[export] Instance VolumeGroupContentSpec_storable : Storable cell Go.VolumeGroupContentSpec_struct :=
  {| to_cell := CVolumeGroupContentSpec; of_cell c := match c with CVolumeGroupContentSpec x => Some x | _ => None end;
     zero := {| Go.vgcspec_VolumeGroupClassName := None; Go.vgcspec_VolumeGroupRef := None;
             Go.vgcspec_Source := None; Go.vgcspec_VolumeGroupDeletionPolicy := None;
             Go.vgcspec_SupportVolumeGroupSnapshot := None;
             Go.vgcspec_VolumeGroupSecretRef := None |}; of_to_cell _ := eq_refl |}.
#[export] Instance VolumeGroupContentStatus_storable : Storable cell Go.VolumeGroupContentStatus_struct :=
  {| to_cell := CVolumeGroupContentStatus; of_cell c := match c with CVolumeGroupContentStatus x => Some x | _ => None end;
     zero := {| Go.vgcst_GroupCreationTime := None; Go.vgcst_PVList := None;
             Go.vgcst_Ready := None; Go.vgcst_Error := None |}; of_to_cell _ := eq_refl |}.
#[export] Instance VolumeGroupContent_storable : Storable cell Go.VolumeGroupContent_struct :=
  {| to_cell := CVolumeGroupContent; of_cell c := match c with CVolumeGroupContent x => Some x | _ => None end;
     zero := {| Go.vgc_TypeMeta := zero_TypeMeta; Go.vgc_ObjectMeta := zero_ObjectMeta;
             Go.vgc_Spec := zero; Go.vgc_Status := zero |}; of_to_cell _ := eq_refl |}.
#[export] Instance VolumeGroupContentList_storable : Storable cell Go.VolumeGroupContentList_struct :=
  {| to_cell := CVolumeGroupContentList; of_cell c := match c with CVolumeGroupContentList x => Some x | _ => None end;
     zero := {| Go.vgcl_TypeMeta := zero_TypeMeta; Go.vgcl_ListMeta := zero_ListMeta;
             Go.vgcl_Items := None |}; of_to_cell _ := eq_refl |}.
#[export] Instance PersistentVolumes_storable : Storable cell (list f_PersistentVolume) :=
  {| to_cell := CPersistentVolumes; of_cell c := match c with CPersistentVolumes x => Some x | _ => None end;
     zero := []; of_to_cell _ := eq_refl |}.
#[export] Instance PersistentVolumeClaims_storable : Storable cell (list f_PersistentVolumeClaim) :=
  {| to_cell := CPersistentVolumeClaims; of_cell c := match c with CPersistentVolumeClaims x => Some x | _ => None end;
     zero := []; of_to_cell _ := eq_refl |}.
#[export] Instance VolumeGroups_storable : Storable cell (list Go.VolumeGroup_struct) :=
  {| to_cell := CVolumeGroups; of_cell c := match c with CVolumeGroups x => Some x | _ => None end;
     zero := []; of_to_cell _ := eq_refl |}.
#[export] Instance VolumeGroupClasses_storable : Storable cell (list Go.VolumeGroupClass_struct) :=
  {| to_cell := CVolumeGroupClasses; of_cell c := match c with CVolumeGroupClasses x => Some x | _ => None end;
     zero := []; of_to_cell _ := eq_refl |}.
#[export] Instance VolumeGroupContents_storable : Storable cell (list Go.VolumeGroupContent_struct) :=
  {| to_cell := CVolumeGroupContents; of_cell c := match c with CVolumeGroupContents x => Some x | _ => None end;
     zero := []; of_to_cell _ := eq_refl |}.
End Storage.

(** ** The copies of the libraries *)

Abbreviation heap := (gmap loc cell).

(** What is read of the structs of the libraries, and their copies.  The receiver
    of [Time.DeepCopy] is the pointer. *)
Class ForeignCode `{Foreign} := {
  ObjectMeta_view : heap → f_ObjectMeta → option ObjectMeta;
  ListMeta_view : heap → f_ListMeta → option ListMeta;
  PersistentVolume_view : heap → f_PersistentVolume → option PersistentVolume;
  PersistentVolumeClaim_view : heap → f_PersistentVolumeClaim → option PersistentVolumeClaim;
  LabelSelector_view : heap → f_LabelSelector → option LabelSelector;
  Time_view : heap → option loc → option (option Z);
  ObjectMeta_DeepCopyInto : f_ObjectMeta → mem cell f_ObjectMeta;
  ListMeta_DeepCopyInto : f_ListMeta → mem cell f_ListMeta;
  PersistentVolume_DeepCopyInto : f_PersistentVolume → mem cell f_PersistentVolume;
  PersistentVolumeClaim_DeepCopyInto : f_PersistentVolumeClaim → mem cell f_PersistentVolumeClaim;
  LabelSelector_DeepCopyInto : f_LabelSelector → mem cell f_LabelSelector;
  Time_DeepCopy : option loc → mem cell (option loc);
}.

Class ForeignLaws `{ForeignCode} := {
  ObjectMeta_copies : copies ObjectMeta_view ObjectMeta_DeepCopyInto;
  ListMeta_copies : copies ListMeta_view ListMeta_DeepCopyInto;
  PersistentVolume_copies : copies PersistentVolume_view PersistentVolume_DeepCopyInto;
  PersistentVolumeClaim_copies :
    copies PersistentVolumeClaim_view PersistentVolumeClaim_DeepCopyInto;
  LabelSelector_copies : copies LabelSelector_view LabelSelector_DeepCopyInto;
  Time_copies : copies Time_view Time_DeepCopy;
  Time_nil h : Time_view h None = Some None;
}.

(** ** The generated methods *)

Section Methods.
Context `{ForeignCode}.
(** The order in which a map is ranged over, for each copy of a map. *)
Context (order : loc → list nat).

(** [if in.F != nil { *out = ( *in).DeepCopy() }] for a pointer to a [metav1.Time]. *)
Definition copy_time (p : option loc) : mem cell (option loc) :=
  match p with None => mret None | Some t => Time_DeepCopy (Some t) end.

Definition VolumeGroupError_DeepCopyInto (in_ : Go.VolumeGroupError_struct)
  : mem cell Go.VolumeGroupError_struct :=
  time ← copy_time (Go.vge_Time in_);
  message ← copy_ptr string (Go.vge_Message in_);
  mret {| Go.vge_Time := time; Go.vge_Message := message |}.

Definition VolumeGroupError_DeepCopy : option loc → mem cell (option loc) :=
  copy_deep VolumeGroupError_DeepCopyInto.

Definition VolumeGroupSource_DeepCopyInto (in_ : Go.VolumeGroupSource_struct)
  : mem cell Go.VolumeGroupSource_struct :=
  name ← copy_ptr string (Go.vgsrc_VolumeGroupContentName in_);
  selector ← copy_deep LabelSelector_DeepCopyInto (Go.vgsrc_Selector in_);
  mret {| Go.vgsrc_VolumeGroupContentName := name; Go.vgsrc_Selector := selector |}.

Definition VolumeGroupSource_DeepCopy : option loc → mem cell (option loc) :=
  copy_deep VolumeGroupSource_DeepCopyInto.

Definition VolumeGroupSpec_DeepCopyInto (in_ : Go.VolumeGroupSpec_struct) : mem cell Go.VolumeGroupSpec_struct :=
  className ← copy_ptr string (Go.vgspec_VolumeGroupClassName in_);
  source ← VolumeGroupSource_DeepCopyInto (Go.vgspec_Source in_);
  mret {| Go.vgspec_VolumeGroupClassName := className; Go.vgspec_Source := source |}.

Definition VolumeGroupSpec_DeepCopy : option loc → mem cell (option loc) :=
  copy_deep VolumeGroupSpec_DeepCopyInto.

Definition VolumeGroupStatus_DeepCopyInto (in_ : Go.VolumeGroupStatus_struct)
  : mem cell Go.VolumeGroupStatus_struct :=
  bound ← copy_ptr string (Go.vgst_BoundVolumeGroupContentName in_);
  time ← copy_time (Go.vgst_GroupCreationTime in_);
  pvcs ← copy_slice zero_PersistentVolumeClaim PersistentVolumeClaim_DeepCopyInto
           (Go.vgst_PVCList in_);
  ready ← copy_ptr bool (Go.vgst_Ready in_);
  error ← copy_deep VolumeGroupError_DeepCopyInto (Go.vgst_Error in_);
  mret {| Go.vgst_BoundVolumeGroupContentName := bound; Go.vgst_GroupCreationTime := time;
          Go.vgst_PVCList := pvcs; Go.vgst_Ready := ready; Go.vgst_Error := error |}.

Definition VolumeGroupStatus_DeepCopy : option loc → mem cell (option loc) :=
  copy_deep VolumeGroupStatus_DeepCopyInto.

Definition VolumeGroup_DeepCopyInto (in_ : Go.VolumeGroup_struct) : mem cell Go.VolumeGroup_struct :=
  meta ← ObjectMeta_DeepCopyInto (Go.vg_ObjectMeta in_);
  spec ← VolumeGroupSpec_DeepCopyInto (Go.vg_Spec in_);
  status ← VolumeGroupStatus_DeepCopyInto (Go.vg_Status in_);
  mret {| Go.vg_TypeMeta := Go.vg_TypeMeta in_; Go.vg_ObjectMeta := meta; Go.vg_Spec := spec;
          Go.vg_Status := status |}.

Definition VolumeGroup_DeepCopy : option loc → mem cell (option loc) :=
  copy_deep VolumeGroup_DeepCopyInto.

Definition VolumeGroupList_DeepCopyInto (in_ : Go.VolumeGroupList_struct) : mem cell Go.VolumeGroupList_struct :=
  meta ← ListMeta_DeepCopyInto (Go.vgl_ListMeta in_);
  items ← copy_slice zero VolumeGroup_DeepCopyInto (Go.vgl_Items in_);
  mret {| Go.vgl_TypeMeta := Go.vgl_TypeMeta in_; Go.vgl_ListMeta := meta; Go.vgl_Items := items |}.

Definition VolumeGroupList_DeepCopy : option loc → mem cell (option loc) :=
  copy_deep VolumeGroupList_DeepCopyInto.

Definition VolumeGroupClass_DeepCopyInto (in_ : Go.VolumeGroupClass_struct)
  : mem cell Go.VolumeGroupClass_struct :=
  meta ← ObjectMeta_DeepCopyInto (Go.vgclass_ObjectMeta in_);
  parameters ← copy_map order (Go.vgclass_Parameters in_);
  policy ← copy_ptr string (Go.vgclass_VolumeGroupDeletionPolicy in_);
  snapshot ← copy_ptr bool (Go.vgclass_SupportVolumeGroupSnapshot in_);
  mret {| Go.vgclass_TypeMeta := Go.vgclass_TypeMeta in_; Go.vgclass_ObjectMeta := meta;
          Go.vgclass_Driver := Go.vgclass_Driver in_; Go.vgclass_Parameters := parameters;
          Go.vgclass_VolumeGroupDeletionPolicy := policy;
          Go.vgclass_SupportVolumeGroupSnapshot := snapshot |}.

Definition VolumeGroupClass_DeepCopy : option loc → mem cell (option loc) :=
  copy_deep VolumeGroupClass_DeepCopyInto.

Definition VolumeGroupClassList_DeepCopyInto (in_ : Go.VolumeGroupClassList_struct)
  : mem cell Go.VolumeGroupClassList_struct :=
  meta ← ListMeta_DeepCopyInto (Go.vgclassl_ListMeta in_);
  items ← copy_slice zero VolumeGroupClass_DeepCopyInto (Go.vgclassl_Items in_);
  mret {| Go.vgclassl_TypeMeta := Go.vgclassl_TypeMeta in_; Go.vgclassl_ListMeta := meta;
          Go.vgclassl_Items := items |}.

Definition VolumeGroupClassList_DeepCopy : option loc → mem cell (option loc) :=
  copy_deep VolumeGroupClassList_DeepCopyInto.

Definition VolumeGroupContentSource_DeepCopyInto (in_ : Go.VolumeGroupContentSource_struct)
  : mem cell Go.VolumeGroupContentSource_struct :=
  attributes ← copy_map order (Go.vgcsrc_VolumeGroupAttributes in_);
  mret {| Go.vgcsrc_Driver := Go.vgcsrc_Driver in_;
          Go.vgcsrc_VolumeGroupHandle := Go.vgcsrc_VolumeGroupHandle in_;
          Go.vgcsrc_VolumeGroupAttributes := attributes |}.

Definition VolumeGroupContentSource_DeepCopy : option loc → mem cell (option loc) :=
  copy_deep VolumeGroupContentSource_DeepCopyInto.

Definition VolumeGroupContentSpec_DeepCopyInto (in_ : Go.VolumeGroupContentSpec_struct)
  : mem cell Go.VolumeGroupContentSpec_struct :=
  className ← copy_ptr string (Go.vgcspec_VolumeGroupClassName in_);
  ref ← copy_ptr ObjectReference (Go.vgcspec_VolumeGroupRef in_);
  source ← copy_deep VolumeGroupContentSource_DeepCopyInto (Go.vgcspec_Source in_);
  policy ← copy_ptr string (Go.vgcspec_VolumeGroupDeletionPolicy in_);
  snapshot ← copy_ptr bool (Go.vgcspec_SupportVolumeGroupSnapshot in_);
  secret ← copy_ptr SecretReference (Go.vgcspec_VolumeGroupSecretRef in_);
  mret {| Go.vgcspec_VolumeGroupClassName := className; Go.vgcspec_VolumeGroupRef := ref;
          Go.vgcspec_Source := source; Go.vgcspec_VolumeGroupDeletionPolicy := policy;
          Go.vgcspec_SupportVolumeGroupSnapshot := snapshot;
          Go.vgcspec_VolumeGroupSecretRef := secret |}.

Definition VolumeGroupContentSpec_DeepCopy : option loc → mem cell (option loc) :=
  copy_deep VolumeGroupContentSpec_DeepCopyInto.

Definition VolumeGroupContentStatus_DeepCopyInto (in_ : Go.VolumeGroupContentStatus_struct)
  : mem cell Go.VolumeGroupContentStatus_struct :=
  time ← copy_time (Go.vgcst_GroupCreationTime in_);
  pvs ← copy_slice zero_PersistentVolume PersistentVolume_DeepCopyInto (Go.vgcst_PVList in_);
  ready ← copy_ptr bool (Go.vgcst_Ready in_);
  error ← copy_deep VolumeGroupError_DeepCopyInto (Go.vgcst_Error in_);
  mret {| Go.vgcst_GroupCreationTime := time; Go.vgcst_PVList := pvs; Go.vgcst_Ready := ready;
          Go.vgcst_Error := error |}.

Definition VolumeGroupContentStatus_DeepCopy : option loc → mem cell (option loc) :=
  copy_deep VolumeGroupContentStatus_DeepCopyInto.

Definition VolumeGroupContent_DeepCopyInto (in_ : Go.VolumeGroupContent_struct)
  : mem cell Go.VolumeGroupContent_struct :=
  meta ← ObjectMeta_DeepCopyInto (Go.vgc_ObjectMeta in_);
  spec ← VolumeGroupContentSpec_DeepCopyInto (Go.vgc_Spec in_);
  status ← VolumeGroupContentStatus_DeepCopyInto (Go.vgc_Status in_);
  mret {| Go.vgc_TypeMeta := Go.vgc_TypeMeta in_; Go.vgc_ObjectMeta := meta; Go.vgc_Spec := spec;
          Go.vgc_Status := status |}.

Definition VolumeGroupContent_DeepCopy : option loc → mem cell (option loc) :=
  copy_deep VolumeGroupContent_DeepCopyInto.

Definition VolumeGroupContentList_DeepCopyInto (in_ : Go.VolumeGroupContentList_struct)
  : mem cell Go.VolumeGroupContentList_struct :=
  meta ← ListMeta_DeepCopyInto (Go.vgcl_ListMeta in_);
  items ← copy_slice zero VolumeGroupContent_DeepCopyInto (Go.vgcl_Items in_);
  mret {| Go.vgcl_TypeMeta := Go.vgcl_TypeMeta in_; Go.vgcl_ListMeta := meta;
          Go.vgcl_Items := items |}.

Definition VolumeGroupContentList_DeepCopy : option loc → mem cell (option loc) :=
  copy_deep VolumeGroupContentList_DeepCopyInto.

(** [runtime.Object]: a pointer to one of the types registered with the scheme,
    possibly a nil one.  [DeepCopyObject] answers with an interface, which is nil
    ([None]) and not a nil pointer when the receiver is nil. *)
Inductive Object :=
| OVolumeGroup (p : option loc)
| OVolumeGroupList (p : option loc)
| OVolumeGroupClass (p : option loc)
| OVolumeGroupClassList (p : option loc)
| OVolumeGroupContent (p : option loc)
| OVolumeGroupContentList (p : option loc).

Definition VolumeGroup_DeepCopyObject (in_ : option loc) : mem cell (option Object) :=
  c ← VolumeGroup_DeepCopy in_;
  mret match c with Some _ => Some (OVolumeGroup c) | None => None end.

Definition VolumeGroupList_DeepCopyObject (in_ : option loc) : mem cell (option Object) :=
  c ← VolumeGroupList_DeepCopy in_;
  mret match c with Some _ => Some (OVolumeGroupList c) | None => None end.

Definition VolumeGroupClass_DeepCopyObject (in_ : option loc) : mem cell (option Object) :=
  c ← VolumeGroupClass_DeepCopy in_;
  mret match c with Some _ => Some (OVolumeGroupClass c) | None => None end.

Definition VolumeGroupClassList_DeepCopyObject (in_ : option loc) : mem cell (option Object) :=
  c ← VolumeGroupClassList_DeepCopy in_;
  mret match c with Some _ => Some (OVolumeGroupClassList c) | None => None end.

Definition VolumeGroupContent_DeepCopyObject (in_ : option loc) : mem cell (option Object) :=
  c ← VolumeGroupContent_DeepCopy in_;
  mret match c with Some _ => Some (OVolumeGroupContent c) | None => None end.

Definition VolumeGroupContentList_DeepCopyObject (in_ : option loc) : mem cell (option Object) :=
  c ← VolumeGroupContentList_DeepCopy in_;
  mret match c with Some _ => Some (OVolumeGroupContentList c) | None => None end.

(** The method call [o.DeepCopyObject()] through the interface. *)
Definition DeepCopyObject (o : Object) : mem cell (option Object) :=
  match o with
  | OVolumeGroup p => VolumeGroup_DeepCopyObject p
  | OVolumeGroupList p => VolumeGroupList_DeepCopyObject p
  | OVolumeGroupClass p => VolumeGroupClass_DeepCopyObject p
  | OVolumeGroupClassList p => VolumeGroupClassList_DeepCopyObject p
  | OVolumeGroupContent p => VolumeGroupContent_DeepCopyObject p
  | OVolumeGroupContentList p => VolumeGroupContentList_DeepCopyObject p
  end.
End Methods.

(** ** What is read of a struct *)

Section Views.
Context `{ForeignCode}.

Definition VolumeGroupError_view (h : heap) (x : Go.VolumeGroupError_struct) : option VolumeGroupError :=
  time ← Time_view h (Go.vge_Time x);
  message ← view_ptr string h (Go.vge_Message x);
  mret {| vge_Time := time; vge_Message := message |}.

Definition VolumeGroupSource_view (h : heap) (x : Go.VolumeGroupSource_struct)
  : option VolumeGroupSource :=
  name ← view_ptr string h (Go.vgsrc_VolumeGroupContentName x);
  selector ← view_deep LabelSelector_view h (Go.vgsrc_Selector x);
  mret {| vgsrc_VolumeGroupContentName := name; vgsrc_Selector := selector |}.

Definition VolumeGroupSpec_view (h : heap) (x : Go.VolumeGroupSpec_struct) : option VolumeGroupSpec :=
  className ← view_ptr string h (Go.vgspec_VolumeGroupClassName x);
  source ← VolumeGroupSource_view h (Go.vgspec_Source x);
  mret {| vgspec_VolumeGroupClassName := className; vgspec_Source := source |}.

Definition VolumeGroupStatus_view (h : heap) (x : Go.VolumeGroupStatus_struct)
  : option VolumeGroupStatus :=
  bound ← view_ptr string h (Go.vgst_BoundVolumeGroupContentName x);
  time ← Time_view h (Go.vgst_GroupCreationTime x);
  pvcs ← view_slice PersistentVolumeClaim_view h (Go.vgst_PVCList x);
  ready ← view_ptr bool h (Go.vgst_Ready x);
  error ← view_deep VolumeGroupError_view h (Go.vgst_Error x);
  mret {| vgst_BoundVolumeGroupContentName := bound; vgst_GroupCreationTime := time;
          vgst_PVCList := pvcs; vgst_Ready := ready; vgst_Error := error |}.

Definition VolumeGroup_view (h : heap) (x : Go.VolumeGroup_struct) : option VolumeGroup :=
  meta ← ObjectMeta_view h (Go.vg_ObjectMeta x);
  spec ← VolumeGroupSpec_view h (Go.vg_Spec x);
  status ← VolumeGroupStatus_view h (Go.vg_Status x);
  mret {| vg_TypeMeta := Go.vg_TypeMeta x; vg_ObjectMeta := meta; vg_Spec := spec;
          vg_Status := status |}.

Definition VolumeGroupList_view (h : heap) (x : Go.VolumeGroupList_struct) : option VolumeGroupList :=
  meta ← ListMeta_view h (Go.vgl_ListMeta x);
  items ← view_slice VolumeGroup_view h (Go.vgl_Items x);
  mret {| vgl_TypeMeta := Go.vgl_TypeMeta x; vgl_ListMeta := meta; vgl_Items := items |}.

Definition VolumeGroupClass_view (h : heap) (x : Go.VolumeGroupClass_struct) : option VolumeGroupClass :=
  meta ← ObjectMeta_view h (Go.vgclass_ObjectMeta x);
  parameters ← view_map h (Go.vgclass_Parameters x);
  policy ← view_ptr string h (Go.vgclass_VolumeGroupDeletionPolicy x);
  snapshot ← view_ptr bool h (Go.vgclass_SupportVolumeGroupSnapshot x);
  mret {| vgclass_TypeMeta := Go.vgclass_TypeMeta x; vgclass_ObjectMeta := meta;
          vgclass_Driver := Go.vgclass_Driver x; vgclass_Parameters := parameters;
          vgclass_VolumeGroupDeletionPolicy := policy;
          vgclass_SupportVolumeGroupSnapshot := snapshot |}.

Definition VolumeGroupClassList_view (h : heap) (x : Go.VolumeGroupClassList_struct)
  : option VolumeGroupClassList :=
  meta ← ListMeta_view h (Go.vgclassl_ListMeta x);
  items ← view_slice VolumeGroupClass_view h (Go.vgclassl_Items x);
  mret {| vgclassl_TypeMeta := Go.vgclassl_TypeMeta x; vgclassl_ListMeta := meta;
          vgclassl_Items := items |}.

Definition VolumeGroupContentSource_view (h : heap) (x : Go.VolumeGroupContentSource_struct)
  : option VolumeGroupContentSource :=
  attributes ← view_map h (Go.vgcsrc_VolumeGroupAttributes x);
  mret {| vgcsrc_Driver := Go.vgcsrc_Driver x;
          vgcsrc_VolumeGroupHandle := Go.vgcsrc_VolumeGroupHandle x;
          vgcsrc_VolumeGroupAttributes := attributes |}.

Definition VolumeGroupContentSpec_view (h : heap) (x : Go.VolumeGroupContentSpec_struct)
  : option VolumeGroupContentSpec :=
  className ← view_ptr string h (Go.vgcspec_VolumeGroupClassName x);
  ref ← view_ptr ObjectReference h (Go.vgcspec_VolumeGroupRef x);
  source ← view_deep VolumeGroupContentSource_view h (Go.vgcspec_Source x);
  policy ← view_ptr string h (Go.vgcspec_VolumeGroupDeletionPolicy x);
  snapshot ← view_ptr bool h (Go.vgcspec_SupportVolumeGroupSnapshot x);
  secret ← view_ptr SecretReference h (Go.vgcspec_VolumeGroupSecretRef x);
  mret {| vgcspec_VolumeGroupClassName := className; vgcspec_VolumeGroupRef := ref;
          vgcspec_Source := source; vgcspec_VolumeGroupDeletionPolicy := policy;
          vgcspec_SupportVolumeGroupSnapshot := snapshot; vgcspec_VolumeGroupSecretRef := secret |}.

Definition VolumeGroupContentStatus_view (h : heap) (x : Go.VolumeGroupContentStatus_struct)
  : option VolumeGroupContentStatus :=
  time ← Time_view h (Go.vgcst_GroupCreationTime x);
  pvs ← view_slice PersistentVolume_view h (Go.vgcst_PVList x);
  ready ← view_ptr bool h (Go.vgcst_Ready x);
  error ← view_deep VolumeGroupError_view h (Go.vgcst_Error x);
  mret {| vgcst_GroupCreationTime := time; vgcst_PVList := pvs; vgcst_Ready := ready;
          vgcst_Error := error |}.

Definition VolumeGroupContent_view (h : heap) (x : Go.VolumeGroupContent_struct)
  : option VolumeGroupContent :=
  meta ← ObjectMeta_view h (Go.vgc_ObjectMeta x);
  spec ← VolumeGroupContentSpec_view h (Go.vgc_Spec x);
  status ← VolumeGroupContentStatus_view h (Go.vgc_Status x);
  mret {| vgc_TypeMeta := Go.vgc_TypeMeta x; vgc_ObjectMeta := meta; vgc_Spec := spec;
          vgc_Status := status |}.

Definition VolumeGroupContentList_view (h : heap) (x : Go.VolumeGroupContentList_struct)
  : option VolumeGroupContentList :=
  meta ← ListMeta_view h (Go.vgcl_ListMeta x);
  items ← view_slice VolumeGroupContent_view h (Go.vgcl_Items x);
  mret {| vgcl_TypeMeta := Go.vgcl_TypeMeta x; vgcl_ListMeta := meta; vgcl_Items := items |}.

(** An object of the API as a value; [None] for a nil pointer. *)
Inductive value :=
| VVolumeGroup (o : option VolumeGroup)
| VVolumeGroupList (o : option VolumeGroupList)
| VVolumeGroupClass (o : option VolumeGroupClass)
| VVolumeGroupClassList (o : option VolumeGroupClassList)
| VVolumeGroupContent (o : option VolumeGroupContent)
| VVolumeGroupContentList (o : option VolumeGroupContentList).

Definition view_object (h : heap) (o : Object) : option value :=
  match o with
  | OVolumeGroup p => VVolumeGroup <$> view_deep VolumeGroup_view h p
  | OVolumeGroupList p => VVolumeGroupList <$> view_deep VolumeGroupList_view h p
  | OVolumeGroupClass p => VVolumeGroupClass <$> view_deep VolumeGroupClass_view h p
  | OVolumeGroupClassList p => VVolumeGroupClassList <$> view_deep VolumeGroupClassList_view h p
  | OVolumeGroupContent p => VVolumeGroupContent <$> view_deep VolumeGroupContent_view h p
  | OVolumeGroupContentList p =>
      VVolumeGroupContentList <$> view_deep VolumeGroupContentList_view h p
  end.

Definition object_pointer (o : Object) : option loc :=
  match o with
  | OVolumeGroup p | OVolumeGroupList p | OVolumeGroupClass p
  | OVolumeGroupClassList p | OVolumeGroupContent p | OVolumeGroupContentList p => p
  end.
End Views.

(** ** Every generated method makes a copy *)

Create HintDb copies.
#[export] Hint Resolve grows_map grows_slice | 0 : copies.
#[export] Hint Resolve copies_grows | 10 : copies.
#[export] Hint Resolve copies_ptr copies_deep copies_map copies_slice : copies.
#[export] Hint Resolve ObjectMeta_copies ListMeta_copies PersistentVolume_copies
  PersistentVolumeClaim_copies LabelSelector_copies : copies.

(** What is read of a struct is read of its fields. *)
Ltac fields_of H :=
  repeat match type of H with
         | _ ≫= _ = Some _ =>
             let w := fresh "w" in let Hw := fresh "Hw" in apply bind_Some in H as (w & Hw & H)
         end;
  injection H as <-.

(** A field read in [m] is read the same in the larger memory of the goal. *)
Ltac solve_larger :=
  first [ assumption
        | apply map_union_subseteq_l
        | etrans; [|by apply map_union_subseteq_r]; solve_larger ].

Ltac read_fields :=
  repeat match goal with
         | Hv : ?view ?m ?x = Some ?v |- ?view ?h ?x ≫= _ = _ =>
             rewrite ((ltac:(eauto with copies) : grows view) m h x v ltac:(solve_larger) Hv);
             cbn [mbind option_bind]
         end.

Ltac copy_fields :=
  repeat (apply wp_seq; eapply wp_copy; [solve [eauto with copies]|eassumption|intros ? ? ? ?]);
  apply wp_ret; cbn.

(** A method that copies a struct field by field. *)
Tactic Notation "solve_copies" reference(view) reference(copy) :=
  split; unfold view, copy;
  [ intros m h x v Hsub Hv; fields_of Hv; read_fields; done
  | intros h x v Hv; fields_of Hv; copy_fields; read_fields; done ].

Section Copies.
Context `{ForeignLaws}.
Context (order : loc → list nat).

Lemma copies_time : copies Time_view copy_time.
Proof.
  destruct Time_copies as [Hmono Hcopy]. split; [done|].
  intros h [t|] v Hv; [by apply Hcopy|]. apply wp_ret. by rewrite Time_nil in *.
Qed.

#[local] Hint Resolve copies_time : copies.

Lemma VolumeGroupError_copies : copies VolumeGroupError_view VolumeGroupError_DeepCopyInto.
Proof. solve_copies VolumeGroupError_view VolumeGroupError_DeepCopyInto. Qed.
#[local] Hint Resolve VolumeGroupError_copies : copies.

Lemma VolumeGroupSource_copies : copies VolumeGroupSource_view VolumeGroupSource_DeepCopyInto.
Proof. solve_copies VolumeGroupSource_view VolumeGroupSource_DeepCopyInto. Qed.
#[local] Hint Resolve VolumeGroupSource_copies : copies.

Lemma VolumeGroupSpec_copies : copies VolumeGroupSpec_view VolumeGroupSpec_DeepCopyInto.
Proof. solve_copies VolumeGroupSpec_view VolumeGroupSpec_DeepCopyInto. Qed.
#[local] Hint Resolve VolumeGroupSpec_copies : copies.

Lemma VolumeGroupStatus_copies : copies VolumeGroupStatus_view VolumeGroupStatus_DeepCopyInto.
Proof. solve_copies VolumeGroupStatus_view VolumeGroupStatus_DeepCopyInto. Qed.
#[local] Hint Resolve VolumeGroupStatus_copies : copies.

Lemma VolumeGroup_copies : copies VolumeGroup_view VolumeGroup_DeepCopyInto.
Proof. solve_copies VolumeGroup_view VolumeGroup_DeepCopyInto. Qed.
#[local] Hint Resolve VolumeGroup_copies : copies.

Lemma VolumeGroupList_copies : copies VolumeGroupList_view VolumeGroupList_DeepCopyInto.
Proof. solve_copies VolumeGroupList_view VolumeGroupList_DeepCopyInto. Qed.
#[local] Hint Resolve VolumeGroupList_copies : copies.

Lemma VolumeGroupClass_copies : copies VolumeGroupClass_view (VolumeGroupClass_DeepCopyInto order).
Proof. solve_copies VolumeGroupClass_view VolumeGroupClass_DeepCopyInto. Qed.
#[local] Hint Resolve VolumeGroupClass_copies : copies.

Lemma VolumeGroupClassList_copies : copies VolumeGroupClassList_view (VolumeGroupClassList_DeepCopyInto order).
Proof. solve_copies VolumeGroupClassList_view VolumeGroupClassList_DeepCopyInto. Qed.
#[local] Hint Resolve VolumeGroupClassList_copies : copies.

Lemma VolumeGroupContentSource_copies : copies VolumeGroupContentSource_view (VolumeGroupContentSource_DeepCopyInto order).
Proof. solve_copies VolumeGroupContentSource_view VolumeGroupContentSource_DeepCopyInto. Qed.
#[local] Hint Resolve VolumeGroupContentSource_copies : copies.

Lemma VolumeGroupContentSpec_copies : copies VolumeGroupContentSpec_view (VolumeGroupContentSpec_DeepCopyInto order).
Proof. solve_copies VolumeGroupContentSpec_view VolumeGroupContentSpec_DeepCopyInto. Qed.
#[local] Hint Resolve VolumeGroupContentSpec_copies : copies.

Lemma VolumeGroupContentStatus_copies : copies VolumeGroupContentStatus_view VolumeGroupContentStatus_DeepCopyInto.
Proof. solve_copies VolumeGroupContentStatus_view VolumeGroupContentStatus_DeepCopyInto. Qed.
#[local] Hint Resolve VolumeGroupContentStatus_copies : copies.

Lemma VolumeGroupContent_copies : copies VolumeGroupContent_view (VolumeGroupContent_DeepCopyInto order).
Proof. solve_copies VolumeGroupContent_view VolumeGroupContent_DeepCopyInto. Qed.
#[local] Hint Resolve VolumeGroupContent_copies : copies.

Lemma VolumeGroupContentList_copies : copies VolumeGroupContentList_view (VolumeGroupContentList_DeepCopyInto order).
Proof. solve_copies VolumeGroupContentList_view VolumeGroupContentList_DeepCopyInto. Qed.
#[local] Hint Resolve VolumeGroupContentList_copies : copies.

Lemma grows_deep {T V} `{Storable cell T} (view : heap → T → option V) copy :
  copies view copy → grows (view_deep view).
Proof. intros Hcopy. by apply (copies_grows _ (copy_deep copy)), copies_deep. Qed.

#[local] Hint Resolve grows_deep : copies.

Lemma view_object_grows : grows view_object.
Proof.
  intros m h o v Hsub. destruct o; cbn; intros (w & Hw & ->)%fmap_Some;
    match type of Hw with ?view ?m ?p = Some ?w =>
      by rewrite ((ltac:(eauto with copies) : grows view) m h p w Hsub Hw)
    end.
Qed.

(** A copy through a pointer, wrapped as an object: nothing for nil, otherwise
    new cells. *)
Lemma object_run {T V} `{Storable cell T} (view : heap → T → option V) copy
    (O : option loc → Object) (VO : option V → value) h p v :
  copies view copy → (∀ m p, view_object m (O p) = VO <$> view_deep view m p) →
  view_object h (O p) = Some v →
  let run := c ← copy_deep copy p;
             mret match c with Some _ => Some (O c) | None => None end in
  match p with
  | None => run h = Some (None, h)
  | Some _ => ∃ o' m, run h = Some (Some o', m ∪ h) ∧ m ##ₘ h ∧ view_object m o' = Some v
  end.
Proof.
  intros Hcopy HO Hv. rewrite HO in Hv. apply fmap_Some in Hv as (w & Hw & ->).
  destruct p as [p|]; [|done]. destruct (copies_deep view copy Hcopy) as [_ Hd].
  destruct (Hd h (Some p) w Hw (map_disjoint_empty_l _)) as ([l|] & m & Hrun & Hm & Hl).
  - rewrite map_empty_union in Hrun. exists (O (Some l)), m.
    unfold mbind, mem_bind. rewrite Hrun. split; [done|]. split; [done|]. by rewrite HO, Hl.
  - cbn in Hw, Hl. simplify_eq. apply bind_Some in Hw as (x & _ & Hx).
    by apply fmap_Some in Hx as (? & _ & ?).
Qed.

(** What a call of [DeepCopyObject] in the memory [h] comes to. *)
Definition copied_anew (h : heap) (o : Object) (v : value) (run : option (option Object * heap))
  : Prop :=
  match object_pointer o with
  | None => run = Some (None, h)
  | Some _ => ∃ o' m, run = Some (Some o', m ∪ h) ∧ m ##ₘ h ∧ view_object m o' = Some v
  end.

Lemma DeepCopyObject_run h o v :
  view_object h o = Some v → copied_anew h o v (DeepCopyObject order o h).
Proof.
  intros Hv. destruct o; (eapply object_run; [|by intros|exact Hv]; solve [eauto with copies]).
Qed.

(** C19: [DeepCopyObject] of an object of the API whose pointers are all valid
    returns an object of the same type that reads the same, field by field and
    element by element, whatever the order in which the maps are copied.  It
    changes no cell, and its result is made of new cells only.  Of a nil pointer
    it returns a nil interface and allocates nothing. *)
Theorem DeepCopyObject_copies h o v :
  view_object h o = Some v →
  match object_pointer o with
  | None => DeepCopyObject order o h = Some (None, h)
  | Some _ => ∃ o' m, DeepCopyObject order o h = Some (Some o', m ∪ h) ∧ m ##ₘ h ∧
                      view_object m o' = Some v
  end.
Proof. apply DeepCopyObject_run. Qed.

(** C18: after a deep copy, no write through one of the two objects is seen through
    the other: the original reads the same in every memory in which the old cells
    are as they were, whatever became of the new ones, and the copy in every
    memory in which the new cells are, whatever became of the old ones. *)
Theorem DeepCopyObject_isolates h o v o' h' :
  view_object h o = Some v → DeepCopyObject order o h = Some (Some o', h') →
  ∀ h2,
    ((∀ l, l ∈ dom h → h2 !! l = h !! l) → view_object h2 o = Some v) ∧
    ((∀ l, l ∈ dom h' → l ∉ dom h → h2 !! l = h' !! l) → view_object h2 o' = Some v).
Proof.
  intros Hv Hrun h2. split; intros Hsame.
  - apply (view_object_grows h); [|done]. apply map_subseteq_spec. intros l c Hl.
    by rewrite Hsame by (by eapply elem_of_dom_2).
  - assert (∃ m, h' = m ∪ h ∧ m ##ₘ h ∧ view_object m o' = Some v) as (m & -> & Hd & Hm).
    { pose proof (DeepCopyObject_run _ _ _ Hv) as Hcopy. unfold copied_anew in Hcopy.
      rewrite Hrun in Hcopy. destruct (object_pointer o); [|done].
      destruct Hcopy as (o'' & m & Heq & Hd & Hm). simplify_eq. by exists m. }
    apply (view_object_grows m); [|done]. apply map_subseteq_spec. intros l c Hl.
    assert (h !! l = None) as Hn by (eapply map_disjoint_Some_l; done).
    rewrite Hsame, lookup_union_l'; [done|by exists c| |by apply not_elem_of_dom].
    rewrite dom_union, elem_of_union. left. by eapply elem_of_dom_2.
Qed.
End Copies.

(** ** An instance of the libraries *)

Module DocForeign.

Record meta := {
  m_Name : string; m_Namespace : string; m_UID : string; m_ResourceVersion : string;
  m_Generation : Z;
  m_Labels : option loc; m_Annotations : option loc;
  m_Finalizers : option slice_ref;
  m_DeletionTimestamp : option loc;
}.

Record volume := {
  v_TypeMeta : TypeMeta; v_ObjectMeta : meta; v_CSI : option loc; v_ClaimRef : option loc
}.

Record claim := {
  c_TypeMeta : TypeMeta; c_ObjectMeta : meta; c_StorageClassName : option loc;
  c_VolumeName : string; c_Phase : string
}.

Record selector := {
  s_MatchLabels : option loc; s_MatchExpressions : list LabelSelectorRequirement
}.

Inductive other := OStrings (x : list string) | OTime (x : Z) | OCSI (x : CSIPersistentVolumeSource).

Definition zero_meta : meta :=
  {| m_Name := ""; m_Namespace := ""; m_UID := ""; m_ResourceVersion := ""; m_Generation := 0;
     m_Labels := None; m_Annotations := None; m_Finalizers := None; m_DeletionTimestamp := None |}.

#[export] Instance foreign : Foreign :=
  {| f_ObjectMeta := meta; f_ListMeta := string; f_PersistentVolume := volume;
     f_PersistentVolumeClaim := claim; f_LabelSelector := selector; f_cell := other;
     ListMeta := string; zero_ObjectMeta := zero_meta; zero_ListMeta := "";
     zero_PersistentVolume :=
       {| v_TypeMeta := zero_TypeMeta; v_ObjectMeta := zero_meta; v_CSI := None;
          v_ClaimRef := None |};
     zero_PersistentVolumeClaim :=
       {| c_TypeMeta := zero_TypeMeta; c_ObjectMeta := zero_meta; c_StorageClassName := None;
          c_VolumeName := ""; c_Phase := "" |};
     zero_LabelSelector := {| s_MatchLabels := None; s_MatchExpressions := [] |} |}.

#[export] Instance strings_storable : Storable cell (list string) :=
  {| to_cell x := CForeign (OStrings x);
     of_cell c := match c with CForeign (OStrings x) => Some x | _ => None end;
     zero := []; of_to_cell _ := eq_refl |}.
#[export] Instance time_storable : Storable cell Z :=
  {| to_cell x := CForeign (OTime x);
     of_cell c := match c with CForeign (OTime x) => Some x | _ => None end;
     zero := 0%Z; of_to_cell _ := eq_refl |}.
#[export] Instance csi_storable : Storable cell CSIPersistentVolumeSource :=
  {| to_cell x := CForeign (OCSI x);
     of_cell c := match c with CForeign (OCSI x) => Some x | _ => None end;
     zero := {| csi_Driver := ""; csi_VolumeHandle := "" |}; of_to_cell _ := eq_refl |}.

Definition same {A} (_ : heap) (x : A) : option A := Some x.

Definition meta_view (h : heap) (x : meta) : option ObjectMeta :=
  labels ← view_map h (m_Labels x);
  annotations ← view_map h (m_Annotations x);
  finalizers ← view_slice same h (m_Finalizers x);
  deletion ← view_ptr Z h (m_DeletionTimestamp x);
  mret {| om_Name := m_Name x; om_Namespace := m_Namespace x; om_UID := m_UID x;
          om_ResourceVersion := m_ResourceVersion x; om_Generation := m_Generation x;
          om_Labels := labels; om_Annotations := annotations; om_Finalizers := finalizers;
          om_DeletionTimestamp := deletion |}.

Definition meta_copy (x : meta) : mem cell meta :=
  labels ← copy_map (λ _, []) (m_Labels x);
  annotations ← copy_map (λ _, []) (m_Annotations x);
  finalizers ← copy_slice "" mret (m_Finalizers x);
  deletion ← copy_ptr Z (m_DeletionTimestamp x);
  mret {| m_Name := m_Name x; m_Namespace := m_Namespace x; m_UID := m_UID x;
          m_ResourceVersion := m_ResourceVersion x; m_Generation := m_Generation x;
          m_Labels := labels; m_Annotations := annotations; m_Finalizers := finalizers;
          m_DeletionTimestamp := deletion |}.

Definition volume_view (h : heap) (x : volume) : option PersistentVolume :=
  meta ← meta_view h (v_ObjectMeta x);
  csi ← view_ptr CSIPersistentVolumeSource h (v_CSI x);
  ref ← view_ptr ObjectReference h (v_ClaimRef x);
  mret {| pv_TypeMeta := v_TypeMeta x; pv_ObjectMeta := meta; pv_CSI := csi; pv_ClaimRef := ref |}.

Definition volume_copy (x : volume) : mem cell volume :=
  meta ← meta_copy (v_ObjectMeta x);
  csi ← copy_ptr CSIPersistentVolumeSource (v_CSI x);
  ref ← copy_ptr ObjectReference (v_ClaimRef x);
  mret {| v_TypeMeta := v_TypeMeta x; v_ObjectMeta := meta; v_CSI := csi; v_ClaimRef := ref |}.

Definition claim_view (h : heap) (x : claim) : option PersistentVolumeClaim :=
  meta ← meta_view h (c_ObjectMeta x);
  sc ← view_ptr string h (c_StorageClassName x);
  mret {| pvc_TypeMeta := c_TypeMeta x; pvc_ObjectMeta := meta;
          pvc_Spec := {| pvcs_StorageClassName := sc; pvcs_VolumeName := c_VolumeName x |};
          pvc_Phase := c_Phase x |}.

Definition claim_copy (x : claim) : mem cell claim :=
  meta ← meta_copy (c_ObjectMeta x);
  sc ← copy_ptr string (c_StorageClassName x);
  mret {| c_TypeMeta := c_TypeMeta x; c_ObjectMeta := meta; c_StorageClassName := sc;
          c_VolumeName := c_VolumeName x; c_Phase := c_Phase x |}.

Definition selector_view (h : heap) (x : selector) : option LabelSelector :=
  labels ← view_map h (s_MatchLabels x);
  mret {| ls_MatchLabels := labels; ls_MatchExpressions := s_MatchExpressions x |}.

Definition selector_copy (x : selector) : mem cell selector :=
  labels ← copy_map (λ _, []) (s_MatchLabels x);
  mret {| s_MatchLabels := labels; s_MatchExpressions := s_MatchExpressions x |}.

#[export] Instance code : ForeignCode :=
  {| ObjectMeta_view := meta_view; ListMeta_view := same;
     PersistentVolume_view := volume_view; PersistentVolumeClaim_view := claim_view;
     LabelSelector_view := selector_view; Time_view := view_ptr Z;
     ObjectMeta_DeepCopyInto := meta_copy; ListMeta_DeepCopyInto := mret;
     PersistentVolume_DeepCopyInto := volume_copy; PersistentVolumeClaim_DeepCopyInto := claim_copy;
     LabelSelector_DeepCopyInto := selector_copy; Time_DeepCopy := copy_ptr Z |}.

Lemma same_copies {A} : copies (same (A := A)) mret.
Proof. split; [by intros m h x v _|]. intros h x v Hv. by apply wp_ret. Qed.
#[local] Hint Resolve same_copies : copies.

Lemma meta_copies : copies meta_view meta_copy.
Proof. solve_copies meta_view meta_copy. Qed.
#[local] Hint Resolve meta_copies : copies.

#[export] Instance laws : ForeignLaws.
Proof.
  split; cbn [ObjectMeta_view ListMeta_view PersistentVolume_view PersistentVolumeClaim_view
              LabelSelector_view Time_view ObjectMeta_DeepCopyInto ListMeta_DeepCopyInto
              PersistentVolume_DeepCopyInto PersistentVolumeClaim_DeepCopyInto
              LabelSelector_DeepCopyInto Time_DeepCopy code].
  - apply meta_copies.
  - apply same_copies.
  - solve_copies volume_view volume_copy.
  - solve_copies claim_view claim_copy.
  - solve_copies selector_view selector_copy.
  - apply copies_ptr.
  - done.
Qed.

(** A content with its source and attributes, a deletion policy and two volumes;
    one string serves as the name of the class and as the deletion policy. *)
Definition a_meta (name : string) : meta :=
  {| m_Name := name; m_Namespace := "default"; m_UID := ""; m_ResourceVersion := "7";
     m_Generation := 1; m_Labels := Some 4%positive; m_Annotations := None;
     m_Finalizers := Some {| sl_arr := 5%positive; sl_len := 1 |}; m_DeletionTimestamp := None |}.

Definition a_volume (name : string) : volume :=
  {| v_TypeMeta := zero_TypeMeta; v_ObjectMeta := a_meta name; v_CSI := Some 6%positive;
     v_ClaimRef := None |}.

Definition a_content : Go.VolumeGroupContent_struct :=
  {| Go.vgc_TypeMeta := zero_TypeMeta; Go.vgc_ObjectMeta := a_meta "vgc";
     Go.vgc_Spec :=
       {| Go.vgcspec_VolumeGroupClassName := Some 2%positive; Go.vgcspec_VolumeGroupRef := None;
          Go.vgcspec_Source := Some 3%positive;
          Go.vgcspec_VolumeGroupDeletionPolicy := Some 2%positive;
          Go.vgcspec_SupportVolumeGroupSnapshot := None;
          Go.vgcspec_VolumeGroupSecretRef := None |};
     Go.vgc_Status :=
       {| Go.vgcst_GroupCreationTime := Some 8%positive;
          Go.vgcst_PVList := Some {| sl_arr := 7%positive; sl_len := 2 |};
          Go.vgcst_Ready := None; Go.vgcst_Error := None |} |}.

Definition a_memory : heap :=
  {[1%positive := CVolumeGroupContent a_content;
    2%positive := CString "Delete";
    3%positive := CVolumeGroupContentSource
      {| Go.vgcsrc_Driver := "driver.name"; Go.vgcsrc_VolumeGroupHandle := "g";
         Go.vgcsrc_VolumeGroupAttributes := Some 4%positive |};
    4%positive := CMap {["a" := "1"; "b" := "2"; "c" := "3"]};
    5%positive := CForeign (OStrings ["f"; "unused"]);
    6%positive := CForeign (OCSI {| csi_Driver := "driver.name"; csi_VolumeHandle := "h" |});
    7%positive := CPersistentVolumes [a_volume "x"; a_volume "y"];
    8%positive := CForeign (OTime 12)]}.

Definition the_object : Object := OVolumeGroupContent (Some 1%positive).

(** The maps are copied in an order of their own. *)
Definition some_order (l : loc) : list nat := [Pos.to_nat l; 1].

Definition the_copy : option Object :=
  r ← DeepCopyObject some_order the_object a_memory; fst r.
Definition the_memory : heap :=
  match DeepCopyObject some_order the_object a_memory with Some (_, h) => h | None => ∅ end.
End DocForeign.

#[local] Existing Instances DocForeign.foreign DocForeign.code DocForeign.laws.

Lemma DeepCopyObject_copies_witness :
  ∃ v o' m, view_object DocForeign.a_memory DocForeign.the_object = Some v ∧
    DeepCopyObject DocForeign.some_order DocForeign.the_object DocForeign.a_memory =
      Some (Some o', m ∪ DocForeign.a_memory) ∧
    m ##ₘ DocForeign.a_memory ∧ view_object m o' = Some v.
Proof.
  destruct (view_object DocForeign.a_memory DocForeign.the_object) as [v|] eqn:Hv;
    [|vm_compute in Hv; discriminate Hv].
  destruct (DeepCopyObject_copies DocForeign.some_order _ _ _ Hv) as (o' & m & Hm).
  by exists v, o', m.
Defined.

(** The copied content reads the same after the cells of the original, which are
    those below 9, are gone. *)
Lemma DeepCopyObject_isolates_witness :
  ∃ v o', DocForeign.the_copy = Some o' ∧
    view_object DocForeign.a_memory DocForeign.the_object = Some v ∧
    view_object (filter (λ c, (8 < c.1)%positive) DocForeign.the_memory) o' = Some v.
Proof.
  destruct (view_object DocForeign.a_memory DocForeign.the_object) as [v|] eqn:Hv;
    [|vm_compute in Hv; discriminate Hv].
  destruct DocForeign.the_copy as [o'|] eqn:Ho; [|vm_compute in Ho; discriminate Ho].
  exists v, o'. split; [done|]. split; [done|].
  eapply (DeepCopyObject_isolates DocForeign.some_order _ _ _ o' DocForeign.the_memory Hv).
  - unfold DocForeign.the_copy, DocForeign.the_memory in *.
    destruct (DeepCopyObject _ _ _) as [[c h]|]; [|discriminate Ho]. cbn in Ho. by subst.
  - intros l Hl Hold. rewrite map_lookup_filter.
    destruct (DocForeign.the_memory !! l) as [c|] eqn:Hc; [|done]. cbn.
    rewrite option_guard_True; [done|]. cbn.
    apply Pos.lt_nle. intros Hle. apply Hold. clear - Hle.
    assert (l ∈ (Pos.of_nat <$> seq 1 8)) as Hin.
    { apply list_elem_of_fmap. exists (Pos.to_nat l). split; [by rewrite Pos2Nat.id|].
      apply elem_of_seq. lia. }
    apply elem_of_dom.
    repeat (apply elem_of_cons in Hin as [->|Hin]; [by eexists; vm_compute|]).
    by apply elem_of_nil in Hin.
Defined.
