(* ===== verification/Startup.v ===== *)
(** * Start-up

    [main.go], [pkg/config/config.go], [pkg/client/client.go] and the
    [SetupWithManager] of the two controllers: the command line, the steps of
    [main] with the exits on an error, and which events of the API the
    controllers are registered for. *)

From S2P Require Import Prelude GoLang Api Effects Externals Objects Params VolumeGroups Volumes.
From S2P Require Import Finalizers Driver VolumeGroupContents Membership Predicates.
From S2P Require Import VGController VGCController Histories Cluster Scenario Utilities.
From Stdlib Require Import Ascii.

(** ** The configuration *)

Definition NewDriverConfig : DriverConfig :=
  {| DriverEndpoint := ""; DriverName := ""; RPCTimeout := 0;
     MultipleVGsToPVC := ""; DisableDeletePvcs := "" |}.

Definition Validate (cfg : DriverConfig) : option error :=
  if decide (DriverName cfg = "")%string then Some (ErrorString "driverName is empty") else None.

(** [time.Minute], in nanoseconds. *)
Definition defaultTimeout : Z := 60000000000.

(** ** The command line

    [flag.Parse] of the standard library over the flags of [defineFlags] and
    those the logger binds. *)

(** A flag: whether it is a boolean flag, and what setting it does to the
    configuration ([None]: the value is refused). *)
Record Flag := { IsBoolFlag : bool; Set_ : string → DriverConfig → option DriverConfig }.

Section Flags.
(** The flags of the libraries ([zap.Options.BindFlags], the client
    configuration): whether they are boolean and whether they take a value; and
    the text of a duration. *)
Context (BindFlags : string → option (bool * (string → bool))).
Context (ParseDuration : string → option Z).

Definition StringVar (set : string → DriverConfig → DriverConfig) : Flag :=
  {| IsBoolFlag := false; Set_ := λ value cfg, Some (set value cfg) |}.

(** The variables get their defaults when the flags are defined. *)
Definition defineFlags (cfg : DriverConfig) : DriverConfig :=
  {| DriverName := ""; DriverEndpoint := "/run/csi/socket"; RPCTimeout := defaultTimeout;
     MultipleVGsToPVC := "true"; DisableDeletePvcs := "false" |}.

(** The flags it defines, by name. *)
Definition defined_flags (name : string) : option Flag :=
  if decide (name = "driver-name")%string then
    Some (StringVar (λ v cfg,
      {| DriverEndpoint := DriverEndpoint cfg; DriverName := v; RPCTimeout := RPCTimeout cfg;
         MultipleVGsToPVC := MultipleVGsToPVC cfg; DisableDeletePvcs := DisableDeletePvcs cfg |}))
  else if decide (name = "csi-address")%string then
    Some (StringVar (λ v cfg,
      {| DriverEndpoint := v; DriverName := DriverName cfg; RPCTimeout := RPCTimeout cfg;
         MultipleVGsToPVC := MultipleVGsToPVC cfg; DisableDeletePvcs := DisableDeletePvcs cfg |}))
  else if decide (name = "rpc-timeout")%string then
    Some {| IsBoolFlag := false;
            Set_ := λ v cfg, d ← ParseDuration v; Some
              {| DriverEndpoint := DriverEndpoint cfg; DriverName := DriverName cfg;
                 RPCTimeout := d; MultipleVGsToPVC := MultipleVGsToPVC cfg;
                 DisableDeletePvcs := DisableDeletePvcs cfg |} |}
  else if decide (name = "multiple-vgs-to-pvc")%string then
    Some (StringVar (λ v cfg,
      {| DriverEndpoint := DriverEndpoint cfg; DriverName := DriverName cfg;
         RPCTimeout := RPCTimeout cfg; MultipleVGsToPVC := v;
         DisableDeletePvcs := DisableDeletePvcs cfg |}))
  else if decide (name = "disable-delete-pvcs")%string then
    Some (StringVar (λ v cfg,
      {| DriverEndpoint := DriverEndpoint cfg; DriverName := DriverName cfg;
         RPCTimeout := RPCTimeout cfg; MultipleVGsToPVC := MultipleVGsToPVC cfg;
         DisableDeletePvcs := v |}))
  else None.

(** All the flags of [flag.CommandLine]. *)
Definition formal (name : string) : option Flag :=
  match defined_flags name with
  | Some f => Some f
  | None =>
      '(isBool, accepts) ← BindFlags name;
      Some {| IsBoolFlag := isBool; Set_ := λ v cfg, if (accepts v : bool) then Some cfg else None |}
  end.

(** One argument, before its value is looked for. *)
Inductive argument :=
| NonFlag                                     (* the first of the remaining arguments *)
| Terminator                                  (* -- *)
| BadSyntax
| Named (name : string) (value : option string).

(** Up to the first equal sign, and what follows it. *)
Fixpoint split_value (s : string) : string * option string :=
  match s with
  | EmptyString => (EmptyString, None)
  | String "="%char rest => (EmptyString, Some rest)
  | String c rest => let '(name, value) := split_value rest in (String c name, value)
  end.

Definition flag_name (s : string) : argument :=
  match s with
  | EmptyString | String "-"%char _ | String "="%char _ => BadSyntax
  | _ => let '(name, value) := split_value s in Named name value
  end.

Definition read_argument (s : string) : argument :=
  match s with
  | String "-"%char EmptyString => NonFlag
  | String "-"%char (String "-"%char EmptyString) => Terminator
  | String "-"%char (String "-"%char s) => flag_name s
  | String "-"%char s => flag_name s
  | _ => NonFlag
  end.

(** [flag.CommandLine] exits with 0 on a request for help, with 2 on an error. *)
Inductive parsed :=
| Parsed (cfg : DriverConfig) (rest : list string)
| ParseExit (code : Z).

Fixpoint Parse (args : list string) (cfg : DriverConfig) : parsed :=
  match args with
  | [] => Parsed cfg []
  | s :: rest =>
      match read_argument s with
      | NonFlag => Parsed cfg args
      | Terminator => Parsed cfg rest
      | BadSyntax => ParseExit 2
      | Named name value =>
          match formal name with
          | None =>
              if decide (name = "help" ∨ name = "h")%string then ParseExit 0 else ParseExit 2
          | Some f =>
              match value with
              | Some v =>
                  match Set_ f v cfg with Some cfg => Parse rest cfg | None => ParseExit 2 end
              | None =>
                  if IsBoolFlag f then
                    match Set_ f "true" cfg with
                    | Some cfg => Parse rest cfg
                    | None => ParseExit 2
                    end
                  else
                    match rest with
                    | [] => ParseExit 2
                    | v :: rest =>
                        match Set_ f v cfg with
                        | Some cfg => Parse rest cfg
                        | None => ParseExit 2
                        end
                    end
              end
          end
      end
  end.
End Flags.

(** ** The steps of [main] *)

Inductive controller := VolumeGroupReconciler | VolumeGroupContentReconciler.

(** A connection to the driver, by the address it was opened for. *)
Definition ClientConn : Type := string.

Inductive step :=
| LoadConfig                                  (* ctrl.GetConfigOrDie *)
| NewManager
| Connect (address : string) (timeout : Z)
| Probe (cc : ClientConn) (timeout : Z)
| WaitForCrds (tr : history)
| SetVGClient (c : controller) (cc : ClientConn) (timeout : Z)   (* r.VGClient = NewVolumeGroupClient(cc, timeout) *)
| Complete (c : controller) (cfg : DriverConfig)
| AddHealthzCheck (name : string)
| AddReadyzCheck (name : string)
| Start.

#[export] Instance controller_eq_dec : EqDecision controller.
Proof. solve_decision. Defined.

(** What the libraries answer. *)
Class Libraries := {
  lib_GetConfig : option error;
  lib_NewManager : option error;
  lib_Connect : string → Z → option error;
  lib_ProbeForever : ClientConn → Z → option error;
  lib_GetDriverName : error + string;
  lib_Complete : controller → option error;
  lib_AddHealthzCheck : string → option error;
  lib_AddReadyzCheck : string → option error;
  lib_Start : option error;
}.

(** The process exits, or still waits for the CRDs. *)
Inductive halt := Exit (code : Z) | Waiting.

(** The steps made so far, and how the process stopped or what it goes on with. *)
Definition boot (A : Type) : Type := list step * (halt + A).

#[export] Instance boot_ret : MRet boot := λ A a, ([], inr a).
#[export] Instance boot_bind : MBind boot := λ A B f m,
  match m with
  | (steps, inl s) => (steps, inl s)
  | (steps, inr a) => let '(steps', r) := f a in (steps ++ steps', r)
  end.

Definition does {A} (s : step) (a : A) : boot A := ([s], inr a).

Definition os_Exit {A} (code : Z) : boot A := ([], inl (Exit code)).

Definition exitWithError (err : option error) : boot unit :=
  match err with Some _ => os_Exit 1 | None => mret tt end.

Section Main.
Context `{Externals} `{Libraries}.
Context (BindFlags : string → option (bool * (string → bool))).
Context (ParseDuration : string → option Z).
(** The world that answers the lists of the CRDs, and the rounds given to them. *)
Context {W : Type} (h : handler W) (w : W) (fuel : nat).

Record Client := { Client_Client : ClientConn; Client_Timeout : Z }.

Definition connect (address : string) (timeout : Z) : boot (error + ClientConn) :=
  does (Connect address timeout)
    match lib_Connect address timeout with Some err => inl err | None => inr address end.

Definition New (address : string) (timeout : Z) : boot (error + Client) :=
  r ← connect address timeout;
  match r with
  | inl err => mret (inl err)
  | inr cc => mret (inr {| Client_Client := cc; Client_Timeout := timeout |})
  end.

Definition Client_Probe (c : Client) : boot (option error) :=
  does (Probe (Client_Client c) (Client_Timeout c))
    (lib_ProbeForever (Client_Client c) (Client_Timeout c)).

(** Not called by [main]. *)
Definition GetDriverName (c : Client) : error + string := lib_GetDriverName.

(** The client beside the error: nil, and not reached, when there is an error. *)
Definition or_empty_client (r : error + Client) : Client :=
  match r with inl _ => {| Client_Client := ""; Client_Timeout := 0 |} | inr c => c end.

Definition getControllerGrpcClient (cfg : DriverConfig) : boot (error + Client) :=
  r ← New (DriverEndpoint cfg) (RPCTimeout cfg);
  match r with
  | inl err => mret (inl err)
  | inr c =>
      err ← Client_Probe c;
      match err with
      | Some err => mret (inl err)
      | None => mret (inr c)
      end
  end.

(** The wait, run against the world. *)
Definition wait_for_crds : boot (option error) :=
  let tr := run_trace h (waitForCrds fuel) w in
  match run_outcome h (waitForCrds fuel) w with
  | Some (Some err) => does (WaitForCrds tr) err
  | _ => ([WaitForCrds tr], inl Waiting)
  end.

(** The client of the driver the reconciler was made with, if any, is replaced. *)
Definition SetupWithManager_vg (GRPCClient : Client) (cfg : DriverConfig) : boot (option error) :=
  err ← wait_for_crds;
  match err with
  | Some err => mret (Some err)
  | None =>
      _ ← does (SetVGClient VolumeGroupReconciler (Client_Client GRPCClient) (RPCTimeout cfg)) tt;
      does (Complete VolumeGroupReconciler cfg) (lib_Complete VolumeGroupReconciler)
  end.

Definition SetupWithManager_vgc (GRPCClient : Client) (cfg : DriverConfig) : boot (option error) :=
  _ ← does (SetVGClient VolumeGroupContentReconciler (Client_Client GRPCClient) (RPCTimeout cfg)) tt;
  does (Complete VolumeGroupContentReconciler cfg) (lib_Complete VolumeGroupContentReconciler).

(** After the flags; the process exits with 0 when [main] returns. *)
Definition main_configured (cfg : DriverConfig) : boot unit :=
  _ ← exitWithError (Validate cfg);
  err ← does LoadConfig lib_GetConfig;
  _ ← exitWithError err;
  err ← does NewManager lib_NewManager;
  _ ← exitWithError err;
  r ← getControllerGrpcClient cfg;
  _ ← exitWithError (match r with inl err => Some err | inr _ => None end);
  let grpcClientInstance := or_empty_client r in
  err ← SetupWithManager_vg grpcClientInstance cfg;
  _ ← exitWithError err;
  err ← SetupWithManager_vgc grpcClientInstance cfg;
  _ ← exitWithError err;
  err ← does (AddHealthzCheck "healthz") (lib_AddHealthzCheck "healthz");
  _ ← exitWithError err;
  err ← does (AddReadyzCheck "readyz") (lib_AddReadyzCheck "readyz");
  _ ← exitWithError err;
  err ← does Start lib_Start;
  exitWithError err.

Definition main (args : list string) : list step * halt :=
  match Parse BindFlags ParseDuration args (defineFlags NewDriverConfig) with
  | ParseExit code => ([], Exit code)
  | Parsed cfg _ =>
      let '(steps, r) := main_configured cfg in
      (steps, match r with inl s => s | inr _ => Exit 0 end)
  end.
End Main.

(** ** Which events the controllers are registered for

    The event sources of controller-runtime: what it documents of them is in
    [EventLaws]. *)

Class EventSources := {
  GenerationChangedPredicate : ∀ {K}, watch_event K → bool;
  Or : ∀ {K}, (watch_event K → bool) → (watch_event K → bool) → watch_event K → bool;
  EnqueueRequestForObject : ∀ {K}, watch_event K → list NamespacedName;
  EnqueueRequestsFromMapFunc : ∀ {K},
    (obj_of K → prog (list NamespacedName)) → watch_event K → prog (list NamespacedName);
}.

Definition generation {K} (o : obj_of K) : Z := om_Generation (GetObjectMeta K o).

Class EventLaws `{EventSources} := {
  (** True of an update that changes the generation, and of every other event. *)
  GenerationChangedPredicate_update : ∀ K (o n : obj_of K),
    GenerationChangedPredicate (UpdateEvent o n) = negb (bool_decide (generation n = generation o));
  (** True when one of the two is. *)
  Or_true : ∀ K p q (e : watch_event K), Or p q e = p e || q e;
  (** The object of the event; the new one of an update. *)
  EnqueueRequestForObject_update : ∀ K (o n : obj_of K),
    EnqueueRequestForObject (UpdateEvent o n) = [key_of K n];
  (** The function runs on both objects of an update, and both sets of requests
      are enqueued. *)
  EnqueueRequestsFromMapFunc_update : ∀ K f (o n : obj_of K), ∃ merge,
    (∀ l l' (r : NamespacedName), r ∈ merge l l' ↔ r ∈ l ∨ r ∈ l') ∧
    EnqueueRequestsFromMapFunc f (UpdateEvent o n) =
      (l ← f o; l' ← f n; mret (merge l l'));
}.

Section Watches.
Context `{Externals} `{EventSources}.

(** [builder.WithPredicates]. *)
Definition WithPredicates {K} (p : watch_event K → bool) (e : watch_event K)
    (requests : prog (list NamespacedName)) : prog (list NamespacedName) :=
  if p e then requests else mret [].

(** [For] of [SetupWithManager]: the objects a controller is for. *)
Definition For {K} (e : watch_event K) : prog (list NamespacedName) :=
  let pred := Or GenerationChangedPredicate FinalizerPredicate in
  WithPredicates pred e (mret (EnqueueRequestForObject e)).

(** [Watches] of the VolumeGroup controller: the claims. *)
Definition Watches (e : watch_event KPVC) : prog (list NamespacedName) :=
  WithPredicates PvcPredicate e (EnqueueRequestsFromMapFunc (K := KPVC) CreateRequests e).
End Watches.

(** ** The command line expresses every configuration *)

Section RoundTrip.
Context (BindFlags : string → option (bool * (string → bool))).
Context (ParseDuration : string → option Z) (Duration_String : Z → string).

Lemma Parse_named s name value f rest cfg cfg' :
  read_argument s = Named name (Some value) →
  formal BindFlags ParseDuration name = Some f → Set_ f value cfg = Some cfg' →
  Parse BindFlags ParseDuration (s :: rest) cfg = Parse BindFlags ParseDuration rest cfg'.
Proof. intros Hs Hf Hset. cbn [Parse]. by rewrite Hs, Hf, Hset. Qed.

(** A command line, as the deployment writes it. *)
Definition command_line (cfg : DriverConfig) : list string :=
  ["--driver-name=" +:+ DriverName cfg; "--csi-address=" +:+ DriverEndpoint cfg;
   "--rpc-timeout=" +:+ Duration_String (RPCTimeout cfg);
   "--multiple-vgs-to-pvc=" +:+ MultipleVGsToPVC cfg;
   "--disable-delete-pvcs=" +:+ DisableDeletePvcs cfg]%string.

(** C40: every configuration can be given on the command line: parsing the five
    flags, written with their values, gives it back whatever the variables held,
    and leaves the arguments that follow to be parsed; the values may contain
    anything, equal signs and leading dashes included. *)
Theorem command_line_roundtrip cfg cfg0 args :
  ParseDuration (Duration_String (RPCTimeout cfg)) = Some (RPCTimeout cfg) →
  Parse BindFlags ParseDuration (command_line cfg ++ args) cfg0 =
  Parse BindFlags ParseDuration args cfg.
Proof.
  intros Hd. unfold command_line. cbn [app].
  do 2 (erewrite Parse_named by reflexivity).
  erewrite Parse_named; [|reflexivity|reflexivity|cbn; rewrite Hd; reflexivity].
  do 2 (erewrite Parse_named by reflexivity). by destruct cfg.
Qed.
End RoundTrip.

(** ** [main] against its plan *)

Section Plan.
Context `{ExternalLaws} `{Libraries}.
Context (BindFlags : string → option (bool * (string → bool))).
Context (ParseDuration : string → option Z).
Context {W : Type} (h : handler W) (w : W) (fuel : nat).

(** Whether a step succeeds; [None] if it does not end. *)
Definition answer (s : step) : option (option error) :=
  match s with
  | LoadConfig => Some lib_GetConfig
  | NewManager => Some lib_NewManager
  | Connect address timeout => Some (lib_Connect address timeout)
  | Probe cc timeout => Some (lib_ProbeForever cc timeout)
  | WaitForCrds _ => mjoin (run_outcome h (waitForCrds fuel) w)
  | SetVGClient _ _ _ => Some None
  | Complete c _ => Some (lib_Complete c)
  | AddHealthzCheck name => Some (lib_AddHealthzCheck name)
  | AddReadyzCheck name => Some (lib_AddReadyzCheck name)
  | Start => Some lib_Start
  end.

(** The steps of a configured start. *)
Definition plan (cfg : DriverConfig) : list step :=
  [LoadConfig; NewManager; Connect (DriverEndpoint cfg) (RPCTimeout cfg);
   Probe (DriverEndpoint cfg) (RPCTimeout cfg); WaitForCrds (run_trace h (waitForCrds fuel) w);
   SetVGClient VolumeGroupReconciler (DriverEndpoint cfg) (RPCTimeout cfg);
   Complete VolumeGroupReconciler cfg;
   SetVGClient VolumeGroupContentReconciler (DriverEndpoint cfg) (RPCTimeout cfg);
   Complete VolumeGroupContentReconciler cfg;
   AddHealthzCheck "healthz"; AddReadyzCheck "readyz"; Start].

(** The steps in order, up to the first that fails. *)
Fixpoint carry_out (steps : list step) : list step * halt :=
  match steps with
  | [] => ([], Exit 0)
  | s :: rest =>
      match answer s with
      | None => ([s], Waiting)
      | Some (Some _) => ([s], Exit 1)
      | Some None => let '(done, r) := carry_out rest in (s :: done, r)
      end
  end.

Lemma main_configured_carry cfg :
  main_configured h w fuel cfg =
  (let '(steps, r) :=
     if decide (DriverName cfg = "")%string then ([], Exit 1) else carry_out (plan cfg) in
   (steps, match r with Exit 0 => inr tt | r => inl r end)).
Proof.
  unfold main_configured, Validate. case_decide; [done|].
  unfold getControllerGrpcClient, New, connect, Client_Probe, SetupWithManager_vg,
    SetupWithManager_vgc, wait_for_crds, plan. cbn [carry_out answer Client_Client Client_Timeout].
  destruct lib_GetConfig; [done|]. destruct lib_NewManager; [done|].
  cbn. destruct lib_Connect; [done|]. cbn. destruct lib_ProbeForever; [done|].
  cbn. destruct run_outcome as [[[e|]|]|]; try done.
  cbn. destruct (lib_Complete VolumeGroupReconciler); [done|].
  cbn. destruct lib_Complete; [done|].
  cbn. destruct lib_AddHealthzCheck; [done|].
  cbn. destruct lib_AddReadyzCheck; [done|].
  cbn. by destruct lib_Start.
Qed.

(** C38: [main] is its plan: a command line that does not parse exits with the code
    of the flag library, an empty driver name exits with 1 before anything is
    done; otherwise the steps are made in the order of [plan] up to the first
    that fails, which exits with 1, or that never ends (the CRDs that are not
    installed); the process exits with 0 only when all of them succeeded, the
    manager's run included. *)
Theorem main_plan args :
  main BindFlags ParseDuration h w fuel args =
  match Parse BindFlags ParseDuration args (defineFlags NewDriverConfig) with
  | ParseExit code => ([], Exit code)
  | Parsed cfg _ =>
      if decide (DriverName cfg = "")%string then ([], Exit 1) else carry_out (plan cfg)
  end.
Proof.
  unfold main. destruct Parse as [cfg rest|code]; [|done].
  rewrite main_configured_carry. case_decide; [done|].
  by destruct carry_out as [steps [[| |]|]].
Qed.

Lemma carry_out_upto steps s rest :
  s ∈ fst (carry_out (steps ++ s :: rest)) → s ∉ steps → Forall (λ s, answer s = Some None) steps.
Proof.
  induction steps as [|s' steps IH]; cbn; [constructor|].
  rewrite not_elem_of_cons. intros Hin [Hne Hnin]. destruct (answer s') as [[e|]|] eqn:Hs';
    cbn in Hin; [by apply list_elem_of_singleton in Hin| |by apply list_elem_of_singleton in Hin].
  destruct carry_out as [steps' r]; cbn in *. apply elem_of_cons in Hin as [->|Hin]; [done|].
  constructor; [done|]. by apply IH.
Qed.

(** The plan goes on as long as its steps succeed. *)
Lemma carry_out_app steps rest :
  Forall (λ s, answer s = Some None) steps →
  carry_out (steps ++ rest) = (let '(done, r) := carry_out rest in (steps ++ done, r)).
Proof.
  induction 1 as [|s steps Hs _ IH]; cbn; [by destruct carry_out|].
  rewrite Hs, IH. by destruct (carry_out rest).
Qed.

(** A successful wait has listed each kind. *)
Lemma waitForCrds_listed :
  ensures (waitForCrds fuel) (λ tr out,
    out = Some (Some None) → Forall (λ kind, Ev (CListUnstructured kind) None ∈ tr) crds).
Proof.
  apply wp_ensures. unfold waitForCrds.
  assert (∀ kind, ensures (waitForVGResource fuel kind)
    (λ tr out, out = Some (Some None) → Ev (CListUnstructured kind) None ∈ tr)) as Hone.
  { intros kind tr out Hex Hout.
    destruct (waitForVGResource_rounds _ _ _ _ Hex) as [[_ ->]|(n & tr0 & r & _ & _ & -> & -> & _)];
      simplify_eq. solve_event. }
  wp_step. eapply wp_execs; [done|]. intros tr1 [[[e|]|]|] H1%Hone; cbn [after]; repeat wp_step; try done.
  eapply wp_execs; [done|]. intros tr2 [[[e|]|]|] H2%Hone; cbn [after]; repeat wp_step; try done.
  eapply wp_execs; [done|]. intros tr3 out H3%Hone Hout.
  specialize (H1 eq_refl). specialize (H2 eq_refl). specialize (H3 Hout).
  repeat constructor; rewrite ?elem_of_app; tauto.
Qed.

(** C39: the manager, and with it every reconciliation, is started only with a
    configuration read from the command line that names a driver, after the
    driver was connected at its address and answered the probe, after each of the
    three kinds was found in the API, and with both controllers registered, with
    that same configuration and with a client over that connection whose timeout is
    the configured one. *)
Theorem main_starts args steps r :
  main BindFlags ParseDuration h w fuel args = (steps, r) → Start ∈ steps →
  ∃ cfg rest tr,
    Parse BindFlags ParseDuration args (defineFlags NewDriverConfig) = Parsed cfg rest ∧
    DriverName cfg ≠ ""%string ∧
    lib_Connect (DriverEndpoint cfg) (RPCTimeout cfg) = None ∧
    lib_ProbeForever (DriverEndpoint cfg) (RPCTimeout cfg) = None ∧
    WaitForCrds tr ∈ steps ∧
    Forall (λ kind, Ev (CListUnstructured kind) None ∈ tr)
      crds ∧
    (∀ c, SetVGClient c (DriverEndpoint cfg) (RPCTimeout cfg) ∈ steps ∧
          Complete c cfg ∈ steps ∧ lib_Complete c = None).
Proof.
  unfold main. destruct Parse as [cfg rest|code]; [|intros ? Hin; simplify_eq/=; by apply elem_of_nil in Hin].
  rewrite main_configured_carry. case_decide as Hname; [intros ? Hin; simplify_eq/=; by apply elem_of_nil in Hin|].
  destruct (carry_out (plan cfg)) as [steps' r'] eqn:Hcarry. intros Heq Hin.
  assert (steps' = steps) as -> by congruence.
  change (plan cfg) with (removelast (plan cfg) ++ [Start]) in Hcarry.
  assert (Start ∈ fst (carry_out (removelast (plan cfg) ++ [Start]))) as Hstart by by rewrite Hcarry.
  apply carry_out_upto in Hstart as Hok;
    [|cbn; repeat (apply not_elem_of_cons; split; [done|]); apply not_elem_of_nil].
  rewrite carry_out_app in Hcarry by done.
  assert (removelast (plan cfg) ⊆ steps) as Hsub
    by (destruct carry_out; simplify_eq; intros s Hs; apply elem_of_app; by left).
  repeat (apply Forall_cons in Hok as [? Hok]). cbn in *. simplify_eq.
  exists cfg, rest, (run_trace h (waitForCrds fuel) w). split_all; try done.
  - apply Hsub. do 4 right. by left.
  - apply (waitForCrds_listed _ (run_outcome h (waitForCrds fuel) w)); [apply run_executes|].
    by destruct run_outcome as [[[|]|]|]; simplify_eq/=.
  - intros [|]; split_all; try done; apply Hsub; [do 5 right|do 6 right|do 7 right|do 8 right]; by left.
Qed.
End Plan.

(** ** What the controllers are told *)

Section Told.
Context `{ExternalLaws} `{EventLaws}.

(** A controller is told of an update of one of its objects exactly when the
    generation (the specification, or a deletion) or the finalizers changed; so
    the updates of the status and of the metadata it makes itself start no new
    reconciliation, and a change of finalizers made under it does. *)
Theorem For_requests K (o n : obj_of K) :
  For (UpdateEvent o n) =
  mret (if decide (generation n = generation o ∧ GetFinalizers K n = GetFinalizers K o)
        then [] else [key_of K n]).
Proof.
  unfold For, WithPredicates. rewrite Or_true, GenerationChangedPredicate_update.
  rewrite EnqueueRequestForObject_update. cbn.
  case_decide as Hd; repeat case_bool_decide; naive_solver.
Qed.

(** The VolumeGroups of a list that select the labels. *)
Definition selecting (labels : gmap string string) (vgs : list VolumeGroup) : list NamespacedName :=
  key_of KVG <$> filter (λ vg, selects labels vg = true) vgs.

Lemma selecting_elem labels vgs r :
  r ∈ selecting labels vgs ↔ ∃ vg, r = key_of KVG vg ∧ vg ∈ vgs ∧ selects labels vg = true.
Proof.
  unfold selecting. rewrite list_elem_of_fmap. setoid_rewrite list_elem_of_filter. naive_solver.
Qed.

Lemma CreateRequests_executes pvc tr out :
  executes (CreateRequests pvc) tr out →
  ∃ r, tr = [Ev (CList KVG) r] ∧ is_Some out ∧
    ∀ vgs, r = inr vgs → Forall selector_ok vgs →
           out = Some (selecting (om_Labels (pvc_ObjectMeta pvc)) vgs).
Proof.
  intros (r & tr' & -> & Hex)%executes_trigger_inv.
  exists r. destruct r as [e|vgs]; apply executes_ret_inv in Hex as [-> ->];
    (split; [done|split; [done|]]); intros vgs' Heq Hok; simplify_eq.
  by rewrite CreateRequests_loop_ok.
Qed.

(** When the labels or the phase of a claim change, the requests that follow
    are for exactly the VolumeGroups that selected the old labels, as listed
    first, and those that select the new ones, as listed after that: a claim
    that enters or leaves the selection of a VolumeGroup starts its
    reconciliation.  Any other update of the claim calls nothing and starts
    nothing. *)
Theorem Watches_requests (o n : PersistentVolumeClaim) tr out :
  executes (Watches (UpdateEvent (K := KPVC) o n)) tr out →
  let labels c := om_Labels (pvc_ObjectMeta c) in
  (labels o = labels n ∧ pvc_Phase o = pvc_Phase n → tr = [] ∧ out = Some []) ∧
  (¬ (labels o = labels n ∧ pvc_Phase o = pvc_Phase n) →
   ∀ vgs vgs',
     tr = [Ev (CList KVG) (inr vgs); Ev (CList KVG) (inr vgs')] →
     Forall selector_ok vgs → Forall selector_ok vgs' →
     ∃ l, out = Some l ∧ ∀ r, r ∈ l ↔
       ∃ vg, r = key_of KVG vg ∧
         (vg ∈ vgs ∧ selects (labels o) vg = true ∨ vg ∈ vgs' ∧ selects (labels n) vg = true)).
Proof.
  unfold Watches, WithPredicates. cbn [PvcPredicate]. unfold isLabelsChanged, isPhaseChanged.
  intros Hex. split.
  - intros [Hl Hp]. rewrite !bool_decide_true in Hex by done. by apply executes_ret_inv in Hex.
  - intros Hne vgs vgs' -> Hok Hok'.
    replace (_ || _) with true in Hex by (repeat case_bool_decide; tauto).
    destruct (EnqueueRequestsFromMapFunc_update KPVC CreateRequests o n) as (merge & Hm & Heq).
    rewrite Heq in Hex.
    apply executes_bind_inv in Hex as [(tr1 & tr2 & l & Htr & Ho & Hex)|[Ho _]];
      apply CreateRequests_executes in Ho as (r & Hr & Hs & Ho); [subst tr1|by destruct Hs].
    apply cons_event_inj in Htr as [Hr%(list_event_inj KVG) <-].
    apply executes_bind_inv in Hex as [(tr1 & tr2 & l' & Htr & Hn & Hex)|[Hn _]];
      apply CreateRequests_executes in Hn as (r' & Hr' & Hs' & Hn); [subst tr1|by destruct Hs'].
    apply cons_event_inj in Htr as [Hr'%(list_event_inj KVG) <-].
    apply executes_ret_inv in Hex as [_ ->].
    specialize (Ho _ (eq_sym Hr) Hok). specialize (Hn _ (eq_sym Hr') Hok'). simplify_eq.
    eexists. split; [done|]. intros k. rewrite Hm, !selecting_elem. naive_solver.
Qed.
End Told.

(** ** Witnesses *)

#[local] Existing Instance DocExternals.externals.
#[local] Existing Instance DocExternals.laws.

(** No other flags, and the one duration of the sample configuration. *)
Definition no_flags (name : string) : option (bool * (string → bool)) := None.
Definition one_minute (s : string) : option Z :=
  if decide (s = "1m0s")%string then Some 60000000000%Z else None.
Definition minutes (d : Z) : string := if decide (d = 60000000000%Z) then "1m0s" else "0s".

Lemma command_line_roundtrip_witness :
  Parse no_flags one_minute (command_line minutes Samples.config ++ ["rest"%string]) NewDriverConfig
  = Parsed Samples.config ["rest"%string].
Proof.
  rewrite (command_line_roundtrip no_flags one_minute minutes Samples.config); [|by vm_compute].
  by vm_compute.
Defined.

(** Libraries that succeed, and a manager that stops without an error. *)
#[local] Instance up : Libraries :=
  {| lib_GetConfig := None; lib_NewManager := None; lib_Connect := λ _ _, None;
     lib_ProbeForever := λ _ _, None; lib_GetDriverName := inr Samples.DriverName;
     lib_Complete := λ _, None; lib_AddHealthzCheck := λ _, None;
     lib_AddReadyzCheck := λ _, None; lib_Start := None |}.

(** The CRDs are installed while the operator waits. *)
Definition installing : handler (nat * cluster) := λ c '(n, w),
  match c with
  | CListUnstructured kind =>
      (if decide (n = 0) then None else Some (ExternalError "NoMatch" kind), (pred n, w))
  | c => let '(r, w) := serve c w in (r, (n, w))
  end.

Abbreviation started :=
  (main no_flags one_minute installing (2, Samples.with_vg) 4 (command_line minutes Samples.config)).

Lemma main_starts_witness :
  snd started = Exit 0 ∧
  ∃ cfg rest tr,
    Parse no_flags one_minute (command_line minutes Samples.config) (defineFlags NewDriverConfig)
      = Parsed cfg rest ∧
    DriverName cfg ≠ ""%string ∧
    lib_Connect (DriverEndpoint cfg) (RPCTimeout cfg) = None ∧
    lib_ProbeForever (DriverEndpoint cfg) (RPCTimeout cfg) = None ∧
    WaitForCrds tr ∈ fst started ∧
    Forall (λ kind, Ev (CListUnstructured kind) None ∈ tr) crds ∧
    (∀ c, SetVGClient c (DriverEndpoint cfg) (RPCTimeout cfg) ∈ fst started ∧
          Complete c cfg ∈ fst started ∧ lib_Complete c = None).
Proof.
  split; [by vm_compute|].
  eapply (main_starts no_flags one_minute installing (2, Samples.with_vg) 4
            (command_line minutes Samples.config) _ (snd started)).
  - by destruct started.
  - vm_compute. repeat (first [by left|right]).
Defined.

(** The event sources as documented. *)
#[local] Instance documented_sources : EventSources := {|
  GenerationChangedPredicate K e :=
    match e with
    | UpdateEvent o n => negb (bool_decide (generation n = generation o))
    | _ => true
    end;
  Or K p q e := p e || q e;
  EnqueueRequestForObject K e :=
    match e with
    | CreateEvent o | DeleteEvent o | GenericEvent o | UpdateEvent _ o => [key_of K o]
    end;
  EnqueueRequestsFromMapFunc K f e :=
    match e with
    | CreateEvent o | DeleteEvent o | GenericEvent o => f o
    | UpdateEvent o n => l ← f o; l' ← f n; mret (remove_dups (l ++ l'))
    end;
|}.

#[local] Instance documented_laws : EventLaws.
Proof.
  split; [done..|]. intros K f o n. exists (λ l l', remove_dups (l ++ l')).
  split; [|done]. intros l l' r. by rewrite elem_of_remove_dups, elem_of_app.
Qed.

Lemma For_requests_witness :
  For (UpdateEvent (K := KVG) Samples.VG Samples.VG) = mret [] ∧
  For (UpdateEvent (K := KVG) Samples.VG (SetFinalizers KVG [VGFinalizer] Samples.VG)) =
    mret [Samples.vg_req].
Proof. split; rewrite (For_requests KVG); by vm_compute. Defined.

(** A claim that loses the labels the sample VolumeGroup selects. *)
Definition unlabelled : PersistentVolumeClaim :=
  {| pvc_TypeMeta := Samples.no_type; pvc_ObjectMeta := Samples.meta "a" Samples.Namespace;
     pvc_Spec := pvc_Spec (Samples.PVC "a" "pv-a"); pvc_Phase := ClaimBound |}.

Lemma Watches_requests_witness :
  ∃ l, run_outcome serve (Watches (UpdateEvent (K := KPVC) (Samples.PVC "a" "pv-a") unlabelled))
         Samples.with_vg = Some l ∧ Samples.vg_req ∈ l.
Proof.
  destruct (Watches_requests (Samples.PVC "a" "pv-a") unlabelled
    (run_trace serve (Watches (UpdateEvent (K := KPVC) (Samples.PVC "a" "pv-a") unlabelled))
       Samples.with_vg)
    (run_outcome serve (Watches (UpdateEvent (K := KPVC) (Samples.PVC "a" "pv-a") unlabelled))
       Samples.with_vg)) as [_ Hr]; [apply (run_executes serve)|].
  assert (Forall selector_ok [group_in Samples.with_vg]) as Hok.
  { apply Forall_singleton. intros s Hs. assert (s = Samples.selector) as -> by (vm_compute in Hs; by injection Hs as <-).
    eexists. by vm_compute. }
  destruct (Hr ltac:(intros [Hl _]; vm_compute in Hl; discriminate)
    [group_in Samples.with_vg] [group_in Samples.with_vg]) as (l & Hl & Hin); [|exact Hok..|].
  - by vm_compute.
  - exists l. split; [exact Hl|]. apply Hin. exists (group_in Samples.with_vg).
    split; [by vm_compute|left]. split; [by left|by vm_compute].
Defined.
