(* ===== verification/Ownership.v ===== *)
(** * Which contents a run touches, and how it writes them

    What one run of a controller may do to VolumeGroupContents, said of the
    objects it was answered: a run of the content controller touches only the
    content it was started for; its updates, unless the content is being
    deleted, keep the operator's finalizer; a run of the VolumeGroup controller
    updates a content as it was read.  [System] composes these guards. *)

From S2P Require Import Prelude GoLang Api Effects Externals Objects Params VolumeGroups Volumes.
From S2P Require Import Finalizers Driver VolumeGroupContents Membership VGController.
From S2P Require Import VGCController Histories VGCSafety.

(** A content the run was answered with. *)
Definition answered_content (e : event) (a : VolumeGroupContent) : Prop :=
  (∃ k, e = Ev (CGet KVGC k) (inr a)) ∨ (∃ o, e = Ev (CCreate KVGC o) (inr a)) ∨
  (∃ o, e = Ev (CUpdate KVGC o) (inr a)) ∨ (∃ o, e = Ev (CStatusUpdate KVGC o) (inr a)).

Definition seen_content (tr : history) (a : VolumeGroupContent) : Prop :=
  ∃ e, e ∈ tr ∧ answered_content e a.

Definition version (a : VolumeGroupContent) : string := om_ResourceVersion (vgc_ObjectMeta a).

(** An update that leaves the finalizers of the version it is based on. *)
Definition as_read (tr : history) (o : VolumeGroupContent) : Prop :=
  ∃ a, seen_content tr a ∧ key_of KVGC a = key_of KVGC o ∧ version a = version o ∧
       GetFinalizers KVGC a = GetFinalizers KVGC o.

(** An update that keeps the operator's finalizer. *)
Definition keeps (tr : history) (o : VolumeGroupContent) : Prop :=
  VgcFinalizer ∈ GetFinalizers KVGC o ∨ as_read tr o.

Lemma seen_content_mono tr tr' a : seen_content tr a → tr ⊆ tr' → seen_content tr' a.
Proof. intros (e & He & Ha) Hsub. exists e. auto. Qed.

Lemma as_read_mono tr tr' o : as_read tr o → tr ⊆ tr' → as_read tr' o.
Proof.
  intros (a & Ha & Heq) Hsub. exists a. split; [by eapply seen_content_mono|done].
Qed.

Lemma seen_last tr e a : answered_content e a → seen_content (tr ++ [e]) a.
Proof. intros Ha. exists e. split; [solve_event|done]. Qed.

(** What is known of all the executions of an operation, on top of its guard. *)
Lemma wp_with_history {A} (p : prog A) G (Q R : history → option A → Prop) tr :
  wp G (λ _ _, True) p tr → ensures p R →
  (∀ tr' o, R tr' o → Q (tr ++ tr') o) → wp G Q p tr.
Proof.
  intros Hwp HR HQ. apply wp_execs.
  - intros tr' out pre e post Hex ->.
    destruct (wp_sound _ _ _ _ _ _ Hwp Hex) as [_ HG]. by eapply HG.
  - intros tr' out Hex. by apply HQ, HR.
Qed.

(** ** The content controller *)

Section Content.
Context `{ExternalLaws} (cfg : DriverConfig) (req : NamespacedName).

(** The content of the run, or one whose key an answer has. *)
Definition targets (tr : history) (k : NamespacedName) : Prop :=
  k = req ∨ ∃ a, seen_content tr a ∧ k = key_of KVGC a.

Definition deleting (tr : history) : Prop :=
  ∃ vgc, first_is tr (Ev (CGet KVGC req) (inr vgc)) ∧
         is_Some (om_DeletionTimestamp (vgc_ObjectMeta vgc)) ∧
         or_empty (vgcspec_VolumeGroupClassName (vgc_Spec vgc)) ≠ ""%string.

Definition own_guard (tr : history) (c : call) : Prop :=
  match c with
  | CGet KVGC k => targets tr k
  | CStatusUpdate KVGC o => targets tr (key_of KVGC o)
  | CUpdate KVGC o => targets tr (key_of KVGC o) ∧ (keeps tr o ∨ deleting tr)
  | CCreate KVGC _ | CDelete KVGC _ => False
  | _ => True
  end.

Abbreviation Known := (λ tr (o : VolumeGroupContent), targets tr (key_of KVGC o)).
Abbreviation Any := (λ (_ : history) (_ : option _), True).

Lemma targets_mono tr tr' k : targets tr k → tr ⊆ tr' → targets tr' k.
Proof.
  intros [->|(a & Ha & ->)] Hsub; [by left|right]. exists a.
  split; [by eapply seen_content_mono|done].
Qed.

Lemma deleting_app tr tr' : deleting tr → deleting (tr ++ tr').
Proof. intros (vgc & Hf & Hd). exists vgc. split; [by apply first_is_app|done]. Qed.

Lemma known_last tr e a : answered_content e a → Known (tr ++ [e]) a.
Proof. intros Ha. right. exists a. split; [by apply seen_last|done]. Qed.

Hint Resolve known_last : core.
Hint Extern 1 (answered_content _ _) => unfold answered_content; eauto 6 : core.

(** ** Writes of the status *)

(** An outcome that leaves a known content. *)
Definition leaves_known (tr : history) (out : option (option error * VolumeGroupContent)) : Prop :=
  ∀ err v, out = Some (err, v) → Known tr v.

Lemma UpdateObjectStatus_known o tr :
  Known tr o → wp own_guard leaves_known (UpdateObjectStatus KVGC o) tr.
Proof.
  intros Ho. unfold UpdateObjectStatus. wp_step. apply wp_trigger; [done|].
  intros [e|v]; repeat wp_step; intros err v' Heq; simplify_eq; [..|eauto].
  all: eapply targets_mono; [done|sub_history].
Qed.

Lemma getNamespacedObject_known o tr :
  Known tr o → wp own_guard leaves_known (getNamespacedObject KVGC o) tr.
Proof.
  intros Ho. unfold getNamespacedObject. wp_step. apply wp_trigger; [done|].
  intros [e|v]; repeat wp_step; intros err v' Heq; simplify_eq; [|eauto].
  eapply targets_mono; [done|sub_history].
Qed.

Lemma status_retry_known (f : VolumeGroupContent → VolumeGroupContent) vgc tr :
  (∀ x, key_of KVGC (f x) = key_of KVGC x) → Known tr vgc →
  wp own_guard leaves_known (RetryOnConflict (λ x, vgcRetryOnConflictFunc (f x)) vgc) tr.
Proof.
  intros Hf Hvgc. apply (wp_retry _ _ (λ tr s, Known tr s)); [|done].
  intros tr0 s Hs. unfold vgcRetryOnConflictFunc. wp_step.
  eapply wp_mono; [apply UpdateObjectStatus_known; by rewrite Hf|].
  intros tr1 [[err v]|] Hv; cbn [after]; [|done]. specialize (Hv _ _ eq_refl).
  destruct (on_err IsConflict err).
  - wp_step. eapply wp_mono; [by apply getNamespacedObject_known|].
    intros tr2 [[err' v']|] Hv'; cbn [after]; [|done]. specialize (Hv' _ _ eq_refl).
    destruct err'; repeat wp_step; (split; [intros ? ? ?; by simplify_eq|done]).
  - wp_step. wp_step. split; [intros ? ? ?; by simplify_eq|done].
Qed.

Lemma UpdateVGCStatus_known vgc t ready tr :
  Known tr vgc → wp own_guard leaves_known (UpdateVGCStatus vgc t ready) tr.
Proof.
  intros Hvgc. unfold UpdateVGCStatus. wp_step.
  eapply wp_mono; [by apply UpdateObjectStatus_known|].
  intros tr' [[[e|] v]|] Hv; cbn [after]; [..|done]; wp_step; wp_step;
    intros ? ? ?; simplify_eq; by eapply Hv.
Qed.

Lemma UpdateVGCStatusError_known vgc m tr :
  Known tr vgc → wp own_guard leaves_known (UpdateVGCStatusError vgc m) tr.
Proof. apply (status_retry_known (set_vgc_Error _)). by intros []. Qed.

Lemma RemovePVFromVGC_known pv vgc tr :
  Known tr vgc → wp own_guard leaves_known (RemovePVFromVGC pv vgc) tr.
Proof.
  intros Hvgc. unfold RemovePVFromVGC, updateVGCStatusPVList. do 2 wp_step.
  eapply wp_mono; [by apply (status_retry_known (set_vgc_PVList _))|].
  intros tr' [[[e|] v]|] Hv; cbn [after]; [..|done]; repeat wp_step;
    intros ? ? ?; simplify_eq; first [by eapply Hv | by eapply (Hv _ v)].
Qed.

Lemma DeletePVCsUnderVGC_known vgc driver tr :
  Known tr vgc → wp own_guard leaves_known (DeletePVCsUnderVGC vgc driver) tr.
Proof.
  unfold DeletePVCsUnderVGC.
  generalize (length (vgcst_PVList (vgc_Status vgc))) as n.
  generalize (slice_of (vgcst_PVList (vgc_Status vgc))) as s.
  generalize true as sh. generalize 0 as i. intros i sh s n. revert i sh s vgc tr.
  induction n as [|n IH]; intros i sh s vgc tr Hvgc; cbn [DeletePVCsUnderVGC_loop].
  { do 2 wp_step. intros ? ? ?. by simplify_eq. }
  repeat first
    [ match goal with
      | |- wp _ _ (RemovePVFromVGC _ _) _ =>
          eapply wp_mono; [apply RemovePVFromVGC_known|intros ? [[[?|] ?]|] Hans]
      | |- wp _ _ (DeletePVCsUnderVGC_loop _ _ _ _ _ _) _ => apply IH
      end
    | wp_step ]; try done.
  all: try (intros ? ? ?; simplify_eq).
  all: first [ by eapply Hans | eapply targets_mono; [exact Hvgc|sub_history] ].
Qed.

(** ** Updates *)

(** The finalizers a run may write. *)
Definition writable (tr : history) (fs : list string) : Prop := VgcFinalizer ∈ fs ∨ deleting tr.

Lemma updateFinalizer_own fs vgc tr :
  writable tr fs → Known tr vgc → wp own_guard Any (updateFinalizer KVGC fs vgc) tr.
Proof.
  intros Hfs Hvgc. unfold updateFinalizer.
  apply (wp_retry _ _ (λ tr s, writable tr fs ∧ Known tr s)); [|done].
  clear tr vgc Hfs Hvgc. intros tr s [Hfs Hs].
  assert (∀ tr', writable (tr ++ tr') fs) as Hfs'
    by (intros tr'; destruct Hfs; [by left|right; by apply deleting_app]).
  unfold finalizerRetryOnConflictFunc, UpdateObject. do 2 wp_step.
  apply wp_trigger.
  { split; [by destruct s|]. destruct Hfs; [left; left|by right]. by rewrite GetFinalizers_Set. }
  assert (∀ tr', Known (tr ++ tr') (SetFinalizers KVGC fs s)) as Hk
    by (intros tr'; eapply targets_mono; [by destruct s|sub_history]).
  intros [e|v]; do 3 wp_step; cbn [on_err].
  - destruct (IsConflict _).
    + wp_step. eapply wp_mono; [apply getNamespacedObject_known, Hk|].
      intros tr' [[[e'|] v]|] Hv; cbn [after]; [..|done]; repeat wp_step;
        (split; [done|]); intros ? ? _; cbn; rewrite <- app_assoc; (split; [apply Hfs'|]);
        rewrite app_assoc; by eapply Hv.
    + repeat wp_step. split; [done|]. intros ? ? _. split; [apply Hfs'|apply Hk].
  - repeat wp_step. by split.
Qed.

Lemma AddFinalizerToVGC_own vgc tr :
  Known tr vgc → wp own_guard Any (AddFinalizerToVGC vgc) tr.
Proof.
  intros Hvgc. unfold AddFinalizerToVGC. case_match; [|done]. wp_step.
  eapply wp_mono; [apply updateFinalizer_own|].
  - left. rewrite GetFinalizers_Set. set_solver.
  - by destruct vgc.
  - intros tr' [[[e|] v]|] _; done.
Qed.

Lemma RemoveFinalizerFromVGC_own vgc tr :
  deleting tr → Known tr vgc → wp own_guard Any (RemoveFinalizerFromVGC vgc) tr.
Proof.
  intros Hdel Hvgc. unfold RemoveFinalizerFromVGC. case_match; [|done]. wp_step.
  eapply wp_mono; [apply updateFinalizer_own|].
  - by right.
  - by destruct vgc.
  - intros tr' [[[e|] v]|] _; done.
Qed.

(** An update of an object that was answered, but for its specification. *)
Lemma update_as_read o tr :
  as_read tr o → Known tr o → wp own_guard leaves_known (UpdateObject KVGC o) tr.
Proof.
  intros Hread Hk. unfold UpdateObject. wp_step. apply wp_trigger.
  - split; [done|]. left. by right.
  - intros [e|v]; repeat wp_step; intros ? ? ?; simplify_eq; [|eauto].
    eapply targets_mono; [exact Hk|sub_history].
Qed.

Lemma as_read_last tr e a o :
  answered_content e a → vgc_ObjectMeta o = vgc_ObjectMeta a → as_read (tr ++ [e]) o.
Proof.
  intros Ha Hm. exists a. split; [by apply seen_last|]. unfold key_of, GetNamespace, GetName, version,
    GetFinalizers. cbn. by rewrite Hm.
Qed.

(** A read of the content and an update of its specification. *)
Lemma update_spec_own n ns (f : VolumeGroupContent → VolumeGroupContent) tr :
  targets tr (mkNN ns n) →
  (∀ vgc, vgc_ObjectMeta (f vgc) = vgc_ObjectMeta vgc) →
  wp own_guard Any
    (r ← GetVGC n ns;
     match r with
     | inl err => mret (Some err)
     | inr vgc => '(err, _) ← UpdateObject KVGC (f vgc); mret err
     end) tr.
Proof.
  intros Hk Hf. unfold GetVGC. wp_step. apply wp_trigger; [done|].
  intros [e|a]; cbn [after]; [repeat wp_step; done|]. wp_step.
  eapply wp_mono; [apply update_as_read|].
  - eapply as_read_last; [by left; eexists|apply Hf].
  - right. exists a. split; [apply seen_last; left; by eexists|].
    unfold key_of, GetNamespace, GetName. cbn. by rewrite Hf.
  - intros tr' [[err v]|] _; done.
Qed.

Lemma UpdateStaticVGC_own ns n cl tr :
  targets tr (mkNN ns n) → wp own_guard Any (UpdateStaticVGC ns n cl) tr.
Proof.
  intros Hk. apply (update_spec_own n ns (updateStaticVGCSpec cl)); [done|].
  intros vgc. unfold updateStaticVGCSpec. by destruct (GetSecretCred cl).
Qed.

Lemma UpdateThinVGC_own ns n tr :
  targets tr (mkNN ns n) → wp own_guard Any (UpdateThinVGC ns n) tr.
Proof.
  intros Hk. unfold UpdateThinVGC, GetVGC. wp_step. apply wp_trigger; [done|].
  intros [e|a]; cbn [after]; [repeat wp_step; done|].
  unfold updateThinVGCSpec. autorewrite with reflect.
  set (e := Ev (CGet KVGC (mkNN ns n)) (inr a)).
  assert (seen_content (tr ++ [e]) a) as Hseen by (apply seen_last; left; by eexists).
  repeat wp_step; (eapply wp_mono; [apply update_as_read|intros ? [[err v]|] _; done]);
    first [ apply (as_read_last _ _ a); [by left; eexists|done] | by right; exists a ].
Qed.

Lemma UpdateVGCByResponse_own vgc r tr :
  seen_content tr vgc → wp own_guard leaves_known (UpdateVGCByResponse vgc r) tr.
Proof.
  intros Hvgc. unfold UpdateVGCByResponse.
  repeat first
    [ match goal with |- wp _ _ (UpdateObject _ _) _ =>
        eapply wp_mono; [apply update_as_read|intros ? [[[?|] ?]|] Hans]
      end
    | wp_step ]; try done.
  - exists vgc. by destruct vgc.
  - right. exists vgc. by destruct vgc.
Qed.

(** ** The handlers *)

Import VGCController.

(** The rest of a handler makes no call that is guarded. *)
Ltac unguarded := repeat wp_step; done.

Lemma removeVGC_own vgc secret tr :
  deleting tr → Known tr vgc → wp own_guard Any (removeVGC vgc secret) tr.
Proof.
  intros Hdel Hvgc. unfold removeVGC.
  assert (∀ tr', wp own_guard Any
    ('(err, vgc) ← RemoveFinalizerFromVGC vgc;
     match err with Some err => mret (Some err, vgc) | None => mret (None, vgc) end) (tr ++ tr'))
    as Hdrop.
  { intros tr'. wp_step. eapply wp_mono; [apply RemoveFinalizerFromVGC_own|].
    - by apply deleting_app.
    - eapply targets_mono; [exact Hvgc|sub_history].
    - intros ? [[[?|] ?]|] _; done. }
  do 3 wp_step. destruct (vgcspec_VolumeGroupDeletionPolicy _); [|done]. do 2 wp_step. case_decide.
  - do 3 wp_step; [|done]. cbn [wp after].
    eapply wp_spec; [typeclasses eauto|solve_guard|]. intros tr' [[err|]|] _ _; cbn [after]; [done| |done].
    apply Hdrop.
  - do 2 wp_step. specialize (Hdrop []). by rewrite app_nil_r in Hdrop.
Qed.

Lemma handleVGCWithDeletionTimestamp_own vgc secret tr :
  deleting tr → Known tr vgc →
  wp own_guard Any (handleVGCWithDeletionTimestamp cfg vgc secret) tr.
Proof.
  intros Hdel Hvgc. unfold handleVGCWithDeletionTimestamp.
  assert (∀ tr' cur, deleting tr' → Known tr' cur → wp own_guard Any
    ('(err, vgc) ← removeVGC cur secret;
     match err with Some err => mret (Some err, vgc) | None => mret (None, vgc) end) tr')
    as Hrem.
  { intros tr' cur Hd Hc. wp_step. eapply wp_mono; [by apply removeVGC_own|].
    intros ? [[[?|] ?]|] _; done. }
  wp_step. eapply wp_spec; [typeclasses eauto|solve_guard|].
  intros tr1 [[err|[]]|] _ _; cbn [after]; [done..| |done].
  case_match; [|done]. wp_step. case_decide.
  - eapply wp_mono; [apply DeletePVCsUnderVGC_known; eapply targets_mono; [exact Hvgc|sub_history]|].
    intros tr2 [[[err|] cur]|] Hcur; cbn [after]; [done| |done].
    apply Hrem; [by do 2 apply deleting_app|by eapply Hcur].
  - do 2 wp_step. apply Hrem; [by apply deleting_app|].
    eapply targets_mono; [exact Hvgc|sub_history].
Qed.

Lemma updateStaticVGC_own vgc tr :
  Known tr vgc → wp own_guard Any (updateStaticVGC vgc) tr.
Proof.
  intros Hvgc. unfold updateStaticVGC, updateStaticVGCSpec_controller, GetCurrentTime.
  repeat first
    [ match goal with
      | |- wp _ _ (UpdateStaticVGC _ _ _) _ =>
          eapply wp_mono; [apply UpdateStaticVGC_own|intros ? [?|] _]
      | |- wp _ _ (UpdateVGCStatus _ _ _) _ =>
          eapply wp_mono; [apply UpdateVGCStatus_known|intros ? [[[?|] ?]|] _]
      end
    | wp_step ]; try done.
  all: eapply targets_mono; [exact Hvgc|sub_history].
Qed.

Lemma handleStaticProvisionedVGC_own vgc tr :
  Known tr vgc → wp own_guard Any (handleStaticProvisionedVGC vgc) tr.
Proof.
  intros Hvgc. unfold handleStaticProvisionedVGC. autorewrite with reflect.
  repeat first
    [ match goal with |- wp _ _ (updateStaticVGC _) _ =>
        eapply wp_mono; [by apply updateStaticVGC_own|intros ? [[[?|] ?]|] _]
      end
    | wp_step ]; try done.
Qed.

Lemma handleCreateVG_own vgc cl secret tr :
  seen_content tr vgc → wp own_guard Any (handleCreateVG vgc cl secret) tr.
Proof.
  intros Hvgc. unfold handleCreateVG, createVG_request, request_Create, CreateVolumeGroup, GetCurrentTime.
  assert (∀ t, seen_content (tr ++ t) vgc) as Hseen
    by (intros t; eapply seen_content_mono; [exact Hvgc|sub_history]).
  repeat first
    [ match goal with
      | |- wp _ _ (UpdateVGCByResponse _ _) _ =>
          eapply wp_mono; [apply UpdateVGCByResponse_own|intros ? [[[?|] ?]|] Hans]
      | |- wp _ _ (UpdateVGCStatus _ _ _) _ =>
          eapply wp_mono; [apply UpdateVGCStatus_known|intros ? [[[?|] ?]|] _]
      end
    | wp_step ]; try done.
  all: rewrite <- ?app_assoc; try apply Hseen.
  all: eapply targets_mono; [by eapply Hans|sub_history].
Qed.

(** The content after its finalizer was added is one that was answered. *)
Lemma AddFinalizerToVGC_seen vgc tr :
  seen_content tr vgc →
  wp own_guard (λ tr' out, ∀ v, out = Some (None, v) → seen_content tr' v)
    (AddFinalizerToVGC vgc) tr.
Proof.
  intros Hvgc. eapply wp_with_history; [apply AddFinalizerToVGC_own; by right; exists vgc|
    apply AddFinalizerToVGC_history|].
  intros tr' out Hh v ->. destruct (Hh v eq_refl) as [[-> _]|(o & Ho & _)].
  - eapply seen_content_mono; [exact Hvgc|sub_history].
  - eexists. split; [apply elem_of_app; right; exact Ho|]. right. right. left. by exists o.
Qed.

Lemma Reconcile_class_own vgc cl tr :
  first_is tr (Ev (CGet KVGC req) (inr vgc)) →
  or_empty (vgcspec_VolumeGroupClassName (vgc_Spec vgc)) ≠ ""%string →
  wp own_guard Any (Reconcile_class cfg vgc cl) tr.
Proof.
  intros Hfirst Hcn. unfold Reconcile_class.
  assert (∀ t, seen_content (tr ++ t) vgc) as Hseen.
  { intros t. exists (Ev (CGet KVGC req) (inr vgc)).
    split; [apply first_is_elem, first_is_app, Hfirst|]. left. by exists req. }
  assert (∀ t, Known (tr ++ t) vgc) as Hknown by (intros t; right; eauto).
  assert (∀ t, IsZero (om_DeletionTimestamp (vgc_ObjectMeta vgc)) = false → deleting (tr ++ t)) as Hdel.
  { intros t Hz. exists vgc. split; [apply first_is_app; exact Hfirst|]. split; [|done].
    revert Hz. destruct (om_DeletionTimestamp _); [eauto|done]. }
  repeat first
    [ match goal with
      | |- wp _ _ (UpdateVGCStatusError _ _) _ =>
          eapply wp_mono; [apply UpdateVGCStatusError_known|intros ? [[[?|] ?]|] _]
      | |- wp _ _ (AddFinalizerToVGC _) _ =>
          eapply wp_mono; [apply AddFinalizerToVGC_seen|intros ? [[[?|] ?]|] Hadd]
      | |- wp _ _ (handleStaticProvisionedVGC _) _ =>
          eapply wp_with_history;
            [apply handleStaticProvisionedVGC_own|apply handleStaticProvisionedVGC_dynamic|
             intros ? [[[? []] ?]|] Hst]
      | |- wp _ _ (handleCreateVG _ _ _) _ =>
          eapply wp_mono; [apply handleCreateVG_own|intros ? [[[?|] ?]|] _]
      | |- wp _ _ (handleVGCWithDeletionTimestamp _ _ _) _ =>
          eapply wp_mono; [apply handleVGCWithDeletionTimestamp_own|intros ? [[[?|] ?]|] _]
      end
    | wp_step ]; try done.
  all: rewrite <- ?app_assoc in *.
  - apply Hseen.
  - right. eexists. split; [by apply Hadd|done].
  - destruct (Hst _ _ eq_refl) as [-> _]. eapply seen_content_mono; [by apply Hadd|sub_history].
  - by apply Hdel.
  - apply Hknown.
Qed.

Lemma Reconcile_own : wp own_guard Any (Reconcile cfg req) [].
Proof.
  unfold Reconcile, GetVGC. wp_step. apply wp_trigger; [left; by destruct req|].
  intros [err|vgc]; cbn [after app]; [unguarded|].
  assert (mkNN (nn_Namespace req) (nn_Name req) = req) as -> by by destruct req.
  set (tr := [Ev (CGet KVGC req) (inr vgc)]).
  assert (first_is tr (Ev (CGet KVGC req) (inr vgc))) as Hfirst by done.
  assert (∀ t, Known (tr ++ t) vgc) as Hknown.
  { intros t. right. exists vgc. split; [|done]. exists (Ev (CGet KVGC req) (inr vgc)).
    split; [by left|]. left. by exists req. }
  clearbody tr. autorewrite with reflect. do 3 wp_step. case_decide as Hcn.
  - wp_step. eapply wp_mono; [apply UpdateThinVGC_own; specialize (Hknown []); by rewrite app_nil_r in Hknown|].
    intros tr' [[err|]|] _; cbn [after]; [done| |done]. unfold GetCurrentTime. do 4 wp_step.
    eapply wp_mono; [apply UpdateVGCStatus_known; rewrite <- app_assoc; apply Hknown|].
    intros ? [[[?|] ?]|] _; done.
  - repeat first
      [ match goal with |- wp _ _ (Reconcile_class _ _ _) _ =>
          apply Reconcile_class_own; [by apply first_is_app|done]
        end
      | wp_step ]; done.
Qed.
End Content.

(** ** The VolumeGroup controller *)

Section Group.
Context `{ExternalLaws} (cfg : DriverConfig) (req : NamespacedName).

(** It updates a content with the finalizers it was read with. *)
Definition read_guard (tr : history) (c : call) : Prop :=
  match c with CUpdate KVGC o => as_read tr o | _ => True end.

Abbreviation Any := (λ (_ : history) (_ : option _), True).

Lemma UpdateStaticVGCFromVG_read vg cl tr :
  wp read_guard Any (UpdateStaticVGCFromVG vg cl) tr.
Proof.
  unfold UpdateStaticVGCFromVG, GetVGC, UpdateObject. wp_step. wp_step.
  destruct (vgsrc_VolumeGroupContentName _) as [n|]; [|done]. do 3 wp_step. apply wp_trigger; [done|].
  intros [e|a]; cbn [after]; [repeat wp_step; done|]. do 2 wp_step. apply wp_trigger.
  - apply (as_read_last _ _ a); [left; by eexists|].
    unfold updateStaticVGCSpec. by destruct (GetSecretCred cl).
  - intros [e|v]; repeat wp_step; done.
Qed.

Lemma handleStaticProvisionedVG_read vg t cl tr :
  wp read_guard Any (handleStaticProvisionedVG cfg vg t cl) tr.
Proof.
  unfold handleStaticProvisionedVG.
  repeat first
    [ match goal with |- wp _ _ (UpdateStaticVGCFromVG _ _) _ =>
        eapply wp_mono; [apply UpdateStaticVGCFromVG_read|intros ? [[?|]|] _]
      end
    | wp_step ]; done.
Qed.

Lemma Reconcile_read : wp read_guard Any (VGController.Reconcile cfg req) [].
Proof.
  unfold VGController.Reconcile, VGController.Reconcile_class, Reconcile_provision,
    GetCurrentTime, removeInstance, removeVGCObject.
  autorewrite with reflect.
  repeat first
    [ match goal with |- wp _ _ (handleStaticProvisionedVG _ _ _ _) _ =>
        eapply wp_mono; [apply handleStaticProvisionedVG_read|intros ? [[[? ?] ?]|] _]
      end
    | wp_step ]; done.
Qed.
End Group.
