(* ===== verification/System.v ===== *)
(** * The two controllers on one API server

    The controllers of [VGController] and [VGCController] run side by side on a
    server that keeps the VolumeGroupContents with optimistic concurrency, next
    to users and other clients, and may stop at any call.  The abstract
    specification keeps two sets: the contents that hold the operator's
    finalizer, and those for which a group may exist at the driver.  [System]
    refines it: no group is ever left without a content that holds it.

    The reads are those of the server (no stale cache), each controller
    runs one reconciliation at a time (the default of controller-runtime), other
    clients do not take the operator's finalizer off, and the driver refuses to
    delete a group without an identifier. *)

From S2P Require Import Prelude GoLang Api Effects Externals Objects Params VolumeGroups Volumes.
From S2P Require Import Finalizers Driver VolumeGroupContents Membership VGController.
From S2P Require Import VGCController Histories Cluster Scenario VGCSafety Ownership.
From stdpp Require Import pretty.

(** ** The abstract specification *)

Module Spec.
Record state := mk_state {
  held : gset NamespacedName;     (* the operator's finalizer is on the content *)
  made : gset NamespacedName;     (* a group may exist at the driver *)
}.

Inductive action :=
| Stutter
| Hold (k : NamespacedName)
| Make (k : NamespacedName)
| Unmake (k : NamespacedName)
| LetGo (k : NamespacedName)
| Retain (k : NamespacedName).

(** A group is made for a held content only; a content with a group is let go
    only by giving the group up on purpose ([Retain]). *)
Inductive step (s : state) : action → state → Prop :=
| stutter : step s Stutter s
| hold k : step s (Hold k) (mk_state ({[k]} ∪ held s) (made s))
| make k : k ∈ held s → step s (Make k) (mk_state (held s) ({[k]} ∪ made s))
| unmake k : step s (Unmake k) (mk_state (held s) (made s ∖ {[k]}))
| let_go k : k ∉ made s → step s (LetGo k) (mk_state (held s ∖ {[k]}) (made s))
| retain k : step s (Retain k) (mk_state (held s ∖ {[k]}) (made s ∖ {[k]})).

Lemma step_safe s a s' : step s a s' → made s ⊆ held s → made s' ⊆ held s'.
Proof. destruct 1; cbn; set_solver. Qed.
End Spec.

(** ** The server *)

Record db := mk_db {
  contents : gmap NamespacedName VolumeGroupContent;
  used : gset string;              (* the resource versions given so far *)
}.

(** Storing an object; one that is being deleted and has no finalizer is gone. *)
Definition put (a : VolumeGroupContent) (d : db) : db :=
  mk_db
    (if decide (is_Some (om_DeletionTimestamp (vgc_ObjectMeta a)) ∧ GetFinalizers KVGC a = [])
     then delete (key_of KVGC a) (contents d)
     else <[key_of KVGC a := a]> (contents d))
    ({[version a]} ∪ used d).

Definition new_version (d : db) (a : VolumeGroupContent) : Prop := version a ∉ used d.

(** The object [a] that a call makes the server store. *)
Inductive writes (d : db) : call → VolumeGroupContent → Prop :=
| writes_create (o a : VolumeGroupContent) :
    contents d !! key_of KVGC o = None → new_version d a →
    key_of KVGC a = key_of KVGC o → GetFinalizers KVGC a = GetFinalizers KVGC o →
    vgc_Spec a = vgc_Spec o →
    writes d (CCreate KVGC o) a
| writes_update (o a old : VolumeGroupContent) :
    contents d !! key_of KVGC o = Some old → version o = version old → new_version d a →
    key_of KVGC a = key_of KVGC o → GetFinalizers KVGC a = GetFinalizers KVGC o →
    vgc_Spec a = vgc_Spec o → vgc_Status a = vgc_Status old →
    writes d (CUpdate KVGC o) a
| writes_status (o a old : VolumeGroupContent) :
    contents d !! key_of KVGC o = Some old → version o = version old → new_version d a →
    key_of KVGC a = key_of KVGC o → GetFinalizers KVGC a = GetFinalizers KVGC old →
    vgc_Spec a = vgc_Spec old → vgc_Status a = vgc_Status o →
    writes d (CStatusUpdate KVGC o) a
| writes_delete (o a old : VolumeGroupContent) :
    contents d !! key_of KVGC o = Some old → new_version d a →
    key_of KVGC a = key_of KVGC o → GetFinalizers KVGC a = GetFinalizers KVGC old →
    is_Some (om_DeletionTimestamp (vgc_ObjectMeta a)) →
    vgc_Spec a = vgc_Spec old → vgc_Status a = vgc_Status old →
    writes d (CDelete KVGC o) a.

Definition about_contents (c : call) : Prop :=
  match c with
  | CGet KVGC _ | CCreate KVGC _ | CUpdate KVGC _ | CStatusUpdate KVGC _ | CDelete KVGC _ => True
  | _ => False
  end.

(** The answer is the stored object, or an error: the answer may be lost. *)
Definition answers (r : error + VolumeGroupContent) (a : VolumeGroupContent) : Prop :=
  answered (λ b, b = a) r.

(** A driver refuses to delete a group without an identifier (a required field of
    the request). *)
Definition refuses_unnamed (c : call) : resp c → Prop :=
  match c with
  | CDeleteVolumeGroup id _ => λ r, id = ""%string → is_Some r
  | _ => λ _, True
  end.

(** A call, its answer, and the contents after it.  The versions are those of all
    the objects of the server; a write that changes nothing keeps the version. *)
Inductive serves (d : db) : event → db → Prop :=
| serves_other c r u :
    ¬ about_contents c → refuses_unnamed c r → used d ⊆ u →
    serves d (Ev c r) (mk_db (contents d) u)
| serves_get k (a : VolumeGroupContent) : contents d !! k = Some a → serves d (Ev (CGet KVGC k) (inr a)) d
| serves_get_fails k e : serves d (Ev (CGet KVGC k) (inl e)) d
| serves_create (o a : VolumeGroupContent) r :
    writes d (CCreate KVGC o) a → answers r a → serves d (Ev (CCreate KVGC o) r) (put a d)
| serves_create_fails o e : serves d (Ev (CCreate KVGC o) (inl e)) d
| serves_update (o a : VolumeGroupContent) r :
    writes d (CUpdate KVGC o) a → answers r a → serves d (Ev (CUpdate KVGC o) r) (put a d)
| serves_update_same (o old : VolumeGroupContent) r :
    contents d !! key_of KVGC o = Some old → version o = version old →
    GetFinalizers KVGC o = GetFinalizers KVGC old → answers r old →
    serves d (Ev (CUpdate KVGC o) r) d
| serves_update_fails o e : serves d (Ev (CUpdate KVGC o) (inl e)) d
| serves_status (o a : VolumeGroupContent) r :
    writes d (CStatusUpdate KVGC o) a → answers r a →
    serves d (Ev (CStatusUpdate KVGC o) r) (put a d)
| serves_status_same (o old : VolumeGroupContent) r :
    contents d !! key_of KVGC o = Some old → version o = version old → answers r old →
    serves d (Ev (CStatusUpdate KVGC o) r) d
| serves_status_fails o e : serves d (Ev (CStatusUpdate KVGC o) (inl e)) d
| serves_delete (o a : VolumeGroupContent) r : writes d (CDelete KVGC o) a → serves d (Ev (CDelete KVGC o) r) (put a d)
| serves_delete_fails o e : serves d (Ev (CDelete KVGC o) (Some e)) d.

(** The content of a key holds the operator's finalizer. *)
Definition stored (d : db) (k : NamespacedName) : option VolumeGroupContent := contents d !! k.

Definition holds (d : db) (k : NamespacedName) : Prop :=
  match stored d k with
  | Some a => VgcFinalizer ∈ GetFinalizers KVGC a
  | None => False
  end.

#[export] Instance holds_dec d k : Decision (holds d k).
Proof. unfold holds. destruct (stored d k); apply _. Defined.

(** An event that does not take the operator's finalizer off a content. *)
Definition gentle (d : db) (e : event) : Prop :=
  match tr_call e with
  | CUpdate KVGC o =>
      ∀ a, writes d (CUpdate KVGC o) a → holds d (key_of KVGC o) →
           VgcFinalizer ∈ GetFinalizers KVGC o
  | _ => True
  end.

(** ** The system *)

Record run_of (A : Type) := mk_run {
  run_req : NamespacedName;
  run_tr : history;
  run_prog : prog A;
}.
Arguments mk_run {A} _ _ _.

Abbreviation run := (run_of (Result * option error)).

Record state := mk_state {
  sys_db : db;
  vgc_run : option run;              (* of the content controller *)
  vg_run : option run;               (* of the VolumeGroup controller *)
  made : gset NamespacedName;        (* contents with a group at the driver *)
}.

(** The content an event answers with. *)
Definition content_of (e : event) : option VolumeGroupContent :=
  match tr_call e as c return resp c → option VolumeGroupContent with
  | CGet K _ | CCreate K _ | CUpdate K _ | CStatusUpdate K _ =>
      match K return error + obj_of K → option VolumeGroupContent with
      | KVGC => λ r, match r with inr a => Some a | inl _ => None end
      | _ => λ _, None
      end
  | _ => λ _, None
  end (tr_resp e).

(** The run was answered with a content whose policy is another than Delete. *)
Definition retains (tr : history) : bool :=
  existsb (λ e, match content_of e with
                | Some a => match vgcspec_VolumeGroupDeletionPolicy (vgc_Spec a) with
                            | Some policy => negb (bool_decide (policy = VolumeGroupContentDelete))
                            | None => false
                            end
                | None => false
                end) tr.

(** The contents with a group, after an event of a run for [req] with the history
    [tr]: a creation that was asked for may have happened whatever its answer; a
    deletion counts only when the driver confirms it.  Letting the content go does
    not make its group disappear: the group is given up on purpose when the run has
    read another policy than Delete, and is left behind otherwise. *)
Definition track (req : NamespacedName) (tr : history) (e : event) (d' : db)
    (m : gset NamespacedName) : gset NamespacedName :=
  match e with
  | Ev (CCreateVolumeGroup _ _ _) _ => {[req]} ∪ m
  | Ev (CDeleteVolumeGroup _ _) None => m ∖ {[req]}
  | Ev (CUpdate KVGC _) _ =>
      if decide (holds d' req) then m else if retains tr then m ∖ {[req]} else m
  | _ => m
  end.

Section System.
Context `{ExternalLaws} (cfg : DriverConfig).

Inductive step (s : state) : state → Prop :=
| start_vgc req :
    vgc_run s = None →
    step s (mk_state (sys_db s) (Some (mk_run req [] (VGCController.Reconcile cfg req)))
              (vg_run s) (made s))
| start_vg req :
    vg_run s = None →
    step s (mk_state (sys_db s) (vgc_run s)
              (Some (mk_run req [] (VGController.Reconcile cfg req))) (made s))
| call_vgc req tr c k r d' :
    vgc_run s = Some (mk_run req tr (Call c k)) → serves (sys_db s) (Ev c r) d' →
    step s (mk_state d' (Some (mk_run req (tr ++ [Ev c r]) (k r))) (vg_run s)
              (track req tr (Ev c r) d' (made s)))
| call_vg req tr c k r d' :
    vg_run s = Some (mk_run req tr (Call c k)) → serves (sys_db s) (Ev c r) d' →
    step s (mk_state d' (vgc_run s) (Some (mk_run req (tr ++ [Ev c r]) (k r))) (made s))
(* a run returned or panicked, or the process stopped *)
| stop_vgc : step s (mk_state (sys_db s) None (vg_run s) (made s))
| stop_vg : step s (mk_state (sys_db s) (vgc_run s) None (made s))
(* any call of another client, but one that takes the finalizer off *)
| other_client e d' :
    serves (sys_db s) e d' → gentle (sys_db s) e →
    step s (mk_state d' (vgc_run s) (vg_run s) (made s)).

(** Every object is under its key, with a version that was given. *)
Definition db_ok (d : db) : Prop :=
  ∀ k a, contents d !! k = Some a → key_of KVGC a = k ∧ version a ∈ used d.

Definition initial (s : state) : Prop :=
  db_ok (sys_db s) ∧ vgc_run s = None ∧ vg_run s = None ∧ made s = ∅.

Inductive reachable : state → Prop :=
| reachable_initial s : initial s → reachable s
| reachable_step s s' : reachable s → step s s' → reachable s'.

(** ** The server keeps what was answered *)

(** The objects a run was answered with: their versions were given, and the
    stored object of the same version has the same finalizers. *)
Definition linked (d : db) (tr : history) : Prop :=
  ∀ a, seen_content tr a →
    version a ∈ used d ∧
    ∀ b, contents d !! key_of KVGC a = Some b → version b = version a →
         GetFinalizers KVGC b = GetFinalizers KVGC a.

Lemma put_lookup a d k b :
  contents (put a d) !! k = Some b →
  (k = key_of KVGC a ∧ b = a) ∨ (k ≠ key_of KVGC a ∧ contents d !! k = Some b).
Proof.
  cbn. case_decide.
  - rewrite lookup_delete_Some. naive_solver.
  - rewrite lookup_insert_Some. naive_solver.
Qed.

Lemma put_other a d k : k ≠ key_of KVGC a → contents (put a d) !! k = contents d !! k.
Proof. intros Hne. cbn. case_decide; [by rewrite lookup_delete_ne|by rewrite lookup_insert_ne]. Qed.

Lemma put_holds a d : holds (put a d) (key_of KVGC a) ↔ VgcFinalizer ∈ GetFinalizers KVGC a.
Proof.
  unfold holds, stored. cbn. case_decide as Hgone.
  - rewrite lookup_delete_eq. destruct Hgone as [_ ->]. by rewrite elem_of_nil.
  - by rewrite lookup_insert_eq.
Qed.

Lemma put_holds_other a d k : k ≠ key_of KVGC a → holds (put a d) k ↔ holds d k.
Proof. intros Hne. unfold holds, stored. by rewrite put_other. Qed.

Lemma put_ok a d : db_ok d → db_ok (put a d).
Proof.
  intros Hd k b [[-> ->]|[_ Hb]]%put_lookup; cbn; [set_solver|].
  destruct (Hd k b Hb). set_solver.
Qed.

Lemma serves_ok d e d' : db_ok d → serves d e d' → db_ok d'.
Proof.
  intros Hd. destruct 1 as [c r u Hc Hr Hu| | | | | | | | | | | |]; try done; try by apply put_ok.
  intros k a Ha. destruct (Hd k a Ha). split; [done|by apply Hu].
Qed.

Lemma writes_new d c a : writes d c a → new_version d a.
Proof. by destruct 1. Qed.

Lemma linked_put d c a tr : writes d c a → linked d tr → linked (put a d) tr.
Proof.
  intros Hw Hl x Hx. destruct (Hl x Hx) as [Hv Hs]. split; [cbn; set_solver|].
  intros b [[Hk ->]|[_ Hb]]%put_lookup Heq; [|by apply Hs].
  apply writes_new in Hw. unfold new_version in Hw. congruence.
Qed.

(** What an event adds to the objects seen. *)
Lemma seen_snoc tr e a : seen_content (tr ++ [e]) a → seen_content tr a ∨ answered_content e a.
Proof.
  intros (e' & He & Ha). apply elem_of_app in He as [He|He%list_elem_of_singleton].
  - left. by exists e'.
  - right. by subst.
Qed.

Lemma answered_content_of e a : answered_content e a → content_of e = Some a.
Proof. by intros [[k ->]|[[o ->]|[[o ->]|[o ->]]]]. Qed.

Lemma other_content_of c r : ¬ about_contents c → content_of (Ev c r) = None.
Proof. intros Hc. destruct c as [[]| | |[]|[]|[]|[]| | | | | | |]; cbn in *; tauto. Qed.

(** An answered object is the stored one. *)
Lemma answered_stored d e d' a :
  db_ok d → serves d e d' → answered_content e a →
  version a ∈ used d' ∧ ∀ b, contents d' !! key_of KVGC a = Some b → b = a.
Proof.
  intros Hd Hs Ha%answered_content_of.
  assert (∀ x (r : error + VolumeGroupContent), answers r x → r = inr a →
    version a ∈ used (put x d) ∧ ∀ b, contents (put x d) !! key_of KVGC a = Some b → b = a) as Hput.
  { intros x r Hr ->. rewrite (Hr a eq_refl). split; [cbn; set_solver|].
    intros b Hb%put_lookup. naive_solver. }
  assert (∀ k x, contents d !! k = Some x →
    version x ∈ used d ∧ ∀ b, contents d !! key_of KVGC x = Some b → b = x) as Hsame.
  { intros k x Hx. destruct (Hd _ _ Hx) as [Hk Hv]. split; [done|]. intros b. rewrite Hk, Hx.
    congruence. }
  destruct Hs as [c r u Hc Href|k x Hx|k err|o x [err|y] Hw Hr|o err
                 |o x [err|y] Hw Hr|o x [err|y] Hx _ _ Hr|o err
                 |o x [err|y] Hw Hr|o x [err|y] Hx _ Hr|o err|o x r Hw|o err];
    rewrite ?other_content_of in Ha by done; cbn in Ha; simplify_eq;
    try (by apply (Hput x (inr a))); [by eapply Hsame|..];
    assert (a = x) as -> by (by apply Hr); by eapply Hsame.
Qed.

Lemma serves_linked d e d' tr :
  db_ok d → serves d e d' → linked d tr → linked d' (tr ++ [e]).
Proof.
  intros Hd Hs Hl a [Ha|Ha]%seen_snoc.
  - assert (linked d' tr) as Hl'; [|by apply Hl'].
    destruct Hs as [c r u Hc Hr Hu| | | | | | | | | | | |]; try done; try by eapply linked_put.
    intros x Hx. destruct (Hl x Hx). split; [by apply Hu|done].
  - destruct (answered_stored _ _ _ _ Hd Hs Ha) as [Hv Hb]. split; [done|].
    intros b Hin _. by rewrite (Hb b Hin).
Qed.

Lemma linked_app d tr tr' : linked d (tr ++ tr') → linked d tr.
Proof. intros Hl a Ha. apply Hl. eapply seen_content_mono; [exact Ha|sub_history]. Qed.

(** ** The finalizer stays *)

Lemma writes_holds d c x :
  writes d c x → holds d (key_of KVGC x) →
  (∀ o, c = CUpdate KVGC o → holds d (key_of KVGC o) → VgcFinalizer ∈ GetFinalizers KVGC o) →
  VgcFinalizer ∈ GetFinalizers KVGC x.
Proof.
  intros Hw Hh Hup.
  destruct Hw as [o x Ho _ Hk Hf|o x old Ho _ _ Hk Hf|o x old Ho _ _ Hk Hf|o x old Ho _ Hk Hf];
    rewrite Hk in Hh; rewrite Hf; [..|by unfold holds, stored in Hh; rewrite Ho in Hh].
  - unfold holds, stored in Hh. by rewrite Ho in Hh.
  - by apply Hup.
  - unfold holds, stored in Hh. by rewrite Ho in Hh.
Qed.

Lemma serves_holds d e d' k :
  serves d e d' → gentle d e → holds d k → holds d' k.
Proof.
  intros Hs He Hk.
  assert (∀ c x, writes d c x → tr_call e = c → holds (put x d) k) as Hput.
  { intros c x Hx Hc. destruct (decide (k = key_of KVGC x)) as [->|Hne].
    - apply put_holds. eapply writes_holds; [done|done|]. intros o ->.
      unfold gentle in He. rewrite Hc in He. by apply (He x).
    - by apply put_holds_other. }
  destruct Hs; by eauto.
Qed.

(** An event changes one content at most. *)
Definition held_of (d : db) : gset NamespacedName :=
  dom (filter (λ kv, VgcFinalizer ∈ GetFinalizers KVGC (snd kv)) (contents d)).

Lemma elem_of_held d k : k ∈ held_of d ↔ holds d k.
Proof.
  unfold held_of, holds. rewrite elem_of_dom. unfold is_Some.
  setoid_rewrite map_lookup_filter_Some. cbn.
  unfold stored. destruct (contents d !! k); naive_solver.
Qed.

Lemma put_held a d :
  held_of (put a d) =
  if decide (VgcFinalizer ∈ GetFinalizers KVGC a)
  then {[key_of KVGC a]} ∪ held_of d else held_of d ∖ {[key_of KVGC a]}.
Proof.
  apply set_eq. intros k. rewrite elem_of_held.
  destruct (decide (k = key_of KVGC a)) as [->|Hne].
  - rewrite put_holds. case_decide; set_solver.
  - rewrite put_holds_other, <- elem_of_held by done. case_decide; set_solver.
Qed.

Lemma serves_held d e d' :
  serves d e d' →
  held_of d' = held_of d ∨ (∃ k, held_of d' = {[k]} ∪ held_of d) ∨
  (∃ o, tr_call e = CUpdate KVGC o ∧ ¬ gentle d e ∧
        held_of d' = held_of d ∖ {[key_of KVGC o]}).
Proof.
  intros Hs.
  assert (∀ c a, writes d c a → tr_call e = c →
    held_of (put a d) = held_of d ∨ (∃ k, held_of (put a d) = {[k]} ∪ held_of d) ∨
    (∃ o, tr_call e = CUpdate KVGC o ∧ ¬ gentle d e ∧
          held_of (put a d) = held_of d ∖ {[key_of KVGC o]})) as Hput.
  { intros c a Hw Hc. rewrite put_held. case_decide as Hin; [right; left; by eexists|].
    destruct (decide (holds d (key_of KVGC a))) as [Hh|Hnh];
      [|left; rewrite <- elem_of_held in Hnh; set_solver].
    destruct Hw as [o a Ho _ Hk Hf|o a old Ho Hv Hn Hk Hf Hs1 Hs2|o a old Ho _ _ Hk Hf|o a old Ho _ Hk Hf].
    - exfalso. rewrite Hk in Hh. unfold holds, stored in Hh. by rewrite Ho in Hh.
    - right. right. exists o. split; [done|]. rewrite <- Hk. split; [|done].
      intros Hg. apply Hin. rewrite Hf. unfold gentle in Hg. rewrite Hc in Hg.
      apply (Hg a); [by eapply writes_update|].
      by rewrite <- Hk.
    - exfalso. rewrite Hk in Hh. unfold holds, stored in Hh. rewrite Ho in Hh. by rewrite Hf in Hin.
    - exfalso. rewrite Hk in Hh. unfold holds, stored in Hh. rewrite Ho in Hh. by rewrite Hf in Hin. }
  destruct Hs; first [by left|by eapply Hput].
Qed.

(** ** The runs *)

(** The key of the content a call is about. *)
Definition touched (c : call) : option NamespacedName :=
  match c with
  | CGet KVGC k => Some k
  | CCreate KVGC o | CUpdate KVGC o | CStatusUpdate KVGC o => Some (key_of KVGC o)
  | _ => None
  end.

Lemma answered_key d e d' a :
  db_ok d → serves d e d' → answered_content e a → touched (tr_call e) = Some (key_of KVGC a).
Proof.
  intros Hd Hs Ha%answered_content_of.
  assert (∀ c x, writes d c x → answered (λ b, b = x) (inr (A := error) a) →
    c = tr_call e → touched c = Some (key_of KVGC a) ∨ ∃ o, c = CDelete KVGC o) as Hput.
  { intros c x Hw Hr _. rewrite (Hr a eq_refl). destruct Hw; cbn; eauto; left; congruence. }
  destruct Hs as [c r u Hc Href|k x Hx|k err|o x [err|y] Hw Hr|o err
                 |o x [err|y] Hw Hr|o x [err|y] Hx _ _ Hr|o err
                 |o x [err|y] Hw Hr|o x [err|y] Hx _ Hr|o err|o x r Hw|o err];
    rewrite ?other_content_of in Ha by done; cbn in Ha; simplify_eq;
    try (by destruct (Hput _ _ Hw Hr eq_refl) as [|[? ?]]);
    try (assert (a = x) as -> by (by apply Hr)); cbn; by destruct (Hd _ _ Hx) as [-> _].
Qed.

Definition updated (c : call) : option VolumeGroupContent :=
  match c with CUpdate KVGC o => Some o | _ => None end.

Lemma writes_updated d c a o :
  writes d c a → updated c = Some o →
  (∃ old, stored d (key_of KVGC o) = Some old ∧ version o = version old) ∧
  key_of KVGC a = key_of KVGC o ∧ GetFinalizers KVGC a = GetFinalizers KVGC o.
Proof.
  unfold stored. destruct 1; cbn; intros Heq; try discriminate. injection Heq as <-. eauto 6.
Qed.

(** An update of an object as it was read keeps its finalizers. *)
Lemma as_read_gentle d tr o r :
  linked d tr → as_read tr o → gentle d (Ev (CUpdate KVGC o) r).
Proof.
  intros Hl (a0 & Ha0 & Hk0 & Hv0 & Hf0) a Hw Hh.
  destruct (writes_updated _ _ _ o Hw eq_refl) as ((old & Hold & Hv) & _ & _).
  unfold holds in Hh. rewrite Hold in Hh. rewrite <- Hf0.
  destruct (Hl a0 Ha0) as [_ Hs]. rewrite <- (Hs old); [done| |congruence].
  by rewrite Hk0.
Qed.

(** What an answer says of the server. *)
Lemma get_stored d k a d' : serves d (Ev (CGet KVGC k) (inr a)) d' → stored d k = Some a.
Proof.
  intros Hs. remember (Ev (CGet KVGC k) (inr a)) as e eqn:He.
  assert (touched (tr_call e) = Some k) as Hk by by subst.
  assert (content_of e = Some a) as Ha by by subst.
  assert (match tr_call e with CGet _ _ => True | _ => False end) as Hc by by subst.
  clear He. destruct Hs as [c r u Hn Href| | | | | | | | | | | |]; try done; cbn in *; simplify_eq; [|done].
  by rewrite other_content_of in Ha.
Qed.

Lemma update_stored d o a d' :
  serves d (Ev (CUpdate KVGC o) (inr a)) d' →
  (d' = put a d ∧ writes d (CUpdate KVGC o) a) ∨
  (d' = d ∧ stored d (key_of KVGC o) = Some a ∧ GetFinalizers KVGC a = GetFinalizers KVGC o).
Proof.
  intros Hs. remember (Ev (CUpdate KVGC o) (inr a)) as e eqn:He.
  assert (updated (tr_call e) = Some o) as Hk by by subst.
  assert (content_of e = Some a) as Ha by by subst.
  clear He. destruct Hs as [c r u Hn Href| | | | |o' x r Hw Hr|o' x r Hx Hv Hf Hr| | | | | |]; try done.
  - by rewrite other_content_of in Ha.
  - left. destruct r as [err|y]; cbn in *; simplify_eq. by assert (a = x) as -> by by apply Hr.
  - right. destruct r as [err|y]; cbn in *; [done|]. assert (y = x) as -> by by apply Hr.
    injection Ha as ->. injection Hk as ->. by rewrite Hf.
Qed.

Section Run.
Context (req : NamespacedName).

(** The run has made sure of the finalizer of its content. *)
Definition living (tr : history) : Prop :=
  ∃ vgc cur, started_with req tr vgc ∧ om_DeletionTimestamp (vgc_ObjectMeta vgc) = None ∧
    ((cur = vgc ∧ VgcFinalizer ∈ GetFinalizers KVGC vgc) ∨
     finalizers_written KVGC (GetFinalizers KVGC vgc ++ [VgcFinalizer]) tr cur).

Definition delete_asked (tr : history) : Prop :=
  ∃ id secrets r, Ev (CDeleteVolumeGroup id secrets) r ∈ tr.

Definition delete_confirmed (tr : history) : Prop :=
  ∃ id secrets, Ev (CDeleteVolumeGroup id secrets) None ∈ tr.

Definition started_deleting (tr : history) : Prop :=
  ∃ vgc, started_with req tr vgc ∧ is_Some (om_DeletionTimestamp (vgc_ObjectMeta vgc)).

Record content_ok (d : db) (m : gset NamespacedName) (tr : history)
    (p : prog (Result * option error)) : Prop := {
  co_own : wp (own_guard req) (λ _ _, True) p tr;
  co_guard : wp (vgc_guard cfg req) (λ _ _, True) p tr;
  co_linked : linked d tr;
  co_key : ∀ a, seen_content tr a → key_of KVGC a = req;
  co_living : living tr → holds d req;
  co_asked : delete_asked tr → started_deleting tr;
  co_confirmed : delete_confirmed tr → req ∉ m;
}.

(** An update that takes the finalizer off: the driver has confirmed that the group
    is gone, or the run has read that it is to be retained. *)
Lemma current_retains tr vgc cur policy :
  started_with req tr vgc → current tr vgc cur →
  vgcspec_VolumeGroupDeletionPolicy (vgc_Spec cur) = Some policy →
  policy ≠ VolumeGroupContentDelete → retains tr = true.
Proof.
  intros Hs Hcur Hp Hne. apply existsb_elem.
  assert (∃ e, e ∈ tr ∧ content_of e = Some cur) as (e & He & Ha).
  { destruct Hcur as [->|(o & Ho)]; [|by eexists].
    exists (Ev (CGet KVGC req) (inr vgc)). split; [by apply first_is_elem|done]. }
  exists e. split; [done|]. by rewrite Ha, Hp, bool_decide_false.
Qed.

Lemma release_cases d m tr o k r :
  content_ok d m tr (Call (CUpdate KVGC o) k) → ¬ gentle d (Ev (CUpdate KVGC o) r) →
  ∃ vgc, started_with req tr vgc ∧ may_release tr vgc ∧
    (req ∉ m ∨
     retains tr = true ∧ ∃ cur policy,
       current tr vgc cur ∧ vgcspec_VolumeGroupDeletionPolicy (vgc_Spec cur) = Some policy ∧
       policy ≠ VolumeGroupContentDelete).
Proof.
  intros [[Hown _] [Hg _] Hl _ _ _ Hconf] Hng.
  destruct Hown as [_ [[Hin|Hread]|(vgc & Hf & Hd & Hcn)]].
  - destruct Hng. by intros a _ _.
  - destruct Hng. by eapply as_read_gentle.
  - destruct (Hg vgc Hf Hd Hcn) as (Hmay & cur & policy & Hcur & Hpol & Hdel).
    exists vgc. split; [done|]. split; [done|].
    destruct (decide (policy = VolumeGroupContentDelete)) as [Hp|Hp]; [left|right].
    + apply Hconf. destruct (Hdel Hp) as (src & secrets & _ & Hin). by do 2 eexists.
    + split; [by eapply current_retains|by exists cur, policy].
Qed.

Lemma living_not_deleting tr : living tr → ¬ started_deleting tr.
Proof.
  intros (vgc & _ & Hs & Hd & _) (vgc' & Hs' & [t Ht]).
  pose proof (started_with_inj _ _ _ _ Hs Hs') as <-. congruence.
Qed.

Lemma started_deleting_app tr tr' : started_deleting tr → started_deleting (tr ++ tr').
Proof. intros (vgc & Hs & Hd). exists vgc. split; [by apply started_with_app|done]. Qed.

(** The guard of the run, for the objects it has seen. *)
Lemma own_touched tr c k :
  own_guard req tr c → (∀ a, seen_content tr a → key_of KVGC a = req) →
  touched c = Some k → k = req.
Proof.
  intros Hg Hk Ht.
  destruct c as [[]| | |[]|[]|[]|[]| | | | | | |]; cbn in *; simplify_eq; try done;
    [destruct Hg as [->|(a & Ha & ->)]
    |destruct Hg as [[->|(a & Ha & ->)] _]
    |destruct Hg as [->|(a & Ha & ->)]]; auto.
Qed.

Lemma own_gentle d tr c r :
  own_guard req tr c → linked d tr → ¬ started_deleting tr → gentle d (Ev c r).
Proof.
  intros Hg Hl Hnd. destruct c as [| | | |[]| | | | | | | | |]; try done.
  destruct Hg as [_ [[Hin|Hread]|(vgc & Hf & Hd & _)]].
  - by intros a _ _.
  - by eapply as_read_gentle.
  - destruct Hnd. by exists vgc.
Qed.

(** A first read that is the last event. *)
Lemma started_with_snoc tr e vgc :
  started_with req (tr ++ [e]) vgc →
  started_with req tr vgc ∨ (tr = [] ∧ e = Ev (CGet KVGC req) (inr vgc)).
Proof.
  unfold started_with, first_is. destruct tr as [|e' tr]; cbn; [|by left].
  intros Heq. right. split; [done|]. by injection Heq.
Qed.

(** What the run has made sure of is so on the server. *)
Lemma living_step d d' tr e :
  db_ok d → serves d e d' → own_guard req tr (tr_call e) → linked d tr →
  (∀ a, seen_content tr a → key_of KVGC a = req) →
  (living tr → holds d req) → living (tr ++ [e]) → holds d' req.
Proof.
  intros Hd Hs Hg Hl Hk Hold (vgc & cur & Hst & Hnd & Hev).
  assert (¬ started_deleting (tr ++ [e])) as Hndel
    by (apply living_not_deleting; by exists vgc, cur).
  assert (¬ started_deleting tr) as Hndel'
    by (intros Hdel; by apply Hndel, started_deleting_app).
  assert (gentle d e) as Hgentle by (destruct e; by eapply own_gentle).
  assert (started_with req tr vgc →
    (cur = vgc ∧ VgcFinalizer ∈ GetFinalizers KVGC vgc) ∨
    finalizers_written KVGC (GetFinalizers KVGC vgc ++ [VgcFinalizer]) tr cur → holds d' req)
    as Hpast.
  { intros Hst' Hev'. eapply serves_holds; [done..|]. apply Hold. by exists vgc, cur. }
  destruct Hev as [[-> Hin]|(o & Ho & Hf)].
  - apply started_with_snoc in Hst as [Hst|[-> ->]]; [apply Hpast; auto|].
    assert (answered_content (Ev (CGet KVGC req) (inr vgc)) vgc) as Ha by (left; by eexists).
    assert (contents d !! req = Some vgc) as Hreq by by apply get_stored in Hs.
    eapply serves_holds; [done..|]. unfold holds, stored. by rewrite Hreq.
  - apply elem_of_app in Ho as [Ho|Ho%list_elem_of_singleton].
    + apply started_with_snoc in Hst as [Hst|[-> _]]; [|by apply elem_of_nil in Ho].
      apply Hpast; [done|]. right. by exists o.
    + subst e. assert (key_of KVGC o = req) as Hreq by by eapply own_touched.
      rewrite <- Hreq. apply update_stored in Hs as [[-> Hw]|(-> & Hst' & Hfo)].
      * destruct (writes_updated _ _ _ o Hw eq_refl) as (_ & Hko & Hfo).
        rewrite <- Hko. apply put_holds. rewrite Hfo, Hf. set_solver.
      * unfold holds. rewrite Hst', Hfo, Hf. set_solver.
Qed.

(** The run's RPCs, and what they say of it. *)
Lemma asked_step tr c r :
  vgc_guard cfg req tr c → (delete_asked tr → started_deleting tr) →
  delete_asked (tr ++ [Ev c r]) → started_deleting (tr ++ [Ev c r]).
Proof.
  intros Hg Hold (id & secrets & r' & Hin). apply started_deleting_app.
  apply elem_of_app in Hin as [Hin|Hin%list_elem_of_singleton].
  - apply Hold. by exists id, secrets, r'.
  - apply (f_equal tr_call) in Hin. cbn in Hin. subst c.
    destruct Hg as (vgc & cur & src & Hs & (Hd & _) & _). by exists vgc.
Qed.

Lemma create_is_living tr name secrets parameters :
  create_group_allowed cfg req tr name secrets parameters → living tr.
Proof. intros (vgc & cur & cl & cn & Hs & Hd & _ & _ & _ & _ & Hcur & _). by exists vgc, cur. Qed.

Lemma confirmed_step d' tr c r m :
  vgc_guard cfg req tr c → (delete_asked tr → started_deleting tr) →
  (delete_confirmed tr → req ∉ m) →
  delete_confirmed (tr ++ [Ev c r]) → req ∉ track req tr (Ev c r) d' m.
Proof.
  intros Hg Hasked Hold (id & secrets & Hin).
  assert (req ∉ m ∨ Ev c r = Ev (CDeleteVolumeGroup id secrets) None) as [Hm|Heq].
  { apply elem_of_app in Hin as [Hin|Hin%list_elem_of_singleton]; [left|by right].
    apply Hold. by exists id, secrets. }
  - destruct c as [| | | |[]| | | | | | | | |]; cbn; try done; [case_decide; [|destruct (retains tr)]; set_solver| |].
    + exfalso. eapply living_not_deleting; [by eapply create_is_living|]. apply Hasked.
      apply elem_of_app in Hin as [Hin|Hin%list_elem_of_singleton]; [by exists id, secrets, None|].
      apply (f_equal tr_call) in Hin. by cbn in Hin.
    + destruct r; set_solver.
  - rewrite Heq. cbn. set_solver.
Qed.

Lemma content_step d d' m tr c k r :
  db_ok d → serves d (Ev c r) d' → content_ok d m tr (Call c k) →
  content_ok d' (track req tr (Ev c r) d' m) (tr ++ [Ev c r]) (k r).
Proof.
  intros Hd Hs [[Hown Hown'] [Hg Hg'] Hl Hk Hliv Hask Hconf]. split; [done|done|..].
  - by eapply serves_linked.
  - intros a [Ha|Ha]%seen_snoc; [by apply Hk|].
    eapply own_touched; [exact Hown|exact Hk|]. by eapply (answered_key d (Ev c r)).
  - by eapply living_step.
  - by eapply asked_step.
  - by eapply confirmed_step.
Qed.

(** A run while somebody else calls. *)
Lemma content_other d d' e m tr p :
  db_ok d → serves d e d' → gentle d e → content_ok d m tr p → content_ok d' m tr p.
Proof.
  intros Hd Hs He [Hown Hg Hl Hk Hliv Hask Hconf]. split; try done.
  - by eapply linked_app, serves_linked.
  - intros Hlive. by eapply serves_holds; [..|apply Hliv].
Qed.

(** The start of a run. *)
Lemma content_start d m : content_ok d m [] (VGCController.Reconcile cfg req).
Proof.
  assert (∀ e : event, e ∉ []) as Hnil by (intros e; apply not_elem_of_nil).
  split.
  - apply Reconcile_own.
  - apply VGCSafety.Reconcile_wp.
  - by intros a (e & He%Hnil & _).
  - by intros a (e & He%Hnil & _).
  - by intros (vgc & cur & Hs & _).
  - by intros (id & secrets & r & He%Hnil).
  - by intros (id & secrets & He%Hnil).
Qed.
End Run.

Definition group_ok (d : db) (tr : history) (p : prog (Result * option error)) : Prop :=
  wp read_guard (λ _ _, True) p tr ∧ linked d tr.

Record inv (s : state) : Prop := {
  inv_db : db_ok (sys_db s);
  inv_made : ∀ k, k ∈ made s → holds (sys_db s) k;
  inv_vgc : ∀ req tr p, vgc_run s = Some (mk_run req tr p) →
              content_ok req (sys_db s) (made s) tr p;
  inv_vg : ∀ req tr p, vg_run s = Some (mk_run req tr p) → group_ok (sys_db s) tr p;
}.

Lemma read_gentle d tr c r : read_guard tr c → linked d tr → gentle d (Ev c r).
Proof.
  intros Hg Hl. destruct c as [| | | |[]| | | | | | | | |]; try done. by eapply as_read_gentle.
Qed.

(** An event changes only the content its call is about. *)
Lemma serves_elsewhere d e d' o k :
  serves d e d' → tr_call e = CUpdate KVGC o → k ≠ key_of KVGC o → holds d' k ↔ holds d k.
Proof.
  intros Hs He Hne. assert (updated (tr_call e) = Some o) as Hu by by rewrite He.
  destruct Hs as [c r u Hn Href| | | | |o' x r Hw Hr| | | | | | |]; try done.
  destruct (writes_updated _ _ _ o Hw Hu) as (_ & Hk & _).
  apply put_holds_other. by rewrite Hk.
Qed.

(** A call of the content run keeps the groups held. *)
Lemma track_held req d d' m tr c k r x :
  serves d (Ev c r) d' → content_ok req d m tr (Call c k) →
  (∀ x, x ∈ m → holds d x) → x ∈ track req tr (Ev c r) d' m → holds d' x.
Proof.
  intros Hs Hok Hm Hx. destruct (co_own _ _ _ _ _ Hok) as [Hown _].
  destruct (co_guard _ _ _ _ _ Hok) as [Hg _].
  destruct (decide (updated c = None)) as [Hnone|Hup].
  - assert (gentle d (Ev c r)) as Hgentle
      by (destruct c as [| | | |[]| | | | | | | | |]; try done; by apply Hnone).
    apply (serves_holds d (Ev c r)); [done..|].
    destruct c as [| | | |[]| | | | | | | | |]; cbn in Hx; try (by apply Hm); try done.
    + apply elem_of_union in Hx as [->%elem_of_singleton|Hx]; [|by apply Hm].
      eapply co_living; [done|]. by eapply create_is_living.
    + destruct r; apply Hm; set_solver.
  - destruct c as [| | | |[]| | | | | | | | |]; try done.
    assert (key_of KVGC o = req) as Hko by (eapply own_touched; [exact Hown|apply Hok|done]).
    assert (x ∈ m) as Hxm by (cbn in Hx; case_decide; [|destruct (retains tr)]; set_solver).
    destruct (decide (x = req)) as [->|Hne];
      [|by eapply (serves_elsewhere d _ d' o); [exact Hs|done|congruence|apply Hm]].
    destruct (decide (holds d' req)) as [|Hh]; [done|exfalso].
    assert (¬ gentle d (Ev (CUpdate KVGC o) r)) as Hng
      by (intros Hgentle; apply Hh; by eapply serves_holds; [..|apply Hm]).
    destruct (release_cases _ _ _ _ _ _ _ Hok Hng) as (vgc & _ & _ & [?|[Hr _]]); [done|].
    cbn in Hx. rewrite decide_False, Hr in Hx by done. set_solver.
Qed.

(** What does not move, after an event of somebody else. *)
Lemma content_run_other s d' e req tr p :
  inv s → serves (sys_db s) e d' → gentle (sys_db s) e →
  vgc_run s = Some (mk_run req tr p) → content_ok req d' (made s) tr p.
Proof. intros [Hd _ Hc _] Hs He Hrun. eapply content_other; [done..|]. by apply Hc. Qed.

Lemma made_other s d' e k :
  inv s → serves (sys_db s) e d' → gentle (sys_db s) e → k ∈ made s → holds d' k.
Proof. intros [_ Hm _ _] Hs He Hk. eapply serves_holds; [done..|]. by apply Hm. Qed.

Lemma group_other s d' e req tr p :
  inv s → serves (sys_db s) e d' → vg_run s = Some (mk_run req tr p) → group_ok d' tr p.
Proof.
  intros [Hd _ _ Hg] Hs Hrun. destruct (Hg _ _ _ Hrun) as [Hwp Hl]. split; [done|].
  by eapply linked_app, serves_linked.
Qed.

Lemma inv_step s s' : inv s → step s s' → inv s'.
Proof.
  intros Hinv Hstep. pose proof Hinv as [Hd Hm Hc Hg].
  destruct Hstep as [req Hnone|req Hnone|req tr c k r d' Hrun Hs|req tr c k r d' Hrun Hs
                    | | |e d' Hs He].
  - split; cbn; try done. intros req' tr' p' Heq. injection Heq as <- <- <-. apply content_start.
  - split; cbn; try done. intros req' tr' p' Heq. injection Heq as <- <- <-.
    split; [apply Reconcile_read|]. intros a (e & He & _). by apply elem_of_nil in He.
  - pose proof (Hc _ _ _ Hrun) as Hok. split; cbn.
    + by eapply serves_ok.
    + intros x. by eapply track_held.
    + intros req' tr' p' Heq. injection Heq as <- <- <-. by eapply content_step.
    + intros req' tr' p'. by eapply group_other.
  - destruct (Hg _ _ _ Hrun) as [[Hread Hread'] Hl].
    assert (gentle (sys_db s) (Ev c r)) as Hgentle by by eapply read_gentle.
    split; cbn.
    + by eapply serves_ok.
    + intros x. by eapply made_other.
    + intros req' tr' p'. by eapply content_run_other.
    + intros req' tr' p' Heq. injection Heq as <- <- <-. split; [done|]. by eapply serves_linked.
  - by split.
  - by split.
  - split; cbn.
    + by eapply serves_ok.
    + intros x. by eapply made_other.
    + intros req' tr' p'. by eapply content_run_other.
    + intros req' tr' p'. by eapply group_other.
Qed.

Lemma reachable_inv s : reachable s → inv s.
Proof.
  induction 1 as [s (Hd & Hc & Hg & Hm)|s s' _ IH Hstep]; [|by eapply inv_step].
  split; [done|rewrite Hm; set_solver|by rewrite Hc|by rewrite Hg].
Qed.

(** ** Refinement *)

Definition abs (s : state) : Spec.state := Spec.mk_state (held_of (sys_db s)) (made s).

(** The call of the content controller behind an action, and what it had seen. *)
Definition warranted (s : state) (a : Spec.action) : Prop :=
  match a with
  | Spec.Make k => ∃ tr name secrets parameters f,
      vgc_run s = Some (mk_run k tr (Call (CCreateVolumeGroup name secrets parameters) f)) ∧
      create_group_allowed cfg k tr name secrets parameters
  | Spec.Unmake k => ∃ tr id secrets f,
      vgc_run s = Some (mk_run k tr (Call (CDeleteVolumeGroup id secrets) f)) ∧
      delete_group_allowed k tr id ∧ id ≠ ""%string
  | Spec.LetGo k => ∃ tr o f vgc,
      vgc_run s = Some (mk_run k tr (Call (CUpdate KVGC o) f)) ∧
      started_with k tr vgc ∧ may_release tr vgc
  | Spec.Retain k => ∃ tr o f vgc cur policy,
      vgc_run s = Some (mk_run k tr (Call (CUpdate KVGC o) f)) ∧
      started_with k tr vgc ∧ may_release tr vgc ∧ current tr vgc cur ∧
      vgcspec_VolumeGroupDeletionPolicy (vgc_Spec cur) = Some policy ∧
      policy ≠ VolumeGroupContentDelete
  | _ => True
  end.

Lemma serves_other_held d c r d' :
  ¬ about_contents c → serves d (Ev c r) d' → held_of d' = held_of d.
Proof.
  intros Hc Hs. remember (Ev c r) as e eqn:He.
  assert (¬ about_contents (tr_call e)) as Hc' by by subst.
  clear He. by destruct Hs; try (by destruct Hc').
Qed.

Lemma serves_refuses d e d' :
  serves d e d' → refuses_unnamed (tr_call e) (tr_resp e).
Proof. by destruct 1. Qed.

(** A gentle event that changes no group. *)
Lemma gentle_refines d e d' m :
  serves d e d' → gentle d e →
  ∃ a, Spec.step (Spec.mk_state (held_of d) m) a (Spec.mk_state (held_of d') m) ∧
       (a = Spec.Stutter ∨ ∃ k, a = Spec.Hold k).
Proof.
  intros Hs He. destruct (serves_held _ _ _ Hs) as [->|[[k ->]|(o & _ & Hne & _)]]; [| |done].
  - exists Spec.Stutter. split; [constructor|by left].
  - exists (Spec.Hold k). split; [apply Spec.hold|eauto].
Qed.

Lemma stutter_hold_warranted s a : (a = Spec.Stutter ∨ ∃ k, a = Spec.Hold k) → warranted s a.
Proof. by intros [->|[k ->]]. Qed.

(** An update by the content run. *)
Lemma update_refines s req tr o f r d' :
  inv s → vgc_run s = Some (mk_run req tr (Call (CUpdate KVGC o) f)) →
  serves (sys_db s) (Ev (CUpdate KVGC o) r) d' →
  ∃ a, Spec.step (abs s)
         a (Spec.mk_state (held_of d') (track req tr (Ev (CUpdate KVGC o) r) d' (made s))) ∧
       warranted s a.
Proof.
  intros [_ Hm Hc _] Hrun Hs. pose proof (Hc _ _ _ Hrun) as Hok.
  pose proof Hok as [[Hown _] _ _ Hk _ _ _].
  assert (key_of KVGC o = req) as Hko by by eapply own_touched.
  assert (∀ d', req ∉ held_of (sys_db s) → track req tr (Ev (CUpdate KVGC o) r) d' (made s) = made s)
    as Hgone.
  { intros d1 Hnh. assert (req ∉ made s) as Hnm by (intros Hin; by apply Hnh, elem_of_held, Hm).
    cbn. case_decide; [done|]. destruct (retains tr); [|done]. set_solver. }
  assert (holds d' req → track req tr (Ev (CUpdate KVGC o) r) d' (made s) = made s) as Hkept
    by (intros Hh; cbn; by rewrite decide_True).
  destruct (serves_held _ _ _ Hs) as [Heq|[[k Heq]|(o' & Ho' & Hng & Heq)]].
  - exists Spec.Stutter. split; [|done].
    assert (track req tr (Ev (CUpdate KVGC o) r) d' (made s) = made s) as ->.
    { destruct (decide (holds d' req)); [by apply Hkept|]. apply Hgone. by rewrite <- Heq, elem_of_held. }
    rewrite Heq. constructor.
  - exists (Spec.Hold k). split; [|done].
    assert (track req tr (Ev (CUpdate KVGC o) r) d' (made s) = made s) as ->.
    { destruct (decide (holds d' req)) as [|Hh]; [by apply Hkept|]. apply Hgone.
      rewrite <- elem_of_held, Heq in Hh. set_solver. }
    rewrite Heq. apply Spec.hold.
  - assert (key_of KVGC o' = req) as Ho by (rewrite <- Hko; cbn in Ho'; by apply (f_equal updated) in Ho'; simplify_eq).
    assert (¬ holds d' req) as Hnh by (rewrite <- elem_of_held, Heq, Ho; set_solver).
    destruct (release_cases _ _ _ _ _ _ _ Hok Hng)
      as (vgc & Hf & Hmay & [Hnm|(Hr & cur & policy & Hcur & Hpol & Hp)]); rewrite Heq, Ho.
    + exists (Spec.LetGo req). split; [|by exists tr, o, f, vgc].
      assert (track req tr (Ev (CUpdate KVGC o) r) d' (made s) = made s) as ->
        by (cbn; rewrite decide_False by done; destruct (retains tr); set_solver).
      by apply Spec.let_go.
    + exists (Spec.Retain req). split; [|by exists tr, o, f, vgc, cur, policy].
      assert (track req tr (Ev (CUpdate KVGC o) r) d' (made s) = made s ∖ {[req]}) as ->
        by (cbn; by rewrite decide_False, Hr).
      apply Spec.retain.
Qed.

(** A call of the content run. *)
Lemma content_call_refines s req tr c k r d' :
  inv s → vgc_run s = Some (mk_run req tr (Call c k)) → serves (sys_db s) (Ev c r) d' →
  ∃ a, Spec.step (abs s) a (Spec.mk_state (held_of d') (track req tr (Ev c r) d' (made s))) ∧
       warranted s a.
Proof.
  intros Hinv Hrun Hs. pose proof (inv_vgc _ Hinv _ _ _ Hrun) as Hok.
  destruct (decide (updated c = None)) as [Hnone|Hup];
    [|destruct c as [| | | |[]| | | | | | | | |]; try done; by eapply update_refines].
  assert (gentle (sys_db s) (Ev c r)) as Hgentle
    by (destruct c as [| | | |[]| | | | | | | | |]; try done; by apply Hnone).
  destruct (gentle_refines _ _ _ (made s) Hs Hgentle) as (a & Ha & Hsh).
  pose proof (stutter_hold_warranted s a Hsh) as Hw.
  destruct (co_guard _ _ _ _ _ Hok) as [Hguard _].
  destruct c as [| | | |[]| | |name secrets parameters|id secrets| | | | |]; try (by exists a); try done.
  - apply serves_other_held in Hs as ->; [|by intros []]. exists (Spec.Make req). split.
    + apply Spec.make. cbn. apply elem_of_held. eapply co_living; [done|]. by eapply create_is_living.
    + by exists tr, name, secrets, parameters, k.
  - apply serves_other_held in Hs as Hh; [|by intros []]. destruct r as [err|]; [by exists a|].
    rewrite Hh. exists (Spec.Unmake req). split; [apply Spec.unmake|].
    exists tr, id, secrets, k. split_all; [done|done|]. intros ->.
    by destruct (serves_refuses _ _ _ Hs eq_refl).
Qed.

(** ** The properties *)

(** C1: in every reachable state of the system (the two controllers, the users
    and other clients, with runs cut short at any call and answers lost), every
    content for which the driver was asked for a group is stored and holds the
    operator's finalizer, until the driver confirms that the group is deleted, or a
    run that has read another policy than Delete lets the content go.  Under the
    policy Delete, a group is never left behind without the object that will delete
    it. *)
Theorem no_orphan s k :
  reachable s → k ∈ made s →
  ∃ vgc, stored (sys_db s) k = Some vgc ∧ VgcFinalizer ∈ GetFinalizers KVGC vgc.
Proof.
  intros Hr Hk. pose proof (inv_made _ (reachable_inv _ Hr) k Hk) as Hh. unfold holds in Hh.
  destruct (stored (sys_db s) k) as [vgc|]; [by exists vgc|done].
Qed.

(** C2: the system refines its specification: every step from a reachable state
    is a step of [Spec] on the contents that hold the finalizer and those with a
    group, or leaves both as they are.  A group is made for a held content only,
    under the conditions of [create_group_allowed]; it counts as gone when the
    driver confirmed the deletion of the group the content names
    ([delete_group_allowed]), which then has an identifier; and a content leaves the set of the held ones only
    by an update of the content controller, when its VolumeGroup is gone and
    nobody else holds it, with no group left unless its policy is to retain it. *)
Theorem system_refines s s' :
  reachable s → step s s' → ∃ a, Spec.step (abs s) a (abs s') ∧ warranted s a.
Proof.
  intros Hinv%reachable_inv Hstep. pose proof Hinv as [Hd Hm Hc Hg].
  destruct Hstep as [req Hnone|req Hnone|req tr c k r d' Hrun Hs|req tr c k r d' Hrun Hs
                    | | |e d' Hs He]; unfold abs; cbn [sys_db made];
    try (by exists Spec.Stutter; split; [constructor|]).
  - by eapply content_call_refines.
  - destruct (Hg _ _ _ Hrun) as [[Hread _] Hl].
    destruct (gentle_refines _ _ _ (made s) Hs) as (a & Ha & Hsh); [by eapply read_gentle|].
    exists a. split; [done|by apply stutter_hold_warranted].
  - destruct (gentle_refines _ _ _ (made s) Hs He) as (a & Ha & Hsh).
    exists a. split; [done|by apply stutter_hold_warranted].
Qed.
End System.

(** ** The cluster of [Cluster] is such a server *)

Definition versions (n : nat) : gset string := list_to_set (pretty <$> seq 0 n).

Lemma elem_of_versions v n : v ∈ versions n ↔ ∃ i, v = pretty i ∧ i < n.
Proof.
  unfold versions. rewrite elem_of_list_to_set, list_elem_of_fmap.
  setoid_rewrite elem_of_seq. naive_solver lia.
Qed.

Lemma versions_fresh n : pretty n ∉ versions n.
Proof. rewrite elem_of_versions. intros (i & Heq%(inj pretty) & Hi). lia. Qed.

Lemma versions_S n : versions (S n) = {[pretty n]} ∪ versions n.
Proof.
  apply set_eq. intros v. rewrite elem_of_union, elem_of_singleton, !elem_of_versions. split.
  - intros (i & -> & Hi). destruct (decide (i = n)) as [->|]; [by left|right]. exists i. split; [done|lia].
  - intros [->|(i & -> & Hi)]; [exists n|exists i]; (split; [done|lia]).
Qed.

#[local] Arguments versions : simpl never.

Definition db_of (w : cluster) : db :=
  mk_db (store w KVGC) (versions (Cluster.version w)).

(** Writing a content. *)
Lemma write_content o w :
  db_of (snd (write KVGC (key_of KVGC o) o w)) = put (fst (write KVGC (key_of KVGC o) o w)) (db_of w).
Proof.
  unfold db_of, put, write. cbn. rewrite versions_S. f_equal.
  case_bool_decide as Hf; cbn; rewrite ?Hf.
  - destruct (om_DeletionTimestamp _); cbn; [rewrite decide_True by done|rewrite decide_False by (intros [[? ?] _]; discriminate)]; by destruct o as [? []].
  - rewrite decide_False by (by intros [_ ?]). by destruct o as [? []].
Qed.

(** Writing another object. *)
Lemma write_other K k o w :
  K ≠ KVGC → db_of (snd (write K k o w)) =
    mk_db (contents (db_of w)) (versions (S (Cluster.version w))).
Proof.
  intros Hne. unfold db_of, write. cbn. f_equal.
  unfold put_store. by destruct (decide (K = KVGC)).
Qed.

Lemma serves_elsewise c r w w' :
  ¬ about_contents c → refuses_unnamed c r → store w' KVGC = store w KVGC →
  Cluster.version w ≤ Cluster.version w' → serves (db_of w) (Ev c r) (db_of w').
Proof.
  intros Hc Hr Hst Hv. unfold db_of. rewrite Hst. apply serves_other; [done|done|]. cbn.
  intros v. rewrite !elem_of_versions. intros (i & -> & Hi). exists i. split; [done|lia].
Qed.

Lemma put_store_other K m s : K ≠ KVGC → put_store K m s KVGC = s KVGC.
Proof. intros Hne. unfold put_store. by destruct (decide (K = KVGC)). Qed.

Lemma change_other K c o f w r :
  K ≠ KVGC → ¬ about_contents c → refuses_unnamed c r →
  serves (db_of w) (Ev c r) (db_of (snd (change K o f w))).
Proof.
  intros Hne Hc Hr. unfold change. destruct (store w K !! _); [|by apply serves_elsewise].
  case_decide; [|by apply serves_elsewise]. case_decide; [by apply serves_elsewise|].
  apply serves_elsewise; [done|done| |cbn; lia]. cbn. by apply put_store_other.
Qed.

Ltac another_kind :=
  match goal with Hne : ?K ≠ KVGC |- _ => destruct K; cbn; first [tauto|by destruct Hne] end.

Lemma answers_inr a : answers (inr a) a.
Proof. intros b Hb. by injection Hb as <-. Qed.

(** A write of the cluster is one of the server. *)
Lemma write_serves (e : obj_of KVGC → event) o w :
  (∀ a, writes (db_of w) (tr_call (e a)) a → serves (db_of w) (e a) (put a (db_of w))) →
  (∀ a, key_of KVGC a = key_of KVGC o → new_version (db_of w) a →
        GetFinalizers KVGC a = GetFinalizers KVGC o → vgc_Spec a = vgc_Spec o →
        vgc_Status a = vgc_Status o →
        om_DeletionTimestamp (vgc_ObjectMeta a) = om_DeletionTimestamp (vgc_ObjectMeta o) →
        writes (db_of w) (tr_call (e a)) a) →
  serves (db_of w) (e (fst (write KVGC (key_of KVGC o) o w)))
    (db_of (snd (write KVGC (key_of KVGC o) o w))).
Proof.
  intros Hs Hw. rewrite write_content. apply Hs, Hw; try done. apply versions_fresh.
Qed.

(** The cluster answers as the server may. *)
Lemma serve_serves c w :
  db_ok (db_of w) → serves (db_of w) (Ev c (fst (serve c w))) (db_of (snd (serve c w))).
Proof.
  intros Hok.
  destruct c as [K k|K| |K o|K o|K o|K o| |id s|id ids s| | | |];
    try (apply serves_elsewise; [by intros []|done|done|cbn; lia]);
    [..|cbn [serve]; case_decide; (apply serves_elsewise; [intros []|cbn; intros ?; first [congruence|by eexists]|done|cbn; lia])
       |cbn [serve]; destruct (groups w !! id); by apply serves_elsewise; [intros []|..]].
  - destruct (decide (K = KVGC)) as [->|Hne]; [|by apply serves_elsewise; [another_kind|..]].
    cbn [serve fst snd]. destruct (store w KVGC !! k) as [o|] eqn:Ho; [by apply serves_get|apply serves_get_fails].
  - destruct (decide (K = KVGC)) as [->|Hne].
    + cbn [serve]. destruct (store w KVGC !! key_of KVGC o) as [old|] eqn:Ho; [apply serves_create_fails|].
      apply (write_serves (λ a, Ev (CCreate KVGC o) (inr a))).
      * intros a Ha. apply serves_create; [done|apply answers_inr].
      * intros a Hk Hn Hf Hs _ _. by apply writes_create.
    + cbn [serve]. destruct (store w K !! _); [by apply serves_elsewise; [another_kind|..]|].
      apply serves_elsewise; [another_kind|done| |cbn; lia]. cbn. by apply put_store_other.
  - destruct (decide (K = KVGC)) as [->|Hne]; [|apply change_other; [done|another_kind|done]].
    cbn [serve]. unfold change.
    destruct (store w KVGC !! key_of KVGC o) as [old|] eqn:Ho; [|apply serves_update_fails].
    case_decide as Hv; [|apply serves_update_fails].
    case_decide as Hsame.
    + apply serves_update_same with old; [done|done|by rewrite <- Hsame|apply answers_inr].
    + change (key_of KVGC o) with (key_of KVGC (with_status_of KVGC o old)).
      apply (write_serves (λ a, Ev (CUpdate KVGC o) (inr a))).
      * intros a Ha. apply serves_update; [done|apply answers_inr].
      * intros a Hk Hn Hf Hs Hst _. by apply writes_update with old.
  - destruct (decide (K = KVGC)) as [->|Hne]; [|apply change_other; [done|another_kind|done]].
    cbn [serve]. unfold change.
    destruct (store w KVGC !! key_of KVGC o) as [old|] eqn:Ho; [|apply serves_status_fails].
    case_decide as Hv; [|apply serves_status_fails]. destruct (Hok _ _ Ho) as [Hko _].
    case_decide as Hsame.
    + apply serves_status_same with old; [done|done|apply answers_inr].
    + rewrite <- Hko. change (key_of KVGC old) with (key_of KVGC (with_status_of KVGC old o)).
      apply (write_serves (λ a, Ev (CStatusUpdate KVGC o) (inr a))).
      * intros a Ha. apply serves_status; [done|apply answers_inr].
      * intros a Hk Hn Hf Hs Hst _. apply writes_status with old; [exact Ho|exact Hv|exact Hn|by etrans|exact Hf|exact Hs|exact Hst].
  - destruct (decide (K = KVGC)) as [->|Hne].
    + cbn [serve]. destruct (store w KVGC !! key_of KVGC o) as [old|] eqn:Ho; [|apply serves_delete_fails].
      destruct (Hok _ _ Ho) as [Hko _].
      apply (write_serves (λ _, Ev (CDelete KVGC o) None)).
      * intros a Ha. by apply serves_delete.
      * intros a Hk Hn Hf Hs Hst Hd. apply writes_delete with old; [exact Ho|exact Hn|by etrans|exact Hf|by rewrite Hd|exact Hs|exact Hst].
    + cbn [serve]. destruct (store w K !! _); [|by apply serves_elsewise; [another_kind|..]].
      apply serves_elsewise; [another_kind|done| |cbn; lia]. cbn. by apply put_store_other.
Qed.

(** A run of the content controller on the cluster, up to [n] calls. *)
Fixpoint advance (n : nat) (req : NamespacedName) (w : cluster) (tr : history)
    (p : prog (Result * option error)) (m : gset NamespacedName) : state :=
  match n, p with
  | S n, Call c k =>
      let '(r, w') := serve c w in
      advance n req w' (tr ++ [Ev c r]) (k r) (track req tr (Ev c r) (db_of w') m)
  | _, _ => mk_state (db_of w) (Some (mk_run req tr p)) None m
  end.

Lemma advance_reachable `{ExternalLaws} cfg n req w tr p m :
  reachable cfg (mk_state (db_of w) (Some (mk_run req tr p)) None m) →
  reachable cfg (advance n req w tr p m).
Proof.
  revert w tr p m. induction n as [|n IH]; intros w tr p m Hr; [by destruct p|].
  destruct p as [a|why|c k]; [done..|]. cbn [advance].
  pose proof (serve_serves c w (inv_db _ _ (reachable_inv _ _ Hr))) as Hs.
  destruct (serve c w) as [r w']. apply IH. eapply reachable_step; [exact Hr|].
  by eapply (call_vgc cfg (mk_state (db_of w) (Some (mk_run req tr (Call c k))) None m)).
Qed.

Definition calling (s : state) : bool :=
  match vgc_run s with Some (mk_run _ _ (Call _ _)) => true | _ => false end.

Lemma advance_step `{ExternalLaws} cfg n req w tr p m :
  reachable cfg (mk_state (db_of w) (Some (mk_run req tr p)) None m) →
  calling (advance n req w tr p m) = true →
  step cfg (advance n req w tr p m) (advance (S n) req w tr p m).
Proof.
  revert w tr p m. induction n as [|n IH]; intros w tr p m Hr Hcall; destruct p as [a|why|c k]; try done;
    pose proof (serve_serves c w (inv_db _ _ (reachable_inv _ _ Hr))) as Hs; cbn [advance] in *;
    destruct (serve c w) as [r w'].
  - by eapply (call_vgc cfg (mk_state (db_of w) (Some (mk_run req tr (Call c k))) None m)).
  - apply IH; [|done]. eapply reachable_step; [exact Hr|].
    by eapply (call_vgc cfg (mk_state (db_of w) (Some (mk_run req tr (Call c k))) None m)).
Qed.

(** ** Witnesses *)

#[local] Existing Instance DocExternals.externals.
#[local] Existing Instance DocExternals.laws.

Definition db_okb (d : db) : bool :=
  bool_decide (map_Forall (λ k a, key_of KVGC a = k ∧ version a ∈ used d) (contents d)).

Lemma db_okb_sound d : db_okb d = true → db_ok d.
Proof. by intros Hok%bool_decide_eq_true k a Ha%Hok. Qed.

(** The content of the sample VolumeGroup exists; the run that makes its group,
    after [n] calls. *)
Definition making (n : nat) : state :=
  advance n Samples.vgc_req Scenario.content_created []
    (VGCController.Reconcile Samples.config Samples.vgc_req) ∅.

Lemma making_starts :
  reachable Samples.config
    (mk_state (db_of Scenario.content_created)
       (Some (mk_run Samples.vgc_req [] (VGCController.Reconcile Samples.config Samples.vgc_req)))
       None ∅).
Proof.
  eapply (reachable_step _ (mk_state (db_of Scenario.content_created) None None ∅)).
  - apply reachable_initial. split; [|done]. apply db_okb_sound. by vm_compute.
  - by apply (start_vgc _ (mk_state _ None None ∅)).
Qed.

Lemma making_reachable n : reachable Samples.config (making n).
Proof. apply advance_reachable, making_starts. Qed.

(** The sixth call asks the driver for the group. *)
Lemma no_orphan_witness :
  Samples.vgc_req ∈ made (making 6) ∧
  ∃ vgc, stored (sys_db (making 6)) Samples.vgc_req = Some vgc ∧
         VgcFinalizer ∈ GetFinalizers KVGC vgc.
Proof.
  assert (Samples.vgc_req ∈ made (making 6)) as Hin by (apply (bool_decide_unpack _); by vm_compute).
  split; [exact Hin|]. exact (no_orphan Samples.config _ _ (making_reachable 6) Hin).
Defined.

Lemma system_refines_witness :
  made (making 5) = ∅ ∧ made (making 6) = {[Samples.vgc_req]} ∧
  ∃ a, Spec.step (abs (making 5)) a (abs (making 6)) ∧ warranted Samples.config (making 5) a.
Proof.
  assert (step Samples.config (making 5) (making 6)) as Hstep.
  { apply (advance_step Samples.config 5 _ _ _ _ _ making_starts). by vm_compute. }
  split; [by vm_compute|].
  split; [apply (bool_decide_unpack _); by vm_compute|].
  exact (system_refines Samples.config _ _ (making_reachable 5) Hstep).
Defined.
