(* ===== verification/WellFormed.v ===== *)
(** * Contents stay well formed

    The controllers dereference the class name, the deletion policy and the
    source of a content without a check.  A content that has the three is
    [complete].  Both controllers write complete contents only, as long as they
    are answered with complete ones; on a server whose other clients do the same
    every content stays complete, and a run of the content controller panics
    only after a failed first read or an answer of the driver without a group. *)

From S2P Require Import Prelude GoLang Api Effects Externals Objects Params VolumeGroups Volumes.
From S2P Require Import Finalizers Driver VolumeGroupContents Membership VGController.
From S2P Require Import VGCController Histories Cluster Scenario ClaimDeletion VGCProgress.
From S2P Require Import Ownership System.

(** ** Executions with good answers, and the calls they make *)

(** Every call is one of [S] and the outcome satisfies [Q], as long as the answers
    satisfy [ok]. *)
Fixpoint safely {A} (ok : ∀ c, resp c → Prop) (S : call → Prop) (Q : option A → Prop)
    (p : prog A) : Prop :=
  match p with
  | Ret a => Q (Some a)
  | Panic _ => Q None
  | Call c k => S c ∧ ∀ r, ok c r → safely ok S Q (k r)
  end.

Section Safely.
Context {A : Type} (ok : ∀ c, resp c → Prop) (S : call → Prop).

Lemma safely_bind {B} (Q : option B → Prop) (f : A → prog B) p :
  safely ok S (after (λ a, safely ok S Q (f a)) (Q None)) p → safely ok S Q (p ≫= f).
Proof.
  induction p as [a|w|c k IH]; [done..|].
  intros [Hc Hk]. split; [done|]. intros r Hr. apply IH, Hk, Hr.
Qed.

Lemma safely_mono (Q Q' : option A → Prop) p :
  safely ok S Q p → (∀ o, Q o → Q' o) → safely ok S Q' p.
Proof.
  intros Hp HQ. induction p as [a|w|c k IH]; simpl in *; [by auto..|].
  destruct Hp as [Hc Hk]. split; eauto.
Qed.

(** What the operation calls whatever is answered, and what comes of good answers. *)
Lemma safely_split S' (Q : option A → Prop) p :
  triple S' any p → covers S' S → along ok Q p → safely ok S Q p.
Proof.
  intros Hp HS. induction p as [a|w|c k IH]; cbn; [done..|]. destruct Hp as [Hc Hk].
  intros HQ. split; [by apply HS|]. eauto.
Qed.

Lemma safely_spec S' (R Q : option A → Prop) p :
  Spec p S' R → covers S' S → (∀ o, R o → Q o) → safely ok S Q p.
Proof.
  intros Hp HS HQ. eapply safely_split; [by eapply spec_calls|done|by eapply along_spec].
Qed.

Lemma safely_sound (Q : option A → Prop) p tr o :
  safely ok S Q p → executes p tr o →
  (Forall (λ e, ok (tr_call e) (tr_resp e)) tr → Q o) ∧
  ∀ pre e post, tr = pre ++ e :: post →
    Forall (λ e, ok (tr_call e) (tr_resp e)) pre → S (tr_call e).
Proof.
  intros Hp Hex. induction Hex as [a|w|c k r tr o Hex IH]; cbn in Hp.
  1,2: split; [done|by intros []].
  destruct Hp as [Hc Hk]. split.
  - intros [Hr Htr]%Forall_cons. by apply IH; [apply Hk|].
  - intros [|e' pre] e post Heq; simplify_eq/=; [done|]. intros [Hr Hpre]%Forall_cons.
    destruct (IH (Hk r Hr)) as [_ Hcalls]. by eapply Hcalls.
Qed.
End Safely.

(** One step of symbolic execution of a [safely]. *)
Ltac safe_step :=
  match goal with
  | |- safely _ _ _ (_ ≫= _) => apply safely_bind
  | |- safely _ _ _ (trigger _) => split; [solve [cbn; tauto | cbn; auto]|intros ? ?]
  | |- safely _ _ _ (or_panic _ _) => unfold or_panic
  | |- safely _ _ _ (deref _) => unfold deref
  | |- safely _ _ _ (mret _) => unfold mret, prog_ret
  | |- safely _ _ _ (Ret _) => cbn [safely after]
  | |- safely _ _ _ (Panic _) => cbn [safely after]
  | |- safely _ _ _ (match ?x with _ => _ end) => destruct x eqn:?
  | |- safely _ _ _ _ => eapply safely_spec; [typeclasses eauto|solve_covers|outcome_cases]
  | |- after _ _ _ => progress cbn [after safely]
  end.

(** ** Complete contents *)

(** The contents answered by a read or an update are complete. *)
Definition content_answer_ok (c : call) : resp c → Prop :=
  match c with
  | CGet K _ | CUpdate K _ | CStatusUpdate K _ =>
      match K return error + obj_of K → Prop with
      | KVGC => answered complete
      | _ => λ _, True
      end
  | _ => λ _, True
  end.

(** A content is created or updated to a complete one. *)
Definition content_write_ok (c : call) : Prop :=
  match c with
  | CCreate KVGC o | CUpdate KVGC o => complete o
  | _ => True
  end.

Abbreviation Safe := (safely content_answer_ok content_write_ok).

(** Whatever the error, the content left behind is complete. *)
Definition leaves_complete (o : option (option error * VolumeGroupContent)) : Prop :=
  after (λ r, complete (snd r)) False o.

Lemma SetFinalizers_complete fs vgc : complete vgc → complete (SetFinalizers KVGC fs vgc).
Proof. by destruct vgc. Qed.

Section Writes.
Context `{ExternalLaws} (cfg : DriverConfig) (req : NamespacedName).

Lemma safely_retry {St} (Q : option (option error * St) → Prop) (I : St → Prop) fn s :
  (∀ s, I s → Safe (after (λ r, Q (Some r) ∧ (is_Some (fst r) → I (snd r))) (Q None)) (fn s)) →
  I s → Safe Q (RetryOnConflict fn s).
Proof.
  intros Hfn. rewrite RetryOnConflict_spec. revert s.
  induction retries as [|n IH]; intros s HI; cbn [retry_attempts];
    apply safely_bind; (eapply safely_mono; [by apply Hfn|]);
    intros [[err s']|]; try done; cbn; intros [HQ HI'];
    destruct err as [e|]; try done.
  destruct (IsConflict e) eqn:He; [|done]. apply IH. eauto.
Qed.

(** A content that was answered, or the one before the call. *)
Ltac solve_complete :=
  cbn; try done;
  first [ assumption
        | by apply SetFinalizers_complete
        | match goal with Hr : content_answer_ok _ _ |- _ => by apply Hr end
        | match goal with Hr : _ → complete _ |- _ => by apply Hr end ].

Lemma UpdateObject_safe vgc : complete vgc → Safe leaves_complete (UpdateObject KVGC vgc).
Proof. intros Hvgc. unfold UpdateObject. repeat safe_step; solve_complete. Qed.

Lemma getNamespacedObject_safe vgc :
  complete vgc → Safe leaves_complete (getNamespacedObject KVGC vgc).
Proof. intros Hvgc. unfold getNamespacedObject. repeat safe_step; solve_complete. Qed.

Lemma updateFinalizer_safe fs vgc : complete vgc → Safe leaves_complete (updateFinalizer KVGC fs vgc).
Proof.
  intros Hvgc. unfold updateFinalizer. apply (safely_retry _ complete); [|done].
  clear vgc Hvgc. intros vgc Hvgc. unfold finalizerRetryOnConflictFunc. safe_step.
  eapply safely_mono; [by apply UpdateObject_safe, SetFinalizers_complete|].
  intros [[err v]|] Hv; [|done]. cbn [after]. cbn in Hv. safe_step.
  - safe_step. eapply safely_mono; [by apply getNamespacedObject_safe|].
    intros [[err' v']|] Hv'; [|done]. cbn [after]. cbn in Hv'. by repeat safe_step.
  - by repeat safe_step.
Qed.

Lemma AddFinalizerToVGC_safe vgc : complete vgc → Safe leaves_complete (AddFinalizerToVGC vgc).
Proof.
  intros Hvgc. unfold AddFinalizerToVGC. safe_step; [|done]. safe_step.
  eapply safely_mono; [by apply updateFinalizer_safe, SetFinalizers_complete|].
  intros [[[e|] v]|] Hv; [..|done]; by repeat safe_step.
Qed.

Lemma RemoveFinalizerFromVGC_safe vgc :
  complete vgc → Safe leaves_complete (RemoveFinalizerFromVGC vgc).
Proof.
  intros Hvgc. unfold RemoveFinalizerFromVGC. safe_step; [|done]. safe_step.
  eapply safely_mono; [by apply updateFinalizer_safe, SetFinalizers_complete|].
  intros [[[e|] v]|] Hv; [..|done]; by repeat safe_step.
Qed.

(** ** Specifications that are filled in *)

Lemma updateStaticVGCSpec_complete cl vgc : complete vgc → complete (updateStaticVGCSpec cl vgc).
Proof.
  intros ([cn Hcn] & [p Hp] & Hsrc). unfold complete, updateStaticVGCSpec.
  destruct (GetSecretCred cl). cbn. rewrite Hcn, Hp. eauto.
Qed.

Lemma set_vgc_ref_complete r vgc : complete vgc → complete (set_vgc_ref r vgc).
Proof. done. Qed.

Lemma set_vgc_source_complete src vgc : complete vgc → complete (set_vgc_source (Some src) vgc).
Proof. intros (Hcn & Hp & _). split_and!; cbn; eauto. Qed.

Lemma set_vgc_policy_complete p vgc : complete vgc → complete (set_vgc_policy (Some p) vgc).
Proof. intros (Hcn & _ & Hsrc). split_and!; cbn; eauto. Qed.

(** A content is read, and a complete one made of it is written. *)
Lemma read_and_update_safe n ns (f : VolumeGroupContent → VolumeGroupContent) :
  (∀ vgc, complete vgc → complete (f vgc)) →
  Safe any
    (r ← GetVGC n ns;
     match r with
     | inl err => mret (Some err)
     | inr vgc => '(err, _) ← UpdateObject KVGC (f vgc); mret err
     end).
Proof.
  intros Hf. unfold GetVGC. safe_step. split; [done|]. intros r Hr. cbn [safely after].
  destruct r as [e|vgc]; [done|]. safe_step.
  eapply safely_mono; [apply UpdateObject_safe, Hf; by apply Hr|].
  intros [[e v]|] Hv; done.
Qed.

Lemma UpdateStaticVGC_safe ns n cl : Safe any (UpdateStaticVGC ns n cl).
Proof. apply read_and_update_safe. intros vgc. apply updateStaticVGCSpec_complete. Qed.

Lemma UpdateStaticVGCFromVG_safe vg cl : Safe any (UpdateStaticVGCFromVG vg cl).
Proof.
  unfold UpdateStaticVGCFromVG. destruct (vgsrc_VolumeGroupContentName _) as [n|]; [|done].
  apply (read_and_update_safe _ _ (λ vgc, updateStaticVGCSpec cl (set_vgc_ref _ vgc))).
  intros vgc Hvgc. by apply updateStaticVGCSpec_complete, set_vgc_ref_complete.
Qed.

Lemma UpdateThinVGC_safe ns n : Safe any (UpdateThinVGC ns n).
Proof.
  unfold UpdateThinVGC, updateThinVGCSpec, GetVGC. safe_step. split; [done|]. intros r Hr.
  cbn [safely after]. destruct r as [e|vgc]; [done|]. autorewrite with reflect.
  specialize (Hr vgc eq_refl).
  repeat first
    [ match goal with |- Safe _ (UpdateObject KVGC ?v) =>
        eapply safely_mono; [apply UpdateObject_safe|intros [[? ?]|] ?; [|done]]
      end
    | safe_step ]; try done. by apply set_vgc_policy_complete.
Qed.
(** ** The content controller *)

Lemma DeletePVCsUnderVGC_safe vgc driver :
  complete vgc →
  Safe (after (λ r, fst r = None → complete (snd r)) False) (DeletePVCsUnderVGC vgc driver).
Proof.
  intros Hc. eapply safely_split; [apply DeletePVCsUnderVGC_spec|solve_covers|].
  eapply (along_use _ _ returns); [apply DeletePVCsUnderVGC_returns|apply DeletePVCsUnderVGC_history|].
  intros tr o Htr [[err vgc'] ->] Hh. cbn. intros ->.
  destruct (Hh vgc' eq_refl) as [->|[u Hu]]; [done|].
  rewrite Forall_forall in Htr. by apply (Htr _ Hu).
Qed.

Lemma removeVGC_safe vgc secret : complete vgc → Safe any (removeVGC vgc secret).
Proof.
  intros Hc. unfold removeVGC.
  repeat first
    [ match goal with |- Safe _ (RemoveFinalizerFromVGC _) =>
        eapply safely_mono; [by apply RemoveFinalizerFromVGC_safe|intros [[[?|] ?]|] ?; [..|done]]
      end
    | safe_step | done ].
Qed.

Lemma handleVGCWithDeletionTimestamp_safe vgc secret :
  complete vgc → Safe any (handleVGCWithDeletionTimestamp cfg vgc secret).
Proof.
  intros Hc. unfold handleVGCWithDeletionTimestamp.
  repeat first
    [ match goal with
      | |- Safe _ (DeletePVCsUnderVGC _ _) =>
          eapply safely_mono; [by apply DeletePVCsUnderVGC_safe|intros [[[?|] ?]|] Hcur; [..|done]];
          cbn in Hcur
      | |- Safe _ (removeVGC _ _) =>
          eapply safely_mono; [apply removeVGC_safe; auto|intros [[[?|] ?]|] ?]
      end
    | safe_step | done ].
Qed.

Lemma handleStaticProvisionedVGC_safe vgc :
  complete vgc →
  Safe (after (λ '(_, static, v), static = false → complete v) True)
    (handleStaticProvisionedVGC vgc).
Proof.
  intros Hc. unfold handleStaticProvisionedVGC, updateStaticVGC, updateStaticVGCSpec_controller,
    GetCurrentTime. autorewrite with reflect.
  repeat first
    [ match goal with |- Safe _ (UpdateStaticVGC _ _ _) =>
        eapply safely_mono; [apply UpdateStaticVGC_safe|intros [[?|]|] _]
      end
    | safe_step | done ].
Qed.

Lemma handleCreateVG_safe vgc cl secret : complete vgc → Safe any (handleCreateVG vgc cl secret).
Proof.
  intros Hc. unfold handleCreateVG, createVG_request, UpdateVGCByResponse.
  repeat first
    [ match goal with |- Safe _ (UpdateObject KVGC _) =>
        eapply safely_mono; [by apply UpdateObject_safe, set_vgc_source_complete|
                             intros [[[?|] ?]|] ?]
      end
    | safe_step | done ].
Qed.

Lemma VGC_Reconcile_class_safe vgc cl :
  complete vgc → Safe any (VGCController.Reconcile_class cfg vgc cl).
Proof.
  intros Hc. unfold VGCController.Reconcile_class.
  repeat first
    [ match goal with
      | |- Safe _ (AddFinalizerToVGC _) =>
          eapply safely_mono; [by apply AddFinalizerToVGC_safe|intros [[[?|] ?]|] Hcur; [..|done]];
          cbn in Hcur
      | |- Safe _ (handleStaticProvisionedVGC _) =>
          eapply safely_mono; [by apply handleStaticProvisionedVGC_safe|
                               intros [[[? []] ?]|] Hst; [..|done]]; cbn in Hst
      | |- Safe _ (handleCreateVG _ _ _) =>
          eapply safely_mono; [apply handleCreateVG_safe; auto|intros [[[?|] ?]|] ?]
      | |- Safe _ (handleVGCWithDeletionTimestamp _ _ _) =>
          eapply safely_mono; [by apply handleVGCWithDeletionTimestamp_safe|intros [[[?|] ?]|] ?]
      end
    | safe_step | done ].
Qed.

Lemma VGC_Reconcile_safe : Safe any (VGCController.Reconcile cfg req).
Proof.
  unfold VGCController.Reconcile, GetVGC, GetCurrentTime.
  repeat first
    [ match goal with
      | |- Safe _ (UpdateThinVGC _ _) =>
          eapply safely_mono; [apply UpdateThinVGC_safe|intros [[?|]|] _]
      | Hr : content_answer_ok (CGet KVGC _) (inr ?v) |- Safe _ (VGCController.Reconcile_class _ ?v _) =>
          apply VGC_Reconcile_class_safe; by apply Hr
      end
    | safe_step | done ].
Qed.

(** ** The VolumeGroup controller *)

Lemma GenerateVGC_safe n vg cl s sn :
  Safe (after complete True) (GenerateVGC n vg cl s sn).
Proof.
  unfold GenerateVGC, generateVGCSpec. autorewrite with reflect.
  repeat safe_step. unfold complete, getVolumeGroupDeletionPolicy. cbn.
  destruct (vgclass_VolumeGroupDeletionPolicy cl); eauto.
Qed.

Lemma CreateVGC_safe vgc : complete vgc → Safe any (CreateVGC vgc).
Proof. intros Hc. unfold CreateVGC. repeat safe_step; done. Qed.

Lemma handleStaticProvisionedVG_safe vg t cl :
  Safe any (handleStaticProvisionedVG cfg vg t cl).
Proof.
  unfold handleStaticProvisionedVG.
  repeat first
    [ match goal with |- Safe _ (UpdateStaticVGCFromVG _ _) =>
        eapply safely_mono; [apply UpdateStaticVGCFromVG_safe|intros [[?|]|] _]
      end
    | safe_step | done ].
Qed.

Lemma Reconcile_provision_safe vg cl : Safe any (Reconcile_provision cfg vg cl).
Proof.
  unfold Reconcile_provision, GetCurrentTime.
  repeat first
    [ match goal with
      | |- Safe _ (handleStaticProvisionedVG _ _ _ _) =>
          eapply safely_mono; [apply handleStaticProvisionedVG_safe|intros [[[? []] ?]|] _]
      | |- Safe _ (GenerateVGC _ _ _ _ _) =>
          eapply safely_mono; [apply GenerateVGC_safe|intros [?|] Hvgc]; cbn in Hvgc
      | |- Safe _ (CreateVGC _) =>
          eapply safely_mono; [by apply CreateVGC_safe|intros [[[?|] ?]|] _]
      end
    | safe_step | done ].
Qed.

Lemma VG_Reconcile_safe : Safe any (VGController.Reconcile cfg req).
Proof.
  unfold VGController.Reconcile, VGController.Reconcile_class, removeInstance, removeVGCObject.
  repeat first
    [ match goal with |- Safe _ (Reconcile_provision _ _ _) => apply Reconcile_provision_safe end
    | safe_step | done ].
Qed.
End Writes.

(** ** The system *)

Definition complete_db (d : db) : Prop := map_Forall (λ _, complete) (contents d).

Lemma put_complete a d : complete a → complete_db d → complete_db (put a d).
Proof. intros Ha Hd k b [[_ ->]|[_ Hb]]%put_lookup; [done|by eapply Hd]. Qed.

(** What a call makes the server store. *)
Lemma writes_complete d c a :
  writes d c a → complete_db d → content_write_ok c → complete a.
Proof.
  intros Hw Hd Hc. unfold complete.
  destruct Hw as [o a _ _ _ _ ->|o a old _ _ _ _ _ -> _|o a old Ho _ _ _ _ -> _
                 |o a old Ho _ _ _ _ -> _]; first [exact Hc|by eapply Hd].
Qed.

Lemma serves_complete d e d' :
  serves d e d' → complete_db d → content_write_ok (tr_call e) → complete_db d'.
Proof.
  intros Hs Hd Hc. destruct Hs; first [done|by eapply put_complete, Hd; eapply writes_complete].
Qed.

(** What the server answers. *)
Lemma serves_answer_complete d e d' a :
  serves d e d' → complete_db d → content_write_ok (tr_call e) → content_of e = Some a → complete a.
Proof.
  intros Hs Hd Hc Ha.
  assert (∀ x, complete x → answers (inr a) x → complete a) as Hput
    by (intros x Hx Hr; by rewrite (Hr a eq_refl)).
  destruct Hs as [c r u Hn Href|k x Hx|k err|o x [err|y] Hw Hr|o err
                 |o x [err|y] Hw Hr|o x [err|y] Hx _ _ Hr|o err
                 |o x [err|y] Hw Hr|o x [err|y] Hx _ Hr|o err|o x r Hw|o err];
    rewrite ?other_content_of in Ha by done; cbn in Ha; simplify_eq;
    first [ by eapply Hd
          | eapply Hput; [|exact Hr]; first [by eapply writes_complete|by eapply Hd] ].
Qed.

Lemma content_answer_of c r :
  (∀ a, content_of (Ev c r) = Some a → complete a) → content_answer_ok c r.
Proof.
  intros Ha. destruct c as [[]| | | |[]|[]| | | | | | | |]; try done; cbn in *;
    intros a ->; by apply Ha.
Qed.

Lemma answer_ok_split c r :
  content_answer_ok c r → groupless (Ev c r) = false → vgc_answer_ok c r.
Proof.
  destruct c; try done. intros _ Hg a ->. unfold groupless in Hg. cbn in Hg.
  apply bool_decide_eq_false in Hg. by apply not_eq_None_Some.
Qed.

Section Tidy.
Context `{ExternalLaws} (cfg : DriverConfig).

(** The steps of the two controllers, and the calls of other clients that leave
    complete contents. *)
Inductive tidy_step (s : state) : state → Prop :=
| tidy_run s' :
    step cfg s s' → vgc_run s' ≠ vgc_run s ∨ vg_run s' ≠ vg_run s → tidy_step s s'
| tidy_client e d' :
    serves (sys_db s) e d' → gentle (sys_db s) e → content_write_ok (tr_call e) →
    tidy_step s (mk_state d' (vgc_run s) (vg_run s) (made s)).

Inductive tidy : state → Prop :=
| tidy_initial s : initial s → complete_db (sys_db s) → tidy s
| tidy_next s s' : tidy s → tidy_step s s' → tidy s'.

(** [p] is what is left of [p0] after [tr]. *)
Definition continues {A} (p0 : prog A) (tr : history) (p : prog A) : Prop :=
  ∀ tr' o, executes p tr' o → executes p0 (tr ++ tr') o.

Lemma continues_call {A} (p0 : prog A) tr c k r :
  continues p0 tr (Call c k) → continues p0 (tr ++ [Ev c r]) (k r).
Proof. intros Hp tr' o Hex. rewrite <- app_assoc. apply Hp. by apply (exec_call c). Qed.

Definition contents_ok (tr : history) : Prop :=
  Forall (λ e, content_answer_ok (tr_call e) (tr_resp e)) tr.

Record tidy_inv (s : state) : Prop := {
  ti_complete : complete_db (sys_db s);
  ti_vgc : ∀ req tr p, vgc_run s = Some (mk_run req tr p) →
             Safe any p ∧ contents_ok tr ∧ continues (VGCController.Reconcile cfg req) tr p;
  ti_vg : ∀ req tr p, vg_run s = Some (mk_run req tr p) → Safe any p;
}.

Lemma content_answer_served d c r d' :
  serves d (Ev c r) d' → complete_db d → content_write_ok c → content_answer_ok c r.
Proof. intros Hs Hd Hc. apply content_answer_of. intros a Ha. by eapply serves_answer_complete. Qed.

Lemma run_inj {A} req tr (p : prog A) req' tr' p' :
  Some (mk_run req tr p) = Some (mk_run req' tr' p') → req = req' ∧ tr = tr' ∧ p = p'.
Proof. by intros [= -> -> ->]. Qed.

Lemma tidy_inv_step s s' : tidy_inv s → tidy_step s s' → tidy_inv s'.
Proof.
  intros [Hd Hvgc Hvg] Hstep. destruct Hstep as [s' Hstep Hne|e d' Hs _ Hc]; cbn.
  - destruct Hstep as [req Hrun|req Hrun|req tr c k r d' Hrun Hs|req tr c k r d' Hrun Hs| | |e d' Hs Hg];
      cbn in *.
    + split; cbn; [done| |done]. intros req' tr p Heq. apply run_inj in Heq as (<- & <- & <-).
      split; [apply VGC_Reconcile_safe|]. split; [by apply Forall_nil|by intros tr' o].
    + split; cbn; [done|done|]. intros req' tr p Heq. apply run_inj in Heq as (<- & <- & <-). apply VG_Reconcile_safe.
    + destruct (Hvgc _ _ _ Hrun) as ([Hc Hk] & Hok & Hcont).
      pose proof (content_answer_served _ _ _ _ Hs Hd Hc) as Hr.
      split; cbn; [by eapply serves_complete| |done]. intros req' tr' p Heq. apply run_inj in Heq as (<- & <- & <-).
      split; [by apply Hk|]. split; [|by apply continues_call].
      apply Forall_app. split; [done|]. by constructor.
    + destruct (Hvg _ _ _ Hrun) as [Hc Hk].
      pose proof (content_answer_served _ _ _ _ Hs Hd Hc) as Hr.
      split; cbn; [by eapply serves_complete|done|]. intros req' tr' p Heq. apply run_inj in Heq as (<- & <- & <-).
      by apply Hk.
    + by split.
    + by split.
    + by destruct Hne.
  - split; cbn; [by eapply serves_complete|done|done].
Qed.

Lemma tidy_tidy_inv s : tidy s → tidy_inv s.
Proof.
  induction 1 as [s (_ & Hvgc & Hvg & _) Hd|s s' _ IH Hstep]; [|by eapply tidy_inv_step].
  split; [done|..]; intros req tr p Heq; congruence.
Qed.

(** C3: contents stay well formed.  On a server where every content names its
    class, its deletion policy and its source, and where the other clients
    create and update contents to such ones only, every content has the three at
    any time, whatever the two controllers do, whatever is answered to their
    other calls and wherever their runs stop. *)
Theorem contents_stay_complete s k vgc :
  tidy s → contents (sys_db s) !! k = Some vgc → complete vgc.
Proof. intros Hs Hk. exact (ti_complete s (tidy_tidy_inv s Hs) k vgc Hk). Qed.

(** C27: on such a server a run of the content controller panics in two cases
    only: its first read failed with an error other than "not found", or the
    driver reported the creation of a group without answering with the group. *)
Theorem panics_explained s req tr why :
  tidy s → vgc_run s = Some (mk_run req tr (Panic why)) →
  (∃ e, first_is tr (Ev (CGet KVGC req) (inl e)) ∧ IsNotFound e = false) ∨
  (∃ name secrets parameters a,
     Ev (CCreateVolumeGroup name secrets parameters) (inr a) ∈ tr ∧ cvgr_VolumeGroup a = None).
Proof.
  intros Hs Hrun. destruct (ti_vgc s (tidy_tidy_inv s Hs) _ _ _ Hrun) as (_ & Hok & Hcont).
  pose proof (Hcont [] None (exec_panic why)) as Hex. rewrite app_nil_r in Hex.
  destruct (existsb groupless tr) eqn:Hg.
  { apply existsb_elem in Hg as (e & Hin & He). right. by eapply groupless_create. }
  left. destruct (vgc_reads _ _ _ _ Hex) as ([e|vgc] & tr1 & -> & Hrest).
  - exists e. split; [done|]. destruct Hrest as [_ Hout]. by destruct (IsNotFound e).
  - exfalso. assert (is_Some (None (A := Result * option error))) as [? ?]; [|done].
    eapply vgc_reconcile_returns; [exact Hex| |].
    + intros e Hf. assert (first_is (Ev (CGet KVGC req) (inr vgc) :: tr1)
                                    (Ev (CGet KVGC req) (inr vgc))) as Hf' by done.
      pose proof (first_is_inj _ _ _ Hf' Hf) as Heq.
      by pose proof (get_event_inj KVGC _ _ _ _ Heq).
    + left. unfold answers_ok. rewrite Forall_forall. intros e He.
      apply answer_ok_split; [exact (proj1 (Forall_forall _ _) Hok e He)|].
      destruct e. exact (proj1 (existsb_not_elem _ _) Hg _ He).
Qed.
End Tidy.

(** ** Witnesses *)

#[local] Existing Instance DocExternals.externals.
#[local] Existing Instance DocExternals.laws.

(** A call of the content controller is a step of its own. *)
Lemma tidy_call `{ExternalLaws} cfg d d' req tr c k r m :
  tidy cfg (mk_state d (Some (mk_run req tr (Call c k))) None m) → serves d (Ev c r) d' →
  tidy cfg (mk_state d' (Some (mk_run req (tr ++ [Ev c r]) (k r))) None (track req tr (Ev c r) d' m)).
Proof.
  intros Ht Hs. eapply tidy_next; [exact Ht|]. apply tidy_run.
  - by eapply (call_vgc cfg (mk_state d (Some (mk_run req tr (Call c k))) None m)).
  - left. intros (_ & Htr & _)%run_inj. apply (f_equal length) in Htr.
    rewrite length_app in Htr. cbn in Htr. lia.
Qed.

Lemma tidy_reachable `{ExternalLaws} cfg s : tidy cfg s → reachable cfg s.
Proof.
  induction 1 as [s Hs _|s s' _ IH Hstep]; [by apply reachable_initial|].
  eapply reachable_step; [exact IH|]. destruct Hstep; [done|]. by eapply other_client.
Qed.

Lemma advance_tidy `{ExternalLaws} cfg n req w tr p m :
  tidy cfg (mk_state (db_of w) (Some (mk_run req tr p)) None m) →
  tidy cfg (advance n req w tr p m).
Proof.
  revert w tr p m. induction n as [|n IH]; intros w tr p m Ht; [by destruct p|].
  destruct p as [a|why|c k]; [done..|]. cbn [advance].
  pose proof (serve_serves c w (inv_db _ _ (reachable_inv _ _ (tidy_reachable _ _ Ht)))) as Hs.
  destruct (serve c w) as [r w']. apply IH. by eapply tidy_call.
Qed.

Definition completeb_db (d : db) : bool := bool_decide (map_Forall (λ _ a, completeb a = true) (contents d)).

Lemma completeb_db_sound d : completeb_db d = true → complete_db d.
Proof. intros Hd%bool_decide_eq_true k a Ha. apply completeb_sound. by apply (Hd k). Qed.

Lemma making_starts_tidy :
  tidy Samples.config
    (mk_state (db_of Scenario.content_created)
       (Some (mk_run Samples.vgc_req [] (VGCController.Reconcile Samples.config Samples.vgc_req)))
       None ∅).
Proof.
  eapply (tidy_next _ (mk_state (db_of Scenario.content_created) None None ∅)).
  - apply tidy_initial; [split; [|done]; apply db_okb_sound; by vm_compute|].
    apply completeb_db_sound. by vm_compute.
  - apply tidy_run; [by apply (start_vgc _ (mk_state _ None None ∅))|by left].
Qed.

(** The content made by the VolumeGroup controller, when its group was asked for. *)
Lemma contents_stay_complete_witness :
  ∃ vgc, contents (sys_db (making 6)) !! Samples.vgc_req = Some vgc ∧ complete vgc.
Proof.
  destruct (contents (sys_db (making 6)) !! Samples.vgc_req) as [vgc|] eqn:Hk;
    [|vm_compute in Hk; discriminate Hk].
  exists vgc. split; [done|].
  eapply (contents_stay_complete Samples.config (making 6)); [|exact Hk].
  apply advance_tidy, making_starts_tidy.
Defined.

(** The first read fails: the run panics. *)
Definition read_error : error := ExternalError "InternalError" "etcd is not available".

Definition after_read_error : prog (Result * option error) :=
  match VGCController.Reconcile Samples.config Samples.vgc_req with
  | Call (CGet KVGC k) next => next (inl read_error)
  | p => p
  end.

Lemma panics_explained_witness :
  after_read_error = Panic nil_deref ∧
  ((∃ e, first_is [Ev (CGet KVGC Samples.vgc_req) (inl read_error)]
           (Ev (CGet KVGC Samples.vgc_req) (inl e)) ∧ IsNotFound e = false) ∨
   (∃ name secrets parameters a,
      Ev (CCreateVolumeGroup name secrets parameters) (inr a) ∈
        [Ev (CGet KVGC Samples.vgc_req) (inl read_error)] ∧ cvgr_VolumeGroup a = None)).
Proof.
  split; [reflexivity|].
  eapply (panics_explained Samples.config
    (mk_state (db_of Scenario.content_created)
       (Some (mk_run Samples.vgc_req [Ev (CGet KVGC Samples.vgc_req) (inl read_error)]
                (Panic nil_deref))) None _)); [|reflexivity].
  exact (tidy_call _ _ _ _ _ _ _ _ _ making_starts_tidy (serves_get_fails _ _ read_error)).
Defined.
