(* ===== verification/Envtest.v ===== *)
(** * The test suite of the controllers

    [controllers/envtest], [pkg/client/fake], [tests/mock_grpc_server]: the
    objects the suite creates, its utilities as programs of [Effects], and the
    two doubles of the driver.  The scenarios of the suite are run on [Cluster]
    with the driver replaced by the mock gRPC server: the suite makes its
    reconcilers with a fake driver as well, but [SetupWithManager] replaces it by a
    client over the connection to the mock server ([Startup.SetVGClient]).

    Of the objects the fields of [Api] are given; the access modes, capacities
    and classes of volumes, which the operator does not read, are left out.  A
    call of the operator's client is a call of the double; the server behind the
    mock is in [MockServer]. *)

From S2P Require Import Prelude GoLang Api Effects Externals Objects Params VolumeGroups Volumes.
From S2P Require Import Finalizers Driver VolumeGroupContents Membership VGController.
From S2P Require Import VGCController Histories Cluster.
Import VGController VGCController.
Local Open Scope string_scope.

(** ** controllers/envtest/settings.go *)

Definition VGName : string := "fake-vg-name".
Definition VGClassName : string := "fake-vgclass-name".
Definition Namespace : string := "default".
Definition SecretName : string := "fake-secret-name".
Definition PVCName : string := "fake-pvc-name".
Definition PVName : string := "fake-pv-name".
Definition SCName : string := "fake-storage-class-name".
Definition DriverName : string := "driver.name".
Definition StorageClassParameters : gmap string string :=
  {["volumegroup.storage.ibm.io/secret-name" := SecretName;
    "volumegroup.storage.ibm.io/secret-namespace" := Namespace]}.
Definition FakeMatchLabels : gmap string string := {["fake-label" := "fake-value"]}.
Definition PVCProtectionFinalizer : string := "kubernetes.io/pvc-protection".

(** ** controllers/envtest/k8s_objects.go *)

(** [metav1.ObjectMeta{Name: name, Namespace: namespace, Labels: labels}]. *)
Definition object_meta (name namespace : string) (labels : gmap string string) : ObjectMeta :=
  {| om_Name := name; om_Namespace := namespace; om_UID := ""; om_ResourceVersion := "";
     om_Generation := 0; om_Labels := labels; om_Annotations := ∅; om_Finalizers := [];
     om_DeletionTimestamp := None |}.

Definition untyped : TypeMeta := {| tm_Kind := ""; tm_APIVersion := "" |}.

Definition VG : VolumeGroup :=
  {| vg_TypeMeta := untyped; vg_ObjectMeta := object_meta VGName Namespace ∅;
     vg_Spec := {| vgspec_VolumeGroupClassName := Some VGClassName;
                   vgspec_Source :=
                     {| vgsrc_VolumeGroupContentName := None;
                        vgsrc_Selector :=
                          Some {| ls_MatchLabels := FakeMatchLabels; ls_MatchExpressions := [] |} |} |};
     vg_Status := {| vgst_BoundVolumeGroupContentName := None; vgst_GroupCreationTime := None;
                     vgst_PVCList := []; vgst_Ready := None; vgst_Error := None |} |}.

Definition VGClass : VolumeGroupClass :=
  {| vgclass_TypeMeta := untyped; vgclass_ObjectMeta := object_meta VGClassName "" ∅;
     vgclass_Driver := DriverName; vgclass_Parameters := StorageClassParameters;
     vgclass_VolumeGroupDeletionPolicy := None; vgclass_SupportVolumeGroupSnapshot := None |}.

Definition Secret : Api.Secret :=
  {| sec_TypeMeta := untyped; sec_ObjectMeta := object_meta SecretName Namespace ∅; sec_Data := ∅ |}.

Definition PVC : PersistentVolumeClaim :=
  {| pvc_TypeMeta := untyped; pvc_ObjectMeta := object_meta PVCName Namespace FakeMatchLabels;
     pvc_Spec := {| pvcs_StorageClassName := Some SCName; pvcs_VolumeName := PVName |};
     pvc_Phase := ClaimBound |}.

Definition StorageClass : Api.StorageClass :=
  {| sc_TypeMeta := untyped; sc_ObjectMeta := object_meta SCName "" ∅;
     sc_Provisioner := DriverName; sc_Parameters := ∅ |}.

Definition PV : PersistentVolume :=
  {| pv_TypeMeta := untyped; pv_ObjectMeta := object_meta PVName Namespace ∅;
     pv_CSI := Some {| csi_Driver := DriverName; csi_VolumeHandle := "volumeHandle" |};
     pv_ClaimRef := Some {| or_Kind := ""; or_Namespace := Namespace; or_Name := PVCName;
                            or_UID := ""; or_APIVersion := ""; or_ResourceVersion := "" |} |}.

(** ** controllers/envtest/utils

    The object read into is the answer: the errors of these functions are paired
    with it where the caller uses it. *)

Section Utils.
Context `{Externals}.

Definition GetNamespacedResourceObject (K : Kind) (name namespace : string)
  : prog (error + obj_of K) :=
  trigger (CGet K (mkNN namespace name)).

Definition GetVGCName (vgUID : string) : string := Sprintf "volumegroup-%s" [AStr vgUID].

(** Go answers the error of the second read with an empty content. *)
Definition GetVGCObjectFromVG (vgName Namespace : string) : prog (error + VolumeGroupContent) :=
  r ← GetNamespacedResourceObject KVG vgName Namespace;
  match r with
  | inl err => mret (inl err)
  | inr vgObject =>
      GetNamespacedResourceObject KVGC (GetVGCName (GetUID KVG vgObject)) Namespace
  end.

Definition CreateResourceObject (K : Kind) (obj : obj_of K) : prog (error + obj_of K) :=
  trigger (CCreate K (SetObjectMeta K (set_version "" (GetObjectMeta K obj)) obj)).

Definition RemoveResourceObjectFinalizers (K : Kind) (name namespace : string)
  : prog (option error) :=
  r ← GetNamespacedResourceObject K name namespace;
  match r with
  | inl err => if negb (IsNotFound err) then mret (Some err) else mret None
  | inr obj =>
      r ← trigger (CUpdate K (SetFinalizers K [] obj));
      match r with
      | inl err => mret (Some err)
      | inr _ => mret None
      end
  end.

Definition RemoveFinalizerFromPVC (name namespace finalizer : string) : prog (option error) :=
  r ← GetNamespacedResourceObject KPVC name namespace;
  match r with
  | inl err => mret (Some err)
  | inr pvc =>
      let pvc := if Contains (GetFinalizers KPVC pvc) finalizer
                 then SetFinalizers KPVC (Remove (GetFinalizers KPVC pvc) finalizer) pvc
                 else pvc in
      r ← trigger (CUpdate KPVC pvc);
      mret match r with inl err => Some err | inr _ => None end
  end.
End Utils.

(** ** pkg/client/fake

    The operator's interface to the driver with a function per method; the
    methods call them. *)

Record VolumeGroup_fake := {
  CreateVolumeGroupMock :
    string → gmap string string → gmap string string → error + CreateVolumeGroupResponse;
  DeleteVolumeGroupMock : string → gmap string string → option error;
  ModifyVolumeGroupMembershipMock : string → list string → gmap string string → option error;
}.

Definition fake_CreateVolumeGroup (v : VolumeGroup_fake) (name : string)
    (secrets parameters : gmap string string) : error + CreateVolumeGroupResponse :=
  CreateVolumeGroupMock v name secrets parameters.

Definition fake_DeleteVolumeGroup (v : VolumeGroup_fake) (volumeGroupId : string)
    (secrets : gmap string string) : option error :=
  DeleteVolumeGroupMock v volumeGroupId secrets.

Definition fake_ModifyVolumeGroupMembership (v : VolumeGroup_fake) (volumeGroupId : string)
    (volumeIds : list string) (secrets : gmap string string) : option error :=
  ModifyVolumeGroupMembershipMock v volumeGroupId volumeIds secrets.

(** A world whose driver is [v]. *)
Definition with_driver {W} (v : VolumeGroup_fake) (h : handler W) : handler W := λ c w,
  match c with
  | CCreateVolumeGroup name secrets parameters => (fake_CreateVolumeGroup v name secrets parameters, w)
  | CDeleteVolumeGroup id secrets => (fake_DeleteVolumeGroup v id secrets, w)
  | CModifyVolumeGroupMembership id ids secrets =>
      (fake_ModifyVolumeGroupMembership v id ids secrets, w)
  | c => h c w
  end.

(** The fake of [suite_test.go], which the suite never calls: [SetupWithManager]
    overwrites the field it is put in. *)
Definition mockVolumeGroup : VolumeGroup_fake :=
  {| CreateVolumeGroupMock _ _ _ := inr {| cvgr_VolumeGroup := None |};
     DeleteVolumeGroupMock _ _ := None;
     ModifyVolumeGroupMembershipMock _ _ _ := None |}.

(** ** tests/mock_grpc_server *)

Module MockControllerServer.
Definition MockControllerServer_CreateVolumeGroup (_ : CreateVolumeGroupRequest)
  : error + CreateVolumeGroupResponse :=
  inr {| cvgr_VolumeGroup :=
           Some {| csi_VolumeGroupId := "test";
                   csi_VolumeGroupContext := {["fake-label" := "fake-value"]} |} |}.

Definition MockControllerServer_DeleteVolumeGroup (_ : DeleteVolumeGroupRequest) : option error := None.

Definition MockControllerServer_ModifyVolumeGroupMembership (_ : ModifyVolumeGroupMembershipRequest)
  : option error := None.

(** The server behind the requests of the client. *)
Definition driver : VolumeGroup_fake :=
  {| CreateVolumeGroupMock name secrets parameters :=
       MockControllerServer_CreateVolumeGroup
         {| cvg_Name := name; cvg_Parameters := parameters; cvg_Secrets := secrets |};
     DeleteVolumeGroupMock id secrets :=
       MockControllerServer_DeleteVolumeGroup {| dvg_VolumeGroupId := id; dvg_Secrets := secrets |};
     ModifyVolumeGroupMembershipMock id ids secrets :=
       MockControllerServer_ModifyVolumeGroupMembership
         {| mvg_VolumeGroupId := id; mvg_VolumeIds := ids; mvg_Secrets := secrets |} |}.
End MockControllerServer.

(** The configuration of the suite. *)
Definition driverConfig : DriverConfig :=
  {| DriverEndpoint := "/tmp/csi.sock"; Api.DriverName := DriverName;
     RPCTimeout := 60000000000; MultipleVGsToPVC := "false"; DisableDeletePvcs := "false" |}.

(** ** The scenarios

    What the API server does to a new object of the suite: a UID, and no
    namespace on the objects that have none. *)

Module Suite.
#[local] Existing Instance DocExternals.externals.

Definition set_uid (uid : string) (m : ObjectMeta) : ObjectMeta :=
  {| om_Name := om_Name m; om_Namespace := om_Namespace m; om_UID := uid;
     om_ResourceVersion := om_ResourceVersion m; om_Generation := om_Generation m;
     om_Labels := om_Labels m; om_Annotations := om_Annotations m;
     om_Finalizers := om_Finalizers m; om_DeletionTimestamp := om_DeletionTimestamp m |}.

Definition at_server (K : Kind) (o : obj_of K) : obj_of K :=
  let m := set_uid "uid1" (GetObjectMeta K o) in
  let m := match K with
           | KPV | KSC | KVGClass =>
               {| om_Name := om_Name m; om_Namespace := ""; om_UID := om_UID m;
                  om_ResourceVersion := om_ResourceVersion m; om_Generation := om_Generation m;
                  om_Labels := om_Labels m; om_Annotations := om_Annotations m;
                  om_Finalizers := om_Finalizers m;
                  om_DeletionTimestamp := om_DeletionTimestamp m |}
           | _ => m
           end in
  SetObjectMeta K m o.

Definition create (K : Kind) (o : obj_of K) (w : cluster) : cluster :=
  run_world serve (CreateResourceObject K (at_server K o)) w.

(** [createVolumeGroupObjects] sets the policy of the class after creating it. *)
Definition class_with (policy : string) : VolumeGroupClass :=
  {| vgclass_TypeMeta := vgclass_TypeMeta VGClass; vgclass_ObjectMeta := vgclass_ObjectMeta VGClass;
     vgclass_Driver := vgclass_Driver VGClass; vgclass_Parameters := vgclass_Parameters VGClass;
     vgclass_VolumeGroupDeletionPolicy := Some policy;
     vgclass_SupportVolumeGroupSnapshot := vgclass_SupportVolumeGroupSnapshot VGClass |}.

Definition created (policy : string) : cluster :=
  create KVG VG (create KVGClass (class_with policy) (create KPVC PVC (create KPV PV
    (create KSC StorageClass (create KSecret Secret Samples.empty_cluster))))).

Definition vg_key : NamespacedName := mkNN Namespace VGName.
Definition vgc_key : NamespacedName := mkNN Namespace (GetVGCName "uid1").

Section Driver.
Context (driver : VolumeGroup_fake).

Definition world_after (w : cluster) (controllers : list bool) : cluster :=
  foldl (λ w vg,
    if (vg : bool)
    then run_world (with_driver driver serve) (VGController.Reconcile driverConfig vg_key) w
    else run_world (with_driver driver serve) (VGCController.Reconcile driverConfig vgc_key) w)
  w controllers.
End Driver.

(** The names of the members in the status of the VolumeGroup and of its content. *)
Definition members (w : cluster) : option (list string * list string) :=
  vg ← store w KVG !! vg_key;
  vgc ← store w KVGC !! vgc_key;
  mret (GetName KPVC <$> vgst_PVCList (vg_Status vg), GetName KPV <$> vgcst_PVList (vgc_Status vgc)).

(** [vgObj.Spec.Source.Selector.MatchLabels = {"bad-key": "bad-value"}]. *)
Definition reselect (w : cluster) : cluster :=
  match store w KVG !! vg_key with
  | Some vg =>
      let src := {| vgsrc_VolumeGroupContentName :=
                      vgsrc_VolumeGroupContentName (vgspec_Source (vg_Spec vg));
                    vgsrc_Selector := Some {| ls_MatchLabels := {["bad-key" := "bad-value"]};
                                              ls_MatchExpressions := [] |} |} in
      snd (serve (CUpdate KVG
        {| vg_TypeMeta := vg_TypeMeta vg; vg_ObjectMeta := vg_ObjectMeta vg;
           vg_Spec := {| vgspec_VolumeGroupClassName := vgspec_VolumeGroupClassName (vg_Spec vg);
                         vgspec_Source := src |};
           vg_Status := vg_Status vg |}) w)
  | None => w
  end.

Definition delete_vg (w : cluster) : cluster :=
  match store w KVG !! vg_key with Some vg => snd (serve (CDelete KVG vg) w) | None => w end.

Definition grouped (policy : string) : cluster :=
  world_after MockControllerServer.driver (created policy) [true; false; true].

(** "should add and remove volume objects from volumeGroup objects". *)
Example add_and_remove :
  members (grouped "Delete") = Some ([PVCName], [PVName]) ∧
  members (world_after MockControllerServer.driver (reselect (grouped "Delete")) [true]) =
    Some ([], []).
Proof. split; by vm_compute. Qed.

(** "Should not delete vgc when vgclass deletion policy is retain". *)
Example retain :
  let w := world_after MockControllerServer.driver (delete_vg (grouped "Retain")) [true; false] in
  store w KVG !! vg_key = None ∧ is_Some (store w KVGC !! vgc_key).
Proof. split; [by vm_compute|by apply (bool_decide_unpack _); vm_compute]. Qed.

(** "Should delete pvcs when deleting vg". *)
Example delete_all :
  let w := world_after MockControllerServer.driver (delete_vg (grouped "Delete")) [true; false] in
  store w KVG !! vg_key = None ∧ store w KVGC !! vgc_key = None ∧
  store w KPVC !! mkNN Namespace PVCName = None.
Proof. by vm_compute. Qed.
End Suite.

(** ** A creation without a group

    The answer of the RPC leaves the group optional; the fake of [suite_test.go]
    is a driver that reports the creation without answering with the group. *)

Section Groupless.
Context `{ExternalLaws} (cfg : DriverConfig) (req : NamespacedName).

(** A groupless answer is the end of the run. *)
Definition ends {A} (p : prog A) : Prop :=
  ∀ tr out e, executes p tr out → e ∈ tr → groupless e = true → out = None ∧ last tr = Some e.

Lemma ends_bind {A B} (p : prog A) (f : A → prog B) :
  ends p → (∀ a, ends (f a)) → ends (p ≫= f).
Proof.
  intros Hp Hf tr out e Hex Hin He.
  apply executes_bind_inv in Hex as [(tr1 & tr2 & a & -> & H1 & H2)|[H1 ->]];
    [|by destruct (Hp _ _ _ H1 Hin He)].
  apply elem_of_app in Hin as [Hin|Hin]; [by destruct (Hp _ _ _ H1 Hin He)|].
  destruct (Hf a _ _ _ H2 Hin He) as [-> Hl]. split; [done|]. by rewrite last_app, Hl.
Qed.

Lemma ends_quiet {A} (p : prog A) S R : Spec p S R → (∀ c, S c → ¬ create_rpc c) → ends p.
Proof.
  intros Hp HS tr out e Hex Hin He. exfalso.
  destruct (triple_sound _ _ _ _ _ Hp Hex) as [_ Hc].
  eapply HS; [exact (calls_in_elem _ _ _ Hc Hin)|]. by destruct e as [[] ?].
Qed.

Lemma ends_ret {A} (a : A) : ends (mret a).
Proof. intros tr out e Hex Hin _. apply executes_inv in Hex as [-> _]. by apply elem_of_nil in Hin. Qed.

Lemma ends_panic {A} why : ends (Panic why : prog A).
Proof. intros tr out e Hex Hin _. apply executes_inv in Hex as [-> _]. by apply elem_of_nil in Hin. Qed.

Ltac quiet := intros c Hc Hr; destruct c; cbn in Hc, Hr; tauto.

Ltac ends_step :=
  match goal with
  | |- ends (_ ≫= _) => apply ends_bind; [|intros ?]
  | |- ends (match ?x with _ => _ end) => destruct x
  | |- ends (mret _) => apply ends_ret
  | |- ends (Ret _) => apply ends_ret
  | |- ends (Panic _) => apply ends_panic
  | |- ends (deref _) => unfold deref
  | |- ends (or_panic _ _) => unfold or_panic
  | |- ends _ => eapply ends_quiet; [typeclasses eauto|quiet]
  end.

(** The creation itself: what follows a groupless answer panics. *)
Lemma ends_create {A} name parameters secrets (f : Response → prog A) :
  (∀ a, cvgr_VolumeGroup a = None →
    ∃ why, f {| Response_Response := Some a; Response_Error := None |} = Panic why) →
  (∀ r, ends (f r)) →
  ends (createVG_request name parameters secrets ≫= f).
Proof.
  intros Hpanic Hf tr out e Hex Hin He. apply executes_inv in Hex as (r & tr' & -> & Hex).
  assert (∃ res, executes (f res) tr' out ∧
            ∀ a, r = inr a → res = {| Response_Response := Some a; Response_Error := None |})
    as (res & Hex' & Hres) by (destruct r; eexists; (split; [exact Hex|congruence])).
  apply elem_of_cons in Hin as [->|Hin].
  - destruct r as [|a]; [done|]. apply bool_decide_eq_true in He.
    destruct (Hpanic a He) as [why Hwhy]. rewrite (Hres a eq_refl), Hwhy in Hex'.
    by apply executes_inv in Hex' as [-> ->].
  - destruct (Hf res _ _ _ Hex' Hin He) as [-> Hl]. split; [done|]. by rewrite last_cons, Hl.
Qed.

Lemma handleCreateVG_ends vgc cl secret : ends (handleCreateVG vgc cl secret).
Proof.
  unfold handleCreateVG. apply ends_bind; [ends_step|intros parameters].
  apply ends_create.
  - intros a Ha. cbn [Response_Error]. unfold UpdateVGCByResponse. cbn. rewrite Ha. by eexists.
  - intros r. repeat ends_step.
Qed.

Lemma Reconcile_class_ends vgc cl : ends (Reconcile_class cfg vgc cl).
Proof.
  unfold Reconcile_class, handleVGCWithDeletionTimestamp, removeVGC.
  repeat first
    [match goal with |- ends (handleCreateVG _ _ _) => apply handleCreateVG_ends end | ends_step].
Qed.

(** C34: when the driver reports the creation of a group without answering with
    the group, the run panics on the spot: nothing is called after that answer, so
    that the content gets neither a handle nor a ready status. *)
Theorem groupless_creation_panics tr out e :
  executes (Reconcile cfg req) tr out → e ∈ tr → groupless e = true → out = None ∧ last tr = Some e.
Proof.
  revert tr out e. change (ends (Reconcile cfg req)). unfold Reconcile.
  repeat first
    [match goal with |- ends (Reconcile_class _ _ _) => apply Reconcile_class_ends end | ends_step].
  rewrite HandleVGCErrorMessage_nil. apply ends_panic.
Qed.
End Groupless.

#[local] Existing Instance DocExternals.externals.
#[local] Existing Instance DocExternals.laws.

Abbreviation fake_run :=
  (run_trace (with_driver mockVolumeGroup serve) (VGCController.Reconcile driverConfig Suite.vgc_key)
     (Suite.world_after mockVolumeGroup (Suite.created "Delete") [true])).

(** With the fake for a driver, the run that makes the group panics. *)
Lemma groupless_creation_panics_witness :
  existsb groupless fake_run = true ∧
  run_outcome (with_driver mockVolumeGroup serve) (VGCController.Reconcile driverConfig Suite.vgc_key)
    (Suite.world_after mockVolumeGroup (Suite.created "Delete") [true]) = None.
Proof.
  assert (existsb groupless fake_run = true) as Hg by by vm_compute.
  split; [exact Hg|]. apply existsb_elem in Hg as (e & Hin & He).
  exact (proj1 (groupless_creation_panics driverConfig Suite.vgc_key _ _ e
                  (run_executes _ _ _) Hin He)).
Defined.

(** A run after the other, no claim gets into the group. *)
Example groupless_driver_leaves_members_out :
  Suite.members (Suite.world_after mockVolumeGroup (Suite.created "Delete")
                   [true; false; true; false; true]) = Some ([], []).
Proof. by vm_compute. Qed.
