(* ===== verification/MockServer.v ===== *)
(** * The mock server of the test suite

    [tests/mock_grpc_server] and [pkg/client/fake/client.go]: the server the suite
    starts before its tests and stops after them, as threads that share one
    [VolumeGroupServer] with its mutex and wait group, and meet on a channel.

    What the threads do is interleaved in every order ([next] lists the states
    after one step).  The library's server is told by the history of the calls made
    of it; what [Serve] returns, of which [ServeLaws] says what is documented, and
    the answers of the network and of the file system are parameters. *)

From S2P Require Import Prelude GoLang Api.
From stdpp Require Import relations.
Local Open Scope string_scope.
Local Open Scope list_scope.

(** ** The library's server *)

(** What is asked of a [grpc.Server]. *)
Inductive asked := Registered | Served | Stopped.

#[export] Instance asked_eq_dec : EqDecision asked.
Proof. solve_decision. Defined.

(** How a call of [Serve] stands: it was not made, it goes on, the server was
    stopped under it, or the server had been stopped before. *)
Inductive serving := Idle | Accepting | Ended | Refused.

#[export] Instance serving_eq_dec : EqDecision serving.
Proof. solve_decision. Defined.

Fixpoint standing (h : list asked) : serving :=
  match h with
  | [] => Idle
  | Registered :: h => standing h
  | Served :: h => if existsb (λ a, match a with Stopped => true | _ => false end) h
                   then Ended else Accepting
  | Stopped :: h => if existsb (λ a, match a with Served => true | _ => false end) h
                    then Refused else Idle
  end.

Definition ErrServerStopped : error := ErrorString "grpc: the server has been stopped".

Class Libraries := {
  Listener : Type;
  TempDir : string → string → error + string;
  Listen : string → string → error + Listener;
  Addr : Listener → string;
  (** The type of an error, as [fmt] writes it. *)
  error_type : error → string;
  ClientConn : Type;
  Connect : string → string → Z → error + ClientConn;
}.

(** What [Serve] may return to its caller, given the history of the server; as long
    as there is nothing it goes on.  The documentation says that it returns an error
    unless the server is stopped, and that a server that has been stopped refuses
    it; here the listener does not fail, so that it goes on until then. *)
Record ServeLaws (Serve_returns : list asked → list (option error)) : Prop := {
  serve_idle h : standing h = Idle → Serve_returns h = [];
  serve_accepting h : standing h = Accepting → Serve_returns h = [];
  serve_ended h : standing h = Ended → Serve_returns h = [None];
  serve_refused h : standing h = Refused → Serve_returns h = [Some ErrServerStopped];
}.

(** ** Threads *)

Section Threads.
Context `{Libraries}.

(** The controller server has no state. *)
Record MockControllerServer := mk_MockControllerServer {}.

(** [server] is a reference to a server of the library, of which the shared memory
    keeps the history. *)
Record VolumeGroupServer := mk_VolumeGroupServer {
  listener : option Listener;
  server : option nat;
  VolumeGroup : MockControllerServer;
  wg : nat;
  running : bool;
  lock : bool;
}.

Definition set_listener l s :=
  mk_VolumeGroupServer (Some l) (server s) (VolumeGroup s) (wg s) (running s) (lock s).
Definition set_server g s :=
  mk_VolumeGroupServer (listener s) (Some g) (VolumeGroup s) (wg s) (running s) (lock s).
Definition set_wg n s :=
  mk_VolumeGroupServer (listener s) (server s) (VolumeGroup s) n (running s) (lock s).
Definition set_running b s :=
  mk_VolumeGroupServer (listener s) (server s) (VolumeGroup s) (wg s) b (lock s).
Definition set_lock b s :=
  mk_VolumeGroupServer (listener s) (server s) (VolumeGroup s) (wg s) (running s) b.

(** What a thread does in one step. *)
Inductive cmd : Type → Type :=
| Get {A} (field : VolumeGroupServer → A) : cmd A
| Set_ (update : VolumeGroupServer → VolumeGroupServer) : cmd unit
| Lock : cmd unit
| Unlock : cmd unit
| WgAdd (n : nat) : cmd unit
| WgDone : cmd unit
| WgWait : cmd unit
| MakeChan : cmd nat
| Send (c : nat) : cmd unit
| Receive (c : nat) : cmd unit
| Close (l : Listener) : cmd unit
| NewServer : cmd nat
| Ask (g : nat) (a : asked) : cmd unit
| Serve_return (g : nat) : cmd (option error).

(** A thread ends, panics, makes a step or starts another thread. *)
Inductive thread (A : Type) : Type :=
| Return (a : A)
| Panics (m : string)
| Does {B} (c : cmd B) (k : B → thread A)
| Go (p : thread unit) (k : thread A).
Arguments Return {A}. Arguments Panics {A}. Arguments Does {A B}. Arguments Go {A}.

#[export] Instance thread_ret : MRet thread := @Return.

#[export] Instance thread_bind : MBind thread :=
  fix bind {A B} (f : A → thread B) (p : thread A) : thread B :=
    match p with
    | Return a => f a
    | Panics m => Panics m
    | Does c k => Does c (λ b, bind f (k b))
    | Go q k => Go q (bind f k)
    end.

Definition do {B} (c : cmd B) : thread B := Does c Return.
Definition go (p : thread unit) : thread unit := Go p (Return tt).

(** [defer]: [d] is run when [p] returns and when it panics. *)
Fixpoint defer {A} (d : thread unit) (p : thread A) : thread A :=
  match p with
  | Return a => _ ← d; Return a
  | Panics m => _ ← d; Panics m
  | Does c k => Does c (λ b, defer d (k b))
  | Go q k => Go q (defer d k)
  end.

Definition nil_dereference : string := "invalid memory address or nil pointer dereference".

Definition deref {A} (o : option A) : thread A :=
  match o with Some a => Return a | None => Panics nil_dereference end.

(** ** mock_volumegroup_server.go *)

(** Serving a listener is a call that may not return for long. *)
Definition Serve (g : option nat) (l : option Listener) : thread (option error) :=
  g ← deref g; _ ← do (Ask g Served); do (Serve_return g).

(** The interceptor logs an error and hands the answer on. *)
Definition logErr {Req Resp} (req : Req) (handler : Req → Resp * option error)
  : Resp * option error := handler req.

Definition createNewGRPCServer : thread (error + nat) := g ← do NewServer; mret (inr g).

Definition goServe (g : option nat) (l : option Listener) (started : nat) : thread unit :=
  _ ← do (WgAdd 1);
  go (defer (do WgDone)
        (_ ← do (Send started);
         err ← Serve g l;
         match err with
         | Some err => Panics (Error err)
         | None => mret tt
         end)).

Definition goServe_method (started : nat) : thread unit :=
  g ← do (Get server); l ← do (Get listener); goServe g l started.

Definition RegisterControllerServer (g : nat) (vg : MockControllerServer) : thread unit :=
  do (Ask g Registered).

Definition reflection_Register (g : nat) : thread unit := do (Ask g Registered).

Definition Start (l : Listener) : thread (option error) :=
  _ ← do Lock;
  defer (do Unlock)
    (_ ← do (Set_ (set_listener l));
     r ← createNewGRPCServer;
     match r with
     | inl err => mret (Some err)
     | inr g =>
         _ ← do (Set_ (set_server g));
         vg ← do (Get VolumeGroup);
         _ ← RegisterControllerServer g vg;
         _ ← reflection_Register g;
         waitForServer ← do MakeChan;
         _ ← goServe_method waitForServer;
         _ ← do (Receive waitForServer);
         _ ← do (Set_ (set_running true));
         mret None
     end).

Definition stop (g : option nat) (is_running : bool) : thread unit :=
  _ ← do Lock;
  defer (do Unlock)
    (if negb is_running then mret tt
     else
       g ← deref g;
       _ ← do (Ask g Stopped);
       do WgWait).

(** The arguments of [stop] are read before it takes the lock. *)
Definition Stop : thread unit :=
  g ← do (Get server); is_running ← do (Get running); stop g is_running.

Definition Address : thread string :=
  l ← do (Get listener); l ← deref l; mret (Addr l).
(** ** mock_server.go *)

(** The mock server embeds the [VolumeGroupServer]. *)
Definition newMockServer (vg : MockControllerServer) : VolumeGroupServer :=
  mk_VolumeGroupServer None None vg 0 false false.

(** [filepath.Join] of the clean path of a directory. *)
Definition Join (dir file : string) : string := dir +:+ "/" +:+ file.

(** The format has no verb for its argument. *)
Definition tempDir : error + string :=
  match TempDir "" "volume-group-operator-test-" with
  | inl err =>
      inl (ErrorString ("not create temporary directory%!(EXTRA " +:+ error_type err +:+ "=" +:+
                        Error err +:+ ")"))
  | inr dir => inr dir
  end.

Definition startOnAddress (network address : string) : thread (option error) :=
  match Listen network address with
  | inl err => mret (Some err)
  | inr l =>
      err ← Start l;
      match err with
      | Some err => _ ← do (Close l); mret (Some err)
      | None => mret None
      end
  end.

Definition CreateMockServer : thread (option error) :=
  match tempDir with
  | inl err => mret (Some err)
  | inr tmpdir =>
      _ ← do (Set_ (λ _, newMockServer mk_MockControllerServer));
      err ← startOnAddress "unix" (Join tmpdir "csi.sock");
      match err with
      | Some err => mret (Some err)
      | None => mret None
      end
  end.

(** ** pkg/client/fake/client.go *)

Record fake_Client := { Client_Client : option ClientConn; Client_Timeout : Z }.

Definition minute : Z := 60000000000.

Definition fake_New (address driver : string) : fake_Client * option error :=
  let client := {| Client_Client := None; Client_Timeout := 0 |} in
  match Connect address driver minute with
  | inl err => (client, Some err)
  | inr conn => ({| Client_Client := Some conn; Client_Timeout := minute |}, None)
  end.

(** The suite: the server is started, its address read and the server stopped; a
    server that could not be started ends the suite. *)
Definition suite : thread (option error) :=
  err ← CreateMockServer;
  match err with
  | Some err => mret (Some err)
  | None => _ ← Address; _ ← Stop; mret None
  end.
End Threads.

Arguments Return {_ A}. Arguments Panics {_ A}. Arguments Does {_ A B}. Arguments Go {_ A}.

(** ** Interleaving *)

Section Steps.
Context `{Libraries} (Serve_returns : list asked → list (option error)).

(** What the threads share: the mock server, the histories of the library's servers
    and the number of channels made. *)
Record memory := mk_memory {
  mock : VolumeGroupServer;
  servers : list (list asked);
  chans : nat;
}.

Definition on_mock (f : VolumeGroupServer → VolumeGroupServer) (m : memory) : memory :=
  mk_memory (f (mock m)) (servers m) (chans m).

Definition fails {B} (message : string) (m : memory) : list ((string + B) * memory) :=
  [(inl message, m)].

(** The outcomes of a step; none when the thread has to wait.  Sends and receives
    wait for each other ([meetings]). *)
Definition effect {B} (c : cmd B) (m : memory) : list ((string + B) * memory) :=
  match c in cmd B return list ((string + B) * memory) with
  | Get field => [(inr (field (mock m)), m)]
  | Set_ update => [(inr tt, on_mock update m)]
  | Lock => if lock (mock m) then [] else [(inr tt, on_mock (set_lock true) m)]
  | Unlock => if lock (mock m) then [(inr tt, on_mock (set_lock false) m)]
              else fails "sync: unlock of unlocked mutex" m
  | WgAdd n => [(inr tt, on_mock (set_wg (wg (mock m) + n)) m)]
  | WgDone => match wg (mock m) with
              | S n => [(inr tt, on_mock (set_wg n) m)]
              | 0 => fails "sync: negative WaitGroup counter" m
              end
  | WgWait => match wg (mock m) with 0 => [(inr tt, m)] | S _ => [] end
  | MakeChan => [(inr (chans m), mk_memory (mock m) (servers m) (S (chans m)))]
  | Send _ | Receive _ => []
  | Close _ => [(inr tt, m)]
  | NewServer => [(inr (length (servers m)), mk_memory (mock m) (servers m ++ [[]]) (chans m))]
  | Ask g a => [(inr tt, mk_memory (mock m) (alter (λ h, h ++ [a]) g (servers m)) (chans m))]
  | Serve_return g => (λ r, (inr r, m)) <$> Serve_returns (default [] (servers m !! g))
  end.

(** The memory and the threads; a panic that no thread recovers ends the process. *)
Inductive state :=
| Alive (m : memory) (ts : list (thread unit))
| Crashed (message : string) (m : memory).

Definition steps_of (m : memory) (ts : list (thread unit)) (i : nat) (t : thread unit) : list state :=
  match t with
  | Return _ => []
  | Panics message => [Crashed message m]
  | Does c k =>
      (λ rm, Alive (snd rm) (<[i := match fst rm with inl message => Panics message | inr r => k r end]> ts))
        <$> effect c m
  | Go p k => [Alive m (<[i := k]> ts ++ [p])]
  end.

(** The channel a thread sends on, or receives from, and how it goes on. *)
Definition sends (t : thread unit) : option (nat * thread unit) :=
  match t with
  | Does c k =>
      match c in cmd B return (B → thread unit) → option (nat * thread unit) with
      | Send ch => λ k, Some (ch, k tt)
      | _ => λ _, None
      end k
  | _ => None
  end.

Definition receives (t : thread unit) : option (nat * thread unit) :=
  match t with
  | Does c k =>
      match c in cmd B return (B → thread unit) → option (nat * thread unit) with
      | Receive ch => λ k, Some (ch, k tt)
      | _ => λ _, None
      end k
  | _ => None
  end.

Definition meeting (m : memory) (ts : list (thread unit)) (i j : nat) (t u : thread unit) : list state :=
  match sends t, receives u with
  | Some (c, t'), Some (c', u') => if Nat.eqb c c' then [Alive m (<[i := t']> (<[j := u']> ts))] else []
  | _, _ => []
  end.

(** The states after one step. *)
Definition next (s : state) : list state :=
  match s with
  | Crashed _ _ => []
  | Alive m ts =>
      mjoin (imap (steps_of m ts) ts) ++
      mjoin (imap (λ i t, mjoin (imap (λ j u, meeting m ts i j t u) ts)) ts)
  end.

Definition step (s s' : state) : Prop := s' ∈ next s.
End Steps.

(** ** Following every interleaving *)

Section Explore.
Context `{Libraries}.

(** The documented server, for the exploration. *)
Definition documented (h : list asked) : list (option error) :=
  match standing h with
  | Idle | Accepting => []
  | Ended => [None]
  | Refused => [Some ErrServerStopped]
  end.

Lemma documented_laws : ServeLaws documented.
Proof. unfold documented. by split; intros h ->. Qed.

Lemma laws_documented Serve_returns h : ServeLaws Serve_returns → Serve_returns h = documented h.
Proof. unfold documented. intros [Hi Ha He Hr]. destruct (standing h) eqn:Hs; auto. Qed.

(** Every run from [s] ends within [fuel] steps, and each of its states passes [P]. *)
Fixpoint explore (sr : list asked → list (option error)) (P : state → bool) (fuel : nat) (s : state)
  : bool :=
  match fuel with
  | 0 => false
  | S fuel => P s && forallb (explore sr P fuel) (next sr s)
  end.

Lemma explore_runs sr P fuel s n s' :
  explore sr P fuel s = true → nsteps (step sr) n s s' → n < fuel ∧ P s' = true.
Proof.
  intros He Hn. revert fuel He. induction Hn as [s|n s s1 s' Hs _ IH]; intros [|f]; try done;
    cbn; rewrite andb_true_iff; intros [HP Hall]; [split; [lia|done]|].
  destruct (IH f) as [Hlt HP']; [|split; [lia|done]].
  by apply (proj1 (forallb_forall _ _) Hall), list_elem_of_In.
Qed.

(** A run of at most [fuel] steps that ends in a state that passes [P]. *)
Fixpoint finds (sr : list asked → list (option error)) (P : state → bool) (fuel : nat) (s : state)
  : bool :=
  match fuel with
  | 0 => false
  | S fuel => match next sr s with [] => P s | ss => existsb (finds sr P fuel) ss end
  end.

Lemma finds_run sr P fuel s :
  finds sr P fuel s = true → ∃ s', rtc (step sr) s s' ∧ next sr s' = [] ∧ P s' = true.
Proof.
  revert s. induction fuel as [|fuel IH]; intros s; [done|]. cbn [finds].
  destruct (next sr s) as [|s1 ss] eqn:Hn; [by exists s|]. rewrite existsb_elem.
  intros (s2 & Hin & (s' & Hr & Hend)%IH). exists s'. split; [|done].
  eapply rtc_l; [|done]. unfold step. by rewrite Hn.
Qed.

(** [next] asks nothing else of the library. *)
Lemma next_documented sr s : ServeLaws sr → next sr s = next documented s.
Proof.
  intros Hlaws. destruct s as [m ts|]; [|done]. cbn. do 2 f_equal.
  apply imap_ext. intros i t _. destruct t as [| |B c k|]; try done. cbn. f_equal.
  destruct c; try done. cbn. by rewrite (laws_documented sr).
Qed.

Lemma step_documented sr s s' : ServeLaws sr → step sr s s' ↔ step documented s s'.
Proof. intros Hlaws. unfold step. by rewrite (next_documented sr). Qed.
End Explore.

(** ** The life of the mock server *)

Section Life.
Context `{Libraries} (sr : list asked → list (option error)).

(** The suite, before it creates the server. *)
Definition begun : state :=
  Alive (mk_memory (newMockServer mk_MockControllerServer) [] 0) [_ ← suite; mret tt].

Definition returned (t : thread unit) : bool := match t with Return _ => true | _ => false end.

(** The server was stopped while it served, its goroutine is gone and the lock free. *)
Definition stopped_cleanly (s : state) : bool :=
  match s with
  | Alive m ts =>
      forallb returned ts && Nat.eqb (length ts) 2 && Nat.eqb (wg (mock m)) 0 &&
      negb (lock (mock m)) && bool_decide (servers m = [[Registered; Registered; Served; Stopped]])
  | Crashed _ _ => false
  end.

(** The server was stopped before it served, and its goroutine took the process down. *)
Definition overtaken (s : state) : bool :=
  match s with
  | Alive _ _ => false
  | Crashed message m =>
      bool_decide (message = Error ErrServerStopped) &&
      bool_decide (servers m = [[Registered; Registered; Stopped; Served]])
  end.

(** The same, before the panic has taken the process down. *)
Definition falling (s : state) : bool :=
  match s with
  | Alive m [_; Panics message] =>
      bool_decide (message = Error ErrServerStopped) && Nat.eqb (wg (mock m)) 0 &&
      bool_decide (servers m = [[Registered; Registered; Stopped; Served]])
  | _ => false
  end.

(** The thread of the suite is over. *)
Definition over (s : state) : bool :=
  match s with Alive _ (t :: _) => returned t | _ => false end.

Definition sound (s : state) : bool :=
  match next sr s with [] => stopped_cleanly s || overtaken s | _ => true end &&
  (negb (over s) || stopped_cleanly s || falling s).
End Life.

Section Outcomes.
Context `{Libraries} (sr : list asked → list (option error)) (laws : ServeLaws sr).
Context (dir : string) (l : Listener).
Context (dir_made : TempDir "" "volume-group-operator-test-" = inr dir).
Context (listens : Listen "unix" (Join dir "csi.sock") = inr l).

Lemma begun_explored : explore documented (sound documented) 40 begun = true.
Proof.
  unfold begun, suite, CreateMockServer, tempDir, startOnAddress. rewrite dir_made, listens.
  by vm_compute.
Qed.

Lemma documented_finds P fuel s :
  finds documented P fuel s = true → ∃ s', rtc (step sr) s s' ∧ next sr s' = [] ∧ P s' = true.
Proof.
  clear dir_made listens. intros (s' & Hr & Hend & HP)%finds_run. exists s'.
  rewrite (next_documented sr) by done. split; [|done]. eapply rtc_subrel; [|exact Hr].
  intros s1 s2. by apply step_documented.
Qed.

Lemma begun_stops : finds documented stopped_cleanly 40 begun = true.
Proof.
  unfold begun, suite, CreateMockServer, tempDir, startOnAddress. rewrite dir_made, listens.
  by vm_compute.
Qed.

Lemma begun_overtaken : finds documented overtaken 40 begun = true.
Proof.
  unfold begun, suite, CreateMockServer, tempDir, startOnAddress. rewrite dir_made, listens.
  by vm_compute.
Qed.

(** C35: whatever the order of their steps, the suite and the goroutine of its server
    come to an end within forty steps: either the server was stopped while it served,
    and then, when [Stop] returns, the goroutine is gone and the lock is free; or
    [Stop] overtook the call of [Serve], which the goroutine makes only after it has
    told [Start] that the server runs, and then it panics and takes the process down.
    Both happen. *)
Theorem mock_server_life :
  (∀ n s, nsteps (step sr) n begun s → n < 40) ∧
  (∀ s, rtc (step sr) begun s → next sr s = [] → stopped_cleanly s = true ∨ overtaken s = true) ∧
  (∀ s, rtc (step sr) begun s → over s = true →
     stopped_cleanly s = true ∨ falling s = true) ∧
  (∃ s, rtc (step sr) begun s ∧ next sr s = [] ∧ stopped_cleanly s = true) ∧
  (∃ s, rtc (step sr) begun s ∧ next sr s = [] ∧ overtaken s = true).
Proof.
  assert (∀ n s, nsteps (step sr) n begun s → n < 40 ∧ sound sr s = true) as Hall.
  { intros n s Hn. assert (sound sr s = sound documented s) as ->
      by (unfold sound; by rewrite (next_documented sr)).
    eapply explore_runs; [exact begun_explored|].
    apply (nsteps_congruence (R := step sr) id (step documented)); [|exact Hn]. intros s1 s2. by apply step_documented. }
  assert (∀ s, rtc (step sr) begun s → sound sr s = true) as Hsound.
  { intros s (n & Hn)%rtc_nsteps. by eapply Hall. }
  split; [intros n s Hn; by eapply Hall|]. split; [|split; [|split]].
  - intros s Hr Hend. apply Hsound in Hr. unfold sound in Hr. rewrite Hend in Hr.
    apply andb_true_iff in Hr as [Hr _]. by apply orb_true_iff.
  - intros s Hr Hover. apply Hsound in Hr. unfold sound in Hr. rewrite Hover in Hr.
    apply andb_true_iff in Hr as [_ Hr]. by apply orb_true_iff.
  - apply (documented_finds _ 40), begun_stops.
  - apply (documented_finds _ 40), begun_overtaken.
Qed.

(** [Start] and [Stop] at the same time, on a new mock server. *)
Definition racing : state :=
  Alive (mk_memory (newMockServer mk_MockControllerServer) [] 0) [_ ← Start l; mret tt; Stop].

(** Both have returned and the server serves on. *)
Definition missed (s : state) : bool :=
  match s with
  | Alive m [Return _; Return _; _] =>
      running (mock m) && bool_decide (standing <$> servers m = [Accepting])
  | _ => false
  end.

(** The lock does not put [Start] and [Stop] in an order: [Stop] reads the arguments
    of [stop] before it takes the lock, and may miss the start it waited for. *)
Lemma stop_may_miss_start : ∃ s, rtc (step sr) racing s ∧ next sr s = [] ∧ missed s = true.
Proof. clear dir_made listens. apply (documented_finds _ 40). by vm_compute. Qed.
End Outcomes.

(** A file system and a network that work. *)
#[local] Instance sample_libraries : Libraries := {|
  Listener := string;
  TempDir _ prefix := inr ("/tmp/" +:+ prefix +:+ "1");
  Listen _ address := inr address;
  Addr l := l;
  error_type _ := "*fs.PathError";
  ClientConn := unit;
  Connect _ _ _ := inr tt;
|}.

Lemma mock_server_life_witness :
  ∃ s, rtc (step documented) begun s ∧ next documented s = [] ∧ overtaken s = true.
Proof.
  eapply (mock_server_life documented documented_laws); reflexivity.
Defined.
