(* ===== verification/Faultless.v ===== *)
(** * A reconciliation in which nothing fails

    When the API server and the driver answer every call without an error, one run
    of the content controller succeeds on a content that is in order, with a class in
    order: the errors it reports then all come from outside. *)

From S2P Require Import Prelude GoLang Api Effects Externals Objects Params VolumeGroups Volumes.
From S2P Require Import Finalizers Driver VolumeGroupContents Membership VGController.
From S2P Require Import VGCController Histories Cluster Scenario VGCSafety VGCProgress.
Import VGCController.

Section Faultless.
Context `{ExternalLaws} (cfg : DriverConfig) (req : NamespacedName).

Definition succeeded {A} (P : A → Prop) (r : error + A) : Prop := ∃ a, r = inr a ∧ P a.

(** A content with a class, a deletion policy and a source. *)
Definition good (vgc : VolumeGroupContent) : Prop :=
  complete vgc ∧ or_empty (vgcspec_VolumeGroupClassName (vgc_Spec vgc)) ≠ ""%string.

(** No error; the contents answered are good ones, and a creation at the driver
    answers with a group. *)
Definition faultless (c : call) : resp c → Prop :=
  match c with
  | CGet K _ | CUpdate K _ | CStatusUpdate K _ =>
      match K return error + obj_of K → Prop with
      | KVGC => succeeded good
      | _ => succeeded (λ _, True)
      end
  | CCreate _ _ | CList _ => succeeded (λ _, True)
  | CCreateVolumeGroup _ _ _ => succeeded (λ a, is_Some (cvgr_VolumeGroup a))
  | CDelete _ _ | CDeleteVolumeGroup _ _ | CModifyVolumeGroupMembership _ _ _
  | CListUnstructured _ => λ r, r = None
  | CNow | CRandInts _ | CMapOrder | CSleep _ => λ _, True
  end.

(** Success, with a good content. *)
Definition done_with (o : option (option error * VolumeGroupContent)) : Prop :=
  ∃ v, o = Some (None, v) ∧ good v.

Lemma UpdateObject_faultless o : along faultless done_with (UpdateObject KVGC o).
Proof.
  unfold UpdateObject. along_step. intros r (v & -> & Hv). cbn [after along]. by exists v.
Qed.

Lemma UpdateVGCStatus_faultless o t ready : along faultless done_with (UpdateVGCStatus o t ready).
Proof.
  unfold UpdateVGCStatus, UpdateObjectStatus. do 2 along_step. intros r (v & -> & Hv).
  cbn [after along]. by exists v.
Qed.

Lemma updateFinalizer_faultless fs o : along faultless done_with (updateFinalizer KVGC fs o).
Proof.
  unfold updateFinalizer. apply (along_retry _ _ (λ _, True)); [|done]. intros s _.
  unfold finalizerRetryOnConflictFunc. along_step.
  eapply along_mono; [apply UpdateObject_faultless|]. intros o' (v & -> & Hv).
  cbn [after along on_err]. split; [by exists v|done].
Qed.

Lemma AddFinalizerToVGC_faultless vgc :
  good vgc → along faultless done_with (AddFinalizerToVGC vgc).
Proof.
  intros Hc. unfold AddFinalizerToVGC. case_match; [|by exists vgc].
  along_step. eapply along_mono; [apply updateFinalizer_faultless|].
  intros o (v & -> & Hv). by exists v.
Qed.

Lemma GetVGClass_faultless n : n ≠ ""%string →
  along faultless (λ o, ∃ cl, o = Some (inr cl)) (GetVGClass n).
Proof.
  intros Hn. unfold GetVGClass. rewrite decide_False by done. intros r (cl & -> & _). by exists cl.
Qed.

Lemma UpdateStaticVGC_faultless ns n cl :
  along faultless (λ o, o = Some None) (UpdateStaticVGC ns n cl).
Proof.
  unfold UpdateStaticVGC, GetVGC. along_step. intros r (a & -> & _). cbn [after]. do 2 along_step.
  eapply along_mono; [apply UpdateObject_faultless|]. by intros o (v & -> & _).
Qed.

Lemma updateStaticVGC_faultless vgc :
  good vgc → along faultless done_with (updateStaticVGC vgc).
Proof.
  intros [(Hcn & _) Hne]. destruct Hcn as [cn Hcn]. rewrite Hcn in Hne.
  unfold updateStaticVGC, updateStaticVGCSpec_controller, GetCurrentTime.
  rewrite Hcn. do 4 along_step. cbn [after along]. along_step.
  eapply along_mono; [by apply GetVGClass_faultless|]. intros o (cl & ->). cbn [after]. along_step.
  eapply along_mono; [apply UpdateStaticVGC_faultless|]. intros ? ->.
  repeat first
    [ match goal with |- along _ _ (UpdateVGCStatus _ _ _) =>
        eapply along_mono; [apply UpdateVGCStatus_faultless|intros ? (v & -> & Hv)]
      end
    | along_step ].
  by exists v.
Qed.

Lemma handleStaticProvisionedVGC_faultless vgc :
  good vgc →
  along faultless (λ o, ∃ static v, o = Some (None, static, v) ∧ good v)
    (handleStaticProvisionedVGC vgc).
Proof.
  intros Hg. unfold handleStaticProvisionedVGC. autorewrite with reflect.
  pose proof Hg as [(_ & _ & [src Hsrc]) _]. rewrite Hsrc.
  repeat first
    [ match goal with |- along _ _ (updateStaticVGC _) =>
        eapply along_mono; [by apply updateStaticVGC_faultless|intros ? (v & -> & Hv)]
      end
    | along_step ]; first [by exists true, v|by exists false, vgc].
Qed.

Lemma UpdateVGCByResponse_faultless vgc r a g :
  good vgc → Response_Response r = Some a → cvgr_VolumeGroup a = Some g →
  along faultless done_with (UpdateVGCByResponse vgc r).
Proof.
  intros [(_ & _ & [src Hsrc]) _] Hr Hg. unfold UpdateVGCByResponse. rewrite Hr.
  repeat first
    [ progress rewrite ?Hg, ?Hsrc
    | match goal with |- along _ _ (UpdateObject _ _) =>
        eapply along_mono; [apply UpdateObject_faultless|intros ? (v & -> & Hv)]
      end
    | along_step ]; by exists v.
Qed.

Lemma handleCreateVG_faultless vgc cl secret :
  good vgc → along faultless done_with (handleCreateVG vgc cl secret).
Proof.
  intros Hg. unfold handleCreateVG, createVG_request, request_Create, CreateVolumeGroup.
  do 4 along_step. intros r0 (a & -> & [g Hgr]). cbn [after].
  repeat first
    [ match goal with
      | |- along _ _ (UpdateVGCByResponse _ _) =>
          eapply along_mono; [by eapply UpdateVGCByResponse_faultless|intros ? (v & -> & Hv)]
      | |- along _ _ (UpdateVGCStatus _ _ _) =>
          eapply along_mono; [apply UpdateVGCStatus_faultless|intros ? (v' & -> & Hv')]
      end
    | along_step ]; [done|by exists v'].
Qed.

Lemma GetSecretDataFromClass_faultless cl :
  along faultless (λ o, ∃ secret, o = Some (inr secret)) (GetSecretDataFromClass cl).
Proof.
  unfold GetSecretDataFromClass, getSecretData. destruct (GetSecretCred cl).
  repeat along_step; try by eexists.
  match goal with H : faultless _ _ |- _ => by destruct H as (? & ? & _) end.
Qed.

(** No answer makes the validation of valid parameters fail. *)
Lemma ValidatePrefixedParameters_along ok cl :
  map_Forall valid_parameter (vgclass_Parameters cl) →
  along ok (λ o, o = Some None) (ValidatePrefixedParameters (vgclass_Parameters cl)).
Proof.
  intros Hv. eapply along_spec; [typeclasses eauto|]. intros [o|] Ho; [|done].
  cbn in Ho. f_equal. by apply Ho.
Qed.

Lemma Reconcile_class_faultless vgc cl :
  om_DeletionTimestamp (vgc_ObjectMeta vgc) = None →
  map_Forall valid_parameter (vgclass_Parameters cl) → good vgc →
  along faultless (λ o, o = Some (Result_zero, None)) (Reconcile_class cfg vgc cl).
Proof.
  intros Hd Hv Hg. unfold Reconcile_class. rewrite Hd. cbn [IsZero].
  repeat first
    [ match goal with
      | |- along _ _ (ValidatePrefixedParameters _) =>
          eapply along_mono; [by apply ValidatePrefixedParameters_along|intros ? ->]
      | |- along _ _ (GetSecretDataFromClass _) =>
          eapply along_mono; [apply GetSecretDataFromClass_faultless|intros ? (secret & ->)]
      | |- along _ _ (AddFinalizerToVGC _) =>
          eapply along_mono; [by apply AddFinalizerToVGC_faultless|intros ? (cur & -> & Hcur)]
      | |- along _ _ (handleStaticProvisionedVGC _) =>
          eapply along_mono; [by apply handleStaticProvisionedVGC_faultless|
                              intros ? ([] & cur' & -> & Hcur')]
      | |- along _ _ (handleCreateVG _ _ _) =>
          eapply along_mono; [by apply handleCreateVG_faultless|intros ? (v & -> & Hv')]
      end
    | along_step ]; by simplify_eq/=.
Qed.

(** C29: a run for a content that is not being deleted, to which no call fails, makes
    it ready: the operator's finalizer is on it, its status is ready, and its group
    exists, made by the driver and stored in the content, or named by it before.  The
    content names a class of the operator, a deletion policy and a source, as do the
    contents that the server answers with, the class has valid parameters, and the
    driver answers a creation with a group.  Under these conditions every error that
    delays a content is an answer of the API server or of the driver. *)
Theorem vgc_faultless vgc k cl rest out :
  executes (Reconcile cfg req)
    (Ev (CGet KVGC req) (inr vgc) :: Ev (CGet KVGClass k) (inr cl) :: rest) out →
  Forall (λ e, faultless (tr_call e) (tr_resp e)) rest →
  good vgc → om_DeletionTimestamp (vgc_ObjectMeta vgc) = None →
  vgclass_Driver cl = DriverName cfg → map_Forall valid_parameter (vgclass_Parameters cl) →
  out = Some (Result_zero, None) ∧ success_ready vgc rest.
Proof.
  intros Hex Hrest Hg Hd Hdr Hv. apply vgc_to_class in Hex; [|apply Hg].
  rewrite decide_False in Hex by congruence.
  assert (out = Some (Result_zero, None)) as ->
    by exact (along_sound _ (λ o, o = Some (Result_zero, None)) _ _ _
              (Reconcile_class_faultless vgc cl Hd Hv Hg) Hex Hrest).
  split; [done|]. by eapply vgc_class_success.
Qed.
End Faultless.

(** ** Witness: the run that makes the sample group *)

#[local] Existing Instance DocExternals.externals.
#[local] Existing Instance DocExternals.laws.

Definition goodb (vgc : VolumeGroupContent) : bool :=
  completeb vgc && bool_decide (or_empty (vgcspec_VolumeGroupClassName (vgc_Spec vgc)) ≠ ""%string).

Lemma goodb_sound vgc : goodb vgc = true → good vgc.
Proof.
  intros [Hc Hn%bool_decide_eq_true]%andb_true_iff. split; [by apply completeb_sound|done].
Qed.

Definition inr_such {A} (p : A → bool) (r : error + A) : bool :=
  match r with inr a => p a | inl _ => false end.

Definition faultlessb (c : call) : resp c → bool :=
  match c with
  | CGet K _ | CUpdate K _ | CStatusUpdate K _ =>
      match K return error + obj_of K → bool with
      | KVGC => inr_such goodb
      | _ => inr_such (λ _, true)
      end
  | CCreate _ _ | CList _ => inr_such (λ _, true)
  | CCreateVolumeGroup _ _ _ => inr_such (λ a, bool_decide (is_Some (cvgr_VolumeGroup a)))
  | CDelete _ _ | CDeleteVolumeGroup _ _ | CModifyVolumeGroupMembership _ _ _
  | CListUnstructured _ => λ r, bool_decide (r = None)
  | CNow | CRandInts _ | CMapOrder | CSleep _ => λ _, true
  end.

Lemma inr_such_sound {A} (p : A → bool) (P : A → Prop) r :
  (∀ a, p a = true → P a) → inr_such p r = true → succeeded P r.
Proof. intros HP. destruct r as [e|a]; [done|]. intros Ha. exists a. auto. Qed.

Lemma faultlessb_sound c r : faultlessb c r = true → faultless c r.
Proof.
  destruct c as [K ?|K|?|K ?|K ?|K ?|K ?| | | | | | |]; cbn; try done; try apply bool_decide_eq_true.
  all: try (destruct K; apply inr_such_sound; try done; apply goodb_sound).
  all: apply inr_such_sound; try done; intros a; apply bool_decide_eq_true.
Qed.

Lemma vgc_faultless_witness :
  run_outcome serve Scenario.reconcile_vgc Scenario.content_created = Some (Result_zero, None) ∧
  success_ready fresh_content (drop 2 create_run).
Proof.
  pose proof (run_executes serve Scenario.reconcile_vgc Scenario.content_created) as Hex.
  rewrite create_run_starts in Hex.
  eapply (vgc_faultless Samples.config Samples.vgc_req fresh_content _ stored_class).
  - exact Hex.
  - apply (Forall_impl (λ e, faultlessb (tr_call e) (tr_resp e) = true)).
    + by apply (bool_decide_unpack _); vm_compute.
    + intros e. apply faultlessb_sound.
  - by apply goodb_sound; vm_compute.
  - by vm_compute.
  - by vm_compute.
  - by apply (bool_decide_unpack _); vm_compute.
Defined.
