(* ===== verification/GroupFaultless.v ===== *)
(** * A reconciliation of a VolumeGroup in which nothing fails

    The counterpart of [Faultless] for the VolumeGroup controller: when the
    content is ready and the API server and the driver answer every call without
    an error, one run binds the VolumeGroup and brings its members in line. *)

From S2P Require Import Prelude GoLang Api Effects Externals Objects Params VolumeGroups Volumes.
From S2P Require Import Finalizers Driver VolumeGroupContents Membership VGController.
From S2P Require Import VGCController Histories Cluster Scenario VGSafety VGProgress Faultless.
Import VGController.

Section Faultless.
Context `{ExternalLaws} (cfg : DriverConfig) (req : NamespacedName).
Context (many : MultipleVGsToPVC cfg = "true"%string).

(** A VolumeGroup with a class, a valid selector and a UID. *)
Definition good_group (vg : VolumeGroup) : Prop :=
  or_empty (vgspec_VolumeGroupClassName (vg_Spec vg)) ≠ ""%string ∧
  (∃ s sel, vgsrc_Selector (vgspec_Source (vg_Spec vg)) = Some s ∧
            LabelSelectorAsSelector s = inr sel) ∧
  String.length (GetUID KVG vg) ≠ 0.

(** The answer to an update of [o]: a good VolumeGroup, that names a content when
    [o] does. *)
Definition good_answer (o a : VolumeGroup) : Prop :=
  good_group a ∧ (names_content o → names_content a).

(** A content with a source, ready. *)
Definition ready_content (vgc : VolumeGroupContent) : Prop :=
  is_Some (vgcspec_Source (vgc_Spec vgc)) ∧ vgcst_Ready (vgc_Status vgc) = Some true.

(** A claim that names its storage class. *)
Definition classed (pvc : PersistentVolumeClaim) : Prop := ∃ n, GetPVCClass pvc = inr n.

(** No error, but for the creation of a content that exists; the VolumeGroups are
    good ones, the contents ready, the volumes CSI volumes, the claims classed. *)
Definition smooth (c : call) : resp c → Prop :=
  match c with
  | CGet K _ =>
      match K return error + obj_of K → Prop with
      | KVG => succeeded good_group
      | KVGC => succeeded ready_content
      | KPV => succeeded (λ pv, is_Some (pv_CSI pv))
      | _ => succeeded (λ _, True)
      end
  | CUpdate K o | CStatusUpdate K o =>
      match K return obj_of K → error + obj_of K → Prop with
      | KVG => λ o, succeeded (good_answer o)
      | _ => λ _, succeeded (λ _, True)
      end o
  | CList K =>
      match K return error + list (obj_of K) → Prop with
      | KVG => succeeded (Forall good_group)
      | KPVC => succeeded (Forall classed)
      | _ => succeeded (λ _, True)
      end
  | CCreate K _ =>
      match K return error + obj_of K → Prop with
      | KVGC => λ r, succeeded (λ _, True) r ∨ ∃ e, r = inl e ∧ IsAlreadyExists e = true
      | _ => succeeded (λ _, True)
      end
  | CCreateVolumeGroup _ _ _ => λ _, True
  | CDelete _ _ | CDeleteVolumeGroup _ _ | CModifyVolumeGroupMembership _ _ _
  | CListUnstructured _ => λ r, r = None
  | CNow | CRandInts _ | CMapOrder | CSleep _ => λ _, True
  end.

Abbreviation Smooth := (along smooth).

(** The answer of the last call. *)
Ltac answer :=
  match goal with
  | Hr : smooth _ ?r |- _ =>
      cbn in Hr; first [subst r | destruct Hr as (? & -> & ?)]
  end.

Ltac smooth_step :=
  first [answer; cbn [after along] | progress cbn [on_err] | along_step].

(** ** Reads *)

Lemma IsPVCHasMatchingDriver_smooth pvc d :
  classed pvc → Smooth (λ o, ∃ b, o = Some (inr b)) (IsPVCHasMatchingDriver pvc d).
Proof.
  intros [n Hn]. unfold IsPVCHasMatchingDriver, getStorageClassProvisioner, getStorageClass.
  rewrite Hn. repeat smooth_step. by eexists.
Qed.

Lemma IsPVCInStaticVG_smooth pvc :
  classed pvc → Smooth (λ o, ∃ b, o = Some (inr b)) (IsPVCInStaticVG pvc).
Proof.
  intros [n Hn]. unfold IsPVCInStaticVG, getStorageClass. rewrite Hn.
  repeat smooth_step. by eexists.
Qed.

Lemma HandlePVCErrorMessage_smooth pvc e reason :
  Smooth (λ o, o = Some None) (HandlePVCErrorMessage pvc (Some e) reason).
Proof.
  unfold HandlePVCErrorMessage, createNamespacedObjectErrorEvent, generateEvent, generateString,
    createEvent. repeat smooth_step. done.
Qed.

Lemma IsPVCNeedToBeHandled_smooth pvc d :
  classed pvc → Smooth (λ o, ∃ b, o = Some (inr b)) (IsPVCNeedToBeHandled pvc d).
Proof.
  intros Hc. pose proof Hc as [n Hn]. unfold IsPVCNeedToBeHandled. along_step.
  run_by IsPVCHasMatchingDriver_smooth. intros ? ([] & ->); cbn [after along]; [|by eexists].
  case_decide; [by eexists|]. along_step. run_by IsPVCInStaticVG_smooth.
  intros ? ([] & ->); cbn [after along]; [|by eexists]. rewrite Hn. along_step.
  run_by HandlePVCErrorMessage_smooth. intros ? ->. by eexists.
Qed.

Lemma getProvisionedPVCList_smooth d l acc :
  Forall classed l → Forall classed acc →
  Smooth (λ o, ∃ l', o = Some (inr l') ∧ Forall classed l') (getProvisionedPVCList_loop d l acc).
Proof.
  intros Hl. revert acc. induction Hl as [|pvc l Hpvc Hl IH]; intros acc Hacc;
    cbn [getProvisionedPVCList_loop]; [by exists acc|].
  along_step. run_by IsPVCHasMatchingDriver_smooth.
  intros ? ([] & ->); cbn [after]; apply IH; [|done]. apply Forall_app. by split; [|constructor].
Qed.

Lemma GetPVCList_smooth d :
  Smooth (λ o, ∃ l, o = Some (inr l) ∧ Forall classed l) (GetPVCList d).
Proof.
  unfold GetPVCList, getPVCList, getProvisionedPVCList. do 2 smooth_step. smooth_step.
  apply getProvisionedPVCList_smooth; [|done]. rewrite getBoundPVCList_spec.
  rewrite Forall_forall in *. intros pvc [_ Hin]%list_elem_of_filter. auto.
Qed.

Lemma IsPVCMatchesVG_smooth pvc vg :
  good_group vg → Smooth (λ o, ∃ b, o = Some (inr b)) (IsPVCMatchesVG pvc vg).
Proof.
  intros (_ & (s & sel & Hs & Hsel) & _). unfold IsPVCMatchesVG, areLabelsMatchLabelSelector.
  rewrite Hs. cbn [deref or_panic]. unfold deref, or_panic. along_step. cbn [along after].
  rewrite Hsel. repeat smooth_step; by eexists.
Qed.

Lemma isPVCShouldBeInVg_smooth vg pvc :
  good_group vg → Smooth (λ o, ∃ b, o = Some (inr b)) (isPVCShouldBeInVg cfg vg pvc).
Proof.
  intros Hvg. unfold isPVCShouldBeInVg, isPVCCanBeAddedToVG. rewrite decide_True by done.
  along_step. run_by IsPVCMatchesVG_smooth. intros ? ([] & ->); repeat smooth_step; by eexists.
Qed.

Lemma getMatchingPVCs_smooth vg :
  good_group vg → Smooth (λ o, ∃ l, o = Some (inr l)) (getMatchingPVCs cfg vg).
Proof.
  intros Hvg. unfold getMatchingPVCs. along_step. run_by GetPVCList_smooth.
  intros ? (l & -> & Hl). cbn [after]. generalize (@nil PersistentVolumeClaim).
  induction Hl as [|pvc l Hpvc Hl IH]; intros acc; cbn [getMatchingPVCs_loop]; [by eexists|].
  along_step. run_by isPVCShouldBeInVg_smooth. intros ? (b & ->). cbn [after].
  along_step. run_by IsPVCNeedToBeHandled_smooth. intros ? (b' & ->). cbn [after].
  destruct (_ && _); apply IH.
Qed.

Lemma GetVGClass_smooth n : n ≠ ""%string →
  Smooth (λ o, ∃ cl, o = Some (inr cl)) (GetVGClass n).
Proof. intros Hn. unfold GetVGClass. rewrite decide_False by done. repeat smooth_step. by eexists. Qed.

Lemma GetVGList_smooth d : Smooth (λ o, ∃ l, o = Some (inr l)) (GetVGList d).
Proof.
  unfold GetVGList, getProvisionedVGs. do 2 smooth_step. smooth_step.
  apply along_bind. generalize (@nil VolumeGroup).
  match goal with Hl : Forall good_group _ |- _ =>
    induction Hl as [|vg l [Hvg _] Hl IH]; intros acc; cbn [getProvisionedVGs_loop] end;
    [by eexists|].
  unfold isVGHasMatchingDriver, getVGClassDriver. autorewrite with reflect.
  do 6 along_step. run_by GetVGClass_smooth. intros ? (cl & ->).
  repeat along_step; apply IH.
Qed.

Lemma GetSecretDataFromClass_smooth cl :
  Smooth (λ o, ∃ secret, o = Some (inr secret)) (GetSecretDataFromClass cl).
Proof.
  unfold GetSecretDataFromClass, getSecretData. destruct (GetSecretCred cl).
  repeat smooth_step; by eexists.
Qed.

Lemma GetPVFromPVC_smooth pvc :
  Smooth (λ o, ∃ pv, o = Some (inr pv) ∧ ∀ v, pv = Some v → is_Some (pv_CSI v)) (GetPVFromPVC pvc).
Proof.
  unfold GetPVFromPVC, getPV. autorewrite with reflect. unfold getPVNameFromPVC.
  autorewrite with reflect. repeat smooth_step; eexists; split; try done.
  intros v Heq. by simplify_eq.
Qed.

Lemma getPVCListVolumeIds_smooth l : Smooth (λ o, ∃ ids, o = Some (inr ids)) (getPVCListVolumeIds l).
Proof.
  unfold getPVCListVolumeIds. generalize (@nil string).
  induction l as [|pvc l IH]; intros acc; cbn [getPVCListVolumeIds_loop]; [by eexists|].
  along_step. run_by GetPVFromPVC_smooth. intros ? ([pv|] & -> & Hpv); cbn [after]; [|apply IH].
  destruct (Hpv pv eq_refl) as [csi Hcsi]. rewrite Hcsi. apply IH.
Qed.

(** ** Membership at the driver *)

Lemma ModifyVolumesInVG_smooth l vg :
  good_group vg → Smooth (λ o, o = Some None) (ModifyVolumesInVG l vg).
Proof.
  intros (Hcn & _ & _). unfold ModifyVolumesInVG, ModifyVG, generateModifyVGParams, getVgId, GetVGC,
    getSecrets, request_Modify, ModifyVolumeGroupMembership. autorewrite with reflect.
  repeat first
    [ match goal with
      | |- Smooth _ (getPVCListVolumeIds _) => run_by getPVCListVolumeIds_smooth; intros ? (ids & ->)
      | |- Smooth _ (GetVGClass _) => run_by GetVGClass_smooth; intros ? (cl & ->)
      | |- Smooth _ (GetSecretDataFromClass _) =>
          run_by GetSecretDataFromClass_smooth; intros ? (secret & ->)
      | Hr : ready_content ?v |- context [vgcspec_Source (vgc_Spec ?v)] =>
          destruct Hr as [[src Hsrc] _]; rewrite Hsrc
      end
    | smooth_step ]; done.
Qed.

(** ** Writes *)

Lemma createSuccess_smooth K o m reason :
  Smooth (λ o, o = Some None) (createSuccessNamespacedObjectEvent K o m reason).
Proof.
  unfold createSuccessNamespacedObjectEvent, generateEvent, generateString, createEvent.
  by repeat smooth_step.
Qed.

(** The writes of a content's status. *)
Lemma vgc_retry_smooth (f : VolumeGroupContent → VolumeGroupContent) vgc :
  Smooth (λ o, ∃ v, o = Some (None, v)) (RetryOnConflict (λ v, vgcRetryOnConflictFunc (f v)) vgc).
Proof.
  apply (along_retry _ _ (λ _, True)); [|done]. intros s _.
  unfold vgcRetryOnConflictFunc, UpdateObjectStatus. repeat smooth_step. split; [by eexists|done].
Qed.

Lemma addPVToVGC_smooth pv vgc : Smooth (λ o, ∃ v, o = Some (None, v)) (addPVToVGC pv vgc).
Proof.
  unfold addPVToVGC, updateVGCStatusPVList. do 2 along_step. run_by vgc_retry_smooth.
  intros ? (v & ->). repeat smooth_step. by eexists.
Qed.

Lemma RemovePVFromVGC_smooth pv vgc : Smooth (λ o, ∃ v, o = Some (None, v)) (RemovePVFromVGC pv vgc).
Proof.
  unfold RemovePVFromVGC, updateVGCStatusPVList. do 2 along_step. run_by vgc_retry_smooth.
  intros ? (v & ->). repeat smooth_step. by eexists.
Qed.

Lemma UpdateStaticVGCFromVG_smooth vg cl :
  names_content vg → Smooth (λ o, o = Some None) (UpdateStaticVGCFromVG vg cl).
Proof.
  intros [n Hn]. unfold UpdateStaticVGCFromVG, GetVGC, UpdateObject. rewrite Hn.
  repeat smooth_step. done.
Qed.

(** The finalizers of a claim. *)
Lemma updateFinalizer_claim_smooth fs pvc :
  Smooth (λ o, ∃ v, o = Some (None, v)) (updateFinalizer KPVC fs pvc).
Proof.
  apply (along_retry _ _ (λ _, True)); [|done]. intros s _.
  unfold finalizerRetryOnConflictFunc, UpdateObject. repeat smooth_step. split; [by eexists|done].
Qed.

Lemma AddFinalizerToPVC_smooth pvc : Smooth (λ o, ∃ v, o = Some (None, v)) (AddFinalizerToPVC pvc).
Proof.
  unfold AddFinalizerToPVC. along_step; [|by eexists]. along_step.
  run_by updateFinalizer_claim_smooth. intros ? (v & ->). by eexists.
Qed.

Lemma RemoveFinalizerFromPVC_smooth d pvc :
  Smooth (λ o, ∃ v, o = Some (None, v)) (RemoveFinalizerFromPVC d pvc).
Proof.
  unfold RemoveFinalizerFromPVC, isFinalizerShouldBeREmovedFromPVC, GetPVC, getNamespacedObject.
  repeat first
    [ match goal with
      | |- Smooth _ (GetVGList _) => run_by GetVGList_smooth; intros ? (l & ->)
      | |- Smooth _ (updateFinalizer _ _ _) =>
          run_by updateFinalizer_claim_smooth; intros ? (v & ->)
      end
    | smooth_step ]; by eexists.
Qed.

(** ** Writes of the VolumeGroup

    [kept v]: the VolumeGroup is good, and names a content if it did. *)

Section Kept.
Context (named : Prop).

Definition kept (vg : VolumeGroup) : Prop := good_group vg ∧ (named → names_content vg).

Definition done_group (o : option (option error * VolumeGroup)) : Prop :=
  ∃ v, o = Some (None, v) ∧ kept v.

Lemma good_answer_kept o a : good_answer o a → (named → names_content o) → kept a.
Proof. intros [Hg Hn] Ho. split; auto. Qed.

Lemma vg_retry_smooth (f : VolumeGroup → VolumeGroup) vg :
  (∀ v, names_content v → names_content (f v)) → kept vg →
  Smooth done_group (RetryOnConflict (λ v, vgRetryOnConflictFunc (f v)) vg).
Proof.
  intros Hf Hvg. apply (along_retry _ _ kept); [|done]. intros s [_ Hs].
  unfold vgRetryOnConflictFunc, updateVGStatus, UpdateObjectStatus. repeat smooth_step.
  split; [|done]. eexists. split; [done|]. eapply good_answer_kept; eauto.
Qed.

Lemma status_kept (f : VolumeGroupStatus → VolumeGroupStatus) v :
  names_content v → names_content (set_vg_Status f v).
Proof. done. Qed.

Lemma UpdateVGStatusError_smooth vg m : kept vg → Smooth done_group (UpdateVGStatusError vg m).
Proof.
  intros Hvg. unfold UpdateVGStatusError. along_step. run_by vg_retry_smooth.
  intros ? (v & -> & Hv). repeat smooth_step. by exists v.
Qed.

Lemma HandleSuccessMessage_smooth vg m reason :
  kept vg → Smooth done_group (HandleSuccessMessage vg m reason).
Proof.
  intros Hvg. unfold HandleSuccessMessage. along_step. run_by UpdateVGStatusError_smooth.
  intros ? (v & -> & Hv). cbn [after]. along_step. run_by createSuccess_smooth.
  intros ? ->. by exists v.
Qed.

Lemma set_PVCList_kept l vg : kept vg → kept (set_vg_PVCList l vg).
Proof. done. Qed.

Lemma AddPVCToVG_smooth pvc vg : kept vg → Smooth done_group (AddPVCToVG pvc vg).
Proof.
  intros Hvg. unfold AddPVCToVG, updateVGStatusPVCList. do 2 along_step.
  eapply along_mono; [apply (vg_retry_smooth (set_vg_PVCList _)); [done|by apply set_PVCList_kept]|].
  intros ? (v & -> & Hv). repeat smooth_step. by exists v.
Qed.

Lemma RemovePVCFromVG_smooth pvc vg : kept vg → Smooth done_group (RemovePVCFromVG pvc vg).
Proof.
  intros Hvg. unfold RemovePVCFromVG, updateVGStatusPVCList. do 2 along_step.
  eapply along_mono; [apply (vg_retry_smooth (set_vg_PVCList _)); [done|by apply set_PVCList_kept]|].
  intros ? (v & -> & Hv). repeat smooth_step. by exists v.
Qed.

Lemma AddVolume_smooth pvc vg :
  kept vg → Smooth done_group (AddVolumeToPvcListAndPvList pvc vg).
Proof.
  intros Hvg. unfold AddVolumeToPvcListAndPvList, AddMatchingPVToMatchingVGC, GetVGC.
  autorewrite with reflect. along_step. run_by AddPVCToVG_smooth. intros ? (cur & -> & Hcur).
  autorewrite with reflect.
  repeat first
    [ match goal with
      | |- Smooth _ (GetPVFromPVC _) => run_by GetPVFromPVC_smooth; intros ? (pv & -> & Hpv)
      | |- Smooth _ (addPVToVGC _ _) => run_by addPVToVGC_smooth; intros ? (v & ->)
      | |- Smooth _ (AddFinalizerToPVC _) => run_by AddFinalizerToPVC_smooth; intros ? (c & ->)
      | |- Smooth _ (HandleSuccessMessage _ _ _) => by apply HandleSuccessMessage_smooth
      end
    | progress autorewrite with reflect | smooth_step ].
Qed.

Lemma RemoveVolume_smooth d pvc vg :
  kept vg → Smooth done_group (RemoveVolumeFromPvcListAndPvList d pvc vg).
Proof.
  intros Hvg. unfold RemoveVolumeFromPvcListAndPvList, GetVGC.
  along_step. run_by RemovePVCFromVG_smooth. intros ? (cur & -> & Hcur).
  repeat first
    [ match goal with
      | |- Smooth _ (GetPVFromPVC _) => run_by GetPVFromPVC_smooth; intros ? (pv & -> & Hpv)
      | |- Smooth _ (RemovePVFromVGC _ _) => run_by RemovePVFromVGC_smooth; intros ? (v & ->)
      | |- Smooth _ (RemoveFinalizerFromPVC _ _) =>
          run_by RemoveFinalizerFromPVC_smooth; intros ? (c & ->)
      | |- Smooth _ (HandleSuccessMessage _ _ _) => by apply HandleSuccessMessage_smooth
      end
    | progress autorewrite with reflect | smooth_step ].
Qed.

Lemma UpdatePvcAndPvList_smooth vg d l :
  kept vg → Smooth done_group (UpdatePvcAndPvList vg d l).
Proof.
  intros Hvg. unfold UpdatePvcAndPvList. generalize (vgst_PVCList (vg_Status vg)) as old.
  intros old. along_step. apply (along_mono _ done_group).
  - revert vg Hvg. generalize old as items.
    induction items as [|pvc items IH]; intros vg Hvg; cbn [remove_stale_loop]; [by exists vg|].
    destruct (negb _); [|by apply IH]. along_step. run_by RemoveVolume_smooth.
    intros ? (v & -> & Hv). by apply IH.
  - clear vg Hvg. intros ? (vg & -> & Hvg). cbn [after]. revert vg Hvg. generalize l as items.
    induction items as [|pvc items IH]; intros vg Hvg; cbn [add_matching_loop]; [by exists vg|].
    destruct (negb _); [|by apply IH]. along_step. run_by AddVolume_smooth.
    intros ? (v & -> & Hv). by apply IH.
Qed.

Lemma updatePVCs_smooth vg : kept vg → Smooth done_group (updatePVCs cfg vg).
Proof.
  intros Hvg. pose proof Hvg as [Hg _]. unfold updatePVCs. along_step.
  run_by getMatchingPVCs_smooth. intros ? (l & ->). cbn [after].
  along_step; [by exists vg|]. along_step. run_by ModifyVolumesInVG_smooth. intros ? ->.
  cbn [after]. along_step. run_by UpdatePvcAndPvList_smooth. intros ? (v & -> & Hv). by exists v.
Qed.
End Kept.

(** ** The controller *)

Lemma AddFinalizerToVG_smooth named vg :
  kept named vg → Smooth (done_group named) (AddFinalizerToVG vg).
Proof.
  intros Hvg. unfold AddFinalizerToVG. along_step; [|by exists vg]. along_step.
  apply (along_mono _ (done_group named)).
  - unfold updateFinalizer. apply (along_retry _ _ (kept named)); [|by destruct vg].
    intros s [_ Hs]. unfold finalizerRetryOnConflictFunc, UpdateObject. repeat smooth_step.
    split; [|done]. eexists. split; [done|]. eapply good_answer_kept; [done|by destruct s].
  - intros ? (v & -> & Hv). by exists v.
Qed.

Lemma UpdateVGStatus_smooth vg n t :
  kept True vg → Smooth (done_group True) (UpdateVGStatus vg n t true).
Proof.
  intros Hvg. unfold UpdateVGStatus, updateVGStatus, UpdateObjectStatus. along_step.
  eapply along_mono; [by apply (vg_retry_smooth True (set_vg_bound _ _ _))|].
  intros ? (v & -> & Hv). repeat smooth_step.
  eexists. split; [done|]. eapply good_answer_kept; [done|]. apply Hv.
Qed.

(** The VolumeGroup names its content from here on. *)
Lemma updateItems_smooth vg t n : Smooth (done_group True) (updateItems vg t n).
Proof.
  unfold updateItems, UpdateVGSourceContent, UpdateObject.
  repeat first
    [ match goal with
      | |- Smooth _ (UpdateVGStatus _ _ _ _) =>
          eapply along_mono;
            [apply UpdateVGStatus_smooth; eapply good_answer_kept; [done|by exists n]|
             intros ? (v & -> & Hv)]
      end
    | smooth_step ].
  by exists v.
Qed.

Lemma handleStaticProvisionedVG_smooth named vg t cl :
  kept named vg →
  Smooth (λ o, ∃ static v, o = Some (None, static, v) ∧ kept named v)
    (handleStaticProvisionedVG cfg vg t cl).
Proof.
  intros Hvg. unfold handleStaticProvisionedVG.
  destruct (vgsrc_VolumeGroupContentName _) as [n|]; [|by exists false, vg].
  along_step. run_by updateItems_smooth. intros ? (cur & -> & [Hg Hn]). cbn [after]. along_step.
  run_by UpdateStaticVGCFromVG_smooth. intros ? ->. cbn [after]. along_step.
  eapply along_mono; [apply (updatePVCs_smooth named); split; [done|auto]|].
  intros ? (v & -> & Hv). by exists true, v.
Qed.

Lemma CreateVGC_smooth vgc : Smooth (λ o, ∃ v, o = Some (None, v)) (CreateVGC vgc).
Proof.
  unfold CreateVGC. along_step. intros r [(v & -> & _)|(e & -> & He)]; cbn [after along].
  - by eexists.
  - rewrite He. by eexists.
Qed.

Lemma isVGCReady_smooth vgc : Smooth (λ o, o = Some (inr true)) (isVGCReady vgc).
Proof.
  unfold isVGCReady, GetVGC. repeat smooth_step; autorewrite with reflect in *.
  all: match goal with Hr : ready_content _ |- _ => destruct Hr as [_ Hr]; rewrite Hr in * end.
  all: by simplify_eq/=.
Qed.

Lemma Reconcile_provision_smooth vg cl :
  good_group vg → Smooth (λ o, o = Some (Result_zero, None)) (Reconcile_provision cfg vg cl).
Proof.
  intros Hvg. unfold Reconcile_provision, GetCurrentTime, createSuccessVGEvent.
  do 2 along_step. cbn [after along]. along_step.
  eapply along_mono; [by apply (handleStaticProvisionedVG_smooth False)|].
  intros ? (static & cur & -> & [Hcur _]). cbn [after]. destruct static; [done|].
  unfold MakeVGName. rewrite decide_False by apply Hcur.
  repeat first
    [ match goal with
      | |- Smooth _ (CreateVGC _) => run_by CreateVGC_smooth; intros ? (vgc & ->)
      | |- Smooth _ (isVGCReady _) => run_by isVGCReady_smooth; intros ? ->
      | |- Smooth _ (updateItems _ _ _) => run_by updateItems_smooth; intros ? (v & -> & Hv)
      | |- Smooth _ (updatePVCs _ _) =>
          eapply along_mono; [by apply (updatePVCs_smooth True)|intros ? (v' & -> & Hv')]
      | |- Smooth _ (HandleSuccessMessage _ _ _) =>
          eapply along_mono; [by apply (HandleSuccessMessage_smooth True)|intros ? (v'' & -> & Hv'')]
      end
    | smooth_step | done ].
Qed.

Lemma Reconcile_class_smooth vg cl :
  om_DeletionTimestamp (vg_ObjectMeta vg) = None →
  map_Forall valid_parameter (vgclass_Parameters cl) → good_group vg →
  Smooth (λ o, o = Some (Result_zero, None)) (Reconcile_class cfg vg cl).
Proof.
  intros Hd Hv Hg. unfold Reconcile_class. rewrite Hd. cbn [IsZero].
  along_step. run_by ValidatePrefixedParameters_along. intros ? ->. cbn [after]. along_step.
  eapply along_mono; [by apply (AddFinalizerToVG_smooth False)|].
  intros ? (cur & -> & [Hcur _]). cbn [after]. by apply Reconcile_provision_smooth.
Qed.

(** A run for a good VolumeGroup of the operator's class that is not being
    deleted, to which no call fails and whose content is ready, succeeds without
    asking to be called again, and binds the VolumeGroup to its content: the
    errors and delays of a VolumeGroup all come from outside (a claim may be in
    several groups in this configuration).  That the content exists already is no
    failure. *)
Theorem vg_faultless vg k cl rest out :
  executes (Reconcile cfg req)
    (Ev (CGet KVG req) (inr vg) :: Ev (CGet KVGClass k) (inr cl) :: rest) out →
  Forall (λ e, smooth (tr_call e) (tr_resp e)) rest →
  good_group vg → om_DeletionTimestamp (vg_ObjectMeta vg) = None →
  vgclass_Driver cl = DriverName cfg → map_Forall valid_parameter (vgclass_Parameters cl) →
  out = Some (Result_zero, None) ∧ success_bound vg rest.
Proof.
  intros Hex Hrest Hg Hd Hdr Hv. pose proof Hex as Hclass.
  apply vg_to_class in Hclass; [|apply Hg]. rewrite decide_False in Hclass by congruence.
  assert (out = Some (Result_zero, None)) as ->
    by exact (along_sound _ (λ o, o = Some (Result_zero, None)) _ _ _
              (Reconcile_class_smooth vg cl Hd Hv Hg) Hclass Hrest).
  split; [done|]. by eapply vg_class_success.
Qed.
End Faultless.

(** ** Witness: the run that provisions the sample group *)

#[local] Existing Instance DocExternals.externals.
#[local] Existing Instance DocExternals.laws.

Definition good_groupb (vg : VolumeGroup) : bool :=
  bool_decide (or_empty (vgspec_VolumeGroupClassName (vg_Spec vg)) ≠ ""%string) &&
  match vgsrc_Selector (vgspec_Source (vg_Spec vg)) with
  | Some s => match LabelSelectorAsSelector s with inr _ => true | inl _ => false end
  | None => false
  end &&
  bool_decide (String.length (GetUID KVG vg) ≠ 0).

Lemma good_groupb_sound vg : good_groupb vg = true → good_group vg.
Proof.
  unfold good_groupb, good_group. rewrite !andb_true_iff, !bool_decide_eq_true.
  intros [[Hcn Hs] Hu]. split_all; [done| |done].
  destruct (vgsrc_Selector _) as [s|]; [|done].
  destruct (LabelSelectorAsSelector s) as [e|sel] eqn:Hsel; [done|]. by exists s, sel.
Qed.

Definition good_answerb (o a : VolumeGroup) : bool :=
  good_groupb a && implb (names_contentb o) (names_contentb a).

Lemma good_answerb_sound o a : good_answerb o a = true → good_answer o a.
Proof.
  intros [Hg Hn]%andb_true_iff. split; [by apply good_groupb_sound|by apply implb_names].
Qed.

Definition ready_contentb (vgc : VolumeGroupContent) : bool :=
  bool_decide (is_Some (vgcspec_Source (vgc_Spec vgc))) &&
  bool_decide (vgcst_Ready (vgc_Status vgc) = Some true).

Definition classedb (pvc : PersistentVolumeClaim) : bool :=
  match GetPVCClass pvc with inr _ => true | inl _ => false end.

Definition smoothb (c : call) : resp c → bool :=
  match c with
  | CGet K _ =>
      match K return error + obj_of K → bool with
      | KVG => inr_such good_groupb
      | KVGC => inr_such ready_contentb
      | KPV => inr_such (λ pv, bool_decide (is_Some (pv_CSI pv)))
      | _ => inr_such (λ _, true)
      end
  | CUpdate K o | CStatusUpdate K o =>
      match K return obj_of K → error + obj_of K → bool with
      | KVG => λ o, inr_such (good_answerb o)
      | _ => λ _, inr_such (λ _, true)
      end o
  | CList K =>
      match K return error + list (obj_of K) → bool with
      | KVG => inr_such (forallb good_groupb)
      | KPVC => inr_such (forallb classedb)
      | _ => inr_such (λ _, true)
      end
  | CCreate K _ =>
      match K return error + obj_of K → bool with
      | KVGC => λ r, match r with inr _ => true | inl e => IsAlreadyExists e end
      | _ => inr_such (λ _, true)
      end
  | CCreateVolumeGroup _ _ _ => λ _, true
  | CDelete _ _ | CDeleteVolumeGroup _ _ | CModifyVolumeGroupMembership _ _ _
  | CListUnstructured _ => λ r, bool_decide (r = None)
  | CNow | CRandInts _ | CMapOrder | CSleep _ => λ _, true
  end.

Lemma forallb_sound {A} (p : A → bool) (P : A → Prop) l :
  (∀ a, p a = true → P a) → forallb p l = true → Forall P l.
Proof.
  intros HP. rewrite forallb_forall, Forall_forall. intros Hall x Hx.
  apply HP, Hall. by apply list_elem_of_In.
Qed.

Lemma classedb_sound pvc : classedb pvc = true → classed pvc.
Proof. unfold classedb, classed. destruct (GetPVCClass pvc) as [|n]; [done|]. by exists n. Qed.

Lemma ready_contentb_sound vgc : ready_contentb vgc = true → ready_content vgc.
Proof. unfold ready_contentb, ready_content. by rewrite andb_true_iff, !bool_decide_eq_true. Qed.

Lemma smoothb_sound c r : smoothb c r = true → smooth c r.
Proof.
  destruct c as [K ?|K|?|K ?|K ?|K ?|K ?| | | | | | |]; cbn; try done; try apply bool_decide_eq_true.
  all: destruct K; try apply inr_such_sound; try done.
  - apply good_groupb_sound.
  - apply ready_contentb_sound.
  - intros a. apply bool_decide_eq_true.
  - intros l. apply forallb_sound, good_groupb_sound.
  - intros l. apply forallb_sound, classedb_sound.
  - destruct r as [e|a]; intros He; [right|left]; by eexists.
  - intros a. apply good_answerb_sound.
  - intros a. apply good_answerb_sound.
Qed.

Lemma vg_faultless_witness :
  run_outcome serve Scenario.reconcile_vg Scenario.group_created = Some (Result_zero, None) ∧
  success_bound new_group (drop 2 provision_run).
Proof.
  pose proof (run_executes serve Scenario.reconcile_vg Scenario.group_created) as Hex.
  rewrite provision_run_starts in Hex.
  eapply (vg_faultless Samples.config Samples.vg_req eq_refl new_group _ VGProgress.stored_class).
  - exact Hex.
  - apply (Forall_impl (λ e, smoothb (tr_call e) (tr_resp e) = true)).
    + by apply (bool_decide_unpack _); vm_compute.
    + intros e. apply smoothb_sound.
  - by apply good_groupb_sound; vm_compute.
  - by vm_compute.
  - by vm_compute.
  - by apply (bool_decide_unpack _); vm_compute.
Defined.
