(* ===== verification/Release.v ===== *)
(** * A deletion in which nothing fails

    The counterpart of [Faultless] and [GroupFaultless] for an object that is
    being deleted: when no call fails, one run of its controller lets it go. *)

From S2P Require Import Prelude GoLang Api Effects Externals Objects Params VolumeGroups Volumes.
From S2P Require Import Finalizers Driver VolumeGroupContents Membership VGController.
From S2P Require Import VGCController Histories Cluster Scenario ClaimDeletion VGSafety.
From S2P Require Import VGCProgress VGProgress Faultless GroupFaultless.

(** ** Executions whose answers depend on what came before

    [along] with a state that each event changes. *)

Section WithState.
Context {St : Type} (ok : St → ∀ c, resp c → Prop) (next : St → event → St).

Fixpoint along_in {A} (Q : St → option A → Prop) (s : St) (p : prog A) : Prop :=
  match p with
  | Ret a => Q s (Some a)
  | Panic _ => Q s None
  | Call c k => ∀ r, ok s c r → along_in Q (next s (Ev c r)) (k r)
  end.

Fixpoint steady (s : St) (tr : history) : Prop :=
  match tr with
  | [] => True
  | e :: tr => ok s (tr_call e) (tr_resp e) ∧ steady (next s e) tr
  end.

Lemma along_in_sound {A} (Q : St → option A → Prop) s p tr o :
  along_in Q s p → executes p tr o → steady s tr → Q (foldl next s tr) o.
Proof.
  intros Hp Hex. revert s Hp. induction Hex as [a|why|c k r tr o Hex IH]; intros s Hp Htr; [done..|].
  destruct Htr as [Hok Htr]. apply IH; [|done]. by apply Hp.
Qed.

Lemma along_in_bind {A B} (Q : St → option B → Prop) (f : A → prog B) s p :
  along_in (λ s', after (λ a, along_in Q s' (f a)) (Q s' None)) s p → along_in Q s (p ≫= f).
Proof.
  revert s. induction p as [a|why|c k IH]; intros s; [done..|].
  intros Hk r Hr. apply IH, Hk, Hr.
Qed.

Lemma along_in_mono {A} (Q Q' : St → option A → Prop) s p :
  along_in Q s p → (∀ s o, Q s o → Q' s o) → along_in Q' s p.
Proof.
  intros Hp HQ. revert s Hp. induction p as [a|why|c k IH]; intros s Hp; [by apply HQ..|].
  intros r Hr. by apply IH, Hp.
Qed.

(** A program none of whose calls reads or changes the state. *)
Lemma along_in_along {A} (ok' : ∀ c, resp c → Prop) (Q : option A → Prop) S R s p :
  Spec p S R → (∀ c r, S c → ok s c r → ok' c r) → (∀ c r, S c → next s (Ev c r) = s) →
  along ok' Q p → along_in (λ s' o, s' = s ∧ Q o) s p.
Proof.
  unfold Spec. intros HS Hok Hnext Hp. induction p as [a|why|c k IH]; [done..|].
  destruct HS as [Hc HS]. intros r Hr. rewrite Hnext by done. apply IH; [done|].
  by apply Hp, Hok.
Qed.
End WithState.

Section Release.
Context `{ExternalLaws} (cfg : DriverConfig) (req : NamespacedName).

(** A content with a deletion policy and a source. *)
Definition whole (vgc : VolumeGroupContent) : Prop :=
  is_Some (vgcspec_VolumeGroupDeletionPolicy (vgc_Spec vgc)) ∧
  is_Some (vgcspec_Source (vgc_Spec vgc)).

Definition gone {A} (r : error + A) : Prop := ∃ e, r = inl e ∧ IsNotFound e = true.

(** No error, except that the VolumeGroup of the content is gone, and that the
    content of the VolumeGroup and the claims may be. *)
Definition releasing (c : call) : resp c → Prop :=
  match c with
  | CGet K k =>
      match K return error + obj_of K → Prop with
      | KVG => gone
      | KVGC => λ r, succeeded whole r ∨ gone r
      | KPVC => λ r, succeeded (λ pvc, key_of KPVC pvc = k) r ∨ gone r
      | _ => succeeded (λ _, True)
      end
  | CUpdate K _ | CStatusUpdate K _ =>
      match K return error + obj_of K → Prop with
      | KVGC => succeeded whole
      | _ => succeeded (λ _, True)
      end
  | CList K =>
      match K return error + list (obj_of K) → Prop with
      | KVG => succeeded (Forall good_group)
      | KPVC => succeeded (Forall classed)
      | _ => succeeded (λ _, True)
      end
  | CCreate _ _ => succeeded (λ _, True)
  | CCreateVolumeGroup _ _ _ => λ _, True
  | CDelete _ _ | CDeleteVolumeGroup _ _ | CModifyVolumeGroupMembership _ _ _
  | CListUnstructured _ => λ r, r = None
  | CNow | CRandInts _ | CMapOrder | CSleep _ => λ _, True
  end.

Abbreviation Releasing := (along releasing).

(** The answer of the last call. *)
Ltac answered :=
  match goal with
  | Hr : releasing _ ?r |- _ =>
      cbn in Hr; unfold gone in Hr;
      first [subst r | destruct Hr as (? & -> & ?) | destruct Hr as [(? & -> & ?)|(? & -> & ?)]]
  end.

Ltac release_step :=
  first [answered; cbn [after along] | progress cbn [on_err] | along_step].

(** An operation of [GroupFaultless] whose calls are answered alike. *)
Ltac smoothly H :=
  eapply along_mono;
    [eapply along_on; [typeclasses eauto| |apply H];
     let c := fresh "c" in intros c; destruct c as [[]|[]| |[]|[]|[]|[]| | | | | | |]; cbn; first [tauto|intuition congruence]
    |cbn beta].

Definition let_done {A} (P : A → Prop) (o : option (option error * A)) : Prop :=
  ∃ v, o = Some (None, v) ∧ P v.

(** ** The claims and volumes of a content *)

Lemma updateFinalizer_releasing K fs (o : obj_of K) (P : obj_of K → Prop) :
  (∀ o r, releasing (CUpdate K o) r → succeeded P r) →
  Releasing (let_done P) (updateFinalizer K fs o).
Proof.
  intros HP. unfold updateFinalizer. apply (along_retry _ _ (λ _, True)); [|done]. intros s _.
  unfold finalizerRetryOnConflictFunc, UpdateObject. do 3 along_step.
  match goal with Hr : releasing _ _ |- _ => apply HP in Hr as (v & -> & Hv) end.
  repeat release_step. split; [by exists v|done].
Qed.

Lemma pvc_of_pv_releasing pv d : Releasing (λ o, ∃ c, o = Some (inr c)) (pvc_of_pv pv d).
Proof.
  unfold pvc_of_pv, getMatchingPVCFromPVCListToPV, getPVCNameFromPV, getPVCNamespaceFromPV.
  autorewrite with reflect.
  repeat first
    [ match goal with |- Releasing _ (GetPVCList _) => smoothly GetPVCList_smooth; intros ? (l & -> & _) end
    | release_step ]; by eexists.
Qed.

Lemma RemovePVFromVGC_releasing pv vgc : whole vgc → Releasing (let_done whole) (RemovePVFromVGC pv vgc).
Proof.
  intros Hw. unfold RemovePVFromVGC, updateVGCStatusPVList. do 2 along_step.
  eapply along_mono.
  - apply (along_retry _ _ (λ _, True)); [|done]. intros s _.
    unfold vgcRetryOnConflictFunc, UpdateObjectStatus. repeat release_step.
    split; [|done]. instantiate (1 := let_done whole). by eexists.
  - intros ? (v & -> & Hv). repeat release_step. by exists v.
Qed.

(** ** The content *)

Lemma removeVGC_releasing vgc secret : whole vgc → Releasing (let_done whole) (removeVGC vgc secret).
Proof.
  intros [[p Hp] [src Hsrc]]. unfold removeVGC, deleteVG, request_Delete, DeleteVolumeGroup,
    RemoveFinalizerFromVGC. rewrite Hp, Hsrc.
  repeat first
    [ match goal with |- Releasing _ (updateFinalizer _ _ _) =>
        eapply along_mono; [by apply (updateFinalizer_releasing KVGC _ _ whole)|intros ? (v & -> & Hv)]
      end
    | release_step ].
  all: first [by simplify_eq/=|by (eexists; split)].
Qed.

Lemma IsVgExist_releasing vgc : Releasing (λ o, o = Some (inr false)) (IsVgExist vgc).
Proof.
  unfold IsVgExist, GetVG. autorewrite with reflect. repeat release_step; try done.
  all: by match goal with He : IsNotFound _ = true |- _ => rewrite He in * end.
Qed.

Definition release_calls (c : call) : Prop :=
  match c with
  | CDeleteVolumeGroup _ _ | CUpdate KVGC _ | CGet KVGC _ => True
  | _ => False
  end.

(** ** The claims of a content

    The loop over the volumes comes back to claims it has deleted, so that a claim
    may be gone; but one that was just read is still there when it is read again. *)

Definition in_hand (s : option NamespacedName) (e : event) : option NamespacedName :=
  match tr_call e as c return resp c → option NamespacedName with
  | CGet K k =>
      match K return error + obj_of K → option NamespacedName with
      | KPVC => λ r, match r with inr _ => Some k | inl _ => None end
      | _ => λ _, s
      end
  | CDelete K _ => λ _, match K with KPVC => None | _ => s end
  | _ => λ _, s
  end (tr_resp e).

Definition releasing_in (s : option NamespacedName) (c : call) (r : resp c) : Prop :=
  releasing c r ∧
  match c return resp c → Prop with
  | CGet K k =>
      match K return error + obj_of K → Prop with
      | KPVC => λ r, s = Some k → ∃ pvc, r = inr pvc
      | _ => λ _, True
      end
  | _ => λ _, True
  end r.

Abbreviation Held := (along_in releasing_in in_hand).

(** An operation that reads and deletes no claim. *)
Ltac quietly H :=
  eapply along_in_mono;
    [eapply along_in_along; [typeclasses eauto| | |apply H; auto];
     [let c := fresh "c" in
      intros c r Hc [Hr _]; revert r Hc Hr;
      destruct c as [[]|[]| |[]|[]|[]|[]| | | | | | |]; cbn; first [tauto|intuition congruence]
     |let c := fresh "c" in intros c; destruct c as [[]|[]| |[]|[]|[]|[]| | | | | | |]; cbn; first [tauto|intuition congruence]]
    |cbn beta].

Ltac held_step :=
  match goal with
  | |- Held _ _ (_ ≫= _) => apply along_in_bind
  | |- Held _ _ (trigger _) => intros ? [? ?]
  | |- Held _ _ (or_panic _ _) => unfold or_panic
  | |- Held _ _ (deref _) => unfold deref
  | |- Held _ _ (mret _) => unfold mret, prog_ret
  | |- Held _ _ (Ret _) => cbn [along_in after in_hand tr_call tr_resp]
  | |- Held _ _ (match ?x with _ => _ end) => destruct x eqn:?
  | |- after _ _ _ => progress cbn [after along_in]
  end.

Lemma updateFinalizer_held s fs (pvc : PersistentVolumeClaim) :
  Held (λ _, let_done (λ _, True)) s (updateFinalizer KPVC fs pvc).
Proof.
  unfold updateFinalizer. rewrite RetryOnConflict_spec. destruct retries; cbn [retry_attempts].
  all: apply along_in_bind; unfold finalizerRetryOnConflictFunc, UpdateObject.
  all: intros r [Hr _]; cbn in Hr; destruct Hr as (v & -> & _); cbn; by exists v.
Qed.

(** A claim in hand is read. *)
Lemma read_held {A} (Q : option NamespacedName → option A → Prop) pvc
    (f : error + PersistentVolumeClaim → prog A) :
  (∀ pvc', key_of KPVC pvc' = key_of KPVC pvc → Held Q (Some (key_of KPVC pvc)) (f (inr pvc'))) →
  Held Q (Some (key_of KPVC pvc)) (trigger (CGet KPVC (key_of KPVC pvc)) ≫= f).
Proof.
  intros Hf r [Hr Hin]. cbn in Hr, Hin. destruct (Hin eq_refl) as [pvc' ->].
  destruct Hr as [(? & Heq & Hk)|(? & ? & _)]; [|done]. injection Heq as <-. exact (Hf _ Hk).
Qed.

Lemma isFinalizerShouldBeRemoved_held d pvc :
  Held (λ s o, s = Some (key_of KPVC pvc) ∧ ∃ b, o = Some (inr b))
    (Some (key_of KPVC pvc)) (isFinalizerShouldBeREmovedFromPVC d pvc).
Proof.
  unfold isFinalizerShouldBeREmovedFromPVC, GetPVC. apply read_held. intros pvc' _.
  held_step. quietly GetVGList_smooth. intros s ? [-> [l ->]]. cbn. split; [done|by eexists].
Qed.

Lemma RemoveFinalizerFromPVC_held d pvc :
  Held (λ _, let_done (λ _, True)) (Some (key_of KPVC pvc)) (RemoveFinalizerFromPVC d pvc).
Proof.
  unfold RemoveFinalizerFromPVC, getNamespacedObject. held_step.
  eapply along_in_mono; [apply isFinalizerShouldBeRemoved_held|].
  intros ? ? (-> & [] & ->); cbn [after]; [|by eexists].
  do 2 held_step. apply read_held. intros pvc' _. repeat held_step.
  eapply along_in_mono; [apply updateFinalizer_held|]. intros ? ? (v & -> & _). by eexists.
Qed.

Lemma deletePVC_held s n ns d : Held (λ _ o, o = Some None) s (deletePVC n ns d).
Proof.
  unfold deletePVC, GetPVC, removePVCObject. apply along_in_bind. intros r [Hr _]. cbn in Hr.
  destruct Hr as [(pvc & -> & Hk)|(e & -> & He)];
    cbn [along_in after in_hand tr_call tr_resp]; [|by rewrite He].
  rewrite <- Hk. held_step. eapply along_in_mono; [apply RemoveFinalizerFromPVC_held|].
  intros ? ? (v & -> & _). cbn [after]. repeat held_step; [|done].
  by match goal with Hr : releasing _ _ |- _ => cbn in Hr end.
Qed.

Lemma DeletePVCsUnderVGC_loop_held d rounds i sl shared s vgc :
  slice_wf sl → i + rounds ≤ length (s_arr sl) → whole vgc →
  Held (λ _, let_done whole) s (DeletePVCsUnderVGC_loop rounds i sl shared vgc d).
Proof.
  revert i sl shared s vgc. induction rounds as [|rounds IH]; intros i sl shared s vgc Hwf Hlen Hw;
    cbn [DeletePVCsUnderVGC_loop]; [by exists vgc|].
  destruct (lookup_lt_is_Some_2 (s_arr sl) i) as [pv Hpv]; [lia|]. rewrite Hpv.
  destruct (removeFromPVList_slice_ok pv sl Hwf) as (Hwf' & Hcap & _).
  do 3 held_step. cbn [after]. held_step. quietly pvc_of_pv_releasing.
  intros ? ? [-> ([[n ns]|] & ->)]; cbn [after]; [|apply IH; [done|lia|done]].
  held_step. eapply along_in_mono; [apply deletePVC_held|]. intros ? ? ->. cbn [after].
  held_step. quietly RemovePVFromVGC_releasing. intros ? ? [-> (v & -> & Hv)]. cbn [after].
  destruct shared; [|apply IH; [done|lia|done]].
  pose proof (decode_list_ok (vgcst_PVList (vgc_Status v))
                (removeFromPVList_slice pv sl) Hwf') as [Hwf2 Hcap2].
  destruct (decode_list _ _) as [s2 sh]. cbn in *. apply IH; [done|lia|done].
Qed.

Lemma DeletePVCsUnderVGC_held d s vgc :
  whole vgc → Held (λ _, let_done whole) s (DeletePVCsUnderVGC vgc d).
Proof. apply DeletePVCsUnderVGC_loop_held; [apply slice_of_wf|cbn; lia]. Qed.

#[local] Instance removeVGC_calls vgc secret : Spec (removeVGC vgc secret) release_calls any.
Proof. unfold removeVGC, Spec. solve_triple. Qed.

Lemma handleVGCWithDeletionTimestamp_held s vgc secret :
  whole vgc → Held (λ _, let_done (λ _, True)) s (handleVGCWithDeletionTimestamp cfg vgc secret).
Proof.
  intros Hw. unfold handleVGCWithDeletionTimestamp. held_step. quietly IsVgExist_releasing.
  intros ? ? [-> ->]. cbn [after]. held_step; [|by exists vgc]. held_step.
  apply (along_in_mono _ _ (λ _, let_done whole)).
  - held_step; [by apply DeletePVCsUnderVGC_held|by exists vgc].
  - intros s' ? (v & -> & Hv). cbn [after]. held_step. quietly removeVGC_releasing.
    intros ? ? [-> (v' & -> & _)]. by exists v'.
Qed.
(** ** The controllers *)

Lemma GetSecretDataFromClass_releasing cl :
  Releasing (λ o, ∃ secret, o = Some (inr secret)) (GetSecretDataFromClass cl).
Proof. smoothly GetSecretDataFromClass_smooth. done. Qed.

Lemma Reconcile_class_vgc_held s vgc cl :
  is_Some (om_DeletionTimestamp (vgc_ObjectMeta vgc)) →
  map_Forall valid_parameter (vgclass_Parameters cl) → whole vgc →
  Held (λ _ o, o = Some (Result_zero, None)) s (VGCController.Reconcile_class cfg vgc cl).
Proof.
  intros [t Hd] Hv Hw. unfold VGCController.Reconcile_class. rewrite Hd. cbn [IsZero].
  held_step. quietly (ValidatePrefixedParameters_along releasing). intros ? ? [-> ->]. cbn [after].
  held_step. quietly GetSecretDataFromClass_releasing. intros ? ? [-> [secret ->]]. cbn [after].
  held_step. eapply along_in_mono; [by apply handleVGCWithDeletionTimestamp_held|].
  intros ? ? (v & -> & _). done.
Qed.

Lemma removeInstance_releasing vg : Releasing (let_done (λ _, True)) (removeInstance vg).
Proof.
  unfold removeInstance, GetVGC, removeVGCObject, RemoveFinalizerFromVG. autorewrite with reflect.
  repeat first
    [ match goal with
      | |- Releasing _ (updateFinalizer _ _ _) =>
          eapply along_mono; [by apply (updateFinalizer_releasing KVG _ _ (λ _, True))|
                              intros ? (v & -> & _)]
      | Hw : whole ?v |- context [vgcspec_VolumeGroupDeletionPolicy (vgc_Spec ?v)] =>
          destruct Hw as [[p Hp] _]; rewrite Hp
      | He : IsNotFound _ = true |- _ => rewrite He in *
      end
    | release_step ]; first [done|by simplify_eq/=|by (eexists; split)].
Qed.

Lemma Reconcile_class_vg_releasing vg cl :
  is_Some (om_DeletionTimestamp (vg_ObjectMeta vg)) →
  map_Forall valid_parameter (vgclass_Parameters cl) →
  Releasing (λ o, o = Some (Result_zero, None)) (VGController.Reconcile_class cfg vg cl).
Proof.
  intros [t Hd] Hv. unfold VGController.Reconcile_class. rewrite Hd. cbn [IsZero].
  along_step. run_by ValidatePrefixedParameters_along. intros ? ->. cbn [after].
  along_step; [|done]. along_step. run_by removeInstance_releasing. intros ? (v & -> & _). done.
Qed.

(** A run for a content of the operator's class that is being deleted and
    that only the operator holds, to which no call fails and whose VolumeGroup is
    gone, succeeds: the claims are dealt with, the group is deleted at the driver
    if the policy says so, and the finalizer is taken off. *)
Theorem vgc_faultless_release vgc k cl rest out :
  executes (VGCController.Reconcile cfg req)
    (Ev (CGet KVGC req) (inr vgc) :: Ev (CGet KVGClass k) (inr cl) :: rest) out →
  steady releasing_in in_hand None rest →
  whole vgc → or_empty (vgcspec_VolumeGroupClassName (vgc_Spec vgc)) ≠ ""%string →
  is_Some (om_DeletionTimestamp (vgc_ObjectMeta vgc)) →
  VgcFinalizer ∈ GetFinalizers KVGC vgc →
  (∀ f, f ∈ GetFinalizers KVGC vgc → str_Contains f VGFinalizer = true) →
  vgclass_Driver cl = DriverName cfg → map_Forall valid_parameter (vgclass_Parameters cl) →
  out = Some (Result_zero, None) ∧ let_go rest vgc.
Proof.
  intros Hex Hrest Hw Hcn Hd Hown Hother Hdr Hv. apply vgc_to_class in Hex; [|done].
  rewrite decide_False in Hex by congruence.
  assert (out = Some (Result_zero, None)) as ->
    by exact (along_in_sound _ _ (λ _ o, o = Some (Result_zero, None)) _ _ _ _
              (Reconcile_class_vgc_held None vgc cl Hd Hv Hw) Hex Hrest).
  split; [done|]. by eapply vgc_class_let_go.
Qed.

(** A run for a VolumeGroup of the operator's class that is being deleted
    and that only the operator holds, to which no call fails, succeeds: its content
    is absent, kept by policy or deleted, and its finalizer is taken off. *)
Theorem vg_faultless_release vg k cl rest out :
  executes (VGController.Reconcile cfg req)
    (Ev (CGet KVG req) (inr vg) :: Ev (CGet KVGClass k) (inr cl) :: rest) out →
  Forall (λ e, releasing (tr_call e) (tr_resp e)) rest →
  or_empty (vgspec_VolumeGroupClassName (vg_Spec vg)) ≠ ""%string → vg_deletable vg →
  vgclass_Driver cl = DriverName cfg → map_Forall valid_parameter (vgclass_Parameters cl) →
  out = Some (Result_zero, None) ∧ vg_let_go rest vg.
Proof.
  intros Hex Hrest Hcn Hd Hdr Hv. apply vg_to_class in Hex; [|done].
  rewrite decide_False in Hex by congruence.
  assert (out = Some (Result_zero, None)) as ->
    by exact (along_sound _ (λ o, o = Some (Result_zero, None)) _ _ _
              (Reconcile_class_vg_releasing vg cl (proj1 Hd) Hv) Hex Hrest).
  split; [done|]. by eapply vg_class_let_go.
Qed.
End Release.

(** ** Witnesses: the deletion of the sample group *)

#[local] Existing Instance DocExternals.externals.
#[local] Existing Instance DocExternals.laws.

Definition wholeb (vgc : VolumeGroupContent) : bool :=
  bool_decide (is_Some (vgcspec_VolumeGroupDeletionPolicy (vgc_Spec vgc))) &&
  bool_decide (is_Some (vgcspec_Source (vgc_Spec vgc))).

Definition goneb {A} (r : error + A) : bool :=
  match r with inl e => IsNotFound e | inr _ => false end.

Definition releasingb (c : call) : resp c → bool :=
  match c with
  | CGet K k =>
      match K return error + obj_of K → bool with
      | KVG => goneb
      | KVGC => λ r, inr_such wholeb r || goneb r
      | KPVC => λ r, inr_such (λ pvc, bool_decide (key_of KPVC pvc = k)) r || goneb r
      | _ => inr_such (λ _, true)
      end
  | CUpdate K _ | CStatusUpdate K _ =>
      match K return error + obj_of K → bool with
      | KVGC => inr_such wholeb
      | _ => inr_such (λ _, true)
      end
  | CList K =>
      match K return error + list (obj_of K) → bool with
      | KVG => inr_such (forallb good_groupb)
      | KPVC => inr_such (forallb classedb)
      | _ => inr_such (λ _, true)
      end
  | CCreate _ _ => inr_such (λ _, true)
  | CCreateVolumeGroup _ _ _ => λ _, true
  | CDelete _ _ | CDeleteVolumeGroup _ _ | CModifyVolumeGroupMembership _ _ _
  | CListUnstructured _ => λ r, bool_decide (r = None)
  | CNow | CRandInts _ | CMapOrder | CSleep _ => λ _, true
  end.

Lemma wholeb_sound vgc : wholeb vgc = true → whole vgc.
Proof. unfold wholeb, whole. by rewrite andb_true_iff, !bool_decide_eq_true. Qed.

Lemma goneb_sound {A} (r : error + A) : goneb r = true → gone r.
Proof. destruct r as [e|]; [|done]. intros He. by exists e. Qed.

Lemma releasingb_sound c r : releasingb c r = true → releasing c r.
Proof.
  destruct c as [K ?|K|?|K ?|K ?|K ?|K ?| | | | | | |]; cbn; try done; try apply bool_decide_eq_true.
  all: destruct K; try apply inr_such_sound; try done.
  - apply goneb_sound.
  - intros [Hr|Hr]%orb_true_iff; [left|right; by apply goneb_sound].
    by eapply inr_such_sound; [apply wholeb_sound|].
  - intros [Hr|Hr]%orb_true_iff; [left|right; by apply goneb_sound].
    eapply inr_such_sound; [|exact Hr]. intros a. apply bool_decide_eq_true.
  - intros l. apply forallb_sound, good_groupb_sound.
  - intros l. apply forallb_sound, classedb_sound.
  - apply wholeb_sound.
  - apply wholeb_sound.
Qed.

Lemma releasing_run (tr : history) :
  forallb (λ e, releasingb (tr_call e) (tr_resp e)) tr = true →
  Forall (λ e, releasing (tr_call e) (tr_resp e)) tr.
Proof. apply forallb_sound. intros e. apply releasingb_sound. Qed.

Definition still_thereb (s : option NamespacedName) (e : event) : bool :=
  match tr_call e as c return resp c → bool with
  | CGet K k =>
      match K return error + obj_of K → bool with
      | KPVC => λ r, implb (bool_decide (s = Some k)) (inr_such (λ _, true) r)
      | _ => λ _, true
      end
  | _ => λ _, true
  end (tr_resp e).

Fixpoint steadyb (s : option NamespacedName) (tr : history) : bool :=
  match tr with
  | [] => true
  | e :: tr => releasingb (tr_call e) (tr_resp e) && still_thereb s e && steadyb (in_hand s e) tr
  end.

Lemma steadyb_sound s tr : steadyb s tr = true → steady releasing_in in_hand s tr.
Proof.
  revert s. induction tr as [|e tr IH]; intros s; [done|]. cbn [steadyb steady].
  intros [[Hr Hs]%andb_true_iff Htr]%andb_true_iff. split; [|by apply IH].
  split; [by apply releasingb_sound|]. destruct e as [c r].
  destruct c as [[]| | | | | | | | | | | | |]; try done. cbn in *. intros ->.
  rewrite bool_decide_true in Hs by done. destruct r as [e|pvc]; [done|by exists pvc].
Qed.

Lemma vgc_faultless_release_witness :
  run_outcome serve Scenario.reconcile_vgc Scenario.vg_deleted = Some (Result_zero, None) ∧
  let_go (drop 2 VGCProgress.delete_run) dying_content.
Proof.
  pose proof (run_executes serve Scenario.reconcile_vgc Scenario.vg_deleted) as Hex.
  rewrite vgc_delete_run_starts in Hex.
  eapply (vgc_faultless_release Samples.config Samples.vgc_req dying_content _ VGCProgress.stored_class).
  - exact Hex.
  - by apply steadyb_sound; vm_compute.
  - by apply wholeb_sound; vm_compute.
  - by vm_compute.
  - by apply (bool_decide_unpack _); vm_compute.
  - by apply (bool_decide_unpack _); vm_compute.
  - apply (proj1 (IsContainOtherFinalizers_false KVGC dying_content)). by vm_compute.
  - by vm_compute.
  - by apply (bool_decide_unpack _); vm_compute.
Defined.

Lemma vg_faultless_release_witness :
  run_outcome serve Scenario.reconcile_vg Scenario.vg_deleting = Some (Result_zero, None) ∧
  vg_let_go (drop 2 VGProgress.delete_run) dying_group.
Proof.
  pose proof (run_executes serve Scenario.reconcile_vg Scenario.vg_deleting) as Hex.
  rewrite vg_delete_run_starts in Hex.
  eapply (vg_faultless_release Samples.config Samples.vg_req dying_group _ VGProgress.stored_class).
  - exact Hex.
  - by apply releasing_run; vm_compute.
  - by vm_compute.
  - split; [by apply (bool_decide_unpack _); vm_compute|].
    split; [by apply (bool_decide_unpack _); vm_compute|].
    apply (proj1 (IsContainOtherFinalizers_false KVG dying_group)). by vm_compute.
  - by vm_compute.
  - by apply (bool_decide_unpack _); vm_compute.
Defined.
