(* ===== verification/Quiet.v ===== *)
(** * Runs on a server of its own

    The logic of runs on a server with the behaviour of [Cluster], from any state
    of the cluster and with nobody else writing.  [Like] is what a server has to
    do: answer as [Cluster.serve], but for the creation of events, which may fail
    (their names may be taken; [Accepts] says that it does not), and the identifiers
    and attributes that the driver gives to groups, which it chooses. *)

From stdpp Require Import pretty.
From S2P Require Import Prelude GoLang Api Effects Externals Objects Params VolumeGroups Volumes.
From S2P Require Import Finalizers Driver VolumeGroupContents Membership Histories Cluster.

(** ** What a run changes *)

(** The two clusters differ in objects of kind [K] and in events only. *)
Definition elsewhere (K : Kind) (w w' : cluster) : Prop :=
  (∀ K', K' ≠ K → K' ≠ KEvent → store w' K' = store w K') ∧ groups w' = groups w.

(** They differ in events only. *)
Abbreviation same := (elsewhere KEvent).

#[export] Instance elsewhere_preorder K : PreOrder (elsewhere K).
Proof.
  split; [by intros w|]. intros w1 w2 w3 [H12 Hg12] [H23 Hg23]. split; [|congruence].
  intros K' HK HE. by rewrite H23, H12.
Qed.

Lemma same_elsewhere K w w' : same w w' → elsewhere K w w'.
Proof. intros [Hs Hg]. split; auto. Qed.

Lemma same_store K w w' : same w w' → K ≠ KEvent → store w' K = store w K.
Proof. intros [Hs _]. auto. Qed.

Lemma put_store_same K m s : put_store K m s K = m.
Proof. by destruct K. Qed.

Lemma put_store_ne K K' m s : K' ≠ K → put_store K m s K' = s K'.
Proof. intros Hne. unfold put_store. by case_decide. Qed.

(** ** The server *)

Definition ordinary (c : call) : Prop :=
  match c with CCreate K _ => K ≠ KEvent | CCreateVolumeGroup _ _ _ => False | _ => True end.

(** A group the driver made, or had already, with its identifier. *)
Definition with_group_of (id : string) (w : cluster) : cluster :=
  mk_cluster (store w) (version w) (clock w) (<[id := default [] (groups w !! id)]> (groups w)).

Class Like (h : handler cluster) := {
  (** The identifier of the group of a name. *)
  group_id : string → string;
  group_id_named name : group_id name ≠ ""%string;
  like_serve c w : ordinary c → h c w = serve c w;
  like_event e w : same w (snd (h (CCreate KEvent e) w));
  like_group name secrets parameters w : ∃ attributes,
    h (CCreateVolumeGroup name secrets parameters) w =
      (inr {| cvgr_VolumeGroup := Some {| csi_VolumeGroupId := group_id name;
                                          csi_VolumeGroupContext := attributes |} |},
       with_group_of (group_id name) w);
}.
Arguments group_id h {_} name.

Class Accepts (h : handler cluster) : Prop :=
  accepts_event e w : ∃ a, fst (h (CCreate KEvent e) w) = inr a.

Lemma serve_group name secrets parameters w : ∃ attributes,
  serve (CCreateVolumeGroup name secrets parameters) w =
    (inr {| cvgr_VolumeGroup := Some {| csi_VolumeGroupId := ("group-" +:+ name)%string;
                                        csi_VolumeGroupContext := attributes |} |},
     with_group_of ("group-" +:+ name)%string w).
Proof.
  exists ∅. cbn [serve]. unfold with_group_of.
  destruct (groups w !! _) as [l|] eqn:Hg; cbn; [by rewrite insert_id|done].
Qed.

#[export] Instance serve_like : Like serve.
Proof.
  refine {| group_id name := ("group-" +:+ name)%string |}; [done|done| |apply serve_group].
  intros e w. cbn [serve]. destruct (store w KEvent !! _); [done|]. cbn.
  split; [|done]. intros K' HK _. by apply put_store_ne.
Defined.

(** [serve], but an event replaces one of its name. *)
Definition accepting : handler cluster := λ c,
  match c with
  | CCreate KEvent o => λ w, let '(o, w) := write KEvent (key_of KEvent o) o w in (inr o, w)
  | c => serve c
  end.

#[export] Instance accepting_like : Like accepting.
Proof.
  refine {| group_id name := ("group-" +:+ name)%string |}; [done| | |apply serve_group].
  - by intros [| | |[]| | | | | | | | | |].
  - intros e w. cbn. split; [|done]. intros K' HK _. by apply put_store_ne.
Defined.

#[export] Instance accepting_accepts : Accepts accepting.
Proof. intros e w. by eexists. Qed.

(** ** The logic *)

Definition runs (h : handler cluster) {A} (p : prog A) (w : cluster)
    (Q : option A → cluster → Prop) : Prop :=
  Q (run_outcome h p w) (run_world h p w).

Section Runs.
Context (h : handler cluster) `{!Like h}.

Lemma runs_bind {A B} (p : prog A) (f : A → prog B) w (Q : option B → cluster → Prop) :
  runs h p w (λ o w', after (λ a, runs h (f a) w' Q) (Q None w') o) → runs h (p ≫= f) w Q.
Proof.
  unfold runs, run_outcome, run_world. rewrite run_bind.
  destruct (run h p w) as [[tr [a|]] w']; cbn; [|done].
  by destruct (run h (f a) w') as [[tr' o'] w''].
Qed.

Lemma runs_mono {A} (p : prog A) w (Q Q' : option A → cluster → Prop) :
  runs h p w Q → (∀ o w', Q o w' → Q' o w') → runs h p w Q'.
Proof. unfold runs. auto. Qed.

Lemma runs_ret {A} (a : A) w (Q : option A → cluster → Prop) : Q (Some a) w → runs h (mret a) w Q.
Proof. done. Qed.

Lemma runs_call c r w' w (Q : option (resp c) → cluster → Prop) :
  h c w = (r, w') → Q (Some r) w' → runs h (trigger c) w Q.
Proof. unfold runs, run_outcome, run_world. cbn [trigger run]. by intros ->. Qed.

Lemma runs_trigger c r w' w (Q : option (resp c) → cluster → Prop) :
  ordinary c → serve c w = (r, w') → Q (Some r) w' → runs h (trigger c) w Q.
Proof. intros Hc Hs. apply runs_call. by rewrite like_serve. Qed.

Lemma runs_get K k (o : obj_of K) w (Q : option (error + obj_of K) → cluster → Prop) :
  store w K !! k = Some o → Q (Some (inr o)) w → runs h (trigger (CGet K k)) w Q.
Proof. intros Hk. apply (runs_trigger (CGet K k) (inr o) w); [done|]. cbn. by rewrite Hk. Qed.

(** ** Programs that change little *)

Definition readonly (c : call) : Prop :=
  match c with
  | CGet _ _ | CList _ | CListUnstructured _ | CRandInts _ | CMapOrder | CSleep _ => True
  | _ => False
  end.

(** Reads, the clock and events. *)
Definition aside (c : call) : Prop :=
  readonly c ∨ c = CNow ∨ ∃ e, c = CCreate KEvent e.

Lemma readonly_serve c w : readonly c → snd (h c w) = w.
Proof. intros Hc. rewrite like_serve; by destruct c. Qed.

Lemma aside_serve c w : aside c → same w (snd (h c w)).
Proof.
  intros [Hc|[->|[e ->]]]; [by rewrite readonly_serve|by rewrite like_serve|apply like_event].
Qed.

(** What each call of a program keeps, the program keeps. *)
Lemma runs_keeps {A} (p : prog A) S R (P : relation cluster) `{!PreOrder P} w :
  Spec p S R → (∀ c w, S c → P w (snd (h c w))) → runs h p w (λ o w', R o ∧ P w w').
Proof.
  unfold Spec. intros HS Hkeep. revert w. induction p as [a|why|c k IH]; intros w; [by split..|].
  destruct HS as [Hc HS]. specialize (Hkeep c w Hc) as Hw.
  unfold runs, run_outcome, run_world in *. cbn [run]. destruct (h c w) as [r w1].
  destruct (IH r (HS r) w1) as [HR Hw']. destruct (run h (k r) w1) as [[tr o] w'].
  split; [done|]. by transitivity w1.
Qed.

Lemma runs_readonly {A} (p : prog A) S R w :
  Spec p S R → (∀ c, S c → readonly c) → runs h p w (λ o w', R o ∧ w' = w).
Proof.
  intros HS Hread. eapply (runs_mono _ _ (λ o w', R o ∧ w = w')).
  - eapply (runs_keeps _ _ _ eq); [done|]. intros c w0 Hc. by rewrite readonly_serve by auto.
  - by intros o w' [? ->].
Qed.

Lemma runs_aside {A} (p : prog A) S R w :
  Spec p S R → (∀ c, S c → aside c) → runs h p w (λ o w', R o ∧ same w w').
Proof. intros HS Haside. eapply runs_keeps; [apply _|done|]. auto using aside_serve. Qed.

(** Events are accepted. *)
Lemma createEvent_runs `{!Externals} `{!Accepts h} e w :
  runs h (createEvent e) w (λ r w', r = Some None ∧ same w w').
Proof.
  unfold createEvent. apply runs_bind. destruct (accepts_event e w) as [a Ha].
  apply (runs_call (CCreate KEvent e) (inr a) (snd (h (CCreate KEvent e) w))); [by rewrite <- Ha; apply surjective_pairing|].
  split; [done|]. apply like_event.
Qed.

(** ** Writes *)

(** The object at version [v]. *)
Definition at_version (K : Kind) (v : string) (o : obj_of K) : obj_of K :=
  SetObjectMeta K (set_version v (GetObjectMeta K o)) o.

Lemma at_version_same K (o : obj_of K) : at_version K (version_of K o) o = o.
Proof. unfold at_version, version_of. by destruct K, o as [? []]. Qed.

Lemma key_of_at_version K v (o : obj_of K) : key_of K (at_version K v o) = key_of K o.
Proof. by destruct K, o. Qed.

(** What a write of the object [o] of kind [K] at the key [k] leaves. *)
Definition wrote (K : Kind) (k : NamespacedName) (o : obj_of K) (w w' : cluster) : Prop :=
  store w' K = <[k := o]> (store w K) ∧ elsewhere K w w'.

(** The object at [k] is [o], and it is not being deleted. *)
Definition stored (K : Kind) (k : NamespacedName) (w : cluster) (o : obj_of K) : Prop :=
  store w K !! k = Some o ∧ key_of K o = k ∧ om_DeletionTimestamp (GetObjectMeta K o) = None.

(** [o'] is [o] with other labels, another specification or status, or other finalizers. *)
Definition edited (K : Kind) (o o' : obj_of K) : Prop :=
  key_of K o' = key_of K o ∧ version_of K o' = version_of K o ∧
  om_DeletionTimestamp (GetObjectMeta K o') = om_DeletionTimestamp (GetObjectMeta K o).

Lemma wrote_stored K k o w w' :
  wrote K k o w w' → key_of K o = k → om_DeletionTimestamp (GetObjectMeta K o) = None →
  stored K k w' o.
Proof. intros [Hst _] Hk Hd. split; [|done]. by rewrite Hst, lookup_insert_eq. Qed.

Lemma stored_elsewhere K K' k o w w' :
  elsewhere K w w' → K' ≠ K → K' ≠ KEvent → stored K' k w o → stored K' k w' o.
Proof. intros [Hs _] HK HE (Ho & ? & ?). split; [|done]. by rewrite Hs. Qed.

Lemma stored_same K k o w w' : same w w' → K ≠ KEvent → stored K k w o → stored K k w' o.
Proof. intros Hs HK. by apply (stored_elsewhere KEvent). Qed.

Lemma stored_other K k k' o o' w w' :
  wrote K k o w w' → k' ≠ k → stored K k' w o' → stored K k' w' o'.
Proof. intros [Hst _] Hk (Ho & ? & ?). split; [|done]. by rewrite Hst, lookup_insert_ne. Qed.

Lemma wrote_refl K k o w : stored K k w o → wrote K k o w w.
Proof. intros (Hst & _). split; [by rewrite insert_id|done]. Qed.

Lemma wrote_trans K k o1 o2 w w1 w2 : wrote K k o1 w w1 → wrote K k o2 w1 w2 → wrote K k o2 w w2.
Proof.
  intros [H1 Hel1] [H2 Hel2]. split; [by rewrite H2, H1, insert_insert_eq|by etrans].
Qed.

(** Events do not matter. *)
Lemma wrote_same K k o w w1 w2 : wrote K k o w w1 → same w1 w2 → K ≠ KEvent → wrote K k o w w2.
Proof.
  intros [H1 Hel1] Hs HK. split; [by rewrite (same_store K _ _ Hs)|].
  etrans; [done|by apply same_elsewhere].
Qed.

(** A write of an object that is not being deleted. *)
Lemma write_living K k o w :
  om_DeletionTimestamp (GetObjectMeta K o) = None →
  ∃ v w', write K k o w = (at_version K v o, w') ∧ wrote K k (at_version K v o) w w'.
Proof.
  intros Hd. eexists _, _. split; [reflexivity|]. unfold wrote, elsewhere. cbn.
  rewrite GetObjectMeta_Set. cbn [set_version om_DeletionTimestamp]. rewrite Hd, andb_false_r.
  split; [by rewrite put_store_same|]. split; [|done]. intros K' HK' _. by apply put_store_ne.
Qed.

(** An update of the object as it is stored, of one that is not being deleted. *)
Lemma change_saved K k o o' (make : obj_of K → obj_of K) w :
  stored K k w o → edited K o o' → edited K o (make o) →
  ∃ v w', change K o' make w = (inr (at_version K v (make o)), w') ∧
          wrote K k (at_version K v (make o)) w w'.
Proof.
  intros (Hst & Hk & Hd) (Hk' & Hv' & _) (Hkm & _ & Hdm). unfold change.
  rewrite Hk', Hk, Hst, decide_True by done. destruct (decide (make o = o)) as [Heq|Hne].
  - exists (version_of K o), w. rewrite Heq, at_version_same. split; [done|].
    split; [|done]. by rewrite insert_id.
  - destruct (write_living K k (make o) w) as (v & w' & -> & Hw); [congruence|]. by exists v, w'.
Qed.

(** The update that takes the last finalizer off an object being deleted. *)
Lemma change_gone K o (make : obj_of K → obj_of K) w old :
  store w K !! key_of K o = Some old → version_of K o = version_of K old → make old ≠ old →
  GetFinalizers K (make old) = [] → is_Some (om_DeletionTimestamp (GetObjectMeta K (make old))) →
  ∃ a w', change K o make w = (inr a, w') ∧
          store w' K = delete (key_of K o) (store w K) ∧ elsewhere K w w'.
Proof.
  intros Hold Hver Hne Hf [t Hd]. unfold change. rewrite Hold, decide_True, decide_False by done.
  eexists _, _. unfold write at 1. split; [done|]. unfold write, elsewhere. cbn.
  rewrite GetObjectMeta_Set. cbn [set_version om_DeletionTimestamp]. rewrite Hd.
  unfold GetFinalizers in *. rewrite GetObjectMeta_Set. cbn [set_version om_Finalizers]. rewrite Hf.
  rewrite put_store_same. split; [done|]. split; [|done]. intros K' HK' _. by apply put_store_ne.
Qed.

(** The deletion of an object that somebody holds marks it. *)
Definition marked (K : Kind) (t : Z) (o : obj_of K) : obj_of K :=
  SetObjectMeta K (set_deleted t (GetObjectMeta K o)) o.

Lemma delete_held K (o old : obj_of K) w :
  store w K !! key_of K o = Some old → key_of K old = key_of K o → GetFinalizers K old ≠ [] →
  ∃ v w', serve (CDelete K o) w = (None, w') ∧
          wrote K (key_of K o) (at_version K v (marked K (clock w) old)) w w'.
Proof.
  intros Hst Hk Hf. cbn [serve]. rewrite Hst. fold (marked K (clock w) old).
  set (o' := marked K (clock w) old). eexists _, _. split; [done|]. unfold wrote, elsewhere. cbn.
  assert (key_of K o' = key_of K o) as -> by by rewrite <- Hk; destruct K, old as [? []].
  assert (∀ v, GetFinalizers K (at_version K v o') ≠ []) as Hf' by by intros v; destruct K, old as [? []].
  fold (at_version K (pretty (version w)) o'). rewrite bool_decide_false by apply Hf'. cbn [andb].
  rewrite put_store_same. split; [done|]. split; [|done]. intros K' HK' _. by apply put_store_ne.
Qed.

(** What the caller of a write gets back, and what is stored then. *)
Definition saved (K : Kind) (k : NamespacedName) (o : obj_of K) (w : cluster)
    (r : option (option error * obj_of K)) (w' : cluster) : Prop :=
  ∃ v, r = Some (None, at_version K v o) ∧ wrote K k (at_version K v o) w w'.

(** What a step that writes one object leaves: it returns the stored object, with
    what [P] says of it, and touches nothing else. *)
Definition kept_as (K : Kind) (k : NamespacedName) (P : obj_of K → Prop) (w : cluster)
    (r : option (option error * obj_of K)) (w' : cluster) : Prop :=
  ∃ a, r = Some (None, a) ∧ stored K k w' a ∧ wrote K k a w w' ∧ P a.

Lemma saved_kept K k o o' (P : obj_of K → Prop) w r w' :
  saved K k o' w r w' → stored K k w o → edited K o o' →
  (∀ v, P (at_version K v o')) → kept_as K k P w r w'.
Proof.
  intros (v & -> & Hw) (_ & Hk & Hd) (Hk' & _ & Hd') HP. eexists. split; [done|].
  split; [|split; [exact Hw|apply HP]].
  eapply wrote_stored; [done|by rewrite key_of_at_version, Hk'|].
  unfold at_version. rewrite GetObjectMeta_Set. exact (eq_trans Hd' Hd).
Qed.

(** Nothing had to be written. *)
Lemma kept_unwritten K k o (P : obj_of K → Prop) w :
  stored K k w o → P o → kept_as K k P w (Some (None, o)) w.
Proof. intros Hst HP. exists o. split; [done|]. split; [done|]. split; [by apply wrote_refl|done]. Qed.

Lemma kept_mono K k (P P' : obj_of K → Prop) w r w' :
  kept_as K k P w r w' → (∀ a, P a → P' a) → kept_as K k P' w r w'.
Proof. intros (a & -> & Hst & Hel & HP) HP'. exists a. auto. Qed.

Context `{ExternalLaws}.

Lemma UpdateObject_runs K k o o' w :
  stored K k w o → edited K o o' →
  runs h (UpdateObject K o') w (saved K k (with_status_of K o' o) w).
Proof.
  intros Hst He. unfold UpdateObject. apply runs_bind.
  destruct (change_saved K k o o' (λ old, with_status_of K o' old) w Hst He)
    as (v & w' & Hr & Hw); [by destruct He as (? & ? & ?), K|].
  apply (runs_trigger (CUpdate K o') _ _ _ _ I Hr). by exists v.
Qed.

Lemma UpdateObjectStatus_runs K k o o' w :
  stored K k w o → edited K o o' →
  runs h (UpdateObjectStatus K o') w (saved K k (with_status_of K o o') w).
Proof.
  intros Hst He. unfold UpdateObjectStatus. apply runs_bind.
  destruct (change_saved K k o o' (λ old, with_status_of K old o') w Hst He)
    as (v & w' & Hr & Hw); [by destruct K|].
  apply (runs_trigger (CStatusUpdate K o') _ _ _ _ I Hr). by exists v.
Qed.

(** A first attempt that succeeds is the whole retry. *)
Lemma runs_retry {St} (fn : St → prog (option error * St)) s w Q :
  runs h (fn s) w (λ o w', (∃ v, o = Some (None, v)) ∧ Q o w') → runs h (RetryOnConflict fn s) w Q.
Proof.
  unfold runs, run_outcome, run_world. intros [[v Hv] HQ].
  by rewrite (run_retry_ok h fn s w v).
Qed.

(** Finalizers are put on, or taken off, by one write. *)
Lemma updateFinalizer_runs K k o fs w :
  stored K k w o →
  runs h (updateFinalizer K fs (SetFinalizers K fs o)) w
    (saved K k (with_status_of K (SetFinalizers K fs o) o) w).
Proof.
  intros Hst. unfold updateFinalizer. apply runs_retry. unfold finalizerRetryOnConflictFunc.
  assert (SetFinalizers K fs (SetFinalizers K fs o) = SetFinalizers K fs o) as ->
    by by destruct K, o as [? []].
  apply runs_bind. eapply runs_mono.
  - apply (UpdateObject_runs K k o); [done|by destruct K, o].
  - intros r w' (v & -> & Hw). cbn [after on_err]. split; [by eexists|by exists v].
Qed.

(** The last finalizer is taken off an object being deleted: it disappears. *)
Lemma updateFinalizer_gone K o w :
  store w K !! key_of K o = Some o → is_Some (om_DeletionTimestamp (GetObjectMeta K o)) →
  GetFinalizers K o ≠ [] →
  runs h (updateFinalizer K [] (SetFinalizers K [] o)) w (λ r w', ∃ v, r = Some (None, v) ∧
    store w' K = delete (key_of K o) (store w K) ∧ elsewhere K w w').
Proof.
  intros Hst Hd Hf. unfold updateFinalizer. apply runs_retry.
  unfold finalizerRetryOnConflictFunc, UpdateObject. do 2 apply runs_bind.
  set (o' := SetFinalizers K [] (SetFinalizers K [] o)).
  assert (key_of K o' = key_of K o) as Hk by by destruct K, o as [? []].
  destruct (change_gone K o' (λ old, with_status_of K o' old) w o) as (a & w' & Hr & Hw & Hel).
  - by rewrite Hk.
  - by destruct K, o as [? []].
  - intros Heq. apply (f_equal (GetFinalizers K)) in Heq. rewrite <- Heq in Hf.
    by destruct K, o as [? []].
  - by destruct K, o as [? []].
  - by destruct K, o as [? []].
  - apply (runs_trigger (CUpdate K o') _ _ _ _ I Hr). cbn [after]. cbn [on_err].
    split; [by eexists|]. exists a. rewrite <- Hk. done.
Qed.
End Runs.

(** ** Objects up to their version *)

Definition alike (K : Kind) (a b : obj_of K) : Prop := at_version K "" a = at_version K "" b.

#[export] Instance alike_equivalence K : Equivalence (alike K).
Proof. unfold alike. split; [by intros ?|by intros ? ?|intros ? ? ?; congruence]. Qed.

Lemma at_version_alike K v (o : obj_of K) : alike K (at_version K v o) o.
Proof. unfold alike. by destruct K, o as [? []]. Qed.

Lemma saved_alike K k o o' w r w' :
  saved K k o' w r w' → stored K k w o → edited K o o' → kept_as K k (λ a, alike K a o') w r w'.
Proof. intros Hw Hst He. eapply saved_kept; [done..|]. intros v. apply at_version_alike. Qed.

(** A change that is blind to the version. *)
Lemma alike_map K (f : obj_of K → obj_of K) a b :
  (∀ o, at_version K "" (f o) = f (at_version K "" o)) → alike K a b → alike K (f a) (f b).
Proof. unfold alike. intros Hf Hab. by rewrite !Hf, Hab. Qed.

(** What alike objects share. *)
Lemma alike_proj K {A} (f : obj_of K → A) a b :
  (∀ o, f (at_version K "" o) = f o) → alike K a b → f a = f b.
Proof. unfold alike. intros Hf Hab. by rewrite <- (Hf a), Hab, Hf. Qed.

Lemma alike_vg (a b : VolumeGroup) :
  alike KVG a b →
  vg_Spec a = vg_Spec b ∧ vg_Status a = vg_Status b ∧ GetUID KVG a = GetUID KVG b ∧
  GetFinalizers KVG a = GetFinalizers KVG b ∧ key_of KVG a = key_of KVG b.
Proof. intros Hab. split_all; by apply (alike_proj KVG). Qed.

Lemma alike_vgc (a b : VolumeGroupContent) :
  alike KVGC a b →
  vgc_Spec a = vgc_Spec b ∧ vgc_Status a = vgc_Status b ∧
  GetFinalizers KVGC a = GetFinalizers KVGC b ∧ key_of KVGC a = key_of KVGC b.
Proof. intros Hab. split_all; by apply (alike_proj KVGC). Qed.

(** One step of a run up to the next call; [runs_step] makes the call too, when the
    server needs no hypothesis to answer it. *)
Ltac flow_step :=
  match goal with
  | |- runs _ (_ ≫= _) _ _ => apply runs_bind
  | |- runs _ (or_panic _ _) _ _ => unfold or_panic
  | |- runs _ (deref _) _ _ => unfold deref
  | |- runs _ (mret _) _ _ => apply runs_ret
  | |- runs _ (Ret _) _ _ => apply runs_ret
  | |- after _ _ _ => progress cbn [after]
  end.

Ltac runs_step :=
  first
    [ flow_step
    | match goal with |- runs _ (trigger ?c) _ _ =>
        eapply (runs_trigger _ c); [done|reflexivity|] end ].

(** Runs an operation by a lemma about it. *)
Ltac runs_by H := eapply runs_mono; [by eapply H|cbn beta].
