(* ===== verification/Settle.v ===== *)
(** * The content controller on a server of its own

    One run of the content controller on a server like [Cluster], for a content whose
    class is there ([class_there]) and any state of the rest of the cluster:
    [Faultless] and [Release] assume that no call fails; here no call does, because
    the server is there and nobody else writes. *)

From S2P Require Import Prelude GoLang Api Effects Externals Objects Params VolumeGroups Volumes.
From S2P Require Import Finalizers Driver VolumeGroupContents Membership VGController.
From S2P Require Import VGCController Histories Cluster Scenario VGCProgress Faultless Quiet.
Import VGCController.

(** ** Reads the two controllers share *)

(** The finalizers with [f] among them. *)
Definition held (fs : list string) (f : string) : list string :=
  if Contains fs f then fs else fs ++ [f].

Lemma held_spec fs f : f ∈ held fs f.
Proof.
  unfold held. destruct (Contains fs f) eqn:Hc; [by apply Contains_spec|].
  rewrite elem_of_app. right. by left.
Qed.

Lemma held_idem fs f : held (held fs f) f = held fs f.
Proof. unfold held at 1. by rewrite (proj2 (Contains_spec _ _)) by apply held_spec. Qed.

(** The secret of a class is there. *)
Definition secret_there (w : cluster) (cl : VolumeGroupClass) : Prop :=
  let '(name, namespace) := GetSecretCred cl in
  name ≠ ""%string → namespace ≠ ""%string → is_Some (store w KSecret !! mkNN namespace name).

(** The class [cl] of the operator, of the given name, with valid parameters and
    its secret. *)
Record class_there (cfg : DriverConfig) (w : cluster) (name : string) (cl : VolumeGroupClass)
  : Prop := {
  class_name : name ≠ ""%string;
  class_stored : store w KVGClass !! mkNN "" name = Some cl;
  class_driver : vgclass_Driver cl = DriverName cfg;
  class_valid : map_Forall valid_parameter (vgclass_Parameters cl);
  class_secret : secret_there w cl;
}.

Lemma class_there_frame cfg w w' name cl :
  store w' KVGClass = store w KVGClass → store w' KSecret = store w KSecret →
  class_there cfg w name cl → class_there cfg w' name cl.
Proof.
  intros Hc Hs [? ? ? ? Hsec]. split; [done|by rewrite Hc|done..|].
  unfold secret_there in *. by rewrite Hs.
Qed.

Section Reads.
Context `{ExternalLaws} (h : handler cluster) `{!Like h} (cfg : DriverConfig).

Lemma GetSecretDataFromClass_runs cl w :
  secret_there w cl →
  runs h (GetSecretDataFromClass cl) w (λ r w', (∃ secret, r = Some (inr secret)) ∧ w' = w).
Proof.
  unfold secret_there, GetSecretDataFromClass, getSecretData. destruct (GetSecretCred cl) as [n ns].
  intros Hthere. case_decide as Hcred; [|runs_step; by split; [eexists|]].
  destruct (Hthere (proj1 Hcred) (proj2 Hcred)) as [secret Hsec].
  do 2 runs_step. eapply (runs_get _ KSecret); [done|]. cbn [after].
  runs_step. eapply runs_mono.
  { eapply runs_readonly; [done|typeclasses eauto|]. intros c Hc. by destruct c. }
  intros r w' [Hr ->]. destruct r as [data|]; [|done]. repeat runs_step. by split; [eexists|].
Qed.

Lemma ValidatePrefixedParameters_runs cl w :
  map_Forall valid_parameter (vgclass_Parameters cl) →
  runs h (ValidatePrefixedParameters (vgclass_Parameters cl)) w (λ r w', r = Some None ∧ w' = w).
Proof.
  intros Hv. eapply runs_mono.
  { eapply runs_readonly; [done|typeclasses eauto|]. intros c Hc. by destruct c. }
  intros [r|] w' [Hr ->]; [|done]. split; [|done]. f_equal. by apply Hr.
Qed.

Lemma GetVGClass_runs name cl w :
  class_there cfg w name cl → runs h (GetVGClass name) w (λ r w', r = Some (inr cl) ∧ w' = w).
Proof.
  intros Hcl. unfold GetVGClass. rewrite decide_False by apply (class_name _ _ _ _ Hcl).
  apply (runs_get h KVGClass _ cl); [by apply (class_stored _ _ _ _ Hcl)|done].
Qed.
End Reads.

(** ** The content *)

Section Content.
Context `{ExternalLaws} (h : handler cluster) `{!Like h}.
Context (cfg : DriverConfig) (req : NamespacedName).

Lemma AddFinalizerToVGC_runs o w :
  stored KVGC req w o →
  runs h (AddFinalizerToVGC o) w
    (kept_as KVGC req (λ a, GetFinalizers KVGC a = held (GetFinalizers KVGC o) VgcFinalizer ∧
                   vgc_Spec a = vgc_Spec o ∧ vgc_Status a = vgc_Status o) w).
Proof.
  intros Hst. unfold AddFinalizerToVGC, held. destruct (Contains _ _) eqn:Hc; cbn [negb].
  - runs_step. by apply kept_unwritten.
  - runs_step. runs_by updateFinalizer_runs.
    intros r w' Hw. pose proof Hw as (v & -> & _). repeat runs_step.
    by eapply saved_kept.
Qed.

Lemma UpdateVGCByResponse_runs o src r a g w :
  stored KVGC req w o → vgcspec_Source (vgc_Spec o) = Some src →
  Response_Response r = Some a → cvgr_VolumeGroup a = Some g →
  runs h (UpdateVGCByResponse o r) w
    (kept_as KVGC req (λ a, GetFinalizers KVGC a = GetFinalizers KVGC o ∧ vgc_Status a = vgc_Status o ∧
       ∃ src', vgc_Spec a = vgc_Spec (set_vgc_source (Some src') o) ∧
               vgcsrc_VolumeGroupHandle src' = csi_VolumeGroupId g) w).
Proof.
  intros Hst Hsrc Hr Hg. unfold UpdateVGCByResponse. rewrite Hr, Hsrc. cbn [deref or_panic].
  repeat runs_step. rewrite Hg. repeat runs_step.
  eapply runs_mono; [by eapply (UpdateObject_runs h KVGC req o); [|by destruct o]|].
  intros ? w' Hw. pose proof Hw as (v & -> & _). repeat runs_step. eapply saved_kept; [done..|].
  intros v'. split; [done|]. split; [done|]. by eexists.
Qed.

Lemma UpdateVGCStatus_runs o t w :
  stored KVGC req w o →
  runs h (UpdateVGCStatus o t true) w
    (kept_as KVGC req (λ a, GetFinalizers KVGC a = GetFinalizers KVGC o ∧ vgc_Spec a = vgc_Spec o ∧
                   vgcst_Ready (vgc_Status a) = Some true ∧
                   vgcst_PVList (vgc_Status a) = vgcst_PVList (vgc_Status o)) w).
Proof.
  intros Hst. unfold UpdateVGCStatus. runs_step.
  eapply runs_mono; [by eapply (UpdateObjectStatus_runs h KVGC req o); [|by destruct o]|].
  intros ? w' Hw. pose proof Hw as (v & -> & _). repeat runs_step. by eapply saved_kept.
Qed.

(** The group of the content exists, and the content says so. *)
Definition settled (name : string) (w : cluster) (a : VolumeGroupContent) : Prop :=
  VgcFinalizer ∈ GetFinalizers KVGC a ∧ vgcst_Ready (vgc_Status a) = Some true ∧
  ∃ src, vgcspec_Source (vgc_Spec a) = Some src ∧
         vgcsrc_VolumeGroupHandle src = group_id h name ∧
         is_Some (groups w !! vgcsrc_VolumeGroupHandle src).

(** The driver with the group, made now or before. *)
Definition with_group (name : string) (g : gmap string (list string)) : gmap string (list string) :=
  <[group_id h name := default [] (g !! group_id h name)]> g.

(** What the creation leaves: nothing but the content, events and the group are
    touched; the content keeps the rest of its specification and its volumes. *)
Record made (o : VolumeGroupContent) (w w' : cluster) (a : VolumeGroupContent) : Prop := {
  made_stored : stored KVGC req w' a;
  made_frame : ∀ K, K ≠ KVGC → K ≠ KEvent → store w' K = store w K;
  made_group : groups w' = with_group (GetName KVGC o) (groups w);
  made_held : GetFinalizers KVGC a = held (GetFinalizers KVGC o) VgcFinalizer;
  made_spec : ∃ src, vgc_Spec a = vgc_Spec (set_vgc_source (Some src) o) ∧
                     vgcsrc_VolumeGroupHandle src = group_id h (GetName KVGC o);
  made_ready : vgcst_Ready (vgc_Status a) = Some true;
  made_volumes : vgcst_PVList (vgc_Status a) = vgcst_PVList (vgc_Status o);
}.

Lemma made_settled o w w' a : made o w w' a → settled (GetName KVGC o) w' a.
Proof.
  intros Hm. unfold settled. rewrite (made_held _ _ _ _ Hm), (made_ready _ _ _ _ Hm).
  split; [apply held_spec|]. split; [done|]. destruct (made_spec _ _ _ _ Hm) as (src & Hs & Hid).
  exists src. rewrite Hs, Hid, (made_group _ _ _ _ Hm). split; [done|]. split; [done|].
  unfold with_group. rewrite lookup_insert_eq. by eexists.
Qed.

(** The driver makes the group, or has it already. *)
Lemma createVG_request_runs name parameters secrets w :
  runs h (createVG_request name parameters secrets) w (λ r w',
    ∃ a g, r = Some {| Response_Response := Some a; Response_Error := None |} ∧
           cvgr_VolumeGroup a = Some g ∧ csi_VolumeGroupId g = group_id h name ∧
           store w' = store w ∧ groups w' = with_group name (groups w)).
Proof.
  unfold createVG_request, request_Create, CreateVolumeGroup. runs_step.
  destruct (like_group name secrets parameters w) as [attributes Hgroup].
  eapply (runs_call h (CCreateVolumeGroup name secrets parameters)); [exact Hgroup|].
  repeat runs_step. by eexists _, _.
Qed.

Lemma handleCreateVG_runs o src cl secret w :
  stored KVGC req w o → vgcspec_Source (vgc_Spec o) = Some src →
  GetFinalizers KVGC o = held (GetFinalizers KVGC o) VgcFinalizer →
  runs h (handleCreateVG o cl secret) w (λ r w', ∃ a, r = Some (None, a) ∧ made o w w' a).
Proof.
  intros Hst Hsrc Hfin. unfold handleCreateVG, GetCurrentTime.
  runs_step. eapply runs_mono.
  { eapply runs_readonly; [done|typeclasses eauto|]. intros c Hc. by destruct c. }
  intros r w' [Hr ->]. destruct r as [parameters|]; [|done]. cbn [after].
  runs_step. eapply runs_mono; [apply createVG_request_runs|].
  intros ? w0 (a & g & -> & Hg & Hid & Hw0 & Hg0). cbn [after Response_Error].
  assert (stored KVGC req w0 o) as Hst0 by (unfold stored; by rewrite Hw0).
  runs_step. runs_by UpdateVGCByResponse_runs.
  intros ? w1 (a1 & -> & Hst1 & (_ & Hfr1 & Hg1) & Hf1 & Ht1 & src1 & Hs1 & Hid1). cbn [after].
  do 4 runs_step. runs_by (UpdateVGCStatus_runs a1).
  intros ? w2 (a2 & -> & Hst2 & (_ & Hfr2 & Hg2) & Hf2 & Hs2 & Hr2 & Hv2). repeat runs_step.
  exists a2. split; [done|]. split; [done| | |congruence| |done|congruence].
  - intros K HK HE. rewrite Hfr2 by done. cbn. rewrite Hfr1 by done. by rewrite Hw0.
  - rewrite Hg2. cbn. by rewrite Hg1, Hg0.
  - exists src1. split; congruence.
Qed.

Lemma handleStaticProvisionedVGC_runs o src w :
  vgcspec_Source (vgc_Spec o) = Some src → vgcsrc_VolumeGroupHandle src = ""%string →
  runs h (handleStaticProvisionedVGC o) w (λ r w', r = Some (None, false, o) ∧ w' = w).
Proof.
  intros Hsrc Hid. unfold handleStaticProvisionedVGC. autorewrite with reflect. rewrite Hsrc.
  repeat runs_step. cbn [negb]. repeat runs_step. rewrite decide_False by tauto. by repeat runs_step.
Qed.

Lemma CreateSuccessVGCEvent_runs o w :
  runs h (CreateSuccessVGCEvent o) w (λ r w', (∃ v, r = Some (None, v)) ∧ same w w').
Proof.
  eapply runs_mono.
  { eapply runs_aside; [done|typeclasses eauto|]. intros c Hc. unfold aside.
    destruct c as [| | |[]| | | | | | | | | |]; cbn in *; try tauto. right. right. by eexists. }
  intros [[e v]|] w' [Hr Hk]; [|done]. cbn in Hr. subst e. split; [by eexists|done].
Qed.

(** A content that is not being deleted and has no handle yet. *)
Definition fresh (w : cluster) (vgc : VolumeGroupContent) : Prop :=
  stored KVGC req w vgc ∧
  ∃ src, vgcspec_Source (vgc_Spec vgc) = Some src ∧ vgcsrc_VolumeGroupHandle src = ""%string.

Lemma Reconcile_class_runs vgc className cl w :
  fresh w vgc → class_there cfg w className cl →
  runs h (Reconcile_class cfg vgc cl) w
    (λ r w', r = Some (Result_zero, None) ∧ ∃ a, made vgc w w' a).
Proof.
  intros (Hst & src & Hsrc & Hid) [_ _ _ Hv Hsec]. pose proof Hst as (_ & Hk & Hd). cbn in Hd.
  unfold Reconcile_class. rewrite Hd. cbn [IsZero].
  runs_step. runs_by ValidatePrefixedParameters_runs.
  intros ? ? [-> ->]. cbn [after].
  runs_step. runs_by GetSecretDataFromClass_runs.
  intros ? ? [[secret ->] ->]. cbn [after].
  runs_step. runs_by AddFinalizerToVGC_runs.
  intros ? w1 (a1 & -> & Hst1 & (_ & Hfr1 & Hg1) & Hf1 & Hs1 & Ht1). cbn [after].
  runs_step. eapply runs_mono; [apply (handleStaticProvisionedVGC_runs _ src); [by rewrite Hs1|done]|].
  intros ? ? [-> ->]. cbn [after].
  assert (GetFinalizers KVGC a1 = held (GetFinalizers KVGC a1) VgcFinalizer) as Hheld.
  { by rewrite Hf1, held_idem. }
  runs_step. eapply runs_mono; [by apply (handleCreateVG_runs a1 src); [|rewrite Hs1|]|].
  intros ? w2 (a2 & -> & Hm). cbn [after].
  runs_step. runs_by CreateSuccessVGCEvent_runs.
  intros ? w3 [[v ->] Hw3]. repeat runs_step. split; [done|]. exists a2.
  assert (GetName KVGC a1 = GetName KVGC vgc) as Hname.
  { destruct Hst1 as (_ & Hk1 & _). rewrite <- Hk in Hk1. by injection Hk1. }
  destruct Hm as [Hst2 Hfr2 Hg2 Hf2 (src2 & Hs2 & Hid2) Hr2 Hv2]. split.
  - by eapply stored_same.
  - intros K HK HE. rewrite (same_store K _ _ Hw3) by done. by rewrite Hfr2, Hfr1.
  - destruct Hw3 as [_ Hg3]. rewrite Hg3, Hg2, Hname. cbn. by rewrite Hg1.
  - by rewrite Hf2, <- Hheld.
  - exists src2. rewrite Hs2, Hid2, Hname. split; [|done]. unfold set_vgc_source. cbn. by rewrite Hs1.
  - done.
  - by rewrite Hv2, Ht1.
Qed.

(** The content and its class are read. *)
Lemma Reconcile_reads vgc className cl w Q :
  store w KVGC !! req = Some vgc →
  vgcspec_VolumeGroupClassName (vgc_Spec vgc) = Some className → class_there cfg w className cl →
  runs h (Reconcile_class cfg vgc cl) w Q → runs h (Reconcile cfg req) w Q.
Proof.
  intros Hst Hcn Hcl HQ. unfold Reconcile, GetVGC. runs_step.
  apply (runs_get h KVGC _ vgc).
  { by replace (mkNN (nn_Namespace req) (nn_Name req)) with req by by destruct req. }
  cbn [after]. autorewrite with reflect. rewrite Hcn. cbn [or_empty]. repeat runs_step.
  rewrite decide_False by apply (class_name _ _ _ _ Hcl). runs_step. runs_by GetVGClass_runs. intros ? ? [-> ->]. cbn [after].
  rewrite decide_False by (rewrite (class_driver _ _ _ _ Hcl); congruence). done.
Qed.

Lemma content_settles_runs vgc className cl w :
  fresh w vgc → vgcspec_VolumeGroupClassName (vgc_Spec vgc) = Some className →
  class_there cfg w className cl →
  runs h (Reconcile cfg req) w (λ r w', r = Some (Result_zero, None) ∧ ∃ a, made vgc w w' a).
Proof.
  intros Hf Hcn Hcl. eapply Reconcile_reads; [apply Hf|done..|]. by eapply Reconcile_class_runs.
Qed.

(** ** The release *)

(** The VolumeGroup of a content is gone. *)
Definition group_absent (w : cluster) (o : VolumeGroupContent) : Prop :=
  ∀ ref, vgcspec_VolumeGroupRef (vgc_Spec o) = Some ref →
         store w KVG !! mkNN (or_Namespace ref) (or_Name ref) = None.

(** The content of the request is [o]; it is being deleted and only the operator holds it. *)
Definition leaving (w : cluster) (o : VolumeGroupContent) : Prop :=
  store w KVGC !! req = Some o ∧ key_of KVGC o = req ∧
  is_Some (om_DeletionTimestamp (vgc_ObjectMeta o)) ∧ GetFinalizers KVGC o = [VgcFinalizer].

(** The group that goes with the content: that of its handle under the policy
    Delete, which needs one; none under another policy. *)
Definition goes_with (o : VolumeGroupContent) (gone : option string) : Prop :=
  match gone with
  | Some id =>
      vgcspec_VolumeGroupDeletionPolicy (vgc_Spec o) = Some VolumeGroupContentDelete ∧
      (∃ src, vgcspec_Source (vgc_Spec o) = Some src ∧ vgcsrc_VolumeGroupHandle src = id) ∧
      id ≠ ""%string
  | None =>
      ∃ policy, vgcspec_VolumeGroupDeletionPolicy (vgc_Spec o) = Some policy ∧
                policy ≠ VolumeGroupContentDelete
  end.

(** No claims are to be deleted with the content. *)
Definition disposable (o : VolumeGroupContent) (gone : option string) : Prop :=
  (DisableDeletePvcs cfg ≠ "false"%string ∨ vgcst_PVList (vgc_Status o) = []) ∧ goes_with o gone.

Definition groups_without (gone : option string) (g : gmap string (list string))
  : gmap string (list string) :=
  match gone with Some id => delete id g | None => g end.

(** The content is gone, and the group that goes with it; nothing else has changed. *)
Definition released (gone : option string) (w w' : cluster) : Prop :=
  store w' KVGC = delete req (store w KVGC) ∧ groups w' = groups_without gone (groups w) ∧
  ∀ K, K ≠ KVGC → K ≠ KEvent → store w' K = store w K.

(** The server's "not found" is recognised. *)
Context (not_found : IsNotFound (api_error "NotFound") = true).

Lemma IsVgExist_runs o w :
  group_absent w o → runs h (IsVgExist o) w (λ r w', r = Some (inr false) ∧ w' = w).
Proof.
  intros Habs. unfold IsVgExist, GetVG. autorewrite with reflect.
  destruct (vgcspec_VolumeGroupRef (vgc_Spec o)) as [ref|] eqn:Href; cbn [negb];
    repeat runs_step; [|done]. cbn [negb]. repeat runs_step.
  rewrite (Habs ref Href), not_found. by repeat runs_step.
Qed.

Lemma RemoveFinalizerFromVGC_runs o w :
  leaving w o →
  runs h (RemoveFinalizerFromVGC o) w (λ r w', ∃ v, r = Some (None, v) ∧
    store w' KVGC = delete req (store w KVGC) ∧ elsewhere KVGC w w').
Proof.
  intros (Hst & Hk & Hd & Hf). unfold RemoveFinalizerFromVGC. rewrite Hf.
  rewrite (proj2 (Contains_spec _ _)) by by left. runs_step. rewrite GetFinalizers_Set.
  eapply runs_mono; [by apply (updateFinalizer_gone h KVGC o); [rewrite Hk| |rewrite Hf]|].
  intros r w' (v & -> & Hw & Hel). repeat runs_step. exists v. by rewrite Hw, Hk.
Qed.

Lemma removeVGC_runs o gone secret w :
  leaving w o → disposable o gone →
  runs h (removeVGC o secret) w (λ r w', (∃ v, r = Some (None, v)) ∧ released gone w w').
Proof.
  intros Hl [_ Hgone]. unfold removeVGC, deleteVG, request_Delete, DeleteVolumeGroup.
  destruct gone as [id|].
  - destruct Hgone as (Hp & (src & Hsrc & Hid) & Hne).
    rewrite Hp, Hsrc. repeat runs_step. rewrite decide_True by done. repeat runs_step. rewrite Hid.
    eapply (runs_trigger h (CDeleteVolumeGroup id secret)); [done|cbn [serve]; by rewrite decide_False|].
    repeat runs_step. cbn [Response_Error]. repeat runs_step.
    eapply runs_mono; [by apply (RemoveFinalizerFromVGC_runs o)|].
    intros ? w' (v & -> & Hw & Hfr & Hg). cbn [after]. runs_step. split; [by eexists|].
    by split; [|split].
  - destruct Hgone as (policy & Hp & Hne). rewrite Hp. repeat runs_step.
    rewrite decide_False by done. repeat runs_step.
    eapply runs_mono; [by apply (RemoveFinalizerFromVGC_runs o)|].
    intros ? w' (v & -> & Hw & Hfr & Hg). cbn [after]. runs_step. split; [by eexists|].
    by split; [|split].
Qed.

Lemma handleVGCWithDeletionTimestamp_runs o gone secret w :
  leaving w o → group_absent w o → disposable o gone →
  runs h (handleVGCWithDeletionTimestamp cfg o secret) w
    (λ r w', (∃ v, r = Some (None, v)) ∧ released gone w w').
Proof.
  intros Hl Habs Hdisp. pose proof Hl as (_ & _ & _ & Hf). pose proof Hdisp as (Hclaims & _).
  unfold handleVGCWithDeletionTimestamp.
  runs_step. runs_by IsVgExist_runs. intros ? ? [-> ->]. cbn [after].
  assert (Contains (GetFinalizers KVGC o) VgcFinalizer &&
          negb (IsContainOtherFinalizers KVGC o) = true) as ->
    by (unfold IsContainOtherFinalizers; by rewrite Hf).
  runs_step. apply (runs_mono _ _ _ (λ r w', r = Some (None, o) ∧ w' = w)).
  - case_decide as Hdis; [|by runs_step]. destruct Hclaims as [?|Hnil]; [done|].
    unfold DeletePVCsUnderVGC. rewrite Hnil. cbn [length DeletePVCsUnderVGC_loop]. by runs_step.
  - intros ? ? [-> ->]. cbn [after]. runs_step. runs_by removeVGC_runs.
    intros ? w' ([v ->] & Hrel). cbn [after]. runs_step. split; [by eexists|done].
Qed.

Lemma content_released_runs vgc className gone cl w :
  leaving w vgc → group_absent w vgc → disposable vgc gone →
  vgcspec_VolumeGroupClassName (vgc_Spec vgc) = Some className → class_there cfg w className cl →
  runs h (Reconcile cfg req) w (λ r w', r = Some (Result_zero, None) ∧ released gone w w').
Proof.
  intros Hl Habs Hdisp Hcn Hcl. pose proof Hl as (Hst & _ & [t Hd] & Hf).
  pose proof Hcl as [_ _ _ Hv Hsec].
  eapply Reconcile_reads; [done..|]. unfold Reconcile_class. rewrite Hd. cbn [IsZero].
  runs_step. runs_by ValidatePrefixedParameters_runs.
  intros ? ? [-> ->]. cbn [after].
  runs_step. runs_by GetSecretDataFromClass_runs.
  intros ? ? [[secret ->] ->]. cbn [after].
  runs_step. runs_by handleVGCWithDeletionTimestamp_runs.
  intros ? w' ([v ->] & Hrel). cbn [after]. by runs_step.
Qed.
End Content.

Section Settles.
Context `{ExternalLaws} (h : handler cluster) `{!Like h}.
Context (cfg : DriverConfig) (req : NamespacedName).

(** C16: on a server that behaves as [Cluster] and with nobody else writing, one run
    creates the group of a content that is not being deleted, has a source without a
    handle, and names a class of the operator that is stored, has valid parameters
    and has its secret: it succeeds and leaves the content with the operator's
    finalizer, ready, with the handle of a group that the driver has, whatever else
    the cluster holds. *)
Theorem content_settles vgc className cl w :
  fresh req w vgc → vgcspec_VolumeGroupClassName (vgc_Spec vgc) = Some className →
  class_there cfg w className cl →
  run_outcome h (Reconcile cfg req) w = Some (Result_zero, None) ∧
  ∃ a, stored KVGC req (run_world h (Reconcile cfg req) w) a ∧
       settled h (nn_Name req) (run_world h (Reconcile cfg req) w) a.
Proof.
  intros Hf Hcn Hcl. destruct (content_settles_runs h cfg req _ _ _ _ Hf Hcn Hcl) as [Hout [a Hm]].
  split; [done|]. exists a. split; [apply Hm|].
  destruct Hf as [(_ & <- & _) _]. by eapply made_settled.
Qed.

(** C17: on a server that behaves as [Cluster] and with nobody else writing, one run
    releases a content that is being deleted, that only the operator holds, whose
    VolumeGroup is gone and whose class is there as for a new content, when no claims
    are to be deleted with it (their deletion is disabled, or the content lists no
    volumes): it succeeds and the content disappears from the server.  Under the
    policy Delete the content has to have a handle, and the group of that handle
    disappears from the driver; under another policy the groups stay as they are. *)
Theorem content_released vgc className gone cl w :
  IsNotFound (api_error "NotFound") = true →
  leaving req w vgc → group_absent w vgc → disposable cfg vgc gone →
  vgcspec_VolumeGroupClassName (vgc_Spec vgc) = Some className → class_there cfg w className cl →
  run_outcome h (Reconcile cfg req) w = Some (Result_zero, None) ∧
  store (run_world h (Reconcile cfg req) w) KVGC = delete req (store w KVGC) ∧
  groups (run_world h (Reconcile cfg req) w) = groups_without gone (groups w).
Proof.
  intros Hnf Hl Habs Hdisp Hcn Hcl.
  destruct (content_released_runs h cfg req Hnf _ _ _ _ _ Hl Habs Hdisp Hcn Hcl) as (Hout & Hst & Hg & _).
  done.
Qed.
End Settles.

(** ** Witnesses *)

#[local] Existing Instance DocExternals.externals.
#[local] Existing Instance DocExternals.laws.

Definition fresh_source : VolumeGroupContentSource :=
  {| vgcsrc_Driver := Samples.DriverName; vgcsrc_VolumeGroupHandle := "";
     vgcsrc_VolumeGroupAttributes := ∅ |}.

Lemma stored_class_there cfg w :
  DriverName cfg = Samples.DriverName →
  store w KVGClass !! VGCProgress.class_key = Some VGCProgress.stored_class →
  class_there cfg w Samples.VGClassName VGCProgress.stored_class.
Proof.
  intros Hd Hst. split; [done|done|by rewrite Hd| |].
  - by apply (bool_decide_unpack _); vm_compute.
  - intros Hn. exfalso. apply Hn. by vm_compute.
Qed.

Lemma content_settles_witness :
  run_outcome serve Scenario.reconcile_vgc Scenario.content_created = Some (Result_zero, None) ∧
  ∃ a, stored KVGC Samples.vgc_req Scenario.group_created a ∧
       settled serve Samples.VGCName Scenario.group_created a.
Proof.
  apply (content_settles serve Samples.config Samples.vgc_req fresh_content Samples.VGClassName
           VGCProgress.stored_class Scenario.content_created).
  - split; [split; [by vm_compute|]; split; by vm_compute|]. exists fresh_source. by vm_compute.
  - by vm_compute.
  - apply stored_class_there; by vm_compute.
Defined.

(** The operator with the deletion of claims disabled. *)
Definition keep_claims : DriverConfig :=
  {| DriverEndpoint := ""; Api.DriverName := Samples.DriverName; RPCTimeout := 0;
     MultipleVGsToPVC := "true"; DisableDeletePvcs := "true" |}.

Lemma content_released_witness :
  run_outcome serve (Reconcile keep_claims Samples.vgc_req) Scenario.vg_deleted =
    Some (Result_zero, None) ∧
  groups (run_world serve (Reconcile keep_claims Samples.vgc_req) Scenario.vg_deleted) =
    delete (group_id serve Samples.VGCName) (groups Scenario.vg_deleted).
Proof.
  destruct (content_released serve keep_claims Samples.vgc_req (X := DocExternals.externals)
              dying_content Samples.VGClassName (Some (group_id serve Samples.VGCName))
              VGCProgress.stored_class Scenario.vg_deleted)
    as (Hout & _ & Hg); [..|by split].
  - done.
  - split; [by vm_compute|]. split; [by vm_compute|].
    split; [by apply (bool_decide_unpack _); vm_compute|by vm_compute].
  - intros ref Href. vm_compute in Href. injection Href as <-. by vm_compute.
  - split; [by left|]. split; [by vm_compute|]. split; [|done].
    eexists. split; by vm_compute.
  - by vm_compute.
  - apply stored_class_there; by vm_compute.
Defined.
