(* ===== verification/Joins.v ===== *)
(** * May a claim join, on a server of its own

    The VolumeGroups of the driver that a server lists, and when the check that runs
    unless a claim may be in several groups lets a claim join one of them. *)

From S2P Require Import Prelude GoLang Api Effects Externals Objects Params VolumeGroups Volumes.
From S2P Require Import Finalizers Driver VolumeGroupContents Membership Predicates VGController.
From S2P Require Import VGCController Histories Cluster Matching Quiet.

Abbreviation keys vg := (pvc_keys (vgst_PVCList (vg_Status vg))).

Section Joins.
Context `{ExternalLaws} (cfg : DriverConfig).

Definition all_vgs (w : cluster) : list VolumeGroup := snd <$> map_to_list (store w KVG).

(** The VolumeGroups of the driver. *)
Definition vg_of_driver (w : cluster) (vg : VolumeGroup) : bool :=
  match store w KVGClass !! mkNN "" (or_empty (vgspec_VolumeGroupClassName (vg_Spec vg))) with
  | Some cl => bool_decide (vgclass_Driver cl = DriverName cfg)
  | None => false
  end.

Definition driver_vgs (w : cluster) : list VolumeGroup :=
  filter (λ vg, vg_of_driver w vg = true) (all_vgs w).

(** Every VolumeGroup has a class. *)
Definition vgs_classed (w : cluster) : Prop :=
  ∀ k vg, store w KVG !! k = Some vg →
    ∃ name, vgspec_VolumeGroupClassName (vg_Spec vg) = Some name ∧ name ≠ ""%string ∧
            is_Some (store w KVGClass !! mkNN "" name).

(** The check [IsPVCCanBeAddedToVG] looks at each VolumeGroup of the driver but that
    of the request: it lists the claim if [vg] does, and otherwise does not select it. *)
Definition unclaimed (req : NamespacedName) (w : cluster) (vg : VolumeGroup)
    (pvc : PersistentVolumeClaim) : Prop :=
  ∀ k v, k ≠ req → store w KVG !! k = Some v → vg_of_driver w v = true →
    if decide (pvc_key pvc ∈ keys v) then pvc_key pvc ∈ keys vg
    else is_Some (vgsrc_Selector (vgspec_Source (vg_Spec v))) ∧
         selects (om_Labels (pvc_ObjectMeta pvc)) v = false.

Lemma driver_vgs_elem w v :
  v ∈ driver_vgs w ↔ vg_of_driver w v = true ∧ ∃ k, store w KVG !! k = Some v.
Proof.
  unfold driver_vgs, all_vgs. rewrite list_elem_of_filter, list_elem_of_fmap. split.
  - intros [Hd ([k v'] & -> & Hin%elem_of_map_to_list)]. split; [done|]. by exists k.
  - intros [Hd [k Hk]]. split; [done|]. exists (k, v). by rewrite elem_of_map_to_list.
Qed.

Lemma filter_none {A} (P : A → Prop) `{∀ a, Decision (P a)} (l : list A) :
  (∀ a, a ∈ l → ¬ P a) → filter P l = [].
Proof.
  intros Hno. induction l as [|a l IH]; [done|]. rewrite filter_cons.
  rewrite decide_False by (apply Hno; by left). apply IH. intros b Hb. apply Hno. by right.
Qed.

(** Only the value under one key satisfies [P]. *)
Lemma filter_values_single {A} (P : A → Prop) `{∀ a, Decision (P a)} (l : list (NamespacedName * A)) k a :
  NoDup l.*1 → (k, a) ∈ l → P a → (∀ k' a', (k', a') ∈ l → P a' → k' = k) → filter P (l.*2) = [a].
Proof.
  intros Hnd Hin HP Huniq. induction l as [|[k' a'] l IH]; [by apply elem_of_nil in Hin|].
  apply NoDup_cons in Hnd as [Hk Hnd]. rewrite fmap_cons, filter_cons. cbn [fst snd] in *.
  apply elem_of_cons in Hin as [Heq|Hin].
  - injection Heq as <- <-. rewrite decide_True by done. f_equal.
    apply filter_none. intros b ([k' b'] & -> & Hb)%list_elem_of_fmap HPb.
    apply Hk. pose proof (Huniq k' b' ltac:(by right) HPb) as <-. by apply (list_elem_of_fmap_2 fst) in Hb.
  - rewrite decide_False; [apply IH; [done..|]|].
    + intros k2 a2 H2. apply Huniq. by right.
    + intros HP'. apply Hk. rewrite (Huniq k' a') by (done || by left). by apply (list_elem_of_fmap_2 fst) in Hin.
Qed.

(** The check lets a claim that [vg] selects join it. *)
Lemma IsPVCCanBeAddedToVG_unclaimed req w (vg : VolumeGroup) pvc :
  store w KVG !! req = Some vg → vg_of_driver w vg = true →
  selects (om_Labels (pvc_ObjectMeta pvc)) vg = true → unclaimed req w vg pvc →
  IsPVCCanBeAddedToVG pvc (driver_vgs w) = Ret None.
Proof.
  intros Hst Hd Hsel Hun.
  assert (∀ k v, store w KVG !! k = Some v → vg_of_driver w v = true →
    pvc_key pvc ∉ keys v → selects (om_Labels (pvc_ObjectMeta pvc)) v = true → k = req) as Hwant.
  { intros k v Hk Hdv Hnot Hs. destruct (decide (k = req)) as [|Hne]; [done|].
    specialize (Hun k v Hne Hk Hdv). rewrite decide_False in Hun by done. destruct Hun. congruence. }
  unfold IsPVCCanBeAddedToVG. rewrite IsPVCCanBeAddedToVG_loop_value.
  - f_equal. apply checkIfPVCCanBeAddedToVG_None. cbn [app]. rewrite !length_fmap.
    unfold groups_with, groups_wanting, driver_vgs, all_vgs. rewrite !list_filter_filter.
    destruct (decide (pvc_key pvc ∈ keys vg)) as [Hin|Hnot].
    + left. apply length_zero_iff_nil, filter_none.
      intros v ([k v'] & -> & Hv%elem_of_map_to_list)%list_elem_of_fmap [[Hno Hs] Hdv].
      apply IsPVCInPVCList_false in Hno. pose proof (Hwant k v' Hv Hdv Hno Hs) as ->.
      pose proof (eq_trans (eq_sym Hst) Hv) as Heq. by injection Heq as <-.
    + right. split.
      * erewrite (filter_values_single _ _ req vg); [done|apply NoDup_fst_map_to_list|by apply elem_of_map_to_list| |].
        { split; [|done]. split; [by apply IsPVCInPVCList_false|done]. }
        intros k v Hv%elem_of_map_to_list [[Hno Hs] Hdv].
        by apply (Hwant k v); [..|by apply IsPVCInPVCList_false|].
      * apply length_zero_iff_nil, filter_none.
        intros v ([k v'] & -> & Hv%elem_of_map_to_list)%list_elem_of_fmap [Hin%IsPVCInPVCList_spec Hdv].
        cbn in *. destruct (decide (k = req)) as [->|Hne].
        { pose proof (eq_trans (eq_sym Hst) Hv) as Heq. by injection Heq as <-. }
        specialize (Hun k v' Hne Hv Hdv). by rewrite decide_True in Hun.
  - apply Forall_forall. intros v [Hdv [k Hk]]%driver_vgs_elem.
    destruct (decide (k = req)) as [->|Hne].
    { pose proof (eq_trans (eq_sym Hst) Hk) as Heq. injection Heq as <-. right.
      unfold selects in Hsel. destruct (vgsrc_Selector _); [by eexists|done]. }
    specialize (Hun k v Hne Hk Hdv). case_decide; [left; by apply IsPVCInPVCList_spec|right; tauto].
Qed.

(** ** Reading the list *)

Context (h : handler cluster) `{!Like h}.

Lemma GetVGList_runs w :
  vgs_classed w →
  runs h (GetVGList (DriverName cfg)) w (λ r w', r = Some (inr (driver_vgs w)) ∧ w' = w).
Proof.
  intros Hc. unfold GetVGList, getProvisionedVGs. runs_step.
  apply (runs_trigger h (CList KVG) (inr (all_vgs w)) w); [done..|]. cbn [after]. flow_step.
  enough (∀ acc, runs h (getProvisionedVGs_loop (all_vgs w) (DriverName cfg) acc) w
            (λ r w', r = Some (inr (acc ++ driver_vgs w)) ∧ w' = w)) as Hloop.
  { eapply runs_mono; [apply Hloop|]. intros ? ? [-> ->]. by repeat runs_step. }
  assert (∀ vg, vg ∈ all_vgs w → ∃ name, vgspec_VolumeGroupClassName (vg_Spec vg) = Some name ∧
            name ≠ ""%string ∧ is_Some (store w KVGClass !! mkNN "" name)) as Hall.
  { intros vg ([k v] & -> & Hin)%list_elem_of_fmap. apply elem_of_map_to_list in Hin. by eapply Hc. }
  unfold driver_vgs. induction (all_vgs w) as [|vg l IH]; intros acc; cbn [getProvisionedVGs_loop].
  { runs_step. by rewrite app_nil_r. }
  destruct (Hall vg) as (name & Hn & Hne & [cl Hcl]); [by left|].
  unfold isVGHasMatchingDriver, getVGClassDriver, GetVGClass. autorewrite with reflect. rewrite Hn.
  cbn [or_empty]. repeat flow_step. rewrite decide_False by done.
  eapply (runs_get h KVGClass); [done|]. repeat flow_step.
  rewrite filter_cons.
  assert (vg_of_driver w vg = bool_decide (vgclass_Driver cl = DriverName cfg)) as ->
    by (unfold vg_of_driver; rewrite Hn; exact (f_equal (λ o, match o with
        | Some c => bool_decide (vgclass_Driver c = DriverName cfg) | None => false end) Hcl)).
  assert (∀ v, v ∈ l → ∃ name, vgspec_VolumeGroupClassName (vg_Spec v) = Some name ∧
            name ≠ ""%string ∧ is_Some (store w KVGClass !! mkNN "" name)) as Hl
    by (intros v Hv; apply Hall; by right).
  case_bool_decide.
  - rewrite decide_True by done. eapply runs_mono; [apply (IH Hl)|].
    intros ? ? [-> ->]. by rewrite <- app_assoc.
  - rewrite decide_False by done. by apply IH.
Qed.

End Joins.
