(* ===== verification/MemberRuns.v ===== *)
(** * The members of a group on a server of its own

    Which claims of a cluster belong to a VolumeGroup, as a function of what is
    stored, and the runs that find them, tell the driver and bring the lists of
    the VolumeGroup and of its content in line. *)

From S2P Require Import Prelude GoLang Api Effects Externals Objects Params VolumeGroups Volumes.
From S2P Require Import Finalizers Driver VolumeGroupContents Membership Predicates VGController.
From S2P Require Import VGCController Histories Cluster VGSafety VGProgress Faultless Quiet Settle.
From S2P Require Import Joins.

(** ** The claims that belong to a group *)

(** The storage class of a claim. *)
Definition class_of (w : cluster) (pvc : PersistentVolumeClaim) : option StorageClass :=
  match GetPVCClass pvc with inr n => store w KSC !! mkNN "" n | inl _ => None end.

(** The volume a claim is bound to. *)
Definition volume_of (w : cluster) (pvc : PersistentVolumeClaim) : option PersistentVolume :=
  if decide (pvcs_VolumeName (pvc_Spec pvc) = "")%string then None
  else store w KPV !! mkNN "" (pvcs_VolumeName (pvc_Spec pvc)).

Definition handle_of (w : cluster) (pvc : PersistentVolumeClaim) : option string :=
  pv ← volume_of w pvc; csi_VolumeHandle <$> pv_CSI pv.

Section Members.
Context `{ExternalLaws} (cfg : DriverConfig).

Definition of_driver (w : cluster) (pvc : PersistentVolumeClaim) : bool :=
  match class_of w pvc with
  | Some sc => bool_decide (sc_Provisioner sc = DriverName cfg)
  | None => false
  end.

Definition grouped_by_class (w : cluster) (pvc : PersistentVolumeClaim) : bool :=
  match class_of w pvc with
  | Some sc => isSCHasParam sc storageClassVGParameter
  | None => false
  end.

(** A claim that belongs to [vg]: bound, of the driver, with the labels, and of a
    class that does not name a group itself. *)
Definition belongs (w : cluster) (vg : VolumeGroup) (pvc : PersistentVolumeClaim) : bool :=
  bool_decide (pvc_Phase pvc = ClaimBound) && of_driver w pvc &&
  selects (om_Labels (pvc_ObjectMeta pvc)) vg && negb (grouped_by_class w pvc).

Definition all_claims (w : cluster) : list PersistentVolumeClaim :=
  snd <$> map_to_list (store w KPVC).

Definition members (w : cluster) (vg : VolumeGroup) : list PersistentVolumeClaim :=
  filter (λ pvc, belongs w vg pvc = true) (all_claims w).

(** What the driver and the content are told of the claims [l]. *)
Definition volume_ids (w : cluster) (l : list PersistentVolumeClaim) : list string :=
  omap (handle_of w) l.

Definition add_volume (w : cluster) (pvs : list PersistentVolume) (pvc : PersistentVolumeClaim)
  : list PersistentVolume :=
  match volume_of w pvc with Some pv => appendPV pvs pv | None => pvs end.

(** The claims of the cluster are stored under their keys, and those that are bound
    have a storage class; those that belong to [vg] are not being deleted, and the
    volumes they name are CSI volumes. *)
Record claims_there (w : cluster) (vg : VolumeGroup) : Prop := {
  claims_keyed k (pvc : PersistentVolumeClaim) : store w KPVC !! k = Some pvc → pvc_key pvc = k;
  claims_classed k pvc :
    store w KPVC !! k = Some pvc → pvc_Phase pvc = ClaimBound → is_Some (class_of w pvc);
  claims_living pvc : pvc ∈ members w vg → om_DeletionTimestamp (pvc_ObjectMeta pvc) = None;
  claims_volumes pvc :
    pvc ∈ members w vg → pvcs_VolumeName (pvc_Spec pvc) ≠ ""%string → is_Some (handle_of w pvc);
}.

(** The operator lets the claim join [vg]: a claim may be in several groups, or no
    other VolumeGroup of the driver has it or selects it. *)
Definition joinable (req : NamespacedName) (w : cluster) (vg : VolumeGroup)
    (pvc : PersistentVolumeClaim) : Prop :=
  MultipleVGsToPVC cfg = "true"%string ∨
  store w KVG !! req = Some vg ∧ vg_of_driver cfg w vg = true ∧ vgs_classed w ∧
  unclaimed cfg req w vg pvc.

(** It lets all the claims join that are bound, of the driver and selected. *)
Definition joins (req : NamespacedName) (w : cluster) (vg : VolumeGroup) : Prop :=
  ∀ pvc, pvc ∈ all_claims w → pvc_Phase pvc = ClaimBound → of_driver w pvc = true →
         selects (om_Labels (pvc_ObjectMeta pvc)) vg = true → joinable req w vg pvc.

Lemma class_of_same w w' pvc : store w' KSC = store w KSC → class_of w' pvc = class_of w pvc.
Proof. intros Heq. unfold class_of. by rewrite Heq. Qed.

Lemma belongs_same w w' vg pvc : store w' KSC = store w KSC → belongs w' vg pvc = belongs w vg pvc.
Proof.
  intros Heq. unfold belongs, of_driver, grouped_by_class. by rewrite (class_of_same w w').
Qed.

Lemma members_same w w' vg :
  store w' KSC = store w KSC → store w' KPVC = store w KPVC → members w' vg = members w vg.
Proof.
  intros Hsc Hpvc. unfold members, all_claims. rewrite Hpvc. apply list_filter_iff.
  intros pvc. by rewrite (belongs_same w w').
Qed.

Lemma volume_ids_same w w' l : store w' KPV = store w KPV → volume_ids w' l = volume_ids w l.
Proof.
  intros Heq. unfold volume_ids. induction l as [|pvc l IH]; [done|]. cbn [omap list_omap].
  assert (handle_of w' pvc = handle_of w pvc) as -> by (unfold handle_of, volume_of; by rewrite Heq).
  destruct (handle_of w pvc); [f_equal|]; apply IH.
Qed.

Lemma selects_same vg vg' labels :
  vgsrc_Selector (vgspec_Source (vg_Spec vg)) = vgsrc_Selector (vgspec_Source (vg_Spec vg')) →
  selects labels vg = selects labels vg'.
Proof. intros Heq. unfold selects. by rewrite Heq. Qed.

Lemma members_selector w vg vg' :
  vgsrc_Selector (vgspec_Source (vg_Spec vg)) = vgsrc_Selector (vgspec_Source (vg_Spec vg')) →
  members w vg = members w vg'.
Proof.
  intros Heq. apply list_filter_iff. intros pvc. unfold belongs. by rewrite (selects_same vg vg').
Qed.

Lemma claims_there_same w w' vg vg' :
  store w' KSC = store w KSC → store w' KPVC = store w KPVC → store w' KPV = store w KPV →
  vgsrc_Selector (vgspec_Source (vg_Spec vg')) = vgsrc_Selector (vgspec_Source (vg_Spec vg)) →
  claims_there w vg → claims_there w' vg'.
Proof.
  intros Hsc Hpvc Hpv Hsel [Hst Hcl Hl Hvol].
  assert (members w' vg' = members w vg) as Hm
    by (rewrite (members_same w w') by done; by apply members_selector).
  split; rewrite ?Hm; [by rewrite Hpvc| |done|].
  - intros k pvc. rewrite Hpvc, (class_of_same w w') by done. apply Hcl.
  - intros pvc. unfold handle_of, volume_of in *. rewrite Hpv. apply Hvol.
Qed.

(** The keys of the claims of a cluster. *)
Lemma all_claims_keys w vg : claims_there w vg → NoDup (pvc_keys (all_claims w)).
Proof.
  intros Hcl. unfold pvc_keys, all_claims.
  assert (pvc_key <$> (snd <$> map_to_list (store w KPVC)) = (map_to_list (store w KPVC)).*1) as ->.
  { rewrite <- list_fmap_compose. apply list_fmap_ext. intros i [k pvc] Hi. cbn.
    apply list_elem_of_lookup_2, elem_of_map_to_list in Hi. by apply (claims_keyed _ _ Hcl). }
  apply NoDup_fst_map_to_list.
Qed.

Lemma all_claims_elem w vg (pvc : PersistentVolumeClaim) :
  claims_there w vg → pvc ∈ all_claims w → store w KPVC !! pvc_key pvc = Some pvc.
Proof.
  intros Hcl (kp & -> & Hin)%list_elem_of_fmap. destruct kp as [k p].
  apply elem_of_map_to_list in Hin. pose proof (claims_keyed _ _ Hcl _ _ Hin) as Hk.
  change (snd (k, p)) with p. by rewrite Hk.
Qed.

Lemma members_elem w vg pvc :
  pvc ∈ members w vg ↔ belongs w vg pvc = true ∧ pvc ∈ all_claims w.
Proof. unfold members. by rewrite list_elem_of_filter. Qed.

Lemma members_stored w vg pvc :
  claims_there w vg → pvc ∈ members w vg → stored KPVC (pvc_key pvc) w pvc.
Proof.
  intros Hcl Hin. split; [|split; [done|by apply (claims_living _ _ Hcl)]].
  apply members_elem in Hin as [_ Hin]. by eapply all_claims_elem.
Qed.

Lemma members_keys w vg : claims_there w vg → NoDup (pvc_keys (members w vg)).
Proof. intros Hcl. eapply sublist_NoDup; [by eapply all_claims_keys|]. apply fmap_sublist, sublist_filter. Qed.

(** What the check depends on. *)
Lemma joinable_kept req w w' (vg vg' : VolumeGroup) pvc :
  joinable req w vg pvc → store w' KVG !! req = Some vg' →
  (∀ k, k ≠ req → store w' KVG !! k = store w KVG !! k) → store w' KVGClass = store w KVGClass →
  vgspec_VolumeGroupClassName (vg_Spec vg') = vgspec_VolumeGroupClassName (vg_Spec vg) →
  keys vg' = keys vg → joinable req w' vg' pvc.
Proof.
  intros [Hmany|(Hst & Hd & Hc & Hun)] Hst' Hoth Hcl Hcn Hk; [by left|right].
  assert (∀ v, vg_of_driver cfg w' v = vg_of_driver cfg w v) as Hdrv
    by (intros v; unfold vg_of_driver; by rewrite Hcl).
  split; [done|]. split; [rewrite Hdrv; unfold vg_of_driver in *; by rewrite Hcn|]. split.
  - intros k v Hv. rewrite Hcl. destruct (decide (k = req)) as [->|Hne].
    + pose proof (eq_trans (eq_sym Hst') Hv) as Heq. injection Heq as <-. rewrite Hcn. by apply (Hc req).
    + rewrite Hoth in Hv by done. by eapply Hc.
  - intros k v Hne. rewrite Hoth, Hdrv, Hk by done. by apply Hun.
Qed.

Lemma joins_kept req w w' (vg vg' : VolumeGroup) :
  joins req w vg → store w' KVG !! req = Some vg' →
  (∀ k, k ≠ req → store w' KVG !! k = store w KVG !! k) →
  (∀ K, K ∈ [KVGClass; KSC; KPVC] → store w' K = store w K) →
  vgspec_VolumeGroupClassName (vg_Spec vg') = vgspec_VolumeGroupClassName (vg_Spec vg) →
  vgsrc_Selector (vgspec_Source (vg_Spec vg')) = vgsrc_Selector (vgspec_Source (vg_Spec vg)) →
  keys vg' = keys vg → joins req w' vg'.
Proof.
  intros Hj Hst Hoth Hfr Hcn Hsel Hk pvc Hin Hb Hd Hs. unfold all_claims in Hin.
  rewrite (Hfr KPVC) in Hin by set_solver. rewrite (selects_same vg' vg) in Hs by done.
  assert (of_driver w pvc = true) as Hd'
    by (unfold of_driver in *; by rewrite <- (class_of_same w w') by (apply Hfr; set_solver)).
  eapply joinable_kept; [by apply Hj|done..| |done|done]. apply Hfr. set_solver.
Qed.
End Members.

(** ** Finding them *)

Section Runs.
Context `{ExternalLaws} (h : handler cluster) `{!Like h, !Accepts h} (cfg : DriverConfig).
Context (req : NamespacedName).

Lemma IsPVCHasMatchingDriver_runs pvc w :
  is_Some (class_of w pvc) →
  runs h (IsPVCHasMatchingDriver pvc (DriverName cfg)) w
    (λ r w', r = Some (inr (of_driver cfg w pvc)) ∧ w' = w).
Proof.
  unfold class_of, of_driver, class_of, IsPVCHasMatchingDriver, getStorageClassProvisioner,
    getStorageClass. destruct (GetPVCClass pvc) as [e|n]; [by intros [? ?]|]. intros [sc Hsc].
  do 2 runs_step. apply (runs_get h KSC _ sc); [done|]. repeat runs_step. by rewrite Hsc.
Qed.

Lemma IsPVCInStaticVG_runs pvc w :
  is_Some (class_of w pvc) →
  runs h (IsPVCInStaticVG pvc) w (λ r w', r = Some (inr (grouped_by_class w pvc)) ∧ w' = w).
Proof.
  unfold class_of, grouped_by_class, class_of, IsPVCInStaticVG, getStorageClass.
  destruct (GetPVCClass pvc) as [e|n]; [by intros [? ?]|]. intros [sc Hsc].
  runs_step. apply (runs_get h KSC _ sc); [done|]. repeat runs_step. by rewrite Hsc.
Qed.

Lemma event_calls_aside c : event_calls c → aside c.
Proof. unfold aside. destruct c as [| | |[]| | | | | | | | | |]; cbn; eauto; tauto. Qed.

Lemma event_runs K (o : obj_of K) reason message type w :
  runs h (generateEvent K o reason message type ≫= createEvent) w
    (λ r w', r = Some None ∧ same w w').
Proof.
  runs_step. eapply runs_mono.
  { eapply (runs_aside h _ event_calls returns).
    - unfold generateEvent, generateString, Spec. solve_triple.
    - apply event_calls_aside. }
  intros [e|] w1 [He Hw1]; [|by destruct He]. cbn [after]. runs_by createEvent_runs.
  intros r w2 [-> Hw2]. split; [done|]. by transitivity w1.
Qed.

Lemma success_event_runs K (o : obj_of K) message reason w :
  runs h (createSuccessNamespacedObjectEvent K o message reason) w
    (λ r w', r = Some None ∧ same w w').
Proof. apply event_runs. Qed.

Lemma HandlePVCErrorMessage_runs pvc e reason w :
  runs h (HandlePVCErrorMessage pvc (Some e) reason) w (λ r w', r = Some None ∧ same w w').
Proof.
  unfold HandlePVCErrorMessage, createNamespacedObjectErrorEvent. runs_step.
  eapply runs_mono; [apply event_runs|]. intros r w' [-> Hw']. by repeat runs_step.
Qed.

Lemma IsPVCNeedToBeHandled_runs pvc w :
  is_Some (class_of w pvc) → pvc_Phase pvc = ClaimBound → of_driver cfg w pvc = true →
  runs h (IsPVCNeedToBeHandled pvc (DriverName cfg)) w
    (λ r w', r = Some (inr (negb (grouped_by_class w pvc))) ∧ same w w').
Proof.
  intros Hc Hb Hd. unfold IsPVCNeedToBeHandled. runs_step.
  runs_by IsPVCHasMatchingDriver_runs. intros ? ? [-> ->]. rewrite Hd. cbn [after].
  rewrite decide_False by auto. runs_step. runs_by IsPVCInStaticVG_runs. intros ? ? [-> ->].
  cbn [after]. destruct (grouped_by_class w pvc); [|by runs_step].
  destruct Hc as [sc Hc]. unfold class_of in Hc. destruct (GetPVCClass pvc); [done|].
  runs_step. eapply runs_mono; [apply HandlePVCErrorMessage_runs|].
  intros ? w' [-> Hw']. cbn [after]. by runs_step.
Qed.

Lemma isPVCCanBeAddedToVG_runs vg pvc w :
  selects (om_Labels (pvc_ObjectMeta pvc)) vg = true → joinable cfg req w vg pvc →
  runs h (isPVCCanBeAddedToVG cfg pvc) w (λ r w', r = Some None ∧ w' = w).
Proof.
  intros Hs Hj. unfold isPVCCanBeAddedToVG. case_decide as Hmany; [by runs_step|].
  destruct Hj as [?|(Hst & Hd & Hc & Hun)]; [done|]. runs_step.
  runs_by GetVGList_runs. intros ? ? [-> ->]. cbn [after].
  rewrite (IsPVCCanBeAddedToVG_unclaimed cfg req w vg) by done. by runs_step.
Qed.

Lemma isPVCShouldBeInVg_runs vg pvc w :
  selector_ok vg → is_Some (vgsrc_Selector (vgspec_Source (vg_Spec vg))) →
  (selects (om_Labels (pvc_ObjectMeta pvc)) vg = true → joinable cfg req w vg pvc) →
  runs h (isPVCShouldBeInVg cfg vg pvc) w
    (λ r w', r = Some (inr (selects (om_Labels (pvc_ObjectMeta pvc)) vg)) ∧ w' = w).
Proof.
  intros Hok Hs Hj. unfold isPVCShouldBeInVg. rewrite IsPVCMatchesVG_selects by done.
  repeat runs_step. destruct (selects _ vg) eqn:Hsel; [|by runs_step]. runs_step.
  eapply runs_mono; [by apply (isPVCCanBeAddedToVG_runs vg); auto|].
  intros ? ? [-> ->]. by repeat runs_step.
Qed.

(** The bound claims of the driver, among those of a list. *)
Lemma getProvisionedPVCList_runs w l acc :
  (∀ pvc, pvc ∈ l → is_Some (class_of w pvc)) →
  runs h (getProvisionedPVCList_loop (DriverName cfg) l acc) w
    (λ r w', r = Some (inr (acc ++ filter (λ pvc, of_driver cfg w pvc = true) l)) ∧ w' = w).
Proof.
  revert acc. induction l as [|pvc l IH]; intros acc Hl; cbn [getProvisionedPVCList_loop].
  { runs_step. by rewrite app_nil_r. }
  runs_step. eapply runs_mono; [apply IsPVCHasMatchingDriver_runs, Hl; by left|].
  intros ? ? [-> ->]. cbn [after]. rewrite filter_cons. destruct (of_driver cfg w pvc);
    [rewrite decide_True by done|rewrite decide_False by done].
  - rewrite (cons_middle pvc acc (filter _ _)), app_assoc. apply IH. intros q Hq. apply Hl. by right.
  - apply IH. intros q Hq. apply Hl. by right.
Qed.

Lemma GetPVCList_runs w vg :
  claims_there cfg w vg →
  runs h (GetPVCList (DriverName cfg)) w (λ r w',
    r = Some (inr (filter (λ pvc, of_driver cfg w pvc = true)
                     (filter (λ pvc, pvc_Phase pvc = ClaimBound) (all_claims w)))) ∧ w' = w).
Proof.
  intros Hcl. unfold GetPVCList, getPVCList, getProvisionedPVCList. runs_step.
  apply (runs_trigger h (CList KPVC) (inr (all_claims w)) w); [done..|]. cbn [after].
  rewrite getBoundPVCList_spec. eapply runs_mono; [apply getProvisionedPVCList_runs|done].
  intros pvc [Hb Hin]%list_elem_of_filter. eapply all_claims_elem in Hin as Hst; [|done].
  by eapply claims_classed.
Qed.

Lemma getMatchingPVCs_loop_runs vg w0 l acc w :
  selector_ok vg → is_Some (vgsrc_Selector (vgspec_Source (vg_Spec vg))) → same w0 w →
  NoDup (pvc_keys (acc ++ l)) →
  (∀ pvc, pvc ∈ l →
     is_Some (class_of w0 pvc) ∧ pvc_Phase pvc = ClaimBound ∧ of_driver cfg w0 pvc = true ∧
     (selects (om_Labels (pvc_ObjectMeta pvc)) vg = true → joinable cfg req w0 vg pvc)) →
  store w0 KVG !! req = Some vg →
  runs h (getMatchingPVCs_loop cfg vg l acc) w
    (λ r w', r = Some (inr (acc ++ filter (λ pvc, belongs cfg w0 vg pvc = true) l)) ∧ same w0 w').
Proof.
  intros Hok Hs. revert acc w. induction l as [|pvc l IH]; intros acc w Hw Hnd Hl Hst;
    cbn [getMatchingPVCs_loop]; [runs_step; by rewrite app_nil_r|].
  destruct (Hl pvc) as (Hc & Hb & Hd & Hj); [by left|].
  assert (class_of w pvc = class_of w0 pvc) as Hcw by by apply class_of_same, (same_store KSC).
  runs_step. eapply runs_mono; [apply isPVCShouldBeInVg_runs; [done..|]|].
  { intros Hsel. eapply joinable_kept; [by apply Hj|..]; try done;
      rewrite (same_store _ _ _ Hw) by done; done. }
  intros ? ? [-> ->]. cbn [after]. runs_step. eapply runs_mono.
  { apply IsPVCNeedToBeHandled_runs; [by rewrite Hcw|done|]. unfold of_driver. by rewrite Hcw. }
  intros ? w1 [-> Hw1]. cbn [after].
  assert (IsPVCInPVCList pvc acc = false) as Hnew.
  { apply IsPVCInPVCList_false. unfold pvc_keys in *. rewrite fmap_app in Hnd.
    apply NoDup_app in Hnd as (_ & Hnd & _). intros Hin. eapply Hnd; [done|]. by left. }
  assert (belongs cfg w0 vg pvc =
          selects (om_Labels (pvc_ObjectMeta pvc)) vg && negb (grouped_by_class w pvc)) as Hbel.
  { unfold belongs, grouped_by_class. rewrite Hd, bool_decide_true, Hcw by done. done. }
  rewrite Hnew, andb_true_r, <- Hbel, filter_cons.
  assert (same w0 w1) as Hw01 by by transitivity w.
  destruct (belongs cfg w0 vg pvc); [rewrite decide_True by done|rewrite decide_False by done].
  - rewrite (cons_middle pvc acc l), app_assoc in Hnd. rewrite (cons_middle pvc acc (filter _ _)), app_assoc.
    apply IH; [done..| |done].
    intros q Hq. apply Hl. by right.
  - apply IH; [done| |intros q Hq; apply Hl; by right|done].
    unfold pvc_keys in *. rewrite fmap_app in *. cbn in Hnd.
    eapply sublist_NoDup; [exact Hnd|]. apply sublist_app; [done|by constructor].
Qed.

(** [getMatchingPVCs] answers the claims that belong to the VolumeGroup. *)
Lemma getMatchingPVCs_runs vg w :
  claims_there cfg w vg → selector_ok vg → is_Some (vgsrc_Selector (vgspec_Source (vg_Spec vg))) →
  joins cfg req w vg → store w KVG !! req = Some vg →
  runs h (getMatchingPVCs cfg vg) w
    (λ r w', r = Some (inr (members cfg w vg)) ∧ same w w').
Proof.
  intros Hcl Hok Hs Hj Hst. unfold getMatchingPVCs. runs_step. runs_by GetPVCList_runs.
  intros ? ? [-> ->]. cbn [after].
  eapply runs_mono; [apply (getMatchingPVCs_loop_runs vg w); [done..| | |done]|].
  - eapply sublist_NoDup; [by eapply all_claims_keys|].
    apply fmap_sublist. etrans; apply sublist_filter.
  - intros pvc [Hd [Hb Hin]%list_elem_of_filter]%list_elem_of_filter.
    eapply all_claims_elem in Hin as Hp; [|done].
    split_all; [by eapply claims_classed|done..|by apply Hj].
  - intros r w' [-> Hw']. split; [|done]. do 2 f_equal. cbn [app].
    rewrite !list_filter_filter. apply list_filter_iff. intros pvc. unfold belongs.
    rewrite !andb_true_iff, bool_decide_eq_true. naive_solver.
Qed.
End Runs.

(** ** Telling the driver, and bringing the lists in line *)

Section Lists.
Context `{ExternalLaws} (h : handler cluster) `{!Like h, !Accepts h} (cfg : DriverConfig).
Context (req : NamespacedName) (n id : string).

(** The content of the group. *)
Let ck : NamespacedName := mkNN (nn_Namespace req) n.

(** The VolumeGroup [vg] of the request is stored and names its content, which is
    stored as [vgc] and has the handle [id]. *)
Record tied (w : cluster) (vg : VolumeGroup) (vgc : VolumeGroupContent) : Prop := {
  tied_vg : stored KVG req w vg;
  tied_name : vgsrc_VolumeGroupContentName (vgspec_Source (vg_Spec vg)) = Some n;
  tied_vgc : stored KVGC ck w vgc;
  tied_handle : ∃ src, vgcspec_Source (vgc_Spec vgc) = Some src ∧ vgcsrc_VolumeGroupHandle src = id;
}.

Lemma tied_store w w' vg vgc :
  (∀ K, K ≠ KEvent → store w' K = store w K) → tied w vg vgc → tied w' vg vgc.
Proof.
  intros Hw [[? ?] ? [? ?] ?].
  split; [split; [by rewrite Hw|done]|done|split; [by rewrite Hw|done]|done].
Qed.

Lemma tied_namespace w vg vgc : tied w vg vgc → GetNamespace KVG vg = nn_Namespace req.
Proof. intros [(_ & <- & _) _ _ _]. done. Qed.

(** The content is found under the name in the VolumeGroup. *)
Lemma content_runs w vg vgc Q :
  tied w vg vgc → Q (Some (inr vgc)) w →
  runs h (trigger (CGet KVGC (mkNN (GetNamespace KVG vg) n))) w Q.
Proof.
  intros Ht HQ. rewrite (tied_namespace _ _ _ Ht).
  eapply (runs_get h KVGC); [apply (tied_vgc _ _ _ Ht)|done].
Qed.

Lemma GetPVFromPVC_runs pvc w :
  is_Some (handle_of w pvc) ∨ pvcs_VolumeName (pvc_Spec pvc) = ""%string →
  runs h (GetPVFromPVC pvc) w (λ r w', r = Some (inr (volume_of w pvc)) ∧ w' = w).
Proof.
  unfold handle_of, volume_of, GetPVFromPVC, getPV, getPVNameFromPVC. autorewrite with reflect.
  intros Hv. repeat runs_step. case_decide as Hn; [by repeat runs_step|].
  destruct Hv as [[i Hi]|?]; [|done]. destruct (store w KPV !! _) as [pv|] eqn:Hpv; [|done].
  runs_step. apply (runs_get h KPV _ pv); [done|]. by repeat runs_step.
Qed.

Definition has_volume (w : cluster) (pvc : PersistentVolumeClaim) : Prop :=
  is_Some (handle_of w pvc) ∨ pvcs_VolumeName (pvc_Spec pvc) = ""%string.

Lemma getPVCListVolumeIds_runs l w :
  Forall (has_volume w) l →
  runs h (getPVCListVolumeIds l) w (λ r w', r = Some (inr (volume_ids w l)) ∧ w' = w).
Proof.
  intros Hl. unfold getPVCListVolumeIds.
  enough (∀ acc, runs h (getPVCListVolumeIds_loop l acc) w
            (λ r w', r = Some (inr (acc ++ volume_ids w l)) ∧ w' = w)) as Hloop by apply Hloop.
  induction Hl as [|pvc l Hpvc Hl IH]; intros acc; cbn [getPVCListVolumeIds_loop].
  { runs_step. by rewrite app_nil_r. }
  runs_step. runs_by GetPVFromPVC_runs. intros ? ? [-> ->]. cbn [after].
  unfold volume_ids in *. cbn [omap list_omap]. unfold has_volume, handle_of in *.
  destruct (volume_of w pvc) as [pv|] eqn:Hv; cbn in *.
  - destruct Hpvc as [[i Hi]|Hn]; [|unfold volume_of in Hv; by rewrite decide_True in Hv].
    destruct (pv_CSI pv) as [csi|]; [|done]. repeat runs_step. cbn.
    rewrite (cons_middle _ acc (omap _ _)), app_assoc. apply IH.
  - apply IH.
Qed.

Lemma ModifyVolumesInVG_runs l vg vgc className cl w :
  tied w vg vgc → Forall (has_volume w) l →
  vgspec_VolumeGroupClassName (vg_Spec vg) = Some className → class_there cfg w className cl →
  is_Some (groups w !! id) →
  runs h (ModifyVolumesInVG l vg) w (λ r w', r = Some None ∧
    store w' = store w ∧ groups w' = <[id := volume_ids w l]> (groups w)).
Proof.
  intros Ht Hl Hcn Hcl [ids Hid]. destruct (tied_handle _ _ _ Ht) as (src & Hsrc & Hsid).
  unfold ModifyVolumesInVG, ModifyVG, generateModifyVGParams, getVgId, GetVGC, getSecrets,
    request_Modify, ModifyVolumeGroupMembership. autorewrite with reflect. cbn [vg_Spec set_vg_PVCList set_vg_Status].
  rewrite (tied_name _ _ _ Ht), Hcn. cbn [or_empty].
  repeat flow_step. apply (content_runs w vg vgc); [done|]. repeat flow_step. rewrite Hsrc.
  repeat flow_step. runs_by getPVCListVolumeIds_runs. intros ? ? [-> ->]. repeat flow_step.
  runs_by (GetVGClass_runs h cfg). intros ? ? [-> ->]. repeat flow_step.
  pose proof (class_secret _ _ _ _ Hcl) as Hsec. runs_by GetSecretDataFromClass_runs.
  intros ? ? [[secret ->] ->]. repeat flow_step. rewrite Hsid.
  eapply (runs_trigger h (CModifyVolumeGroupMembership id (volume_ids w l) secret));
    [done|cbn [serve]; by rewrite Hid|]. by repeat runs_step.
Qed.

(** ** Writes of a status *)

Lemma vg_retry_runs (g : VolumeGroup → VolumeGroup) o o' w :
  stored KVG req w o → edited KVG o (g o') →
  runs h (RetryOnConflict (λ v, vgRetryOnConflictFunc (g v)) o') w
    (kept_as KVG req (λ a, alike KVG a (with_status_of KVG o (g o'))) w).
Proof.
  intros Hst He. apply runs_retry; [done|]. unfold vgRetryOnConflictFunc, updateVGStatus.
  do 2 runs_step. runs_by (UpdateObjectStatus_runs h KVG req o). intros ? w' Hw.
  pose proof Hw as (v & -> & _). repeat flow_step. cbn [on_err]. flow_step. split; [by eexists|].
  by eapply saved_alike.
Qed.

Lemma vgc_retry_runs (g : VolumeGroupContent → VolumeGroupContent) o o' w :
  stored KVGC ck w o → edited KVGC o (g o') →
  runs h (RetryOnConflict (λ v, vgcRetryOnConflictFunc (g v)) o') w
    (kept_as KVGC ck (λ a, alike KVGC a (with_status_of KVGC o (g o'))) w).
Proof.
  intros Hst He. apply runs_retry; [done|]. unfold vgcRetryOnConflictFunc.
  runs_step. runs_by (UpdateObjectStatus_runs h KVGC ck o). intros ? w' Hw.
  pose proof Hw as (v & -> & _). repeat flow_step. cbn [on_err]. flow_step. split; [by eexists|].
  by eapply saved_alike.
Qed.

Lemma AddPVCToVG_runs pvc vg w :
  stored KVG req w vg →
  runs h (AddPVCToVG pvc vg) w
    (kept_as KVG req
       (λ a, alike KVG a (set_vg_PVCList (appendPVC (vgst_PVCList (vg_Status vg)) pvc) vg)) w).
Proof.
  intros Hst. unfold AddPVCToVG, updateVGStatusPVCList. do 2 runs_step.
  eapply runs_mono; [by apply (vg_retry_runs (set_vg_PVCList _) vg)|].
  intros ? w' (a & -> & Ha). repeat flow_step. by exists a.
Qed.

Lemma addPVToVGC_runs pv vgc w :
  stored KVGC ck w vgc →
  runs h (addPVToVGC pv vgc) w
    (kept_as KVGC ck
       (λ a, alike KVGC a (set_vgc_PVList (appendPV (vgcst_PVList (vgc_Status vgc)) pv) vgc)) w).
Proof.
  intros Hst. unfold addPVToVGC, updateVGCStatusPVList. do 2 runs_step.
  eapply runs_mono; [by apply (vgc_retry_runs (set_vgc_PVList _) vgc)|].
  intros ? w' (a & -> & Ha). repeat flow_step. by exists a.
Qed.

Lemma UpdateVGStatusError_runs m vg w :
  stored KVG req w vg →
  runs h (UpdateVGStatusError vg m) w
    (kept_as KVG req
       (λ a, alike KVG a (set_vg_Error (Some {| vge_Time := None; vge_Message := Some m |}) vg)) w).
Proof.
  intros Hst. unfold UpdateVGStatusError. runs_step.
  eapply runs_mono; [by apply (vg_retry_runs (set_vg_Error _) vg)|].
  intros ? w' (a & -> & Ha). repeat flow_step. by exists a.
Qed.

Lemma HandleSuccessMessage_runs m reason vg w :
  stored KVG req w vg →
  runs h (HandleSuccessMessage vg m reason) w
    (kept_as KVG req
       (λ a, alike KVG a (set_vg_Error (Some {| vge_Time := None; vge_Message := Some "" |}) vg)) w).
Proof.
  intros Hst. unfold HandleSuccessMessage. runs_step.
  runs_by UpdateVGStatusError_runs. intros ? w1 (a & -> & Hst1 & Hw1 & Ha). repeat flow_step.
  runs_by success_event_runs. intros ? w2 [-> Hw2]. repeat flow_step.
  exists a. split; [done|]. split; [by eapply stored_same|]. split; [by eapply wrote_same|done].
Qed.

Lemma AddFinalizerToPVC_runs k pvc w :
  stored KPVC k w pvc →
  runs h (AddFinalizerToPVC pvc) w
    (kept_as KPVC k
       (λ a, alike KPVC a (SetFinalizers KPVC (held (GetFinalizers KPVC pvc) pvcVGFinalizer) pvc)) w).
Proof.
  intros Hst. unfold AddFinalizerToPVC, held. destruct (Contains _ _) eqn:Hc; cbn [negb].
  - runs_step. apply kept_unwritten; [done|]. by rewrite SetFinalizers_same.
  - runs_step. runs_by updateFinalizer_runs. intros r w' Hw. pose proof Hw as (v & -> & _).
    repeat flow_step. by eapply saved_alike.
Qed.

(** A claim that differs from [pvc] in its finalizers and version only. *)
Definition refinalized (pvc : PersistentVolumeClaim) (fs : list string) (pvc' : PersistentVolumeClaim)
  : Prop := alike KPVC pvc' (SetFinalizers KPVC fs pvc).

Lemma refinalized_fields pvc fs pvc' :
  refinalized pvc fs pvc' →
  GetFinalizers KPVC pvc' = fs ∧ pvc_Spec pvc' = pvc_Spec pvc ∧ pvc_Phase pvc' = pvc_Phase pvc ∧
  om_Labels (pvc_ObjectMeta pvc') = om_Labels (pvc_ObjectMeta pvc).
Proof.
  intros Ha. pose proof (alike_proj KPVC (GetFinalizers KPVC) _ _ (λ _, eq_refl) Ha) as Hf.
  pose proof (alike_proj KPVC pvc_Spec _ _ (λ _, eq_refl) Ha) as Hs.
  pose proof (alike_proj KPVC pvc_Phase _ _ (λ _, eq_refl) Ha) as Hp.
  pose proof (alike_proj KPVC (λ o, om_Labels (pvc_ObjectMeta o)) _ _ (λ _, eq_refl) Ha) as Hl.
  by rewrite GetFinalizers_Set in Hf.
Qed.

(** ** One claim, and all of them *)

Lemma AddMatchingPV_runs pvc vg vgc w :
  tied w vg vgc → has_volume w pvc →
  runs h (AddMatchingPVToMatchingVGC pvc vg) w (λ r w', r = Some None ∧
    ∃ vgc', stored KVGC ck w' vgc' ∧ wrote KVGC ck vgc' w w' ∧
      alike KVGC vgc' (set_vgc_PVList (add_volume w (vgcst_PVList (vgc_Status vgc)) pvc) vgc)).
Proof.
  intros Ht Hv. unfold AddMatchingPVToMatchingVGC, GetVGC, add_volume. autorewrite with reflect.
  rewrite (tied_name _ _ _ Ht). cbn [or_empty]. flow_step.
  runs_by GetPVFromPVC_runs. intros ? ? [-> ->]. repeat flow_step.
  apply (content_runs w vg vgc); [done|]. flow_step. pose proof (tied_vgc _ _ _ Ht) as Hst.
  destruct (volume_of w pvc) as [pv|]; repeat flow_step.
  - runs_by addPVToVGC_runs. intros ? w' (a & -> & Hst' & Hw' & Ha). repeat flow_step.
    split; [done|]. by exists a.
  - split; [done|]. exists vgc. split; [done|]. split; [by apply wrote_refl|].
    by destruct vgc as [? ? ? []].
Qed.

(** The claims [l] were added: they are in the status of the VolumeGroup, their
    volumes in the content, and they have the finalizer; other objects are as they
    were. *)
Record listed (l : list PersistentVolumeClaim) (vg : VolumeGroup) (vgc : VolumeGroupContent)
    (w w' : cluster) (vg' : VolumeGroup) (vgc' : VolumeGroupContent) : Prop := {
  listed_tied : tied w' vg' vgc';
  listed_vg : ∃ e, alike KVG vg' (set_vg_Error e
                (set_vg_PVCList (foldl appendPVC (vgst_PVCList (vg_Status vg)) l) vg));
  listed_vgc : alike KVGC vgc'
                 (set_vgc_PVList (foldl (add_volume w) (vgcst_PVList (vgc_Status vgc)) l) vgc);
  listed_frame K : K ∉ [KVG; KVGC; KPVC; KEvent] → store w' K = store w K;
  listed_vgs k : k ≠ req → store w' KVG !! k = store w KVG !! k;
  listed_vgcs k : k ≠ ck → store w' KVGC !! k = store w KVGC !! k;
  listed_groups : groups w' = groups w;
  listed_others k : k ∉ pvc_keys l → store w' KPVC !! k = store w KPVC !! k;
  listed_claims pvc : pvc ∈ l → ∃ pvc' fs, stored KPVC (pvc_key pvc) w' pvc' ∧
                                           refinalized pvc fs pvc' ∧ pvcVGFinalizer ∈ fs;
}.

Lemma listed_nil vg vgc w : tied w vg vgc → listed [] vg vgc w w vg vgc.
Proof.
  intros Ht. split; [done| | |done..|by intros ? ?%elem_of_nil].
  - exists (vgst_Error (vg_Status vg)). by destruct vg as [? ? ? []].
  - by destruct vgc as [? ? ? []].
Qed.

Lemma add_volume_same w w' pvs pvc : store w' KPV = store w KPV → add_volume w' pvs pvc = add_volume w pvs pvc.
Proof. intros Heq. unfold add_volume, volume_of. by rewrite Heq. Qed.

Lemma add_volumes_same w w' pvs l :
  store w' KPV = store w KPV → foldl (add_volume w') pvs l = foldl (add_volume w) pvs l.
Proof.
  intros Heq. revert pvs. induction l as [|pvc l IH]; intros pvs; cbn; [done|].
  by rewrite (add_volume_same w w').
Qed.

Lemma listed_cons pvc l vg vgc w w1 w2 vg1 vgc1 vg2 vgc2 :
  NoDup (pvc_keys (pvc :: l)) →
  listed [pvc] vg vgc w w1 vg1 vgc1 → listed l vg1 vgc1 w1 w2 vg2 vgc2 →
  listed (pvc :: l) vg vgc w w2 vg2 vgc2.
Proof.
  intros [Hnew Hnd]%NoDup_cons 
    [Ht1 (e1 & Hvg1) Hvgc1 Hfr1 Hn1 Hm1 Hg1 Ho1 Hc1] [Ht2 (e2 & Hvg2) Hvgc2 Hfr2 Hn2 Hm2 Hg2 Ho2 Hc2].
  split; [done| | | | | | | |].
  - exists e2. etrans; [exact Hvg2|]. pose proof (alike_vg _ _ Hvg1) as (_ & -> & _).
    exact (alike_map KVG (λ v, set_vg_Error e2 (set_vg_PVCList _ v)) _ _ (λ _, eq_refl) Hvg1).
  - etrans; [exact Hvgc2|]. pose proof (alike_vgc _ _ Hvgc1) as (_ & -> & _). cbn.
    rewrite (add_volumes_same w w1) by (apply Hfr1; set_solver).
    exact (alike_map KVGC (set_vgc_PVList _) _ _ (λ _, eq_refl) Hvgc1).
  - intros K HK. by rewrite Hfr2, Hfr1.
  - intros k Hk. by rewrite Hn2, Hn1.
  - intros k Hk. by rewrite Hm2, Hm1.
  - congruence.
  - intros k Hk. rewrite Ho2, Ho1; [done|..]; set_solver.
  - intros p [->|Hp]%elem_of_cons; [|by apply Hc2].
    destruct (Hc1 pvc) as (p' & fs & (Hp' & ? & ?) & ?); [by left|]. exists p', fs. split; [|done].
    split; [by rewrite Ho2|done].
Qed.

Lemma AddVolume_runs pvc vg vgc w :
  tied w vg vgc → has_volume w pvc → stored KPVC (pvc_key pvc) w pvc →
  runs h (AddVolumeToPvcListAndPvList pvc vg) w
    (λ r w', ∃ vg' vgc', r = Some (None, vg') ∧ listed [pvc] vg vgc w w' vg' vgc').
Proof.
  intros Ht Hv Hpvc. unfold AddVolumeToPvcListAndPvList. pose proof Ht as [Hst Hn Hvgc Hid].
  flow_step. runs_by AddPVCToVG_runs. intros ? w1 (vg1 & -> & Hst1 & [Hs1 Hel1] & Ha1).
  repeat flow_step. pose proof Hel1 as [Hfr1 Hg1].
  assert (tied w1 vg1 vgc) as Ht1.
  { split; [done| |by apply (stored_elsewhere KVG _ _ _ w)|done]. by apply alike_vg in Ha1 as (-> & _). }
  assert (has_volume w1 pvc) as Hv1.
  { unfold has_volume, handle_of, volume_of in *. by rewrite Hfr1. }
  eapply runs_mono; [exact (AddMatchingPV_runs pvc vg1 vgc w1 Ht1 Hv1)|]. intros ? w2 (-> & vgc2 & Hst2 & [Hs2 [Hfr2 Hg2]] & Ha2). repeat flow_step.
  assert (stored KPVC (pvc_key pvc) w2 pvc) as Hpvc2.
  { destruct Hpvc as (Hp & ? & ?). split; [by rewrite Hfr2, Hfr1|done]. }
  runs_by AddFinalizerToPVC_runs. intros ? w3 (pvc3 & -> & Hst3 & [Hs3 [Hfr3 Hg3]] & Hf3).
  repeat flow_step.
  assert (stored KVG req w3 vg1) as Hst13.
  { destruct Hst1 as (Hp & ? & ?). split; [by rewrite Hfr3, Hfr2|done]. }
  runs_by HandleSuccessMessage_runs. intros ? w4 (vg4 & -> & Hst4 & [Hs4 [Hfr4 Hg4]] & Ha4).
  pose proof (alike_vg _ _ Ha4) as (Hs4' & _). pose proof (alike_vg _ _ Ha1) as (Hs1' & _).
  pose proof (alike_vgc _ _ Ha2) as (Hs2' & _).
  exists vg4, vgc2. split; [done|]. split.
  - split; [done|by rewrite Hs4'; cbn; rewrite Hs1'| |by rewrite Hs2'].
    destruct Hst2 as (Hp & ? & ?). split; [by rewrite Hfr4, Hfr3|done].
  - eexists. etrans; [exact Ha4|].
    exact (alike_map KVG (set_vg_Error _) _ _ (λ _, eq_refl) Ha1).
  - etrans; [exact Ha2|]. cbn. by rewrite (add_volume_same w w1) by by apply Hfr1.
  - intros K HK. rewrite Hfr4, Hfr3, Hfr2, Hfr1 by set_solver. done.
  - intros k Hk. rewrite Hs4, lookup_insert_ne, Hfr3, Hfr2, Hs1, lookup_insert_ne by done. done.
  - intros k Hk. rewrite Hfr4, Hfr3, Hs2, lookup_insert_ne, Hfr1 by done. done.
  - by rewrite Hg4, Hg3, Hg2, Hg1.
  - intros k Hk. rewrite Hfr4, Hs3, lookup_insert_ne, Hfr2, Hfr1 by set_solver. done.
  - intros p ->%list_elem_of_singleton. eexists pvc3, _.
    split; [|split; [exact Hf3|apply held_spec]].
    destruct Hst3 as (Hp & ? & ?). split; [by rewrite Hfr4|done].
Qed.

Lemma add_matching_loop_runs l vg vgc w :
  tied w vg vgc → NoDup (pvc_keys l) →
  (∀ pvc, pvc ∈ l → has_volume w pvc ∧ stored KPVC (pvc_key pvc) w pvc) →
  runs h (add_matching_loop [] l vg) w
    (λ r w', ∃ vg' vgc', r = Some (None, vg') ∧ listed l vg vgc w w' vg' vgc').
Proof.
  revert vg vgc w. induction l as [|pvc l IH]; intros vg vgc w Ht Hnd Hl; cbn [add_matching_loop].
  { runs_step. exists vg, vgc. split; [done|by apply listed_nil]. }
  destruct (Hl pvc) as [Hv Hpvc]; [by left|]. cbn [IsPVCInPVCList existsb negb]. runs_step.
  runs_by AddVolume_runs. intros ? w1 (vg1 & vgc1 & -> & H1). cbn [after].
  eapply runs_mono.
  - apply (IH vg1 vgc1 w1 (listed_tied _ _ _ _ _ _ _ H1)); [by apply NoDup_cons in Hnd as [_ ?]|].
    intros q Hq. destruct (Hl q) as [Hvq (Hp & ? & ?)]; [by right|]. split.
    + unfold has_volume, handle_of, volume_of in *.
      by rewrite (listed_frame _ _ _ _ _ _ _ H1 KPV) by set_solver.
    + split; [|done]. rewrite (listed_others _ _ _ _ _ _ _ H1); [done|].
      apply NoDup_cons in Hnd as [Hnew _]. intros Heq%list_elem_of_singleton. apply Hnew.
      rewrite <- Heq. by apply list_elem_of_fmap_2.
  - intros r w2 (vg2 & vgc2 & -> & H2). exists vg2, vgc2. split; [done|]. by eapply listed_cons.
Qed.

(** ** The members of a VolumeGroup that has none yet *)

(** [cmp.Diff] reports a difference between a list and the empty one. *)
Context (diff_nil : ∀ less l, cmp_Diff_SortSlices less l [] = ""%string → l = []).

Lemma UpdatePvcAndPvList_runs l vg vgc w :
  tied w vg vgc → vgst_PVCList (vg_Status vg) = [] → NoDup (pvc_keys l) →
  (∀ pvc, pvc ∈ l → has_volume w pvc ∧ stored KPVC (pvc_key pvc) w pvc) →
  runs h (UpdatePvcAndPvList vg (DriverName cfg) l) w
    (λ r w', ∃ vg' vgc', r = Some (None, vg') ∧ listed l vg vgc w w' vg' vgc').
Proof.
  intros Ht Hnil Hnd Hl. unfold UpdatePvcAndPvList. rewrite Hnil. cbn [remove_stale_loop].
  repeat flow_step. by apply add_matching_loop_runs.
Qed.

(** The members were found, the driver was told, and the lists are in line. *)
Definition filled (vg : VolumeGroup) (vgc : VolumeGroupContent) (w w' : cluster)
    (vg' : VolumeGroup) (vgc' : VolumeGroupContent) : Prop :=
  ∃ w1, (∀ K, K ≠ KEvent → store w1 K = store w K) ∧
        groups w1 = <[id := volume_ids w (members cfg w vg)]> (groups w) ∧
        listed (members cfg w vg) vg vgc w1 w' vg' vgc'.

Lemma members_have_volumes w vg pvc :
  claims_there cfg w vg → pvc ∈ members cfg w vg →
  has_volume w pvc ∧ stored KPVC (pvc_key pvc) w pvc.
Proof.
  intros Hcl Hin. split; [|by eapply members_stored]. unfold has_volume.
  destruct (decide (pvcs_VolumeName (pvc_Spec pvc) = "")%string); [by right|left].
  by eapply claims_volumes.
Qed.

Lemma updatePVCs_runs vg vgc className cl w :
  tied w vg vgc → vgst_PVCList (vg_Status vg) = [] → claims_there cfg w vg → joins cfg req w vg →
  selector_ok vg → is_Some (vgsrc_Selector (vgspec_Source (vg_Spec vg))) →
  vgspec_VolumeGroupClassName (vg_Spec vg) = Some className → class_there cfg w className cl →
  groups w !! id = Some [] →
  runs h (updatePVCs cfg vg) w
    (λ r w', ∃ vg' vgc', r = Some (None, vg') ∧ filled vg vgc w w' vg' vgc').
Proof.
  intros Ht Hnil Hcl Hj Hok Hs Hcn Hclass Hid. unfold updatePVCs, filled. runs_step.
  eapply runs_mono; [apply (getMatchingPVCs_runs h cfg req); [done..|apply Ht]|].
  intros ? w1 [-> Hw1]. cbn [after]. rewrite Hnil.
  assert (tied w1 vg vgc) as Ht1 by (apply (tied_store w); [intros K HK; by apply same_store|done]).
  set (m := members cfg w vg).
  assert (∀ pvc, pvc ∈ m → has_volume w1 pvc ∧ stored KPVC (pvc_key pvc) w1 pvc) as Hm.
  { intros pvc Hin. destruct (members_have_volumes _ _ _ Hcl Hin) as [Hv Hst].
    split; [|by eapply stored_same]. unfold has_volume, handle_of, volume_of in *.
    by rewrite (same_store KPV _ _ Hw1). }
  pose proof (members_keys cfg w vg Hcl) as Hnd. fold m in Hnd.
  unfold IsPVCListEqual. case_bool_decide as Heq.
  - apply diff_nil in Heq. rewrite Heq. runs_step. exists vg, vgc. split; [done|]. exists w1.
    split; [intros K HK; by apply same_store|]. split; [|by apply listed_nil].
    destruct Hw1 as [_ ->]. cbn. by rewrite insert_id.
  - assert (class_there cfg w1 className cl) as Hclass1
      by (apply (class_there_frame cfg w); [by apply same_store..|done]).
    runs_step. eapply runs_mono.
    { eapply (ModifyVolumesInVG_runs m vg vgc className cl w1); [done| |done|done|].
      - apply Forall_forall. intros pvc Hin. by apply Hm.
      - destruct Hw1 as [_ ->]. by eexists. }
    intros ? w2 (-> & Hw2 & Hg2). cbn [after].
    assert (∀ K, K ≠ KEvent → store w2 K = store w K) as Hframe.
    { intros K HK. rewrite Hw2. by apply same_store. }
    runs_step. eapply runs_mono.
    { eapply (UpdatePvcAndPvList_runs m vg vgc w2); [|done|done|].
      - by apply (tied_store w).
      - intros pvc Hin. destruct (Hm pvc Hin) as [Hv [? ?]]. split.
        + unfold has_volume, handle_of, volume_of in *. by rewrite Hw2.
        + split; [by rewrite Hw2|done]. }
    intros ? w3 (vg' & vgc' & -> & Hl). cbn [after]. runs_step. exists vg', vgc'.
    split; [done|]. exists w2. split; [done|]. split; [|done].
    rewrite Hg2, (volume_ids_same w w1) by by apply (same_store KPV). by destruct Hw1 as [_ ->].
Qed.
End Lists.
