(* ===== verification/Provision.v ===== *)
(** * The VolumeGroup controller on a server of its own

    The counterpart of [Settle]: one run of the VolumeGroup controller on a server
    like [Cluster], from any state of the cluster.  The first run for a new
    VolumeGroup creates its content; the run that finds the content ready binds the
    two and fills the group; a run for a VolumeGroup that is being deleted deletes
    its content and lets it go. *)

From S2P Require Import Prelude GoLang Api Effects Externals Objects Params VolumeGroups Volumes.
From S2P Require Import Finalizers Driver VolumeGroupContents Membership Predicates VGController.
From S2P Require Import VGCController Histories Cluster VGSafety VGProgress Faultless Quiet Settle.
From S2P Require Import Joins MemberRuns.
Import VGController.

Section Provision.
Context `{ExternalLaws} (h : handler cluster) `{!Like h}.
Context (cfg : DriverConfig) (req : NamespacedName).

(** The name of the content of a VolumeGroup, and the key of the content. *)
Definition content_name (vg : VolumeGroup) : string :=
  (VGNamePrefix +:+ "-" +:+ GetUID KVG vg)%string.

Definition content_key (vg : VolumeGroup) : NamespacedName :=
  mkNN (nn_Namespace req) (content_name vg).

Lemma AddFinalizerToVG_runs vg w :
  stored KVG req w vg →
  runs h (AddFinalizerToVG vg) w
    (kept_as KVG req
       (λ a, alike KVG a (SetFinalizers KVG (held (GetFinalizers KVG vg) VGFinalizer) vg)) w).
Proof.
  intros Hst. unfold AddFinalizerToVG, held. destruct (Contains _ _) eqn:Hc; cbn [negb].
  - runs_step. apply kept_unwritten; [done|]. by rewrite SetFinalizers_same.
  - runs_step. runs_by updateFinalizer_runs. intros r w' Hw. pose proof Hw as (v & -> & _).
    repeat flow_step. by eapply saved_alike.
Qed.

(** The VolumeGroup and its class are read. *)
Lemma Reconcile_vg_reads vg className cl w Q :
  store w KVG !! req = Some vg → vgspec_VolumeGroupClassName (vg_Spec vg) = Some className →
  class_there cfg w className cl →
  runs h (Reconcile_class cfg vg cl) w Q → runs h (Reconcile cfg req) w Q.
Proof.
  intros Hst Hcn Hcl HQ. unfold Reconcile. runs_step. apply (runs_get h KVG _ vg); [done|].
  cbn [after]. autorewrite with reflect. rewrite Hcn. cbn [or_empty]. repeat flow_step.
  runs_by GetVGClass_runs. intros ? ? [-> ->]. cbn [after].
  by rewrite decide_False by (rewrite (class_driver _ _ _ _ Hcl); congruence).
Qed.

(** ** The content is created *)

(** A VolumeGroup that is not being deleted, names no content and has a UID. *)
Record dynamic (w : cluster) (vg : VolumeGroup) : Prop := {
  dynamic_stored : stored KVG req w vg;
  dynamic_name : vgsrc_VolumeGroupContentName (vgspec_Source (vg_Spec vg)) = None;
  dynamic_uid : GetUID KVG vg ≠ ""%string;
}.

(** What the first run leaves: the VolumeGroup with the finalizer, and its content,
    as generated from it. *)
Record announced (vg : VolumeGroup) (cl : VolumeGroupClass) (w w' : cluster)
    (vg' : VolumeGroup) (vgc : VolumeGroupContent) : Prop := {
  announced_vg : stored KVG req w' vg' ∧
    alike KVG vg' (SetFinalizers KVG (held (GetFinalizers KVG vg) VGFinalizer) vg);
  announced_vgc : stored KVGC (content_key vg) w' vgc ∧ alike KVGC vgc (content_for vg' cl);
  announced_vgs k : k ≠ req → store w' KVG !! k = store w KVG !! k;
  announced_frame K : K ∉ [KVG; KVGC; KEvent] → store w' K = store w K;
  announced_groups : groups w' = groups w;
}.

(** A run for a VolumeGroup that is not being deleted puts the finalizer on first. *)
Lemma living_runs vg className cl w (Q : option (Result * option error) → cluster → Prop) :
  stored KVG req w vg → vgspec_VolumeGroupClassName (vg_Spec vg) = Some className →
  class_there cfg w className cl →
  (∀ vg' w', stored KVG req w' vg' → wrote KVG req vg' w w' →
     alike KVG vg' (SetFinalizers KVG (held (GetFinalizers KVG vg) VGFinalizer) vg) →
     runs h (Reconcile_provision cfg vg' cl) w' Q) →
  runs h (Reconcile cfg req) w Q.
Proof.
  intros Hst Hcn Hcl HQ. pose proof Hst as (Hp & _ & Hd). cbn in Hd.
  eapply Reconcile_vg_reads; [done..|]. unfold Reconcile_class. rewrite Hd. cbn [IsZero].
  pose proof (class_valid _ _ _ _ Hcl) as Hv.
  flow_step. runs_by ValidatePrefixedParameters_runs. intros ? ? [-> ->]. cbn [after].
  flow_step. runs_by AddFinalizerToVG_runs. intros ? w' (vg' & -> & Hst' & Hw' & Ha). cbn [after].
  by apply HQ.
Qed.

(** The way of a dynamic VolumeGroup to the creation of its content. *)
Ltac provision Hdyn :=
  let Hn := fresh "Hn" in let Hu := fresh "Hu" in let sn := fresh "sn" in
  let sns := fresh "sns" in let Hcred := fresh "Hcred" in let Hgen := fresh "Hgen" in
  destruct Hdyn as [_ Hn Hu]; unfold Reconcile_provision, GetCurrentTime;
  do 2 runs_step; cbn [after]; repeat flow_step;
  unfold handleStaticProvisionedVG; rewrite Hn; repeat flow_step;
  rewrite MakeVGName_inr by done;
  match goal with |- context [GetSecretCred ?cl] =>
    match type of Hu with GetUID KVG ?vg ≠ _ =>
      pose proof (GenerateVGC_content_for vg cl) as Hgen end;
    destruct (GetSecretCred cl) as [sn sns] eqn:Hcred end;
  cbn [fst snd] in Hgen; rewrite Hgen; clear Hgen; repeat flow_step.

Lemma dynamic_kept w w' vg vg' fs :
  dynamic w vg → stored KVG req w' vg' → alike KVG vg' (SetFinalizers KVG fs vg) → dynamic w' vg'.
Proof.
  intros [_ Hn Hu] Hst (Hs & _ & Hu' & _)%alike_vg. split; [done|by rewrite Hs|by rewrite Hu'].
Qed.

Lemma content_for_key vg cl w : stored KVG req w vg → key_of KVGC (content_for vg cl) = content_key vg.
Proof. intros (_ & Hk & _). unfold content_key, content_name. by rewrite <- Hk. Qed.

Lemma content_announced_runs vg className cl w :
  dynamic w vg → vgspec_VolumeGroupClassName (vg_Spec vg) = Some className →
  class_there cfg w className cl → store w KVGC !! content_key vg = None →
  runs h (Reconcile cfg req) w (λ r w', r = Some ({| Requeue := true |}, None) ∧
    ∃ vg' vgc, announced vg cl w w' vg' vgc).
Proof.
  intros Hdyn Hcn Hcl Hfree. eapply living_runs; [by apply dynamic_stored|done..|].
  intros vg' w1 Hst1 [Hs1 [Hfr1 Hg1]] Ha. pose proof (dynamic_kept _ _ _ _ _ Hdyn Hst1 Ha) as Hdyn1.
  provision Hdyn1. unfold CreateVGC.
  assert (key_of KVGC (content_for vg' cl) = content_key vg) as Hkey.
  { rewrite (content_for_key _ _ w1) by done. unfold content_key, content_name.
    by apply alike_vg in Ha as (_ & _ & -> & _). }
  match goal with |- runs _ _ ?w _ => set (w2 := w) end.
  destruct (write_living KVGC (content_key vg) (content_for vg' cl) w2)
    as (v & w3 & Hwr & [Hs3 [Hfr3 Hg3]]); [done|].
  flow_step. apply (runs_trigger h (CCreate KVGC (content_for vg' cl))
                      (inr (at_version KVGC v (content_for vg' cl))) w3); [done| |].
  { cbn [serve]. rewrite Hkey. assert (store w2 KVGC !! content_key vg = None) as ->
      by (cbn; by rewrite Hfr1). by rewrite Hwr. }
  repeat flow_step. unfold isVGCReady, GetVGC.
  assert (stored KVGC (content_key vg) w3 (at_version KVGC v (content_for vg' cl))) as Hst3.
  { split; [by rewrite Hs3, lookup_insert_eq|]. by rewrite key_of_at_version. }
  repeat flow_step. eapply (runs_get h KVGC _ (at_version KVGC v (content_for vg' cl))).
  { destruct Hst3 as (Hst3 & _). by rewrite <- Hst3, <- Hkey. }
  repeat flow_step. autorewrite with reflect. cbn. repeat flow_step. split; [done|].
  exists vg', (at_version KVGC v (content_for vg' cl)). split.
  - split; [|done]. destruct Hst1 as (Hp & ? & ?). split; [by rewrite Hfr3|done].
  - split; [done|apply at_version_alike].
  - intros k Hk. rewrite Hfr3 by set_solver. cbn. by rewrite Hs1, lookup_insert_ne.
  - intros K HK. rewrite Hfr3 by set_solver. cbn. apply Hfr1; set_solver.
  - rewrite Hg3. exact Hg1.
Qed.

(** ** The group is bound and filled *)

Lemma updateItems_runs vg t n w :
  stored KVG req w vg →
  runs h (updateItems vg t n) w
    (kept_as KVG req
       (λ a, alike KVG a (set_vg_bound n t true (set_vg_VolumeGroupContentName (Some n) vg))) w).
Proof.
  intros Hst. unfold updateItems, UpdateVGSourceContent. set (vg1 := set_vg_VolumeGroupContentName _ _).
  repeat flow_step. runs_by (UpdateObject_runs h KVG req vg vg1).
  intros ? w1 Hw1. pose proof Hw1 as (v & -> & _).
  eapply saved_alike in Hw1 as (a1 & Heq & Hst1 & Hw1 & Ha1); [|done|done].
  injection Heq as <-. unfold UpdateVGStatus, updateVGStatus. repeat flow_step.
  eapply runs_mono; [by eapply (vg_retry_runs h req (set_vg_bound n t true))|].
  intros ? w2 (a2 & -> & Hst2 & Hw2 & Ha2). repeat flow_step.
  runs_by (UpdateObjectStatus_runs h KVG req a2). intros ? w3 Hw3. pose proof Hw3 as (v3 & -> & _).
  eapply saved_alike in Hw3 as (a3 & Heq & Hst3 & Hw3 & Ha3); [|done|done].
  injection Heq as <-. repeat flow_step. eexists. split; [done|]. split; [done|].
  split; [by eapply wrote_trans; [eapply wrote_trans|]|].
  etrans; [exact Ha3|]. etrans; [exact Ha2|].
  exact (alike_map KVG (set_vg_bound n t true) _ _ (λ _, eq_refl) Ha1).
Qed.

(** The VolumeGroup is bound to its content and has the claims that belong to it as
    members, at the server as at the driver; nothing else but events has changed. *)
Record founded (id : string) (vg : VolumeGroup) (vgc : VolumeGroupContent) (w w' : cluster)
    (vg' : VolumeGroup) (vgc' : VolumeGroupContent) : Prop := {
  founded_vg : stored KVG req w' vg';
  founded_held : GetFinalizers KVG vg' = held (GetFinalizers KVG vg) VGFinalizer;
  founded_spec : vg_Spec vg' = vg_Spec (set_vg_VolumeGroupContentName (Some (content_name vg)) vg);
  founded_bound : vgst_BoundVolumeGroupContentName (vg_Status vg') = Some (content_name vg);
  founded_ready : vgst_Ready (vg_Status vg') = Some true;
  founded_members : vgst_PVCList (vg_Status vg') = members cfg w vg;
  founded_vgc : stored KVGC (content_key vg) w' vgc';
  founded_volumes : alike KVGC vgc'
    (set_vgc_PVList (foldl (add_volume w) (vgcst_PVList (vgc_Status vgc)) (members cfg w vg)) vgc);
  founded_driver : groups w' = <[id := volume_ids w (members cfg w vg)]> (groups w);
  founded_claims pvc : pvc ∈ members cfg w vg →
    ∃ pvc' fs, stored KPVC (pvc_key pvc) w' pvc' ∧ refinalized pvc fs pvc' ∧ pvcVGFinalizer ∈ fs;
  founded_others k : k ∉ pvc_keys (members cfg w vg) → store w' KPVC !! k = store w KPVC !! k;
  founded_frame K : K ∉ [KVG; KVGC; KPVC; KEvent] → store w' K = store w K;
}.

Lemma foldl_appendPVC l acc :
  NoDup (pvc_keys (acc ++ l)) → foldl appendPVC acc l = acc ++ l.
Proof.
  revert acc. induction l as [|pvc l IH]; intros acc Hnd; cbn; [by rewrite app_nil_r|].
  rewrite appendPVC_new.
  - rewrite IH, <- app_assoc; [done|]. by rewrite <- app_assoc.
  - unfold pvc_keys in *. rewrite fmap_app in Hnd. apply NoDup_app in Hnd as (_ & Hnd & _).
    intros Hin. eapply Hnd; [done|]. by left.
Qed.

Context `{!Accepts h}.
Context (diff_nil : ∀ less l, cmp_Diff_SortSlices less l [] = ""%string → l = []).
Context (exists_known : IsAlreadyExists (api_error "AlreadyExists") = true).

(** A dynamic VolumeGroup without members, whose content is stored and ready with
    the handle of a group that the driver has, empty. *)
Record bindable (id : string) (w : cluster) (vg : VolumeGroup) (vgc : VolumeGroupContent) : Prop := {
  bindable_dynamic : dynamic w vg;
  bindable_empty : vgst_PVCList (vg_Status vg) = [];
  bindable_selector : is_Some (vgsrc_Selector (vgspec_Source (vg_Spec vg))) ∧ selector_ok vg;
  bindable_vgc : stored KVGC (content_key vg) w vgc;
  bindable_ready : vgcst_Ready (vgc_Status vgc) = Some true;
  bindable_handle : ∃ src, vgcspec_Source (vgc_Spec vgc) = Some src ∧ vgcsrc_VolumeGroupHandle src = id;
  bindable_group : groups w !! id = Some [];
  bindable_claims : claims_there cfg w vg;
  bindable_joins : joins cfg req w vg;
}.

(** The end of the run, from the VolumeGroup with the finalizer. *)
Lemma bind_runs id vg vgc className cl w :
  bindable id w vg vgc → held (GetFinalizers KVG vg) VGFinalizer = GetFinalizers KVG vg →
  vgspec_VolumeGroupClassName (vg_Spec vg) = Some className → class_there cfg w className cl →
  runs h (Reconcile_provision cfg vg cl) w (λ r w', r = Some (Result_zero, None) ∧
    ∃ vg' vgc', founded id vg vgc w w' vg' vgc').
Proof.
  intros [Hdyn Hnil [Hs Hok] Hvgc Hready Hid Hg Hclaims Hjoins] Hheld Hcn Hcl.
  pose proof (dynamic_stored _ _ Hdyn) as Hst. provision Hdyn. unfold CreateVGC.
  pose proof (content_for_key vg cl w Hst) as Hkey. pose proof Hvgc as (Hvgcst & _).
  match goal with |- runs _ _ ?w _ => set (w0 := w) end. flow_step.
  apply (runs_trigger h (CCreate KVGC (content_for vg cl)) (inl (api_error "AlreadyExists")) w0);
    [done|cbn [serve]; rewrite Hkey; change (store w0 KVGC) with (store w KVGC); by rewrite Hvgcst|].
  cbn [after]. rewrite exists_known. repeat flow_step. unfold isVGCReady, GetVGC. repeat flow_step.
  apply (runs_get h KVGC _ vgc); [rewrite <- Hvgcst, <- Hkey; done|].
  repeat flow_step. autorewrite with reflect. rewrite Hready. cbn [default Datatypes.id]. repeat flow_step.
  change (GetName KVGC (content_for vg cl)) with (content_name vg).
  runs_by (updateItems_runs vg (Some (clock w)) (content_name vg) w0).
  intros ? w1 (a & -> & Hst1 & [Hw1 [Hfr1 Hg1]] & Ha). cbn [after].
  pose proof (alike_vg _ _ Ha) as (Has & Hat & _ & Haf & _).
  assert (tied req (content_name vg) id w1 a vgc) as Ht1.
  { split; [done|by rewrite Has| |done]. destruct Hvgc as (? & ? & ?). split; [by rewrite Hfr1|done]. }
  assert (claims_there cfg w1 a) as Hclaims1
    by (apply (claims_there_same cfg w w1 vg); by rewrite ?Hfr1, ?Has).
  assert (joins cfg req w1 a) as Hjoins1.
  { apply (joins_kept cfg req w w1 vg); try done; rewrite ?Has, ?Hat; try done; [apply Hst1| |].
    - intros k Hk. by rewrite Hw1, lookup_insert_ne.
    - intros K HK. apply Hfr1; set_solver. }
  assert (class_there cfg w1 className cl) as Hcl1 by (apply (class_there_frame cfg w); by rewrite ?Hfr1).
  assert (members cfg w1 a = members cfg w vg) as Hmem.
  { rewrite (members_same cfg w w1) by by rewrite Hfr1. apply members_selector. by rewrite Has. }
  flow_step. eapply runs_mono.
  { eapply (updatePVCs_runs h cfg req (content_name vg) id diff_nil a vgc className cl w1);
      try done; rewrite ?Has, ?Hat, ?Hg1; try done.
    intros s. cbn. rewrite Has. apply Hok. }
  intros ? w2 (vg2 & vgc2 & -> & w1' & Hw1' & Hg1' & Hl). cbn [after]. rewrite Hmem in Hg1', Hl.
  destruct Hl as [Ht2 (e & Hvg2) Hvgc2 Hfr2 _ _ Hg2 Ho2 Hc2].
  unfold createSuccessVGEvent. repeat flow_step.
  pose proof Ht2 as [Hst2 _ Hvgcst2 _]. runs_by (HandleSuccessMessage_runs h req).
  intros ? w3 (vg3 & -> & Hst3 & [Hw3 [Hfr3 Hg3]] & Hvg3). cbn [after]. repeat flow_step.
  split; [done|]. pose proof (alike_vg _ _ Hvg3) as (Hs3 & Ht3 & _ & Hf3 & _).
  pose proof (alike_vg _ _ Hvg2) as (Hs2 & Hat2 & _ & Hf2 & _).
  assert (∀ K, K ∉ [KVG; KEvent] → store w1' K = store w K) as Hfr1'.
  { intros K HK. rewrite Hw1' by set_solver. apply Hfr1; set_solver. }
  exists vg3, vgc2. split.
  - done.
  - rewrite Hheld. exact (eq_trans Hf3 (eq_trans Hf2 Haf)).
  - exact (eq_trans Hs3 (eq_trans Hs2 Has)).
  - by rewrite Ht3; cbn; rewrite Hat2; cbn; rewrite Hat.
  - by rewrite Ht3; cbn; rewrite Hat2; cbn; rewrite Hat.
  - rewrite Ht3; cbn; rewrite Hat2; cbn. rewrite Hat. cbn. rewrite Hnil, foldl_appendPVC; [done|].
    by apply members_keys.
  - destruct Hvgcst2 as (? & ? & ?). split; [by rewrite Hfr3|done].
  - by rewrite <- (add_volumes_same w w1') by by apply Hfr1'; set_solver.
  - rewrite Hg3, Hg2, Hg1', Hg1. by rewrite (volume_ids_same w w1) by by rewrite Hfr1.
  - intros pvc Hin. destruct (Hc2 pvc Hin) as (pvc' & fs & (? & ? & ?) & ?).
    exists pvc', fs. split; [|done]. split; [by rewrite Hfr3|done].
  - intros k Hk. rewrite Hfr3 by done. rewrite Ho2 by done. by rewrite Hfr1' by set_solver.
  - intros K HK. rewrite Hfr3 by set_solver. rewrite Hfr2 by done. apply Hfr1'. set_solver.
Qed.

(** The run that finds the content ready. *)
Lemma group_bound_runs id vg vgc className cl w :
  bindable id w vg vgc →
  vgspec_VolumeGroupClassName (vg_Spec vg) = Some className → class_there cfg w className cl →
  runs h (Reconcile cfg req) w (λ r w', r = Some (Result_zero, None) ∧
    ∃ vg' vgc', founded id vg vgc w w' vg' vgc').
Proof.
  intros [Hdyn Hnil [Hs Hok] Hvgc Hready Hid Hg Hclaims Hjoins] Hcn Hcl.
  eapply living_runs; [by apply dynamic_stored|done..|].
  intros vg1 w1 Hst1 [Hs1 [Hfr1 Hg1]] Ha. pose proof (alike_vg _ _ Ha) as (Has & Hat & Hau & Haf & _).
  cbn in Has, Hat. change (GetUID KVG (SetFinalizers _ _ _)) with (GetUID KVG vg) in Hau.
  assert (content_name vg1 = content_name vg) as Hname by (unfold content_name; by rewrite Hau).
  assert (content_key vg1 = content_key vg) as Hkey by (unfold content_key; by rewrite Hname).
  assert (selector_ok vg1) as Hok1 by (intros s; rewrite Has; apply Hok).
  assert (members cfg w1 vg1 = members cfg w vg) as Hmem.
  { rewrite (members_same cfg w w1) by by rewrite Hfr1. apply members_selector. by rewrite Has. }
  eapply runs_mono.
  { eapply (bind_runs id vg1 vgc className cl w1); [|..|by apply (class_there_frame cfg w); rewrite ?Hfr1].
    - split; rewrite ?Has, ?Hat, ?Hg1, ?Hkey; try done.
      + by eapply dynamic_kept.
      + destruct Hvgc as (? & ? & ?). split; [by rewrite Hfr1|done].
      + apply (claims_there_same cfg w w1 vg); by rewrite ?Hfr1, ?Has.
      + apply (joins_kept cfg req w w1 vg); try done; rewrite ?Has, ?Hat; try done; [apply Hst1| |].
        * intros k Hk. by rewrite Hs1, lookup_insert_ne.
        * intros K HK. apply Hfr1; set_solver.
    - by rewrite Haf, GetFinalizers_Set, held_idem.
    - by rewrite Has. }
  intros r w2 (-> & vg2 & vgc2 & [? Hf Hsp Hb Hr Hm Hc Hv Hd Hcl2 Ho Hfr]). split; [done|].
  exists vg2, vgc2. rewrite Hname, Hmem, ?Hkey in *. split; try done.
  - by rewrite Hf, Haf, GetFinalizers_Set, held_idem.
  - rewrite Hsp. unfold set_vg_VolumeGroupContentName. cbn. by rewrite Has.
  - by rewrite <- (add_volumes_same w w1) by by rewrite Hfr1.
  - by rewrite Hd, Hg1, (volume_ids_same w w1) by by rewrite Hfr1.
  - intros k Hk. rewrite Ho by done. by rewrite Hfr1.
  - intros K HK. rewrite Hfr by done. apply Hfr1; set_solver.
Qed.
End Provision.

(** ** The VolumeGroup is let go *)

Section LetGo.
Context `{ExternalLaws} (h : handler cluster) `{!Like h}.
Context (cfg : DriverConfig) (req : NamespacedName).

(** The VolumeGroup of the request is being deleted, only the operator holds it, and
    it names its content, which the operator holds and the policy says to delete. *)
Record dying (n : string) (w : cluster) (vg : VolumeGroup) (vgc : VolumeGroupContent) : Prop := {
  dying_vg : store w KVG !! req = Some vg ∧ key_of KVG vg = req;
  dying_deleted : is_Some (om_DeletionTimestamp (vg_ObjectMeta vg));
  dying_held : GetFinalizers KVG vg = [VGFinalizer];
  dying_name : vgsrc_VolumeGroupContentName (vgspec_Source (vg_Spec vg)) = Some n;
  dying_vgc : store w KVGC !! mkNN (nn_Namespace req) n = Some vgc ∧
              key_of KVGC vgc = mkNN (nn_Namespace req) n;
  dying_content_held : GetFinalizers KVGC vgc ≠ [];
  dying_policy : vgcspec_VolumeGroupDeletionPolicy (vgc_Spec vgc) = Some VolumeGroupContentDelete;
}.

Lemma group_let_go_runs n vg vgc className cl w :
  dying n w vg vgc → vgspec_VolumeGroupClassName (vg_Spec vg) = Some className →
  class_there cfg w className cl →
  runs h (Reconcile cfg req) w (λ r w', r = Some (Result_zero, None) ∧
    store w' KVG = delete req (store w KVG) ∧
    (∃ v t, store w' KVGC = <[mkNN (nn_Namespace req) n := at_version KVGC v (marked KVGC t vgc)]>
                              (store w KVGC)) ∧
    (∀ K, K ∉ [KVG; KVGC; KEvent] → store w' K = store w K) ∧ groups w' = groups w).
Proof.
  intros [[Hvg Hk] [t Hd] Hf Hn [Hvgc Hkc] Hfc Hp] Hcn Hcl. eapply Reconcile_vg_reads; [done..|].
  unfold Reconcile_class. rewrite Hd. cbn [IsZero]. pose proof (class_valid _ _ _ _ Hcl) as Hv.
  flow_step. runs_by ValidatePrefixedParameters_runs. intros ? ? [-> ->]. cbn [after].
  assert (Contains (GetFinalizers KVG vg) VGFinalizer &&
          negb (IsContainOtherFinalizers KVG vg) = true) as ->
    by (unfold IsContainOtherFinalizers; by rewrite Hf).
  unfold removeInstance, GetVGC, removeVGCObject. autorewrite with reflect. rewrite Hn. cbn [or_empty].
  repeat flow_step. assert (GetNamespace KVG vg = nn_Namespace req) as -> by by rewrite <- Hk.
  eapply (runs_get h KVGC); [done|]. cbn [after]. rewrite Hp. repeat flow_step.
  rewrite decide_True by done. flow_step.
  destruct (delete_held KVGC vgc vgc w) as (v & w1 & Hserve & Hw1); [by rewrite Hkc|done|done|].
  rewrite Hkc in Hw1. destruct Hw1 as [Hw1 [Hfr1 Hg1]].
  apply (runs_trigger h (CDelete KVGC vgc) None w1); [done..|]. repeat flow_step.
  unfold RemoveFinalizerFromVG. rewrite Hf. rewrite (proj2 (Contains_spec _ _)) by by left.
  flow_step. rewrite GetFinalizers_Set.
  eapply runs_mono.
  { apply (updateFinalizer_gone h KVG vg); [by rewrite Hk, Hfr1|by exists t|by rewrite Hf]. }
  intros ? w2 (a & -> & Hw2 & Hfr2 & Hg2). repeat flow_step. split; [done|]. split_all.
  - by rewrite Hw2, Hk, Hfr1.
  - exists v, (clock w). by rewrite Hfr2.
  - intros K HK. rewrite Hfr2, Hfr1; [done|set_solver..].
  - by rewrite Hg2.
Qed.
End LetGo.
