(* ===== verification/Handover.v ===== *)
(** * The two controllers in turn

    From a new VolumeGroup to its group at the driver and its members, and from its
    deletion to nothing left: the runs of the two controllers one after the other,
    on a server that behaves as [Cluster], with nobody else writing.  [newcomer] and
    [doomed] say what has to be there at the start; each run leaves what the next one
    needs. *)

From S2P Require Import Prelude GoLang Api Effects Externals Objects Params VolumeGroups Volumes.
From S2P Require Import Finalizers Driver VolumeGroupContents Membership Predicates VGController.
From S2P Require Import VGCController Histories Cluster Scenario VGSafety VGCProgress VGProgress.
From S2P Require Import Faultless Quiet Settle Joins MemberRuns Provision.

Section Handover.
Context `{ExternalLaws} (h : handler cluster) `{!Like h} (cfg : DriverConfig).
Context (req : NamespacedName).

(** The server after a run of each controller. *)
Definition after_vg (w : cluster) : cluster := run_world h (VGController.Reconcile cfg req) w.
Definition after_vgc (k : NamespacedName) (w : cluster) : cluster :=
  run_world h (VGCController.Reconcile cfg k) w.

(** ** From a new VolumeGroup to its group *)

(** A VolumeGroup that users have just created: it is not being deleted, has a UID and
    a valid selector, names no content and has no members; its class is of the operator's
    driver, is stored, has valid parameters and has its secret; neither its content
    nor its group exists; the claims it selects are in order, and may join it. *)
Record newcomer (w : cluster) (vg : VolumeGroup) (className : string) (cl : VolumeGroupClass)
  : Prop := {
  new_dynamic : dynamic req w vg;
  new_class : vgspec_VolumeGroupClassName (vg_Spec vg) = Some className;
  new_class_there : class_there cfg w className cl;
  new_empty : vgst_PVCList (vg_Status vg) = [];
  new_selector : is_Some (vgsrc_Selector (vgspec_Source (vg_Spec vg))) ∧ selector_ok vg;
  new_content : store w KVGC !! content_key req vg = None;
  new_group : groups w !! group_id h (content_name vg) = None;
  new_claims : claims_there cfg w vg;
  new_joins : joins cfg req w vg;
}.

(** The group is established: the VolumeGroup and its content are bound, held and
    ready, and have the claims that belong to the VolumeGroup, and their volumes, as
    members; the driver has the group with the handles of these volumes. *)
Record established (w : cluster) (vg : VolumeGroup) (cl : VolumeGroupClass) (w' : cluster)
    (vg' : VolumeGroup) (vgc' : VolumeGroupContent) : Prop := {
  est_vg : stored KVG req w' vg';
  est_held : GetFinalizers KVG vg' = held (GetFinalizers KVG vg) VGFinalizer;
  est_spec : vg_Spec vg' = vg_Spec (set_vg_VolumeGroupContentName (Some (content_name vg)) vg);
  est_bound : vgst_BoundVolumeGroupContentName (vg_Status vg') = Some (content_name vg);
  est_ready : vgst_Ready (vg_Status vg') = Some true;
  est_members : vgst_PVCList (vg_Status vg') = members cfg w vg;
  est_vgc : stored KVGC (content_key req vg) w' vgc';
  est_vgc_held : GetFinalizers KVGC vgc' = [VgcFinalizer];
  est_vgc_ready : vgcst_Ready (vgc_Status vgc') = Some true;
  est_volumes : vgcst_PVList (vgc_Status vgc') = foldl (add_volume w) [] (members cfg w vg);
  est_vgc_spec : ∃ src ref,
    vgcspec_Source (vgc_Spec vgc') = Some src ∧
    vgcsrc_VolumeGroupHandle src = group_id h (content_name vg) ∧
    vgcspec_VolumeGroupRef (vgc_Spec vgc') = Some ref ∧
    mkNN (or_Namespace ref) (or_Name ref) = req ∧
    vgcspec_VolumeGroupClassName (vgc_Spec vgc') = vgspec_VolumeGroupClassName (vg_Spec vg) ∧
    vgcspec_VolumeGroupDeletionPolicy (vgc_Spec vgc') =
      Some (default VolumeGroupContentDelete (vgclass_VolumeGroupDeletionPolicy cl));
  est_driver : groups w' =
    <[group_id h (content_name vg) := volume_ids w (members cfg w vg)]> (groups w);
  est_claims pvc : pvc ∈ members cfg w vg →
    ∃ pvc' fs, stored KPVC (pvc_key pvc) w' pvc' ∧ refinalized pvc fs pvc' ∧ pvcVGFinalizer ∈ fs;
  est_frame K : K ∉ [KVG; KVGC; KPVC; KEvent] → store w' K = store w K;
}.

(** ** From the deletion of a VolumeGroup to nothing left *)

(** A VolumeGroup being deleted and its content, both held by the operator alone,
    with the class of each; the content refers to the VolumeGroup, and no claims are
    deleted with it. *)
Record doomed (n id : string) (w : cluster) (vg : VolumeGroup) (vgc : VolumeGroupContent) : Prop := {
  doomed_dying : dying req n w vg vgc;
  doomed_class : ∃ name cl, vgspec_VolumeGroupClassName (vg_Spec vg) = Some name ∧
                            class_there cfg w name cl;
  doomed_held : GetFinalizers KVGC vgc = [VgcFinalizer];
  doomed_ref : ∃ ref, vgcspec_VolumeGroupRef (vgc_Spec vgc) = Some ref ∧
                      mkNN (or_Namespace ref) (or_Name ref) = req;
  doomed_vgc_class : ∃ name cl, vgcspec_VolumeGroupClassName (vgc_Spec vgc) = Some name ∧
                                class_there cfg w name cl;
  doomed_disposable : disposable cfg vgc (Some id);
}.

Context (not_found : IsNotFound (api_error "NotFound") = true).

Lemma torn_down_runs n id vg vgc w :
  doomed n id w vg vgc →
  let ck := mkNN (nn_Namespace req) n in
  let w1 := after_vg w in
  let w2 := after_vgc ck w1 in
  run_outcome h (VGController.Reconcile cfg req) w = Some (VGController.Result_zero, None) ∧
  run_outcome h (VGCController.Reconcile cfg ck) w1 = Some (VGController.Result_zero, None) ∧
  store w2 KVG = delete req (store w KVG) ∧ store w2 KVGC = delete ck (store w KVGC) ∧
  groups w2 = delete id (groups w) ∧
  ∀ K, K ∉ [KVG; KVGC; KEvent] → store w2 K = store w K.
Proof.
  intros [Hdy (cn & cl & Hcn & Hcl) Hf (ref & Href & Hreq) (cn' & cl' & Hcn' & Hcl') Hdisp] ck. cbv zeta.
  destruct (group_let_go_runs h cfg req n vg vgc cn cl w Hdy Hcn Hcl)
    as (Hout1 & Hvg1 & (v & t & Hvgc1) & Hfr1 & Hg1).
  fold (after_vg w) in Hvg1, Hvgc1, Hfr1, Hg1. set (w1 := after_vg w) in *.
  pose proof (dying_vgc _ _ _ _ _ Hdy) as [Hst Hk]. fold ck in Hst, Hk, Hvgc1.
  set (o := at_version KVGC v (marked KVGC t vgc)) in *.
  destruct (content_released_runs h cfg ck not_found o cn' (Some id) cl' w1) as (Hout2 & Hc2 & Hg2 & Hfr2).
  - split; [by rewrite Hvgc1, lookup_insert_eq|]. split; [exact Hk|]. split; [by exists t|exact Hf].
  - intros ref' Href'. change (vgcspec_VolumeGroupRef (vgc_Spec vgc) = Some ref') in Href'.
    rewrite Href in Href'. injection Href' as <-. by rewrite Hreq, Hvg1, lookup_delete_eq.
  - exact Hdisp.
  - exact Hcn'.
  - apply (class_there_frame cfg w); [by apply Hfr1; set_solver..|done].
  - fold (after_vgc ck w1) in Hc2, Hg2, Hfr2. split_all; [done|done|..].
    + by rewrite Hfr2, Hvg1.
    + by rewrite Hc2, Hvgc1, delete_insert_eq.
    + by rewrite Hg2, Hg1.
    + intros K HK. rewrite Hfr2 by set_solver. by apply Hfr1.
Qed.

(** C6: on a server that behaves as [Cluster] and with nobody else writing, when a
    VolumeGroup that is being deleted and its content, with the policy Delete and a
    handle, are each held by the operator alone, their classes are there, and no
    claims are to be deleted with the content (their deletion is disabled, or the
    content lists no volumes), one run of each controller leaves neither of them, and
    the group of the handle is gone at the driver; nothing else but events has
    changed. *)
Theorem group_torn_down n id vg vgc w :
  doomed n id w vg vgc →
  let ck := mkNN (nn_Namespace req) n in
  let w1 := after_vg w in
  let w2 := after_vgc ck w1 in
  run_outcome h (VGController.Reconcile cfg req) w = Some (VGController.Result_zero, None) ∧
  run_outcome h (VGCController.Reconcile cfg ck) w1 = Some (VGController.Result_zero, None) ∧
  store w2 KVG = delete req (store w KVG) ∧ store w2 KVGC = delete ck (store w KVGC) ∧
  groups w2 = delete id (groups w) ∧
  ∀ K, K ∉ [KVG; KVGC; KEvent] → store w2 K = store w K.
Proof. apply torn_down_runs. Qed.

(** ** The way there *)

Context `{!Accepts h}.
Context (diff_nil : ∀ less l, cmp_Diff_SortSlices less l [] = ""%string → l = []).
Context (exists_known : IsAlreadyExists (api_error "AlreadyExists") = true).

Lemma established_runs vg className cl w :
  newcomer w vg className cl →
  let w1 := after_vg w in
  let w2 := after_vgc (content_key req vg) w1 in
  run_outcome h (VGController.Reconcile cfg req) w =
    Some ({| VGController.Requeue := true |}, None) ∧
  run_outcome h (VGCController.Reconcile cfg (content_key req vg)) w1 =
    Some (VGController.Result_zero, None) ∧
  run_outcome h (VGController.Reconcile cfg req) w2 = Some (VGController.Result_zero, None) ∧
  ∃ vg' vgc', established w vg cl (after_vg w2) vg' vgc'.
Proof.
  clear not_found. intros [Hdyn Hcn Hcl Hnil [Hs Hok] Hfree Hnew Hclaims Hjoins]. set (ck := content_key req vg). cbv zeta.
  destruct (content_announced_runs h cfg req vg className cl w Hdyn Hcn Hcl Hfree)
    as (Hout1 & vg1 & vgc1 & [[Hst1 Ha1] [Hstc1 Hac1] Ho1 Hfr1 Hg1]).
  fold (after_vg w) in Hst1, Hstc1, Hfr1, Hg1. set (w1 := after_vg w) in *.
  pose proof (alike_vg _ _ Ha1) as (Hs1 & Ht1 & Hu1 & Hf1 & _).
  pose proof (alike_vgc _ _ Hac1) as (Hcs1 & Hct1 & Hcf1 & Hck1).
  cbn in Hs1, Ht1. change (GetUID KVG (SetFinalizers _ _ _)) with (GetUID KVG vg) in Hu1.
  assert (GetName KVGC vgc1 = content_name vg) as Hname1.
  { injection Hck1 as _ ->. unfold content_name. by rewrite <- Hu1. }
  destruct (content_settles_runs h cfg ck vgc1 className cl w1) as (Hout2 & a & Hm).
  { split; [done|]. rewrite Hcs1. by eexists. }
  { by rewrite Hcs1; cbn; rewrite Hs1, Hcn. }
  { apply (class_there_frame cfg w); [by apply Hfr1; set_solver..|done]. }
  fold (after_vgc ck w1) in Hm. set (w2 := after_vgc ck w1) in *.
  destruct Hm as [Hst2 Hfr2 Hg2 Hf2 (src & Hsp2 & Hid2) Hr2 Hv2]. rewrite Hname1 in Hg2, Hid2.
  assert (∀ K, K ∉ [KVG; KVGC; KEvent] → store w2 K = store w K) as Hfr12.
  { intros K HK. rewrite Hfr2, Hfr1 by set_solver. done. }
  assert (content_name vg1 = content_name vg) as Hname by (unfold content_name; by rewrite Hu1).
  assert (content_key req vg1 = ck) as Hkey by (unfold content_key; by rewrite Hname).
  assert (stored KVG req w2 vg1) as Hst12.
  { destruct Hst1 as (? & ? & ?). split; [by rewrite Hfr2|done]. }
  assert (members cfg w2 vg1 = members cfg w vg) as Hmem.
  { rewrite (members_same cfg w w2) by (apply Hfr12; set_solver). apply members_selector. by rewrite Hs1. }
  destruct (group_bound_runs h cfg req diff_nil exists_known (group_id h (content_name vg))
              vg1 a className cl w2) as (Hout3 & vg3 & vgc3 & Hfound).
  { split; rewrite ?Hkey; try done.
    - by eapply dynamic_kept.
    - by rewrite Ht1.
    - split; [by rewrite Hs1|intros s; rewrite Hs1; apply Hok].
    - exists src. by rewrite Hsp2.
    - rewrite Hg2, Hg1. unfold with_group. by rewrite lookup_insert_eq, Hnew.
    - apply (claims_there_same cfg w w2 vg); [apply Hfr12; set_solver..|by rewrite Hs1|done].
    - apply (joins_kept cfg req w w2 vg); try done; rewrite ?Hs1, ?Ht1; try done.
      + by destruct Hst12.
      + intros k Hk. rewrite Hfr2 by done. by apply Ho1.
      + intros K HK. apply Hfr12. set_solver. }
  { by rewrite Hs1. }
  { apply (class_there_frame cfg w); [by apply Hfr12; set_solver..|done]. }
  split; [done|]. split; [done|]. split; [done|]. exists vg3, vgc3.
  fold (after_vg w2) in Hfound. set (w3 := after_vg w2) in *.
  destruct Hfound as [Hst3 Hf3 Hsp3 Hb3 Hr3 Hm3 Hc3 Hv3 Hg3 Hcl3 Ho3 Hfr3].
  rewrite Hname, Hmem, ?Hkey in *. pose proof (alike_vgc _ _ Hv3) as (Hvs3 & Hvt3 & Hvf3 & _).
  split; try done.
  - by rewrite Hf3, Hf1, GetFinalizers_Set, held_idem.
  - rewrite Hsp3. unfold set_vg_VolumeGroupContentName. cbn. by rewrite Hs1.
  - rewrite Hvf3. change (GetFinalizers KVGC a = [VgcFinalizer]). by rewrite Hf2, Hcf1.
  - by rewrite Hvt3.
  - rewrite Hvt3. cbn. rewrite Hv2, Hct1. cbn. apply add_volumes_same, Hfr12. set_solver.
  - rewrite Hvs3. cbn. rewrite Hsp2. cbn. rewrite Hcs1. cbn. eexists _, _. split; [done|]. split; [done|].
    split; [done|]. destruct Hst1 as (_ & Hk1 & _). split; [exact Hk1|]. by rewrite Hs1, Hcn.
  - rewrite Hg3, Hg2, Hg1. unfold with_group. rewrite insert_insert_eq.
    by rewrite (volume_ids_same w w2) by (apply Hfr12; set_solver).
  - intros K HK. rewrite Hfr3 by done. apply Hfr12. set_solver.
Qed.


(** ** A whole life *)

(** The user deletes the VolumeGroup. *)
Definition deleted (w : cluster) : cluster :=
  match store w KVG !! req with Some vg => snd (h (CDelete KVG vg) w) | None => w end.

Lemma established_doomed w vg className cl w' vg' vgc' :
  DisableDeletePvcs cfg ≠ "false"%string → GetFinalizers KVG vg = [] →
  default VolumeGroupContentDelete (vgclass_VolumeGroupDeletionPolicy cl) = VolumeGroupContentDelete →
  newcomer w vg className cl → established w vg cl w' vg' vgc' →
  (∃ v t, doomed (content_name vg) (group_id h (content_name vg)) (deleted w')
            (at_version KVG v (marked KVG t vg')) vgc') ∧
  groups (deleted w') = groups w' ∧ store (deleted w') KPVC = store w' KPVC.
Proof.
  intros Hkeep Hnofin Hpol [_ Hcn Hcl _ _ _ _ _ _]
    [(Hst & Hk & _) Hf Hsp _ _ _ (Hcst & Hck & _) Hcf _ _ (src & ref & Hsrc & Hid & Href & Hreq & Hccn & Hp) _ _ Hfr].
  rewrite Hnofin in Hf. change (held [] VGFinalizer) with [VGFinalizer] in Hf.
  destruct (delete_held KVG vg' vg' w') as (v & w4 & Hserve & Hst4 & Hfr4 & Hg4);
    [by rewrite Hk|done|by rewrite Hf|].
  assert (deleted w' = w4) as -> by (unfold deleted; rewrite Hst, like_serve, Hserve by done; done).
  split; [|by split; [|rewrite Hfr4]]. exists v, (clock w'). rewrite Hk in Hst4.
  assert (class_there cfg w4 className cl) as Hcl4.
  { apply (class_there_frame cfg w); [by rewrite Hfr4 by done; apply Hfr; set_solver..|done]. }
  split.
  - split.
    + split; [by rewrite Hst4, lookup_insert_eq|exact Hk].
    + by eexists.
    + exact Hf.
    + change (vgsrc_VolumeGroupContentName (vgspec_Source (vg_Spec vg')) = Some (content_name vg)).
      by rewrite Hsp.
    + split; [by rewrite Hfr4|done].
    + by rewrite Hcf.
    + by rewrite Hp, Hpol.
  - exists className, cl. split; [|done].
    change (vgspec_VolumeGroupClassName (vg_Spec vg') = Some className). by rewrite Hsp.
  - done.
  - by exists ref.
  - exists className, cl. by rewrite Hccn.
  - split; [by left|]. split; [by rewrite Hp, Hpol|]. split; [by exists src|apply group_id_named].
Qed.

(** C31: when the deletion of claims is disabled, a new VolumeGroup (as in
    [newcomer], without finalizers, of a class with the policy Delete) that is
    provisioned, deleted and released leaves no trace of itself, its content or its
    group, but each claim that was its member still carries the operator's
    finalizer; with nobody else writing. *)
Theorem group_life_leaves_finalizers vg className cl w :
  DisableDeletePvcs cfg ≠ "false"%string → GetFinalizers KVG vg = [] →
  default VolumeGroupContentDelete (vgclass_VolumeGroupDeletionPolicy cl) = VolumeGroupContentDelete →
  newcomer w vg className cl →
  let ck := content_key req vg in
  let w3 := after_vg (after_vgc ck (after_vg w)) in
  let w5 := after_vgc ck (after_vg (deleted w3)) in
  store w5 KVG !! req = None ∧ store w5 KVGC !! ck = None ∧
  groups w5 = groups w ∧
  ∀ pvc, pvc ∈ members cfg w vg →
    ∃ pvc', store w5 KPVC !! pvc_key pvc = Some pvc' ∧ pvcVGFinalizer ∈ GetFinalizers KPVC pvc'.
Proof.
  intros Hkeep Hnofin Hpol Hnew ck. cbv zeta.
  destruct (established_runs vg className cl w Hnew) as (_ & _ & _ & vg' & vgc' & Hest).
  fold ck in Hest. set (w3 := after_vg _) in *.
  destruct (established_doomed _ _ _ _ _ _ _ Hkeep Hnofin Hpol Hnew Hest)
    as ((v & t & Hdoom) & Hg4 & Hpvc4).
  destruct (torn_down_runs _ _ _ _ _ Hdoom) as (_ & _ & Hvg5 & Hvgc5 & Hg5 & Hfr5).
  fold (content_key req vg) in Hvg5, Hvgc5, Hg5, Hfr5. fold ck in Hvg5, Hvgc5, Hg5, Hfr5.
  split_all.
  - by rewrite Hvg5, lookup_delete_eq.
  - by rewrite Hvgc5, lookup_delete_eq.
  - rewrite Hg5, Hg4, (est_driver _ _ _ _ _ _ Hest), delete_insert_eq.
    apply delete_id, (new_group _ _ _ _ Hnew).
  - intros pvc Hin. destruct (est_claims _ _ _ _ _ _ Hest pvc Hin) as (pvc' & fs & (Hp & _) & Hre & Hf).
    exists pvc'. split; [|by destruct (refinalized_fields _ _ _ Hre) as (-> & _)]. rewrite Hfr5 by set_solver. by rewrite Hpvc4.
Qed.
End Handover.

(** ** Witnesses *)

#[local] Existing Instance DocExternals.externals.
#[local] Existing Instance DocExternals.laws.

(** [claims_there], of every claim of the cluster, decided claim by claim. *)
Definition claim_there (w : cluster) (k : NamespacedName) (pvc : PersistentVolumeClaim) : Prop :=
  key_of KPVC pvc = k ∧ om_DeletionTimestamp (pvc_ObjectMeta pvc) = None ∧
  (pvc_Phase pvc = ClaimBound → is_Some (class_of w pvc)) ∧
  (pvcs_VolumeName (pvc_Spec pvc) ≠ ""%string → is_Some (handle_of w pvc)).

#[local] Instance claim_there_dec w k pvc : Decision (claim_there w k pvc).
Proof. apply _. Defined.

Lemma claims_there_all cfg w vg : map_Forall (claim_there w) (store w KPVC) → claims_there cfg w vg.
Proof.
  intros Hall.
  assert (∀ pvc, pvc ∈ members cfg w vg → ∃ k, store w KPVC !! k = Some pvc) as Hm.
  { intros pvc [_ ([k p] & -> & Hin%elem_of_map_to_list)%list_elem_of_fmap]%members_elem.
    by exists k. }
  split; [intros k pvc Hk; by apply (Hall k pvc Hk)..| |];
    intros pvc [k Hk]%Hm; by apply (Hall k pvc Hk).
Qed.

(** The conditions of the VolumeGroups, decided one by one. *)
Lemma forallb_store {A} (b : NamespacedName → A → bool) (m : gmap NamespacedName A) :
  forallb (λ ka, b (fst ka) (snd ka)) (map_to_list m) = true →
  ∀ k a, m !! k = Some a → b k a = true.
Proof.
  rewrite forallb_forall. intros Hall k a Hk. apply elem_of_map_to_list, list_elem_of_In in Hk.
  apply (Hall _ Hk).
Qed.

Definition vg_classed (w : cluster) (vg : VolumeGroup) : Prop :=
  match vgspec_VolumeGroupClassName (vg_Spec vg) with
  | Some name => name ≠ ""%string ∧ is_Some (store w KVGClass !! mkNN "" name)
  | None => False
  end.

#[local] Instance vg_classed_dec w vg : Decision (vg_classed w vg).
Proof. unfold vg_classed. destruct (vgspec_VolumeGroupClassName (vg_Spec vg)); apply _. Defined.

Lemma vgs_classed_all w :
  forallb (λ kv, bool_decide (vg_classed w (snd kv))) (map_to_list (store w KVG)) = true →
  vgs_classed w.
Proof.
  intros Hall k vg Hk.
  pose proof (forallb_store (λ _ vg, bool_decide (vg_classed w vg)) (store w KVG) Hall k vg Hk) as Hc.
  apply bool_decide_eq_true in Hc. unfold vg_classed in Hc.
  destruct (vgspec_VolumeGroupClassName (vg_Spec vg)) as [name|]; [|done]. by exists name.
Qed.

(** Nobody else claims the claims of the only VolumeGroup. *)
Lemma joins_alone cfg req w (vg : VolumeGroup) :
  store w KVG = {[ req := vg ]} → vg_of_driver cfg w vg = true → vgs_classed w → joins cfg req w vg.
Proof.
  intros Hst Hd Hc pvc _ _ _ _. right. split; [by rewrite Hst; apply lookup_singleton_eq|].
  split; [done|]. split; [done|]. intros k v Hne Hk. rewrite Hst in Hk.
  by apply lookup_singleton_Some in Hk as [-> _].
Qed.

Lemma sort_by_nil {A} (less : A → A → bool) l : DocExternals.sort_by less l = [] → l = [].
Proof.
  destruct l as [|x l]; [done|]. unfold DocExternals.sort_by. cbn.
  destruct (foldr _ _ l) as [|y l']; cbn; [done|].
  by destruct (less y x).
Qed.

Lemma diff_nil_doc less l : cmp_Diff_SortSlices less l [] = ""%string → l = [].
Proof. cbn. unfold DocExternals.diff. case_decide as Hs; [|done]. intros _. by eapply sort_by_nil. Qed.

(** The VolumeGroup of the samples is new. *)
Definition sample : VolumeGroup := Scenario.group_in Samples.with_vg.

Lemma sample_newcomer cfg :
  DriverName cfg = Samples.DriverName →
  newcomer accepting cfg Samples.vg_req Samples.with_vg sample Samples.VGClassName VGCProgress.stored_class.
Proof.
  intros Hd. split.
  - split; [split; [by vm_compute|split; by vm_compute]|by vm_compute|by vm_compute].
  - by vm_compute.
  - apply stored_class_there; [done|by vm_compute].
  - by vm_compute.
  - split; [by apply (bool_decide_unpack _); vm_compute|]. intros s Hs. vm_compute in Hs. injection Hs as <-. by eexists.
  - by vm_compute.
  - by vm_compute.
  - apply claims_there_all. by apply (bool_decide_unpack _); vm_compute.
  - apply joins_alone; [vm_compute; reflexivity|unfold vg_of_driver; rewrite Hd; vm_compute; reflexivity|].
    apply vgs_classed_all. by vm_compute.
Qed.



Definition claim_a : PersistentVolumeClaim :=
  default (Samples.PVC "a" "") (store Samples.with_vg KPVC !! mkNN Samples.Namespace "a").

Lemma group_life_leaves_finalizers_witness :
  let r := after_vg accepting keep_claims Samples.vg_req in
  let s := after_vgc accepting keep_claims Samples.vgc_req in
  let w := s (r (deleted accepting Samples.vg_req (r (s (r Samples.with_vg))))) in
  store w KVG !! Samples.vg_req = None ∧
  ∃ pvc, store w KPVC !! pvc_key claim_a = Some pvc ∧ pvcVGFinalizer ∈ GetFinalizers KPVC pvc.
Proof.
  cbv zeta.
  destruct (group_life_leaves_finalizers (X := DocExternals.externals) accepting keep_claims
              Samples.vg_req eq_refl diff_nil_doc eq_refl sample
              Samples.VGClassName VGCProgress.stored_class Samples.with_vg)
    as (Hvg & _ & _ & Hc); [done|by vm_compute|by vm_compute|by apply sample_newcomer|].
  split; [exact Hvg|]. apply (Hc claim_a). by apply (bool_decide_unpack _); vm_compute.
Defined.

(** The sample is doomed once it is provisioned and deleted. *)
Lemma sample_doomed :
  doomed keep_claims Samples.vg_req Samples.VGCName (group_id serve Samples.VGCName) Scenario.vg_deleting
    (Scenario.group_in Scenario.vg_deleting) (Scenario.content_in Scenario.vg_deleting).
Proof.
  assert (class_there keep_claims Scenario.vg_deleting Samples.VGClassName VGCProgress.stored_class)
    as Hcl by (apply stored_class_there; by vm_compute).
  split.
  - split; try by vm_compute. by apply (bool_decide_unpack _); vm_compute.
  - exists Samples.VGClassName, VGCProgress.stored_class. by split; [vm_compute|].
  - by vm_compute.
  - eexists. split; by vm_compute.
  - exists Samples.VGClassName, VGCProgress.stored_class. by split; [vm_compute|].
  - split; [by left|]. split; [by vm_compute|]. split; [|done]. eexists. split; by vm_compute.
Qed.

Lemma group_torn_down_witness :
  let w := after_vgc serve keep_claims Samples.vgc_req
             (after_vg serve keep_claims Samples.vg_req Scenario.vg_deleting) in
  store w KVG = delete Samples.vg_req (store Scenario.vg_deleting KVG) ∧
  groups w = delete (group_id serve Samples.VGCName) (groups Scenario.vg_deleting).
Proof.
  cbv zeta.
  destruct (group_torn_down (X := DocExternals.externals) serve keep_claims Samples.vg_req eq_refl
              Samples.VGCName (group_id serve Samples.VGCName) (Scenario.group_in Scenario.vg_deleting)
              (Scenario.content_in Scenario.vg_deleting) Scenario.vg_deleting)
    as (_ & _ & Hvg & _ & Hg & _); [apply sample_doomed|].
  split; [exact Hvg|exact Hg].
Defined.
