(* ===== verification/Following.v ===== *)
(** * The members follow the claims

    A VolumeGroup that is bound to its content is brought in line by one run of its
    controller when claims were created, bound or relabelled since: on a server that
    behaves as [Cluster], claims that no longer belong to it leave, new ones join, and
    the VolumeGroup, its content, the driver and the finalizers of the claims agree on
    the members again.  [in_force] says what has to hold at the start. *)

From S2P Require Import Prelude GoLang Api Effects Externals Objects Params VolumeGroups Volumes.
From S2P Require Import Finalizers Driver VolumeGroupContents Membership Predicates VGController.
From S2P Require Import VGCController Histories Cluster Scenario VGSafety ClaimDeletion VGCProgress.
From S2P Require Import VGProgress Faultless Quiet Settle Joins MemberRuns Provision Handover.
Import VGController.

(** ** The volumes of listed claims *)

(** The volume of the claim stored at [k]. *)
Definition volume_at (w : cluster) (k : NamespacedName) : option PersistentVolume :=
  pvc ← store w KPVC !! k; volume_of w pvc.

Lemma volume_at_stored w k (pvc : PersistentVolumeClaim) :
  store w KPVC !! k = Some pvc → volume_at w k = volume_of w pvc.
Proof. intros Hk. exact (f_equal (λ o, o ≫= volume_of w) Hk). Qed.

(** The keys of the volumes, and their handles at the driver. *)
Definition vols_at (w : cluster) (ks : list NamespacedName) : list NamespacedName :=
  omap (λ k, pv_key <$> volume_at w k) ks.

Definition ids_at (w : cluster) (ks : list NamespacedName) : list string :=
  omap (λ k, pv ← volume_at w k; csi_VolumeHandle <$> pv_CSI pv) ks.

#[export] Instance vols_at_perm w : Proper ((≡ₚ) ==> (≡ₚ)) (vols_at w).
Proof. unfold vols_at. intros l l' ->. done. Qed.

#[export] Instance ids_at_perm w : Proper ((≡ₚ) ==> (≡ₚ)) (ids_at w).
Proof. unfold ids_at. intros l l' ->. done. Qed.

Definition pv_keys (l : list PersistentVolume) : list NamespacedName := pv_key <$> l.





Lemma appendPV_new l pv :
  Forall (λ k, nn_Namespace k = ""%string) (pv_key pv :: pv_keys l) →
  pv_key pv ∉ pv_keys l → appendPV l pv = l ++ [pv].
Proof.
  intros [Hns Hall]%Forall_cons Hnew. unfold appendPV.
  destruct (existsb (λ p, bool_decide (GetName KPV p = GetName KPV pv)) l) eqn:He; [|done]. apply existsb_elem in He as (x & Hx & Hn).
  apply bool_decide_eq_true in Hn. exfalso. apply Hnew, list_elem_of_fmap. exists x. split; [|done].
  rewrite Forall_forall in Hall. specialize (Hall (pv_key x) (list_elem_of_fmap_2 _ _ _ Hx)).
  unfold pv_key, key_of in *. cbn in *. congruence.
Qed.


(** ** What a run changes *)

(** A claim up to its finalizers and its version. *)
Definition same_claim (p p' : PersistentVolumeClaim) : Prop := ∃ fs, refinalized p fs p'.

#[export] Instance same_claim_preorder : PreOrder same_claim.
Proof.
  split.
  - intros p. exists (GetFinalizers KPVC p). unfold refinalized. by rewrite SetFinalizers_same.
  - intros p1 p2 p3 [f1 H1] [f2 H2]. exists f2. unfold refinalized in *. etrans; [exact H2|].
    exact (alike_map KPVC (SetFinalizers KPVC f2) _ _ (λ _, eq_refl) H1).
Qed.




Section Follow.
Context `{ExternalLaws} (h : handler cluster) `{!Like h, !Accepts h} (cfg : DriverConfig).
Context (req : NamespacedName) (n id : string).


Abbreviation tied := (tied req n id).








(** ** The lists agree *)

(** The VolumeGroup names its content; each claim it lists is stored, bound to the
    volume it was listed with, and has the operator's finalizer; the content lists
    the volumes of these claims. *)
Record lists (w : cluster) (vg : VolumeGroup) (vgc : VolumeGroupContent) : Prop := {
  lists_tied : tied w vg vgc;
  lists_keys : NoDup (keys vg);
  lists_current pvc : pvc ∈ vgst_PVCList (vg_Status vg) →
    ∃ pvc', stored KPVC (pvc_key pvc) w pvc' ∧
            pvcs_VolumeName (pvc_Spec pvc') = pvcs_VolumeName (pvc_Spec pvc) ∧
            pvcVGFinalizer ∈ GetFinalizers KPVC pvc';
  lists_volumes : pv_keys (vgcst_PVList (vgc_Status vgc)) ≡ₚ vols_at w (keys vg);
}.

(** Volumes are stored under their keys; of the claims at [R], no two have the same
    volume, and one that names a volume has it, a CSI volume. *)
Record volumes_there (R : list NamespacedName) (w : cluster) : Prop := {
  volumes_keyed k pv : store w KPV !! k = Some pv → pv_key pv = k;
  volumes_apart k1 k2 pv1 pv2 :
    k1 ∈ R → k2 ∈ R →
    volume_at w k1 = Some pv1 → volume_at w k2 = Some pv2 → pv_key pv1 = pv_key pv2 → k1 = k2;
  volumes_found k pvc : k ∈ R → store w KPVC !! k = Some pvc → has_volume w pvc;
}.


Lemma vols_at_global R w ks :
  volumes_there R w → Forall (λ k, nn_Namespace k = ""%string) (vols_at w ks).
Proof.
  intros Hv. apply Forall_forall. intros k (k' & Hk' & Hk)%list_elem_of_omap.
  destruct (volume_at w k') as [pv|] eqn:Hpv; [|done]. injection Hk as <-.
  unfold volume_at, volume_of in Hpv. destruct (store w KPVC !! k') as [p|]; [|done]. cbn in Hpv.
  case_decide; [done|]. by rewrite (volumes_keyed _ _ Hv _ _ Hpv).
Qed.

Lemma vols_at_fresh R w k pv ks :
  volumes_there R w → k :: ks ⊆ R → volume_at w k = Some pv → k ∉ ks → pv_key pv ∉ vols_at w ks.
Proof.
  intros Hv HR Hpv Hk (k' & Hk' & Heq)%list_elem_of_omap.
  destruct (volume_at w k') as [pv'|] eqn:Hpv'; [|done]. apply (inj Some) in Heq.
  apply Hk. rewrite (volumes_apart _ _ Hv k k' pv pv'); [done|apply HR; by left|apply HR; by right|done..].
Qed.




(** ** A claim joins *)



Lemma add_volume_perm R pvs w pvc ks :
  volumes_there R w → pvc_key pvc :: ks ⊆ R → stored KPVC (pvc_key pvc) w pvc → pvc_key pvc ∉ ks →
  pv_keys pvs ≡ₚ vols_at w ks → pv_keys (add_volume w pvs pvc) ≡ₚ vols_at w (pvc_key pvc :: ks).
Proof.
  intros Hv HR (Hst & _) Hnew Hpvs. unfold add_volume.
  pose proof (volume_at_stored _ _ _ Hst) as Hat.
  cbn. rewrite Hat. destruct (volume_of w pvc) as [pv|]; cbn; [|done].
  pose proof (vols_at_fresh R w _ pv ks Hv HR Hat Hnew) as Hfresh. rewrite <- Hpvs in Hfresh.
  pose proof (vols_at_global R w (pvc_key pvc :: ks) Hv) as Hns. cbn in Hns. rewrite Hat in Hns.
  cbn in Hns. rewrite appendPV_new; [|by rewrite Hpvs|done].
  unfold pv_keys in *. rewrite fmap_app. cbn. rewrite Permutation_app_comm. cbn. by rewrite Hpvs.
Qed.





(** ** A claim leaves *)























(** ** All of them *)




(** ** The driver *)

(** The group at the driver has the volumes of the listed claims. *)
Definition at_driver (w : cluster) (vg : VolumeGroup) : Prop :=
  ∃ ids, groups w !! id = Some ids ∧ ids ≡ₚ ids_at w (keys vg).

Lemma volume_ids_at w l :
  (∀ pvc, pvc ∈ l → stored KPVC (pvc_key pvc) w pvc) → volume_ids w l = ids_at w (pvc_keys l).
Proof.
  unfold volume_ids, ids_at. induction l as [|pvc l IH]; intros Hl; [done|]. cbn.
  destruct (Hl pvc) as (Hp & _); [by left|]. rewrite (volume_at_stored _ _ _ Hp).
  rewrite IH by (intros p ?; apply Hl; by right). done.
Qed.




(** [cmp.Diff] is empty only for lists with the same claims. *)
Context (diff_perm : ∀ less l l', cmp_Diff_SortSlices less l l' = ""%string → l ≡ₚ l').


(** ** A run of the controller *)







End Follow.

(** ** From the establishment on *)

Lemma omap_same_in {A B} (f g : A → option B) (l : list A) :
  (∀ a, a ∈ l → f a = g a) → omap f l = omap g l.
Proof.
  induction l as [|a l IH]; intros Hfg; cbn; [done|]. rewrite Hfg by by left.
  rewrite IH; [done|]. intros b Hb. apply Hfg. by right.
Qed.

Lemma add_volumes_perm R w l pvs ks :
  volumes_there R w → pvc_keys l ++ ks ⊆ R → (∀ pvc, pvc ∈ l → stored KPVC (pvc_key pvc) w pvc) →
  NoDup (pvc_keys l ++ ks) → pv_keys pvs ≡ₚ vols_at w ks →
  pv_keys (foldl (add_volume w) pvs l) ≡ₚ vols_at w (pvc_keys l ++ ks).
Proof.
  intros Hv. revert pvs ks. induction l as [|pvc l IH]; intros pvs ks HR Hl Hnd Hpvs; [done|].
  cbn [foldl]. change (pvc_keys (pvc :: l) ++ ks) with (pvc_key pvc :: pvc_keys l ++ ks) in *.
  rewrite Permutation_middle in Hnd |- *. rewrite IH; [done|set_solver| |done|].
  - intros p Hp. apply Hl. by right.
  - eapply add_volume_perm; [exact Hv|set_solver|apply Hl; by left| |done].
    rewrite <- Permutation_middle in Hnd. apply NoDup_cons in Hnd as [Hnot _]. set_solver.
Qed.

(** A group that has been established is one whose lists agree. *)
Lemma established_lists `{ExternalLaws} h `{!Like h} cfg req vg className cl w w' vg' vgc' :
  newcomer h cfg req w vg className cl → volumes_there (pvc_keys (members cfg w vg)) w →
  established h cfg req w vg cl w' vg' vgc' →
  lists req (content_name vg) (group_id h (content_name vg)) w' vg' vgc' ∧
  at_driver (group_id h (content_name vg)) w' vg'.
Proof.
  intros Hnew Hv He. pose proof (new_claims _ _ _ _ _ _ _ Hnew) as Hcl.
  assert (∀ pvc, pvc ∈ members cfg w vg → stored KPVC (pvc_key pvc) w pvc) as Hm
    by (intros p Hp; by apply (members_have_volumes cfg w vg)).
  assert (∀ k, k ∈ pvc_keys (members cfg w vg) → volume_at w' k = volume_at w k) as Hat.
  { intros k (p & -> & Hp)%list_elem_of_fmap.
    destruct (est_claims _ _ _ _ _ _ _ _ _ He p Hp) as (p' & fs & (Hp' & _) & Hre & _).
    destruct (Hm p Hp) as (Hst & _). rewrite (volume_at_stored _ _ _ Hp'), (volume_at_stored _ _ _ Hst).
    unfold volume_of. apply refinalized_fields in Hre as (_ & -> & _).
    by rewrite (est_frame _ _ _ _ _ _ _ _ _ He KPV) by set_solver. }
  destruct He as [Hst _ Hsp _ _ Hmem Hvgc _ _ Hvols (src & _ & Hsrc & Hid & _) Hg Hc _].
  pose proof (members_keys cfg w vg Hcl) as Hnd. split.
  - split; rewrite ?Hmem, ?Hvols.
    + split; [done|by rewrite Hsp|done|by exists src].
    + done.
    + intros p Hp. destruct (Hc p Hp) as (p' & fs & Hp' & Hre & Hfs). exists p'. split; [done|].
      by apply refinalized_fields in Hre as (-> & -> & _).
    + rewrite (add_volumes_perm _ w _ [] [] Hv);
        [|by rewrite app_nil_r|done|by rewrite app_nil_r|done].
      rewrite app_nil_r. unfold vols_at. erewrite omap_same_in; [done|].
      intros k Hk. cbn. by rewrite Hat.
  - exists (volume_ids w (members cfg w vg)). rewrite Hg, lookup_insert_eq. split; [done|].
    rewrite Hmem, volume_ids_at by done. unfold ids_at. erewrite omap_same_in; [done|].
    intros k Hk. cbn. by rewrite Hat.
Qed.

(** ** Witness *)

#[local] Existing Instance DocExternals.externals.
#[local] Existing Instance DocExternals.laws.

#[local] Existing Instance claim_there_dec.

(** The hypotheses, decided object by object. *)
Definition listed_there (w : cluster) (pvc : PersistentVolumeClaim) : Prop :=
  match store w KPVC !! pvc_key pvc with
  | Some cur =>
      key_of KPVC cur = pvc_key pvc ∧ om_DeletionTimestamp (pvc_ObjectMeta cur) = None ∧
      pvcs_VolumeName (pvc_Spec cur) = pvcs_VolumeName (pvc_Spec pvc) ∧
      pvcVGFinalizer ∈ GetFinalizers KPVC cur
  | None => False
  end.

#[local] Instance listed_there_dec w pvc : Decision (listed_there w pvc).
Proof. unfold listed_there. destruct (store w KPVC !! pvc_key pvc); apply _. Defined.


Definition apart (w : cluster) (k1 k2 : NamespacedName) : Prop :=
  match volume_at w k1, volume_at w k2 with
  | Some pv1, Some pv2 => pv_key pv1 = pv_key pv2 → k1 = k2
  | _, _ => True
  end.

#[local] Instance apart_dec w k1 k2 : Decision (apart w k1 k2).
Proof. unfold apart. destruct (volume_at w k1), (volume_at w k2); apply _. Defined.

#[local] Instance has_volume_dec w pvc : Decision (has_volume w pvc).
Proof. unfold has_volume. apply _. Defined.






