(* ===== verification/Unbound.v ===== *)
(** * A VolumeGroup deleted before it is bound

    The content of a VolumeGroup is looked up under the name in its
    specification, which the controller writes when the content is ready.  A
    VolumeGroup that is deleted before that is let go, and the content the
    controller created for it stays, with the group the driver makes for it. *)

From S2P Require Import Prelude GoLang Api Effects Externals Objects Params VolumeGroups Volumes.
From S2P Require Import Finalizers Driver VolumeGroupContents Membership VGController.
From S2P Require Import VGCController Histories Cluster Scenario VGSafety.
From S2P Require Import VGCProgress VGProgress Faultless GroupFaultless Release.

(** Nothing is deleted, and no content is read but under the empty name. *)
Definition blind (c : call) : Prop :=
  match c with
  | CDelete _ _ | CDeleteVolumeGroup _ _ => False
  | CGet K k => match K with KVGC => nn_Name k = ""%string | _ => True end
  | _ => True
  end.

Section Unbound.
Context `{ExternalLaws} (cfg : DriverConfig) (req : NamespacedName).

(** No content has an empty name. *)
Definition nameless_gone (e : event) : Prop :=
  match tr_call e as c return resp c → Prop with
  | CGet K k =>
      match K return error + obj_of K → Prop with
      | KVGC => λ r, nn_Name k = ""%string → gone r
      | _ => λ _, True
      end
  | _ => λ _, True
  end (tr_resp e).

(** [blind], unless a content with an empty name was read. *)
Definition unbound_guard (pre : history) (c : call) : Prop :=
  match c with
  | CDelete _ _ | CDeleteVolumeGroup _ _ => ¬ Forall nameless_gone pre
  | CGet K k =>
      match K with KVGC => Forall nameless_gone pre → nn_Name k = ""%string | _ => True end
  | _ => True
  end.

Lemma unbound_guard_blind pre c : unbound_guard pre c → Forall nameless_gone pre → blind c.
Proof. destruct c as [[]| | | | | | | | | | | | |]; cbn; auto. Qed.

(** Once a content with an empty name was read, the guard asks for nothing. *)
Lemma wp_contradicted {A} (p : prog A) tr :
  ¬ Forall nameless_gone tr → wp unbound_guard (λ _ _, True) p tr.
Proof.
  revert tr. induction p as [a|why|c k IH]; intros tr Htr; [done..|]. cbn. split.
  - destruct c as [[]| | | | | | | | | | | | |]; cbn; done.
  - intros r. apply IH. intros [Hf _]%Forall_app. done.
Qed.

Lemma removeInstance_unbound vg tr :
  ¬ names_content vg → wp unbound_guard (λ _ _, True) (removeInstance vg) tr.
Proof.
  intros Hn. unfold removeInstance, GetVGC. autorewrite with reflect.
  destruct (vgsrc_VolumeGroupContentName _) as [n|] eqn:Hname; [destruct Hn; by eexists|].
  do 4 wp_step. apply wp_trigger; [by intros _|]. intros [err|vgc]; cbn [after].
  - repeat wp_step; done.
  - apply wp_contradicted. intros [_ [Hg _]%Forall_cons]%Forall_app.
    by destruct (Hg eq_refl) as (e & ? & _).
Qed.

Lemma Reconcile_class_unbound vg cl tr :
  is_Some (om_DeletionTimestamp (vg_ObjectMeta vg)) → ¬ names_content vg →
  wp unbound_guard (λ _ _, True) (VGController.Reconcile_class cfg vg cl) tr.
Proof.
  intros [t Hd] Hn. unfold VGController.Reconcile_class. rewrite Hd. cbn [IsZero].
  repeat first
    [ match goal with |- wp _ _ (removeInstance _) _ =>
        eapply wp_mono; [by apply removeInstance_unbound|intros ? [[[?|] ?]|] _; cbn [after]]
      end
    | wp_step ]; done.
Qed.

(** C30: a VolumeGroup of the operator's class that only the operator holds and
    that is deleted before its content was ready is let go, when no call fails,
    without deleting anything and without looking at the content created for it:
    no call names a content but the one of the empty name. *)
Theorem unbound_release_leaks vg k cl rest out :
  executes (VGController.Reconcile cfg req)
    (Ev (CGet KVG req) (inr vg) :: Ev (CGet KVGClass k) (inr cl) :: rest) out →
  Forall (λ e, releasing (tr_call e) (tr_resp e)) rest → Forall nameless_gone rest →
  or_empty (vgspec_VolumeGroupClassName (vg_Spec vg)) ≠ ""%string → vg_deletable vg →
  vgclass_Driver cl = DriverName cfg → map_Forall valid_parameter (vgclass_Parameters cl) →
  ¬ names_content vg →
  out = Some (Result_zero, None) ∧
  (∃ v, finalizers_written KVG (Remove (GetFinalizers KVG vg) VGFinalizer) rest v) ∧
  Forall (λ e, blind (tr_call e)) rest.
Proof.
  intros Hex Hrest Hgone Hcn Hd Hdr Hv Hn. apply vg_to_class in Hex; [|done].
  rewrite decide_False in Hex by congruence.
  assert (out = Some (Result_zero, None)) as ->
    by exact (along_sound _ (λ o, o = Some (Result_zero, None)) _ _ _
              (Reconcile_class_vg_releasing cfg vg cl (proj1 Hd) Hv) Hex Hrest).
  split; [done|]. split; [by eapply vg_class_let_go|].
  apply Forall_forall. intros e (pre & post & ->)%list_elem_of_split.
  eapply unbound_guard_blind.
  - eapply (wp_guarded _ _ (Reconcile_class_unbound vg cl [] (proj1 Hd) Hn)); [exact Hex|done].
  - by apply Forall_app in Hgone as [? _].
Qed.
End Unbound.

(** ** Witnesses: the sample group, deleted when the driver has made it *)

#[local] Existing Instance DocExternals.externals.
#[local] Existing Instance DocExternals.laws.

(** The user deletes the VolumeGroup before its controller has seen the content ready. *)
Definition hurried : cluster := Scenario.remove KVG Samples.vg_req Scenario.group_created.

Definition hurried_run : history := run_trace serve Scenario.reconcile_vg hurried.

Abbreviation hurried_group := (Scenario.group_in hurried).

Definition nameless_goneb (e : event) : bool :=
  match tr_call e as c return resp c → bool with
  | CGet K k =>
      match K return error + obj_of K → bool with
      | KVGC => λ r, implb (bool_decide (nn_Name k = ""%string)) (goneb r)
      | _ => λ _, true
      end
  | _ => λ _, true
  end (tr_resp e).

Lemma nameless_goneb_sound e : nameless_goneb e = true → nameless_gone e.
Proof.
  destruct e as [[[]| | | | | | | | | | | | |] r]; cbn; try done.
  intros Hb Hn. rewrite bool_decide_true in Hb by done. by apply goneb_sound.
Qed.

Lemma hurried_run_starts :
  hurried_run = Ev (CGet KVG Samples.vg_req) (inr hurried_group) ::
                Ev (CGet KVGClass VGProgress.class_key) (inr VGProgress.stored_class) ::
                drop 2 hurried_run.
Proof. by vm_compute. Qed.

Lemma unbound_release_leaks_witness :
  run_outcome serve Scenario.reconcile_vg hurried = Some (Result_zero, None) ∧
  (∃ v, finalizers_written KVG (Remove (GetFinalizers KVG hurried_group) VGFinalizer)
          (drop 2 hurried_run) v) ∧
  Forall (λ e, blind (tr_call e)) (drop 2 hurried_run).
Proof.
  pose proof (run_executes serve Scenario.reconcile_vg hurried) as Hex.
  change (run_trace serve Scenario.reconcile_vg hurried) with hurried_run in Hex.
  rewrite hurried_run_starts in Hex.
  eapply (unbound_release_leaks Samples.config Samples.vg_req hurried_group _ VGProgress.stored_class).
  - exact Hex.
  - by apply releasing_run; vm_compute.
  - apply (forallb_sound nameless_goneb); [apply nameless_goneb_sound|by vm_compute].
  - by vm_compute.
  - split; [by apply (bool_decide_unpack _); vm_compute|].
    split; [by apply (bool_decide_unpack _); vm_compute|].
    apply (proj1 (IsContainOtherFinalizers_false KVG hurried_group)). by vm_compute.
  - by vm_compute.
  - by apply (bool_decide_unpack _); vm_compute.
  - intros [n Hn]. vm_compute in Hn. done.
Defined.

(** What is left when both controllers have run: no VolumeGroup, the content,
    held and not being deleted, and the group at the driver. *)
Definition abandoned : cluster :=
  run_world serve Scenario.reconcile_vgc (run_world serve Scenario.reconcile_vg hurried).

Example abandoned_content :
  store abandoned KVG !! Samples.vg_req = None ∧
  is_Some (store abandoned KVGC !! Samples.vgc_req) ∧
  om_DeletionTimestamp (vgc_ObjectMeta (Scenario.content_in abandoned)) = None ∧
  VgcFinalizer ∈ GetFinalizers KVGC (Scenario.content_in abandoned) ∧
  groups abandoned = groups hurried ∧ groups hurried ≠ ∅.
Proof. by apply (bool_decide_unpack _); vm_compute. Qed.
